(* ===== verification/_CoqProject ===== *)
-Q . S2P
Prelude.v
AsyncQueue.v
Telnet.v
Utf8.v
WsFrame.v
TextUtil.v
HttpUpgrade.v
OutBuf.v
InBuf.v
Execution.v
Abstract.v
WsConn.v
World.v
Outbound.v
InputMode.v
Inbound.v
EventLoop.v
ThreadPool.v
Detached.v
EventExec.v
AsyncEvent.v
EventReg.v
PollRuntime.v
EpollRuntime.v
FileInput.v
ConsoleWorker.v
Console.v
Accept.v
Tls.v
Shutdown.v
Hooks.v
Lifecycle.v
IocpRuntime.v
ExecDispatch.v
AppHost.v
Chatroom.v
ConsoleSetup.v
LoopTurn.v
WinInputMode.v
Listener.v
Handles.v
RelaxedInput.v
MemTls.v
RelaxedClose.v
ChatStart.v
CommApi.v
Logger.v
