(* ===== verification/Prelude.v ===== *)
(** * mudmux: verification of the connection layer and its schedulers

    ** The program

    mudmux (lib/, src/) is a server library that multiplexes text connections:
    an event loop ([mudmux_run], src/mudmux.cpp) waits for I/O readiness,
    reads sockets into per-slot buffer chains, decodes TLS, WebSocket and
    telnet, cuts the result into lines or keys and hands them to hooks of the
    application.  Output goes the other way, through per-slot chains that are
    flushed when the socket accepts bytes.  With more than one worker the hooks
    run on a thread pool; src/execution.cpp then keeps the hooks of one slot
    in order.  lib/async holds what both build on: the worker pool, a bounded
    queue, an event that can be waited for, and a runtime over poll(), epoll or
    completion ports that reports readiness, wake-ups and posted completions.
    Connections come from listening sockets, from the console or from a file.
    examples/chatroom is an application of the library.

    ** Files

    - Prelude.v: machine words, bytes, circular indices, big-endian integers,
      the tactics [case_bool] and [breflect], hint databases.
    - AsyncQueue.v (lib/async/async_queue.cpp): the bounded message queue as a
      circular buffer and as a FIFO list.
    - Telnet.v (lib/comm/telnet.cpp): the telnet stream decoder.
    - Utf8.v, WsFrame.v, TextUtil.v, HttpUpgrade.v (lib/comm/websocket.cpp):
      UTF-8 validation, frames, text helpers, the HTTP upgrade handshake.
    - OutBuf.v (lib/comm/outbound.cpp), InBuf.v (lib/comm/inbound.cpp): buffer
      pools and chains, append and refill loops, line and key scanners.
    - Execution.v (src/execution.cpp): the scheduler of one slot's hooks.
    - Abstract.v (lib/comm/abstract.cpp): flags, slot record, slot table.
    - WsConn.v: operations on one connection that call no hooks: the write
      path, telnet replies, WebSocket message assembly.
    - World.v: the state of one slot as the event loop sees it, the answers of
      the transport, and the host (hooks and scheduler).
    - Outbound.v, InputMode.v, Inbound.v: flush and close, input modes, refill
      and input passes, with the hooks they call.
    - EventLoop.v (src/mudmux.cpp): one turn of the loop for one slot.
    - ThreadPool.v (lib/async/thread_pool.cpp): the worker pool.
    - Detached.v, EventExec.v (src/execution.cpp, mudmux/async.h): closures and
      detached work with their completions; direct events.
    - AsyncEvent.v (lib/async/async_event.cpp): the event over an eventfd or a
      pipe.  EventReg.v (src/mudmux.cpp): registered events and the timer.
    - PollRuntime.v, EpollRuntime.v (lib/async/async_runtime_poll.cpp and
      async_runtime_epoll.cpp): the two POSIX runtimes.
    - FileInput.v (lib/comm/file_input.cpp): the reader thread and its locks,
      and the pass that feeds its chunks to the slot.
    - ConsoleWorker.v (lib/async/console_worker.cpp), Console.v
      (lib/comm/console.cpp): the console's reader thread, and the console slot.
    - Accept.v (lib/comm/accept.cpp): listeners and accepted connections.
    - Tls.v (lib/comm/ssl.cpp): the server context and a session's BIOs.
    - Shutdown.v (src/mudmux.cpp): waiting for the disconnect hooks.
    - Hooks.v (src/hooks.cpp, lib/comm/current_slot.cpp): the hook table and the
      invocation of a hook.
    - Lifecycle.v (src/mudmux.cpp, src/execution.cpp): initialisation, run,
      shutdown and deinitialisation on the global state.
    - IocpRuntime.v (lib/async/async_runtime_iocp.cpp): the completion-port
      runtime with its contexts, their pool and the accept worker.
    - ExecDispatch.v (src/execution.cpp, execution.hpp): the table of slots, the
      execution value and its routing to the calling thread, a slot or the
      event lane.
    - AppHost.v (src/hooks.cpp): applications as programs of API calls that run
      inline, with hooks nested to any depth.
    - Chatroom.v (examples/chatroom): the example server.
    - ConsoleSetup.v (lib/comm/console.cpp, abstract.cpp, console_worker.cpp):
      start and shutdown of the console, slots over files, and the Windows
      reader.
    - LoopTurn.v (src/mudmux.cpp, lib/comm/inbound.cpp): a turn of the loop over
      every slot, registered events, and the pass over deferred input
      interleaved with workers.
    - RelaxedInput.v (lib/comm/inbound.cpp, src/execution.cpp): line input of a
      connection whose hooks run on workers, loop and worker interleaved.
    - WinInputMode.v (lib/comm/input_mode.cpp, console.cpp): the console modes of
      the Windows port.
    - Listener.v (lib/comm/accept.cpp, inbound.cpp): names of listeners and entry
      names, the accept path and the first read of the Windows port.
    - MemTls.v (lib/comm/inbound.cpp): the refill of a slot whose TLS session
      reads from a memory BIO.
    - RelaxedClose.v (lib/comm/outbound.cpp, src/execution.cpp): the end of a
      connection whose hooks run on workers, loop, hooks and worker interleaved.
    - ChatStart.v (examples/chatroom/main.cpp): the example from its command line
      to its exit code.
    - CommApi.v (src/mudmux.cpp, lib/comm): the entries of the communication API
      with their thread guard, the calls reserved to the connect hook, formatted
      messages.
    - Logger.v (src/hooks.cpp, src/mudmux.cpp): the logger in use and what the
      application's callback gets.
    - Handles.v (lib/async/async_event.cpp, async_runtime_epoll.cpp,
      async_runtime_poll.cpp): creation and destruction of events and runtimes on
      descriptors.

    ** How state and operations correspond to the code

    Structs are records with the source's field names, enums are inductive
    types or [Z] constants, flag words are [Z] with [Z.land]/[Z.lor].  A buffer
    is the list of the bytes below its [end] index and its [start] index, so a
    chain of buffers is a list and the queued bytes are its [content].  A
    function that changes a slot takes and returns the slot ([conn], [world]);
    fallible functions return [option] or the source's result enumeration.
    Access to a slot that a hook has removed sets [fault] in the world instead
    of being undefined.  The schedulers are transition systems: each critical
    section under a mutex is one function, each call in progress is an
    activity that is about to enter its next section, and the theorems hold for
    every interleaving.  Threads that take locks (file input, the console worker,
    the timer's producers) are program counters that move between lock
    operations and blocking calls, so that a deadlock is a reachable state
    without a step.  Ownership of descriptors, BIOs and contexts is a set or a
    map of counts, so that a leak is an element that stays.

    Code outside the repository is a parameter: the allocator and BIO library
    ([SlotEnv], [WriteEnv]), SHA-1 and base64 ([WsCrypto]), [mbrlen]
    ([MultiByte]), the kernel's epoll set ([Epoll]) and native event
    ([Signal]), which references [SSL_set_bio] takes over ([adopt]), a TLS
    session's use of ciphertext ([TlsSession] with [TlsLaws]), yaml-cpp's
    answer for each key ([config]), the outcome of each system call (records
    named ..._env), and the application's hooks with the scheduler's answers
    ([Host]).  What a theorem needs of the hooks is a class of laws
    ([OutputHost], [CloseHost], [LineHost], [BusyScheduler],
    [QuietDisconnect]), with instances that satisfy them.

    ** What the theorems show

    - Scheduling: over every interleaving the hooks of a slot that overlap are
      bounded by the awaits that the work of a cancelled one discarded, and
      without such a discard they never overlap and are consumed once each in the
      order they were accepted; a slot whose calls have finished, none by an
      exception, is idle with nothing left.  That discards and exceptions do
      harm is shown by counterexamples.
    - Output: what is queued is sent in order, none lost or duplicated, for
      every behaviour of the transport; output cannot overtake the upgrade
      response; a slot is released only when no hook is under way and no output
      is flagged as buffered (an unfinished TLS handshake apart), and its
      disconnect hook is settled once; a connection whose peer is gone is
      released or being closed after the event that says so.
    - Closing: with hooks on workers the disconnect hook runs once and completes
      before the slot goes, in every interleaving, and a closing plain
      connection goes within a bounded number of steps; two orders in which the
      hook's last message is lost are shown.
    - Input: lines and keys are delivered exactly, inline and with hooks on
      workers (in order, one in flight, none stranded) as long as no read ends
      inside a CR LF and every read finds room in the slot's buffer; telnet decoding does not
      depend on how the stream is cut, WebSocket messages come out whole,
      ciphertext enters a TLS session once and in order.
    - Formats: round trips and RFC conformance of frames, UTF-8, HTTP upgrade.
    - Workers: accepted tasks run in order and stop joins only after all of them;
      every schedule of a stop ends.  Completions and timely events never
      overlap, their counts are exact, and timer flags are neither lost nor left
      without a wake-up while the timer hook is registered and no dispatch
      fails; what happens otherwise is shown.
    - Runtimes: the event refines a flag, both descriptor tables refine one map,
      a wait reports every ready descriptor once, the contexts of overlapped
      operations have one owner or are lost by a wait with a small array or a
      failed post, which the theorem counts, and runtimes give back what they opened.
    - The loop: in a turn over all slots, whatever hooks do to other slots, the
      readiness of registered events is kept until it is handed over; hook
      invocations nest and leave thread and lock as they found them; deferred
      input is found again (with the interleaving in which it is not).
    - Dispatch: the table of slots refines one scheduler per slot, every request
      goes to the thread its mode and kind prescribe, and closures change hands
      once.
    - Applications: with any callbacks in strict mode a connection's disconnect
      hook runs once; the chat room's registry is well formed after any hooks
      and a chat line reaches exactly the logged-in users; its main leaves
      nothing of the library behind.
    - The API: a foreign thread can change nothing while a server runs, and the
      transport of a connection is chosen in its own connect hook.
    - Ports: the Windows console agrees with the slot's flags, mode changes of
      network connections are those of POSIX, accepting is all or nothing.
    - Sources of connections: lines of a file or the console are delivered
      before its end is acted on, reader threads stop within a bounded number of
      steps, opening and accepting either publish a slot or give everything
      back.
    - Life of the server: initialisation succeeds completely or tears everything
      down, a run uses its subsystems in one order, shutdown waits for every
      disconnect hook unless its wait fails, and the global state is consistent between calls.
    - Slots: a reused slot holds nothing of its predecessor (its capabilities
      apart, which is shown to be a defect), and generations are not reused
      until all slots are removed at the end of a run.
    - Error theorems state what the code does where it departs from its
      comments or documentation.

    ** Fuel

    Loops that are not structural take fuel, and each has a lemma that the
    amount the caller passes is enough: 17 and 34 turns for the append loops
    (16 buffers per slot), the length of the input plus one for the parsers and
    the WebSocket loop, the chain plus the transport's answers plus one for the
    write loop, three nested calls for [comm_flush], the signal's level plus
    one to drain an event, the pipe's length plus one and two reads of the
    eventfd to drain a wake-up, the queue's count plus one to feed a file, the
    queued ciphertext plus one for a handshake over a memory BIO, and that plus
    what the session holds for its reads.  The
    event loop and the shutdown loop run over a given list of turns, and the
    theorems say when the list is long enough.

    ** Not modelled

    The set, reset and wait of the Windows event are single system calls, and
    the tables of the async and execution API name functions modelled under
    their own names; neither has logic of its own.  YAML and the command line
    are parsed by libraries, log lines have no effect on the state, and the
    tests are left out.  A condition variable is the condition it waits for: a
    worker's step is enabled when there is work, so a missing notification is
    not expressible.  Allocation failure is an answer for slots, buffers and
    events, not for the arrays of the poll runtime.  Where hooks run on workers
    (RelaxedInput.v, RelaxedClose.v) the pool takes every task while it runs.
    Hooks are registered before a run.  In strict mode an application whose hooks
    nest deeper than the fuel given gets DISPATCH_ERROR for the innermost
    (AppHost.v).  A callback is taken to return, except in Execution.v, where
    it may throw.  In LoopTurn.v what hooks do to slots other than theirs takes
    effect when the function that called them returns.  The hooks of an application are interleaved with the
    loop at the level of the scheduler (Execution.v), of the deferral flags
    (LoopTurn.v) and of whole functions of lib/comm (RelaxedInput.v,
    RelaxedClose.v), not inside those functions, which hold the slot table's
    lock.

    ** Scope

    Every source file of lib/ and src/ with logic of its own has a model; what
    a theorem assumes of the code outside is a class or a named hypothesis with
    an instance.  The slots of one server are composed in LoopTurn.v and
    CommApi.v; elsewhere a theorem is about one connection. *)

From Stdlib Require Export ZArith Lia String Ascii.
From stdpp Require Export base tactics list numbers option strings.

(** Importing stdpp opens its own scopes; sizes and indices of the code are
    modelled as [nat], machine words and bytes as [Z]. *)
#[global] Open Scope nat_scope.

(** ** Notations *)

Declare Scope mudmux_scope.
Delimit Scope mudmux_scope with mm.

(** ** Machine words *)

Definition u8 (z : Z) : Z := (z mod 2 ^ 8)%Z.
Definition u32 (z : Z) : Z := (z mod 2 ^ 32)%Z.
Definition u64 (z : Z) : Z := (z mod 2 ^ 64)%Z.

Definition byte_ok (b : Z) : Prop := (0 ≤ b < 256)%Z.
Definition bytes_ok (bs : list Z) : Prop := Forall byte_ok bs.
#[export] Instance byte_ok_dec b : Decision (byte_ok b).
Proof. unfold byte_ok. apply _. Defined.
#[export] Instance bytes_ok_dec bs : Decision (bytes_ok bs).
Proof. unfold bytes_ok. apply _. Defined.

(** Bytes of a string literal of the source. *)
Definition bytes_of_string (s : string) : list Z :=
  map (fun a => Z.of_N (N_of_ascii a)) (list_ascii_of_string s).

(** ** Automation *)

Create HintDb mudmux.
Create HintDb mudmux_rw.

(** Case analysis on the boolean tests the code branches on. *)
Ltac case_bool :=
  match goal with
  | |- context [if ?b then _ else _] => destruct b eqn:?
  | H : context [if ?b then _ else _] |- _ => destruct b eqn:?
  end.

(** Turn boolean tests on numbers into propositions for [lia]. *)
Ltac breflect :=
  repeat match goal with
  | H : andb _ _ = true |- _ => apply andb_true_iff in H; destruct H
  | H : orb _ _ = false |- _ => apply orb_false_iff in H; destruct H
  | H : negb _ = true |- _ => apply negb_true_iff in H
  | H : negb _ = false |- _ => apply negb_false_iff in H
  | H : Nat.eqb _ _ = true |- _ => apply Nat.eqb_eq in H
  | H : Nat.eqb _ _ = false |- _ => apply Nat.eqb_neq in H
  | H : Nat.leb _ _ = true |- _ => apply Nat.leb_le in H
  | H : Nat.leb _ _ = false |- _ => apply Nat.leb_gt in H
  | H : Nat.ltb _ _ = true |- _ => apply Nat.ltb_lt in H
  | H : Nat.ltb _ _ = false |- _ => apply Nat.ltb_ge in H
  | H : Z.eqb _ _ = true |- _ => apply Z.eqb_eq in H
  | H : Z.eqb _ _ = false |- _ => apply Z.eqb_neq in H
  | H : Z.leb _ _ = true |- _ => apply Z.leb_le in H
  | H : Z.leb _ _ = false |- _ => apply Z.leb_gt in H
  | H : Z.ltb _ _ = true |- _ => apply Z.ltb_lt in H
  | H : Z.ltb _ _ = false |- _ => apply Z.ltb_ge in H
  end.

(** ** Indices of a circular buffer *)

Lemma mod_wrap (n c : nat) : n < 2 * c → n mod c = if n <? c then n else n - c.
Proof.
  intros H. destruct (n <? c) eqn:E; breflect.
  - by apply Nat.mod_small.
  - replace n with (n - c + 1 * c) at 1 by lia.
    rewrite Nat.Div0.mod_add. apply Nat.mod_small. lia.
Qed.

Lemma mod_window_inj (t c i j : nat) :
  t < c → i < c → j < c → (t + i) mod c = (t + j) mod c → i = j.
Proof.
  intros ???. rewrite !mod_wrap by lia.
  destruct (t + i <? c) eqn:?, (t + j <? c) eqn:?; breflect; lia.
Qed.

Lemma mod_succ_shift (t c i : nat) : 0 < c → ((t + 1) mod c + i) mod c = (t + S i) mod c.
Proof.
  intros ?. rewrite Nat.Div0.add_mod_idemp_l. f_equal. lia.
Qed.

Lemma mod_upper (n c : nat) : 0 < c → n mod c < c.
Proof. intros. apply Nat.mod_upper_bound. lia. Qed.
#[export] Hint Resolve mod_upper : mudmux.

(** ** Lists *)

Lemma seq_shift_map {A} (f : nat → A) (n k : nat) :
  map f (seq (S k) n) = map (fun i => f (S i)) (seq k n).
Proof. rewrite <- seq_shift, map_map. done. Qed.

Lemma seq_snoc (k n : nat) : seq k (S n) = seq k n ++ [k + n].
Proof. by rewrite seq_S. Qed.

Lemma take_app_exact {A} (l k : list A) : take (length l) (l ++ k) = l.
Proof. by rewrite take_app_length. Qed.

Lemma Forall_nth_default {A} (P : A → Prop) (l : list A) (i : nat) (d : A) :
  Forall P l → i < length l → P (nth i l d).
Proof. intros HF Hi. rewrite Forall_forall in HF. apply HF, list_elem_of_In, nth_In, Hi. Qed.

Lemma nth_insert_eq {A} (l : list A) (i : nat) (x d : A) :
  i < length l → nth i (<[i:=x]> l) d = x.
Proof.
  intros Hi. apply nth_lookup_Some with (d := d).
  by apply list_lookup_insert_eq.
Qed.

Lemma nth_insert_ne {A} (l : list A) (i j : nat) (x d : A) :
  i ≠ j → nth j (<[i:=x]> l) d = nth j l d.
Proof. intros H. rewrite !nth_lookup. by rewrite list_lookup_insert_ne. Qed.

Lemma nth_replicate_default {A} (n i : nat) (x : A) : nth i (replicate n x) x = x.
Proof. revert i. induction n; intros [|i]; cbn; auto. Qed.

(** ** Bits and bytes *)

(** A boolean fact on bytes is checked on all 256 of them. *)
Lemma forall_byte (P : Z → bool) :
  forallb P (map Z.of_nat (seq 0 256)) = true → ∀ b, byte_ok b → P b = true.
Proof.
  intros H b [? ?]. rewrite forallb_forall in H. apply H.
  apply in_map_iff. exists (Z.to_nat b). split; [lia|]. apply in_seq. lia.
Qed.

(** [x << n | y] is an addition when [y] has no bit above [n]. *)
Lemma shiftl_lor_add (x y n : Z) :
  (0 ≤ n → 0 ≤ y < 2 ^ n → Z.lor (Z.shiftl x n) y = x * 2 ^ n + y)%Z.
Proof.
  intros Hn Hy. pose proof (Z.add_lor_land (Z.shiftl x n) y) as A.
  assert (E : Z.land (Z.shiftl x n) y = 0%Z).
  { apply Z.bits_inj'. intros k Hk. rewrite Z.land_spec, Z.bits_0, Z.shiftl_spec by done.
    destruct (Z.lt_ge_cases k n).
    - by rewrite Z.testbit_neg_r by lia.
    - rewrite <- (Z.mod_small y (2 ^ n)) by done.
      rewrite Z.mod_pow2_bits_high by lia. apply andb_false_r. }
  rewrite E in A. rewrite (Z.shiftl_mul_pow2 x n) in * by done. lia.
Qed.

(** Big-endian integers, as the frame header writes and reads them. *)
Fixpoint be_split (n : nat) (z : Z) : list Z :=
  match n with
  | 0 => []
  | S k => Z.land (Z.shiftr z (8 * Z.of_nat k)) 255 :: be_split k z
  end.

Definition be_combine (bs : list Z) : Z :=
  fold_left (fun acc b => Z.lor (Z.shiftl acc 8) b) bs 0%Z.

Lemma land_255 (z : Z) : Z.land z 255 = (z mod 256)%Z.
Proof. change 255%Z with (Z.ones 8). by rewrite Z.land_ones by lia. Qed.

Lemma length_be_split n z : length (be_split n z) = n.
Proof. induction n; cbn; auto. Qed.

Lemma be_split_ok n z : bytes_ok (be_split n z).
Proof.
  induction n; constructor; auto. rewrite land_255. unfold byte_ok.
  apply Z.mod_pos_bound. lia.
Qed.

Lemma be_fold_split n z acc :
  (0 ≤ acc →
  fold_left (fun acc b => Z.lor (Z.shiftl acc 8) b) (be_split n z) acc
  = acc * 2 ^ (8 * Z.of_nat n) + z mod 2 ^ (8 * Z.of_nat n))%Z.
Proof.
  revert acc. induction n as [|k IH]; intros acc Ha; cbn [be_split fold_left].
  { change (2 ^ (8 * Z.of_nat 0))%Z with 1%Z. rewrite Z.mod_1_r. lia. }
  rewrite land_255, shiftl_lor_add, Z.shiftr_div_pow2; try lia;
    [|change (2 ^ 8)%Z with 256%Z; apply Z.mod_pos_bound; lia].
  rewrite IH by (pose proof (Z.mod_pos_bound (z / 2 ^ (8 * Z.of_nat k)) 256); lia).
  rewrite Nat2Z.inj_succ. replace (8 * Z.succ (Z.of_nat k))%Z with (8 * Z.of_nat k + 8)%Z by lia.
  rewrite Z.pow_add_r, Z.rem_mul_r by lia. change (2 ^ 8)%Z with 256%Z. lia.
Qed.

Lemma be_combine_split n z :
  (0 ≤ z < 2 ^ (8 * Z.of_nat n))%Z → be_combine (be_split n z) = z.
Proof. intros H. unfold be_combine. rewrite be_fold_split by lia. rewrite Z.mod_small; lia. Qed.

Lemma be_combine_nonneg bs : bytes_ok bs → (0 ≤ be_combine bs)%Z.
Proof.
  intros H. unfold be_combine.
  enough (∀ acc, (0 ≤ acc → 0 ≤ fold_left (fun acc b => Z.lor (Z.shiftl acc 8) b) bs acc)%Z)
    as G by by apply G.
  induction H as [|b bs [Hb _] _ IH]; intros acc Ha; cbn; [exact Ha|].
  apply IH. apply Z.lor_nonneg. by rewrite Z.shiftl_nonneg.
Qed.
