(* ===== verification/AsyncQueue.v ===== *)
(** * The bounded message queue of lib/async/async_queue.cpp

    [AsyncQueue] is the circular buffer as the code has it (slot array, head,
    tail, count, flags, 64-bit statistics).  [FifoSpec] is what the queue
    promises: a bounded list of messages.  The theorems show that every
    operation of the circular buffer behaves as the list does, on all
    branches, for every sequence of calls. *)

From S2P Require Import Prelude.

(** ** Flags of src/include/mudmux/async.h *)

Definition ASYNC_QUEUE_DROP_OLDEST : Z := 1.
Definition ASYNC_QUEUE_BLOCK_WRITER : Z := 2.
Definition has_qflag (flags m : Z) : bool := negb (Z.land flags m =? 0)%Z.

Record async_queue_stats := mk_stats {
  st_capacity : nat;
  st_current_size : nat;
  st_max_msg_size : nat;
  st_enqueue_count : Z;
  st_dequeue_count : Z;
  st_dropped_count : Z
}.

(** Outcome of an enqueue: [Waiting] is the writer parked on [not_full] with
    the mutex released; it re-runs the loop when it is woken. *)
Inductive enq_result := EnqTrue | EnqFalse | EnqWaiting.

Module AsyncQueue.

(** One slot of the circular buffer: a [size_t] length followed by
    [max_msg_size] bytes. *)
Record msg_slot := mk_slot { slot_len : nat; slot_data : list Z }.

Record async_queue := mk_queue {
  buffer : list msg_slot;
  capacity : nat;
  max_msg_size : nat;
  head : nat;
  tail : nat;
  count : nat;
  flags : Z;
  enqueue_count : Z;
  dequeue_count : Z;
  dropped_count : Z
}.

(** [get_slot]: the slot at an index (an all-zero slot outside the array). *)
Definition get_slot (q : async_queue) (index : nat) : msg_slot :=
  nth index (buffer q) (mk_slot 0 []).

(** [async_queue_create]; [alloc_ok] is the outcome of [new]/[calloc]. *)
Definition async_queue_create (alloc_ok : bool) (cap max_size : nat) (fl : Z)
    : option async_queue :=
  if (cap =? 0) || (max_size =? 0) then None
  else if negb alloc_ok then None
  else Some (mk_queue (replicate cap (mk_slot 0 (replicate max_size 0%Z)))
               cap max_size 0 0 0 fl 0 0 0).

(** The body of the full-queue loop with DROP_OLDEST. *)
Definition drop_oldest (q : async_queue) : async_queue :=
  mk_queue (buffer q) (capacity q) (max_msg_size q) (head q)
    ((tail q + 1) mod capacity q) (count q - 1) (flags q)
    (enqueue_count q) (dequeue_count q) (u64 (dropped_count q + 1)).

(** [while (count >= capacity)]: the fuel bounds the number of drops. *)
Fixpoint make_room (fuel : nat) (q : async_queue) : async_queue * enq_result :=
  if capacity q <=? count q then
    if has_qflag (flags q) ASYNC_QUEUE_DROP_OLDEST then
      match fuel with
      | 0 => (q, EnqFalse)
      | S n => make_room n (drop_oldest q)
      end
    else if has_qflag (flags q) ASYNC_QUEUE_BLOCK_WRITER then (q, EnqWaiting)
    else (q, EnqFalse)
  else (q, EnqTrue).

(** memcpy of a message into a slot: the tail of the old bytes stays. *)
Definition write_slot (s : msg_slot) (data : list Z) : msg_slot :=
  mk_slot (length data) (data ++ drop (length data) (slot_data s)).

Definition push_slot (q : async_queue) (data : list Z) : async_queue :=
  mk_queue (<[head q := write_slot (get_slot q (head q)) data]> (buffer q))
    (capacity q) (max_msg_size q) ((head q + 1) mod capacity q) (tail q)
    (count q + 1) (flags q) (u64 (enqueue_count q + 1)) (dequeue_count q)
    (dropped_count q).

Definition async_queue_enqueue (q : async_queue) (data : option (list Z))
    : async_queue * enq_result :=
  match data with
  | None => (q, EnqFalse)
  | Some bs =>
      if (length bs =? 0) || (max_msg_size q <? length bs) then (q, EnqFalse)
      else
        match make_room (count q) q with
        | (q', EnqTrue) => (push_slot q' bs, EnqTrue)
        | r => r
        end
  end.

(** [buffer_size] is the caller's capacity; [None] is the [false] return. *)
Definition async_queue_dequeue (q : async_queue) (buffer_size : nat)
    : async_queue * option (list Z) :=
  if count q =? 0 then (q, None)
  else
    let s := get_slot q (tail q) in
    if buffer_size <? slot_len s then (q, None)
    else
      (mk_queue (buffer q) (capacity q) (max_msg_size q) (head q)
         ((tail q + 1) mod capacity q) (count q - 1) (flags q)
         (enqueue_count q) (u64 (dequeue_count q + 1)) (dropped_count q),
       Some (take (slot_len s) (slot_data s))).

Definition async_queue_is_empty (q : async_queue) : bool := count q =? 0.
Definition async_queue_is_full (q : async_queue) : bool := capacity q <=? count q.

Definition async_queue_clear (q : async_queue) : async_queue :=
  mk_queue (buffer q) (capacity q) (max_msg_size q) 0 0 0 (flags q)
    (enqueue_count q) (dequeue_count q) (dropped_count q).

Definition async_queue_get_stats (q : async_queue) : async_queue_stats :=
  mk_stats (capacity q) (count q) (max_msg_size q) (enqueue_count q)
    (dequeue_count q) (dropped_count q).

(** *** Invariant and abstraction *)

(** The message at logical position [i]: [i] slots after [tail]. *)
Definition nth_slot (q : async_queue) (i : nat) : msg_slot :=
  get_slot q ((tail q + i) mod capacity q).
Definition slot_msg (s : msg_slot) : list Z := take (slot_len s) (slot_data s).
Definition contents (q : async_queue) : list (list Z) :=
  map (fun i => slot_msg (nth_slot q i)) (seq 0 (count q)).

Definition slot_wf (mx : nat) (s : msg_slot) : Prop :=
  length (slot_data s) = mx ∧ slot_len s ≤ mx.

Record wf (q : async_queue) : Prop := {
  wf_cap : 0 < capacity q;
  wf_len : length (buffer q) = capacity q;
  wf_count : count q ≤ capacity q;
  wf_tail : tail q < capacity q;
  wf_head : head q = (tail q + count q) mod capacity q;
  wf_slots : Forall (slot_wf (max_msg_size q)) (buffer q)
}.

End AsyncQueue.

(** ** What the queue promises *)

Module FifoSpec.

Record fifo := mk_fifo {
  msgs : list (list Z);
  cap : nat;
  max_size : nat;
  fl : Z;
  n_enq : Z;
  n_deq : Z;
  n_drop : Z
}.

Definition create (c mx : nat) (f : Z) : fifo := mk_fifo [] c mx f 0 0 0.

Definition drop_excess (s : fifo) : fifo :=
  mk_fifo (tl (msgs s)) (cap s) (max_size s) (fl s) (n_enq s) (n_deq s)
    (u64 (n_drop s + 1)).

Definition push (s : fifo) (m : list Z) : fifo :=
  mk_fifo (msgs s ++ [m]) (cap s) (max_size s) (fl s) (u64 (n_enq s + 1))
    (n_deq s) (n_drop s).

(** A full queue drops its oldest message, parks the writer or refuses. *)
Definition enqueue (s : fifo) (data : option (list Z)) : fifo * enq_result :=
  match data with
  | None => (s, EnqFalse)
  | Some m =>
      if (length m =? 0) || (max_size s <? length m) then (s, EnqFalse)
      else if length (msgs s) <? cap s then (push s m, EnqTrue)
      else if has_qflag (fl s) ASYNC_QUEUE_DROP_OLDEST then
        (push (drop_excess s) m, EnqTrue)
      else if has_qflag (fl s) ASYNC_QUEUE_BLOCK_WRITER then (s, EnqWaiting)
      else (s, EnqFalse)
  end.

Definition dequeue (s : fifo) (room : nat) : fifo * option (list Z) :=
  match msgs s with
  | [] => (s, None)
  | m :: rest =>
      if room <? length m then (s, None)
      else (mk_fifo rest (cap s) (max_size s) (fl s) (n_enq s)
              (u64 (n_deq s + 1)) (n_drop s), Some m)
  end.

Definition clear (s : fifo) : fifo :=
  mk_fifo [] (cap s) (max_size s) (fl s) (n_enq s) (n_deq s) (n_drop s).

Definition stats (s : fifo) : async_queue_stats :=
  mk_stats (cap s) (length (msgs s)) (max_size s) (n_enq s) (n_deq s) (n_drop s).

End FifoSpec.

(** ** Sequences of calls *)

Inductive queue_call :=
  | CEnqueue (data : option (list Z))
  | CDequeue (room : nat)
  | CIsEmpty
  | CIsFull
  | CClear
  | CStats.

Inductive queue_answer :=
  | AEnq (r : enq_result)
  | ADeq (m : option (list Z))
  | ABool (b : bool)
  | AUnit
  | AStats (s : async_queue_stats).

(** The answers of the circular buffer to a sequence of calls. *)
Definition call_queue (q : AsyncQueue.async_queue) (c : queue_call)
    : AsyncQueue.async_queue * queue_answer :=
  match c with
  | CEnqueue d => let r := AsyncQueue.async_queue_enqueue q d in (r.1, AEnq r.2)
  | CDequeue n => let r := AsyncQueue.async_queue_dequeue q n in (r.1, ADeq r.2)
  | CIsEmpty => (q, ABool (AsyncQueue.async_queue_is_empty q))
  | CIsFull => (q, ABool (AsyncQueue.async_queue_is_full q))
  | CClear => (AsyncQueue.async_queue_clear q, AUnit)
  | CStats => (q, AStats (AsyncQueue.async_queue_get_stats q))
  end.

Definition call_fifo (s : FifoSpec.fifo) (c : queue_call)
    : FifoSpec.fifo * queue_answer :=
  match c with
  | CEnqueue d => let r := FifoSpec.enqueue s d in (r.1, AEnq r.2)
  | CDequeue n => let r := FifoSpec.dequeue s n in (r.1, ADeq r.2)
  | CIsEmpty => (s, ABool (length (FifoSpec.msgs s) =? 0))
  | CIsFull => (s, ABool (FifoSpec.cap s <=? length (FifoSpec.msgs s)))
  | CClear => (FifoSpec.clear s, AUnit)
  | CStats => (s, AStats (FifoSpec.stats s))
  end.

Fixpoint run_queue (q : AsyncQueue.async_queue) (cs : list queue_call)
    : AsyncQueue.async_queue * list queue_answer :=
  match cs with
  | [] => (q, [])
  | c :: rest =>
      let '(q1, a) := call_queue q c in
      let '(q2, l) := run_queue q1 rest in (q2, a :: l)
  end.

Fixpoint run_fifo (s : FifoSpec.fifo) (cs : list queue_call)
    : FifoSpec.fifo * list queue_answer :=
  match cs with
  | [] => (s, [])
  | c :: rest =>
      let '(s1, a) := call_fifo s c in
      let '(s2, l) := run_fifo s1 rest in (s2, a :: l)
  end.

(** ** Lemmas on the circular buffer *)

Section QueueLemmas.
Import AsyncQueue.
Implicit Types q : async_queue.

Lemma get_slot_wf q i : wf q → i < capacity q → slot_wf (max_msg_size q) (get_slot q i).
Proof. intros W Hi. unfold get_slot. apply Forall_nth_default; [apply W | by rewrite (wf_len q W)]. Qed.

Lemma length_contents q : length (contents q) = count q.
Proof. unfold contents. by rewrite length_map, length_seq. Qed.

Lemma slot_msg_length q i :
  wf q → i < capacity q → length (slot_msg (get_slot q i)) = slot_len (get_slot q i).
Proof.
  intros W Hi. destruct (get_slot_wf q i W Hi) as [Hd Hl].
  unfold slot_msg. rewrite length_take. lia.
Qed.

Lemma contents_cons q :
  wf q → 0 < count q →
  contents q = slot_msg (get_slot q (tail q)) :: tl (contents q).
Proof.
  intros W Hc. unfold contents. destruct (count q) as [|n]; [lia|]. simpl.
  unfold nth_slot. by rewrite Nat.add_0_r, Nat.mod_small by apply W.
Qed.

(** Advancing [tail] removes the oldest message, whatever the counters do. *)
Lemma contents_advance q e d k :
  wf q → 0 < count q →
  let q' := mk_queue (buffer q) (capacity q) (max_msg_size q) (head q)
              ((tail q + 1) mod capacity q) (count q - 1) (flags q) e d k in
  wf q' ∧ contents q' = tl (contents q).
Proof.
  intros [Hcap Hlen Hcnt Htl Hhd Hs] Hc q'. split.
  - constructor; cbn; auto with mudmux; [lia|].
    rewrite mod_succ_shift by done. rewrite Hhd. f_equal. lia.
  - unfold contents; cbn. destruct (count q) as [|n]; [lia|]. cbn.
    rewrite Nat.sub_0_r, seq_shift_map. apply map_ext. intros i.
    unfold nth_slot; cbn. by rewrite mod_succ_shift.
Qed.

Lemma write_slot_wf mx s bs :
  slot_wf mx s → length bs ≤ mx → slot_wf mx (write_slot s bs).
Proof.
  intros [Hd Hl] Hb. split; cbn; [|lia].
  rewrite length_app, length_drop. lia.
Qed.

Lemma push_slot_spec q bs :
  wf q → count q < capacity q → length bs ≤ max_msg_size q →
  wf (push_slot q bs) ∧ contents (push_slot q bs) = contents q ++ [bs].
Proof.
  intros W Hc Hb. pose proof W as [Hcap Hlen Hcnt Htl Hhd Hs].
  assert (Hh : head q < capacity q) by (rewrite Hhd; auto with mudmux).
  split.
  - constructor; cbn; auto; [by rewrite length_insert | lia | |].
    + rewrite Hhd, Nat.Div0.add_mod_idemp_l. f_equal. lia.
    + apply Forall_insert; [done|]. apply write_slot_wf; [by apply get_slot_wf | done].
  - unfold contents; cbn. rewrite Nat.add_1_r, seq_snoc, map_app. cbn. f_equal.
    + apply map_ext_in. intros i Hi. apply in_seq in Hi.
      unfold nth_slot, get_slot; cbn. rewrite nth_insert_ne; [done|].
      rewrite Hhd. intros E. apply mod_window_inj in E; lia.
    + f_equal. unfold nth_slot, get_slot; cbn. rewrite <- Hhd.
      rewrite nth_insert_eq by lia. unfold slot_msg; cbn. apply take_app_exact.
Qed.

(** The full-queue loop runs at most once on a well-formed queue. *)
Lemma make_room_spec q :
  wf q →
  make_room (count q) q =
    if count q <? capacity q then (q, EnqTrue)
    else if has_qflag (flags q) ASYNC_QUEUE_DROP_OLDEST then (drop_oldest q, EnqTrue)
    else if has_qflag (flags q) ASYNC_QUEUE_BLOCK_WRITER then (q, EnqWaiting)
    else (q, EnqFalse).
Proof.
  intros [Hcap _ Hcnt _ _ _]. destruct (count q <? capacity q) eqn:E; breflect.
  - destruct (count q) eqn:Ec; cbn; rewrite Ec; (destruct (capacity q <=? _) eqn:?; breflect; [lia|done]).
  - destruct (count q) as [|n] eqn:Ec; [lia|]. cbn -[drop_oldest]. rewrite Ec.
    destruct (capacity q <=? S n) eqn:F; breflect; [|lia].
    destruct (has_qflag _ ASYNC_QUEUE_DROP_OLDEST); [|done].
    destruct n; cbn; rewrite Ec; destruct (capacity q <=? _) eqn:?; breflect; try lia; done.
Qed.

Definition represents q (s : FifoSpec.fifo) : Prop :=
  wf q ∧
  s = FifoSpec.mk_fifo (contents q) (capacity q) (max_msg_size q) (flags q)
        (enqueue_count q) (dequeue_count q) (dropped_count q).

Lemma represents_create c mx f q :
  async_queue_create true c mx f = Some q → represents q (FifoSpec.create c mx f).
Proof.
  unfold async_queue_create. intros H.
  destruct ((c =? 0) || (mx =? 0)) eqn:E; [done|]. simplify_eq/=. breflect.
  split; [|done]. constructor; cbn; auto; try lia.
  - by rewrite length_replicate.
  - symmetry. apply Nat.Div0.mod_0_l.
  - apply Forall_replicate. split; cbn; [by rewrite length_replicate | lia].
Qed.

Lemma represents_enqueue q s d :
  represents q s →
  represents (async_queue_enqueue q d).1 (FifoSpec.enqueue s d).1 ∧
  (async_queue_enqueue q d).2 = (FifoSpec.enqueue s d).2.
Proof.
  intros [W ->]. unfold async_queue_enqueue, FifoSpec.enqueue.
  destruct d as [bs|]; cbn -[make_room Nat.eqb Nat.ltb]; [|by split].
  destruct ((length bs =? 0) || (max_msg_size q <? length bs)) eqn:E; [by split|].
  breflect. rewrite make_room_spec, length_contents by done.
  destruct (count q <? capacity q) eqn:F; breflect.
  - destruct (push_slot_spec q bs W) as [W' C']; [lia|lia|].
    split; [split; [done|]|done]. cbn [fst]. by rewrite C'.
  - pose proof (wf_cap q W) as Hcap. pose proof (wf_count q W) as Hcnt.
    destruct (has_qflag (flags q) ASYNC_QUEUE_DROP_OLDEST);
      [|by destruct (has_qflag (flags q) ASYNC_QUEUE_BLOCK_WRITER)].
    destruct (contents_advance q (enqueue_count q) (dequeue_count q)
                (u64 (dropped_count q + 1)) W ltac:(lia)) as [W' C'].
    destruct (push_slot_spec (drop_oldest q) bs W') as [W2 C2]; [cbn; lia|cbn; lia|].
    split; [split; [done|]|done]. cbn [fst]. rewrite C2.
    change (contents (drop_oldest q)) with (contents (mk_queue (buffer q) (capacity q)
      (max_msg_size q) (head q) ((tail q + 1) mod capacity q) (count q - 1) (flags q)
      (enqueue_count q) (dequeue_count q) (u64 (dropped_count q + 1)))).
    by rewrite C'.
Qed.

Lemma represents_dequeue q s n :
  represents q s →
  represents (async_queue_dequeue q n).1 (FifoSpec.dequeue s n).1 ∧
  (async_queue_dequeue q n).2 = (FifoSpec.dequeue s n).2.
Proof.
  intros [W ->]. unfold async_queue_dequeue, FifoSpec.dequeue. cbn [FifoSpec.msgs].
  destruct (count q =? 0) eqn:E; breflect.
  - assert (contents q = []) as Hn
      by (apply nil_length_inv; by rewrite length_contents).
    rewrite Hn. split; [|done]. split; [done|]. cbn. by rewrite Hn.
  - rewrite (contents_cons q W) by lia. rewrite slot_msg_length by apply W || done.
    destruct (n <? slot_len (get_slot q (tail q))) eqn:F.
    + split; [|done]. split; [done|]. cbn. by rewrite <- (contents_cons q W) by lia.
    + split; [|done]. cbn [fst].
      destruct (contents_advance q (enqueue_count q) (u64 (dequeue_count q + 1))
                  (dropped_count q) W ltac:(lia)) as [W' C'].
      split; [done|]. by rewrite C'.
Qed.

Lemma represents_call q s c :
  represents q s →
  represents (call_queue q c).1 (call_fifo s c).1 ∧ (call_queue q c).2 = (call_fifo s c).2.
Proof.
  intros R. destruct c; cbn.
  - destruct (represents_enqueue q s data R) as [? ->]. done.
  - destruct (represents_dequeue q s room R) as [? ->]. done.
  - destruct R as [W ->]. cbn. by rewrite length_contents.
  - destruct R as [W ->]. cbn. by rewrite length_contents.
  - destruct R as [[] ->]. split; [|done]. split; [|done].
    constructor; cbn; auto; [lia|]. symmetry. apply Nat.Div0.mod_0_l.
  - destruct R as [W ->]. cbn. unfold async_queue_get_stats, FifoSpec.stats; cbn.
    by rewrite length_contents.
Qed.

Lemma represents_run cs q s :
  represents q s →
  represents (run_queue q cs).1 (run_fifo s cs).1 ∧ (run_queue q cs).2 = (run_fifo s cs).2.
Proof.
  revert q s. induction cs as [|c cs IH]; intros q s R; cbn; [done|].
  destruct (represents_call q s c R) as [R1 E1].
  destruct (call_queue q c) as [q1 a1], (call_fifo s c) as [s1 b1]. simplify_eq/=.
  destruct (IH q1 s1 R1) as [R2 E2].
  destruct (run_queue q1 cs), (run_fifo s1 cs). by simplify_eq/=.
Qed.

End QueueLemmas.

(** ** Properties *)

(** C33: for every sequence of calls on a freshly created queue (valid and
    invalid enqueues, dequeues with any caller buffer, emptiness tests, clear
    and statistics) the circular buffer gives exactly the answers of the
    bounded FIFO list, and ends in a well-formed state with that list as its
    contents. *)
Theorem async_queue_refines_fifo c mx f q cs :
  AsyncQueue.async_queue_create true c mx f = Some q →
  (run_queue q cs).2 = (run_fifo (FifoSpec.create c mx f) cs).2 ∧
  AsyncQueue.wf (run_queue q cs).1 ∧
  AsyncQueue.contents (run_queue q cs).1
    = FifoSpec.msgs (run_fifo (FifoSpec.create c mx f) cs).1.
Proof.
  intros H. apply represents_create in H.
  destruct (represents_run cs _ _ H) as [[W E] ?].
  by rewrite E.
Qed.

Lemma async_queue_refines_fifo_witness :
  (run_queue (AsyncQueue.mk_queue
     (replicate 2 (AsyncQueue.mk_slot 0 (replicate 3 0%Z))) 2 3 0 0 0 1 0 0 0)
     [CEnqueue (Some [1;2]%Z); CEnqueue (Some [3]%Z); CEnqueue (Some [4;5;6]%Z);
      CEnqueue (Some [1;2;3;4]%Z); CIsFull; CDequeue 0; CDequeue 4; CStats]).2
  = [AEnq EnqTrue; AEnq EnqTrue; AEnq EnqTrue; AEnq EnqFalse; ABool true;
     ADeq None; ADeq (Some [3]%Z); AStats (mk_stats 2 1 3 3 1 1)].
Proof.
  rewrite (proj1 (async_queue_refines_fifo 2 3 1 _ _ eq_refl)). vm_compute. reflexivity.
Defined.

(** *** Drop-oldest keeps the most recent messages *)

Definition enqueue_all (q : AsyncQueue.async_queue) (ms : list (list Z))
    : AsyncQueue.async_queue :=
  fold_left (fun q m => (AsyncQueue.async_queue_enqueue q (Some m)).1) ms q.

Definition lastn {A} (n : nat) (l : list A) : list A := drop (length l - n) l.

Definition valid_msg (mx : nat) (m : list Z) : Prop := 0 < length m ≤ mx.

Lemma lastn_snoc {A} n (l : list A) x :
  0 < n →
  lastn n (l ++ [x]) = (if length (lastn n l) <? n then lastn n l else tl (lastn n l)) ++ [x].
Proof.
  intros Hn. unfold lastn. rewrite length_app, length_drop. cbn [length].
  destruct (length l - (length l - n) <? n) eqn:E; breflect.
  - rewrite drop_app_le by lia. do 2 f_equal. lia.
  - rewrite drop_app_le by lia. f_equal.
    replace (length l + 1 - n) with ((length l - n) + 1) by lia.
    rewrite <- drop_drop. by destruct (drop (length l - n) l).
Qed.

Lemma fifo_enqueue_lastn s m ms :
  0 < FifoSpec.cap s → has_qflag (FifoSpec.fl s) ASYNC_QUEUE_DROP_OLDEST = true →
  valid_msg (FifoSpec.max_size s) m →
  FifoSpec.msgs s = lastn (FifoSpec.cap s) ms →
  FifoSpec.msgs (FifoSpec.enqueue s (Some m)).1 = lastn (FifoSpec.cap s) (ms ++ [m]).
Proof.
  intros Hc Hf [Hm1 Hm2] E. unfold FifoSpec.enqueue.
  destruct (length m =? 0) eqn:?; breflect; [lia|].
  destruct (FifoSpec.max_size s <? length m) eqn:?; breflect; [lia|]. cbn [orb].
  rewrite lastn_snoc, <- E by done. rewrite Hf. by case_bool.
Qed.

Lemma fifo_enqueue_params s d :
  let s' := (FifoSpec.enqueue s d).1 in
  FifoSpec.cap s' = FifoSpec.cap s ∧ FifoSpec.max_size s' = FifoSpec.max_size s ∧
  FifoSpec.fl s' = FifoSpec.fl s.
Proof. cbn. unfold FifoSpec.enqueue. destruct d; repeat case_bool; done. Qed.

Lemma enqueue_all_lastn ms done_ q s :
  represents q s → 0 < FifoSpec.cap s →
  has_qflag (FifoSpec.fl s) ASYNC_QUEUE_DROP_OLDEST = true →
  Forall (valid_msg (FifoSpec.max_size s)) ms →
  FifoSpec.msgs s = lastn (FifoSpec.cap s) done_ →
  AsyncQueue.contents (enqueue_all q ms) = lastn (FifoSpec.cap s) (done_ ++ ms).
Proof.
  revert done_ q s. induction ms as [|m ms IH]; intros done_ q s R Hc Hf HF E; cbn.
  - rewrite app_nil_r, <- E. destruct R as [_ ->]. done.
  - inversion HF; subst. destruct (represents_enqueue q s (Some m) R) as [R' _].
    destruct (fifo_enqueue_params s (Some m)) as (Ec & Em & Ef).
    rewrite (cons_middle m done_ ms), app_assoc, <- Ec.
    apply IH; rewrite ?Ec, ?Em, ?Ef; auto using fifo_enqueue_lastn.
Qed.

(** A queue created with ASYNC_QUEUE_DROP_OLDEST (the console and file
    input queues) holds, after any number of well-sized enqueues, exactly the
    most recent [capacity] messages, oldest first: nothing newer than a
    dropped message is ever lost. *)
Theorem drop_oldest_keeps_latest c mx f q ms :
  AsyncQueue.async_queue_create true c mx f = Some q →
  has_qflag f ASYNC_QUEUE_DROP_OLDEST = true →
  Forall (valid_msg mx) ms →
  AsyncQueue.contents (enqueue_all q ms) = lastn c ms.
Proof.
  intros H Hf HF. pose proof (represents_create _ _ _ _ H) as R.
  change (lastn c ms) with (lastn (FifoSpec.cap (FifoSpec.create c mx f)) ([] ++ ms)).
  apply enqueue_all_lastn; auto.
  destruct R as [W E]. apply (f_equal FifoSpec.cap) in E. cbn in *. rewrite E. apply W.
Qed.

Lemma drop_oldest_keeps_latest_witness :
  AsyncQueue.contents (enqueue_all (AsyncQueue.mk_queue
     (replicate 2 (AsyncQueue.mk_slot 0 (replicate 3 0%Z))) 2 3 0 0 0 1 0 0 0)
     [[1]; [2;2]; [3]; [4;4;4]; [5]]%Z) = [[4;4;4]; [5]]%Z.
Proof.
  rewrite (drop_oldest_keeps_latest 2 3 1 _ _ eq_refl eq_refl); [reflexivity|].
  repeat constructor.
Defined.

(** *** Statistics *)

Definition balanced (s : FifoSpec.fifo) : Prop :=
  (u64 (FifoSpec.n_enq s) =
   u64 (FifoSpec.n_deq s + FifoSpec.n_drop s + Z.of_nat (length (FifoSpec.msgs s))))%Z.

Lemma u64_add_l a b : u64 (u64 a + b) = u64 (a + b).
Proof. unfold u64. by rewrite Zplus_mod_idemp_l. Qed.
Lemma u64_add_r a b : u64 (a + u64 b) = u64 (a + b).
Proof. unfold u64. by rewrite Zplus_mod_idemp_r. Qed.
Lemma u64_idem a : u64 (u64 a) = u64 a.
Proof. unfold u64. apply Z.mod_mod. lia. Qed.
Lemma u64_shift a b k : u64 a = u64 b → u64 (a + k) = u64 (b + k).
Proof. intros H. by rewrite <- (u64_add_l a), H, u64_add_l. Qed.

Lemma balanced_push s m : balanced s → balanced (FifoSpec.push s m).
Proof.
  unfold balanced; cbn. intros H. rewrite u64_idem, length_app; cbn.
  rewrite (u64_shift _ _ 1 H). f_equal. lia.
Qed.

Lemma balanced_call s c :
  c ≠ CClear → 0 < FifoSpec.cap s → balanced s →
  balanced (call_fifo s c).1 ∧ FifoSpec.cap (call_fifo s c).1 = FifoSpec.cap s.
Proof.
  intros Hc Hcap HB. destruct c; cbn; try done.
  - split; [|apply fifo_enqueue_params]. unfold FifoSpec.enqueue. destruct data as [m|]; [|done].
    repeat case_bool; try done; cbn [fst]; apply balanced_push; [done|].
    breflect. unfold balanced in *; cbn. rewrite HB.
    destruct (FifoSpec.msgs s) as [|x l]; cbn in *; [lia|].
    rewrite <- (u64_add_l (_ + u64 _)), u64_add_r, u64_add_l. f_equal. lia.
  - unfold FifoSpec.dequeue. destruct (FifoSpec.msgs s) as [|m l] eqn:E; [done|].
    case_bool; [done|]. unfold balanced in *; cbn. rewrite E in HB. split; [|done].
    rewrite HB. cbn. rewrite <- (Z.add_assoc (u64 _)), u64_add_l. f_equal. lia.
Qed.

Lemma balanced_run cs s :
  Forall (fun c => c ≠ CClear) cs → 0 < FifoSpec.cap s → balanced s →
  balanced (run_fifo s cs).1.
Proof.
  revert s. induction cs as [|c cs IH]; intros s HF Hcap HB; cbn; [done|].
  inversion HF; subst. destruct (balanced_call s c) as [HB1 Ec]; [done..|].
  destruct (call_fifo s c) as [s1 a]. cbn in *.
  specialize (IH s1 ltac:(done) ltac:(lia) HB1).
  by destruct (run_fifo s1 cs).
Qed.

(** The statistics account for every message: as long as the queue is not
    cleared, the messages accepted equal those delivered plus those dropped
    plus those still queued (as 64-bit counters, so also after wrap-around). *)
Theorem queue_stats_account c mx f q cs :
  AsyncQueue.async_queue_create true c mx f = Some q →
  Forall (fun call => call ≠ CClear) cs →
  let st := AsyncQueue.async_queue_get_stats (run_queue q cs).1 in
  u64 (st_enqueue_count st)
  = u64 (st_dequeue_count st + st_dropped_count st + Z.of_nat (st_current_size st)).
Proof.
  intros H HF st. pose proof (represents_create _ _ _ _ H) as R.
  assert (Hc : 0 < c).
  { unfold AsyncQueue.async_queue_create in H. case_bool; [done|]. breflect. lia. }
  destruct (represents_run cs _ _ R) as [[W E] _].
  pose proof (balanced_run cs (FifoSpec.create c mx f) HF Hc eq_refl) as HB.
  rewrite E in HB. unfold balanced in HB; cbn in HB. by rewrite length_contents in HB.
Qed.

Lemma queue_stats_account_witness :
  let st := AsyncQueue.async_queue_get_stats (run_queue (AsyncQueue.mk_queue
     (replicate 2 (AsyncQueue.mk_slot 0 (replicate 3 0%Z))) 2 3 0 0 0 1 0 0 0)
     [CEnqueue (Some [1;2]%Z); CEnqueue (Some [3]%Z); CEnqueue (Some [4;5;6]%Z); CDequeue 9]).1 in
  u64 (st_enqueue_count st)
  = u64 (st_dequeue_count st + st_dropped_count st + Z.of_nat (st_current_size st)).
Proof.
  apply (queue_stats_account 2 3 1); [reflexivity|]. repeat constructor; discriminate.
Defined.
