(* ===== verification/Telnet.v ===== *)
(** * The TELNET stream parser of lib/comm/telnet.cpp

    [comm_telnet_process_inbound] strips TELNET commands from a chunk of input,
    records the options the client negotiates and buffers one subnegotiation.
    The theorems bound what it writes, show that the application bytes do not
    depend on how the stream is cut into chunks, and give the round trips for
    escaped data and for subnegotiations. *)

From S2P Require Import Prelude.

(** ** States and option masks of lib/comm/telnet.hpp *)

Definition S_TELNET_DATA : Z := 0.
Definition S_TELNET_IAC : Z := 1.
Definition S_TELNET_IAC_WILL : Z := 2.
Definition S_TELNET_IAC_WONT : Z := 3.
Definition S_TELNET_IAC_DO : Z := 4.
Definition S_TELNET_IAC_DONT : Z := 5.
Definition S_TELNET_SUBNEG : Z := 6.
Definition S_TELNET_SUBNEG_IAC : Z := 7.

Definition SUBOPT_BUF_SIZE : nat := 1024.

Record comm_telnet_negotiation := mk_neg {
  will_ : list Z;  (* 8 words of 32 bits *)
  do_ : list Z;
  wont_ : list Z;
  dont_ : list Z;
  sb_len : nat;
  subopt_buf : list Z
}.

(** [memset(&telnet_neg, 0, sizeof(telnet_neg))], resp. [telnet_neg{}]. *)
Definition zero_negotiation : comm_telnet_negotiation :=
  mk_neg (replicate 8 0%Z) (replicate 8 0%Z) (replicate 8 0%Z) (replicate 8 0%Z)
    0 (replicate SUBOPT_BUF_SIZE 0%Z).

Definition option_word (byte : Z) : nat := Z.to_nat (Z.shiftr byte 5).
Definition option_bit (byte : Z) : Z := Z.shiftl 1 (Z.land byte 31).

(** [mask[byte >> 5] |= (1 << (byte & 31))] on 32-bit words. *)
Definition set_option (mask : list Z) (byte : Z) : list Z :=
  <[option_word byte := Z.lor (nth (option_word byte) mask 0%Z) (option_bit byte)]> mask.
Definition clear_option (mask : list Z) (byte : Z) : list Z :=
  <[option_word byte :=
      Z.land (nth (option_word byte) mask 0%Z) (u32 (Z.lnot (option_bit byte)))]> mask.
(** [THEY_WILL], [PLEASE_DO], [THEY_WONT] and [PLEASE_DONT]. *)
Definition test_option (mask : list Z) (opt : Z) : bool :=
  negb (Z.land (nth (option_word opt) mask 0%Z) (option_bit opt) =? 0)%Z.

Definition set_sb_len (n : comm_telnet_negotiation) (k : nat) :=
  mk_neg (will_ n) (do_ n) (wont_ n) (dont_ n) k (subopt_buf n).

Definition recv_will (n : comm_telnet_negotiation) (b : Z) :=
  mk_neg (set_option (will_ n) b) (do_ n) (clear_option (wont_ n) b) (dont_ n)
    (sb_len n) (subopt_buf n).
Definition recv_wont (n : comm_telnet_negotiation) (b : Z) :=
  mk_neg (clear_option (will_ n) b) (do_ n) (set_option (wont_ n) b) (dont_ n)
    (sb_len n) (subopt_buf n).
Definition recv_do (n : comm_telnet_negotiation) (b : Z) :=
  mk_neg (will_ n) (set_option (do_ n) b) (wont_ n) (clear_option (dont_ n) b)
    (sb_len n) (subopt_buf n).
Definition recv_dont (n : comm_telnet_negotiation) (b : Z) :=
  mk_neg (will_ n) (clear_option (do_ n) b) (wont_ n) (set_option (dont_ n) b)
    (sb_len n) (subopt_buf n).

(** Buffer one subnegotiation byte, or discard it when the buffer is full. *)
Definition push_subopt (n : comm_telnet_negotiation) (b : Z) :=
  if sb_len n <? SUBOPT_BUF_SIZE then
    mk_neg (will_ n) (do_ n) (wont_ n) (dont_ n) (sb_len n + 1)
      (<[sb_len n := b]> (subopt_buf n))
  else n.

(** ** One byte of input

    [emit] is the byte copied to [dest], if any; [stop] is the early return at
    the end of a subnegotiation. *)
Record step_out := mk_step { so_state : Z; so_neg : comm_telnet_negotiation;
                             so_emit : option Z; so_stop : bool }.

Definition telnet_step (byte state : Z) (n : comm_telnet_negotiation) : step_out :=
  if (state =? S_TELNET_DATA)%Z then
    if (byte =? 255)%Z then mk_step S_TELNET_IAC n None false
    else mk_step state n (Some byte) false
  else if (state =? S_TELNET_IAC)%Z then
    if (byte =? 251)%Z then mk_step S_TELNET_IAC_WILL n None false
    else if (byte =? 252)%Z then mk_step S_TELNET_IAC_WONT n None false
    else if (byte =? 253)%Z then mk_step S_TELNET_IAC_DO n None false
    else if (byte =? 254)%Z then mk_step S_TELNET_IAC_DONT n None false
    else if (byte =? 250)%Z then mk_step S_TELNET_SUBNEG n None false
    else if (byte =? 255)%Z then mk_step S_TELNET_DATA n (Some byte) false
    else mk_step S_TELNET_DATA n None false
  else if (state =? S_TELNET_IAC_WILL)%Z then mk_step S_TELNET_DATA (recv_will n byte) None false
  else if (state =? S_TELNET_IAC_WONT)%Z then mk_step S_TELNET_DATA (recv_wont n byte) None false
  else if (state =? S_TELNET_IAC_DO)%Z then mk_step S_TELNET_DATA (recv_do n byte) None false
  else if (state =? S_TELNET_IAC_DONT)%Z then mk_step S_TELNET_DATA (recv_dont n byte) None false
  else if (state =? S_TELNET_SUBNEG)%Z then
    if (byte =? 255)%Z then mk_step S_TELNET_SUBNEG_IAC n None false
    else mk_step state (push_subopt n byte) None false
  else if (state =? S_TELNET_SUBNEG_IAC)%Z then
    if (byte =? 240)%Z then mk_step S_TELNET_DATA n None true
    else if (byte =? 255)%Z then mk_step S_TELNET_SUBNEG (push_subopt n 255%Z) None false
    else mk_step S_TELNET_SUBNEG n None false
  else mk_step S_TELNET_DATA n None false.

(** ** The loop over the source buffer *)

Record parse_out := mk_parse { po_data : list Z; po_consumed : nat;
                               po_state : Z; po_neg : comm_telnet_negotiation }.

Fixpoint telnet_loop (src : list Z) (i : nat) (state : Z)
    (n : comm_telnet_negotiation) (dest : list Z) : parse_out :=
  match src with
  | [] => mk_parse dest i state n
  | byte :: rest =>
      let o := telnet_step byte state n in
      let dest' := dest ++ option_list (so_emit o) in
      if so_stop o then mk_parse dest' (i + 1) (so_state o) (so_neg o)
      else telnet_loop rest (i + 1) (so_state o) (so_neg o) dest'
  end.

Definition comm_telnet_process_inbound (src : list Z) (state : Z)
    (n : comm_telnet_negotiation) : parse_out :=
  telnet_loop src 0 state (set_sb_len n 0) [].

(** ** Callers feed the stream in pieces

    Both callers ([_refill_inbound_buffers_from_src] and
    [_decode_websocket_telnet_payload]) call the parser again on the
    unconsumed rest, with a cleared negotiation record and the saved state.
    Each call consumes at least one byte, so the chunk length bounds the
    number of calls. *)
Fixpoint feed_chunk (fuel : nat) (src : list Z) (state : Z) : list Z * Z :=
  match fuel, src with
  | _, [] => ([], state)
  | 0, _ => ([], state)
  | S k, _ =>
      let r := comm_telnet_process_inbound src state zero_negotiation in
      let '(d, s) := feed_chunk k (drop (po_consumed r) src) (po_state r) in
      (po_data r ++ d, s)
  end.

Fixpoint feed_chunks (chunks : list (list Z)) (state : Z) : list Z * Z :=
  match chunks with
  | [] => ([], state)
  | c :: cs =>
      let '(d1, s1) := feed_chunk (length c) c state in
      let '(d2, s2) := feed_chunks cs s1 in (d1 ++ d2, s2)
  end.

(** The reference decoder: one state transition per byte of the stream. *)
Fixpoint telnet_data (src : list Z) (state : Z) : list Z * Z :=
  match src with
  | [] => ([], state)
  | b :: rest =>
      let o := telnet_step b state zero_negotiation in
      let '(d, s) := telnet_data rest (so_state o) in
      (option_list (so_emit o) ++ d, s)
  end.

(** ** What a peer sends *)

Inductive telnet_item :=
  | IData (b : Z)                       (* an application byte *)
  | IVerb (verb opt : Z)                (* IAC WILL/WONT/DO/DONT opt *)
  | ICommand (cmd : Z)                  (* IAC cmd, no argument *)
  | ISub (payload : list Z).            (* IAC SB payload IAC SE *)

Definition escape_byte (b : Z) : list Z := if (b =? 255)%Z then [255; 255]%Z else [b].
Definition escape (bs : list Z) : list Z := concat (map escape_byte bs).

Definition encode_item (it : telnet_item) : list Z :=
  match it with
  | IData b => escape_byte b
  | IVerb v o => [255; v; o]%Z
  | ICommand c => [255; c]%Z
  | ISub p => [255; 250]%Z ++ escape p ++ [255; 240]%Z
  end.

Definition item_ok (it : telnet_item) : Prop :=
  match it with
  | IData b => byte_ok b
  | IVerb v _ => (251 ≤ v ≤ 254)%Z
  | ICommand c => (0 ≤ c < 250)%Z
  | ISub p => bytes_ok p
  end.

Definition item_data (it : telnet_item) : list Z :=
  match it with IData b => [b] | _ => [] end.

(** ** Lemmas on the parser *)

Ltac telnet_cases :=
  unfold telnet_step; repeat case_bool; cbn; try done.

(** The data path does not depend on the negotiation record. *)
Lemma telnet_step_indep b s n n' :
  so_state (telnet_step b s n) = so_state (telnet_step b s n') ∧
  so_emit (telnet_step b s n) = so_emit (telnet_step b s n') ∧
  so_stop (telnet_step b s n) = so_stop (telnet_step b s n').
Proof. telnet_cases. Qed.

Lemma telnet_data_app a b s :
  telnet_data (a ++ b) s =
  ((telnet_data a s).1 ++ (telnet_data b (telnet_data a s).2).1,
   (telnet_data b (telnet_data a s).2).2).
Proof.
  revert s. induction a as [|x a IH]; intros s; cbn -[telnet_step].
  - by destruct (telnet_data b s).
  - rewrite IH. destruct (telnet_data a _) as [d1 s1]. cbn. by rewrite app_assoc.
Qed.

(** What one call delivers is what the reference decoder makes of the bytes it
    consumed; a call on a non-empty chunk consumes something. *)
Lemma telnet_loop_spec src : ∀ i s n dest,
  let r := telnet_loop src i s n dest in
  ∃ k d, po_consumed r = i + k ∧ k ≤ length src ∧ (src ≠ [] → 0 < k) ∧
    po_data r = dest ++ d ∧ length d ≤ k ∧
    telnet_data (take k src) s = (d, po_state r).
Proof.
  induction src as [|b src IH]; intros i s n dest; cbn -[telnet_step].
  { exists 0, []. by rewrite Nat.add_0_r, app_nil_r. }
  destruct (telnet_step_indep b s n zero_negotiation) as (E1 & E2 & _).
  assert (He : length (option_list (so_emit (telnet_step b s n))) ≤ 1)
    by (destruct (so_emit _); cbn; lia).
  destruct (so_stop (telnet_step b s n)).
  - exists 1, (option_list (so_emit (telnet_step b s n))).
    cbn -[telnet_step]. rewrite <- E1, <- E2, take_0. cbn -[telnet_step].
    rewrite app_nil_r. repeat split; auto; lia.
  - destruct (IH (i + 1) (so_state (telnet_step b s n)) (so_neg (telnet_step b s n))
                (dest ++ option_list (so_emit (telnet_step b s n))))
      as (k & d & Ec & Hk & _ & Ed & Hd & Et).
    exists (S k), (option_list (so_emit (telnet_step b s n)) ++ d).
    rewrite Ec, Ed, <- app_assoc, length_app. cbn -[telnet_step].
    rewrite <- E1, <- E2, Et. repeat split; auto; lia.
Qed.

Lemma process_inbound_spec src s n :
  let r := comm_telnet_process_inbound src s n in
  po_consumed r ≤ length src ∧ (src ≠ [] → 0 < po_consumed r) ∧
  length (po_data r) ≤ po_consumed r ∧
  telnet_data (take (po_consumed r) src) s = (po_data r, po_state r).
Proof.
  unfold comm_telnet_process_inbound.
  destruct (telnet_loop_spec src 0 s (set_sb_len n 0) []) as (k & d & -> & ? & ? & -> & ? & E).
  cbn in *. auto.
Qed.

Lemma feed_chunk_spec fuel : ∀ src s,
  length src ≤ fuel → feed_chunk fuel src s = telnet_data src s.
Proof.
  induction fuel as [|k IH]; intros src s Hl.
  { by destruct src; [|cbn in Hl; lia]. }
  destruct src as [|b src]; [done|].
  cbn [feed_chunk]. set (l := b :: src) in *.
  destruct (process_inbound_spec l s zero_negotiation) as (Hc & Hp & _ & E).
  specialize (Hp ltac:(done)).
  set (r := comm_telnet_process_inbound l s zero_negotiation) in *.
  rewrite IH by (rewrite length_drop; lia).
  rewrite <- (take_drop (po_consumed r) l) at 2.
  rewrite telnet_data_app, E. cbn. by destruct (telnet_data (drop _ l) _).
Qed.

Lemma feed_chunks_spec cs s : feed_chunks cs s = telnet_data (concat cs) s.
Proof.
  revert s. induction cs as [|c cs IH]; intros s; cbn; [done|].
  rewrite feed_chunk_spec, telnet_data_app by done.
  destruct (telnet_data c s) as [d1 s1]. cbn. rewrite IH. by destruct (telnet_data _ s1).
Qed.

Lemma telnet_data_cons b l s :
  telnet_data (b :: l) s =
  (option_list (so_emit (telnet_step b s zero_negotiation))
     ++ (telnet_data l (so_state (telnet_step b s zero_negotiation))).1,
   (telnet_data l (so_state (telnet_step b s zero_negotiation))).2).
Proof. cbn -[telnet_step]. by destruct (telnet_data l _). Qed.

Lemma telnet_step_subneg b n :
  (b =? 255)%Z = false →
  telnet_step b S_TELNET_SUBNEG n = mk_step S_TELNET_SUBNEG (push_subopt n b) None false.
Proof. intros E. unfold telnet_step. by rewrite E. Qed.

Lemma telnet_data_subneg p :
  bytes_ok p → telnet_data (escape p ++ [255; 240]%Z) S_TELNET_SUBNEG = ([], S_TELNET_DATA).
Proof.
  unfold bytes_ok. induction 1 as [|b p Hb Hp IH]; [done|].
  unfold escape in *. cbn [map concat]. unfold escape_byte at 1.
  destruct (b =? 255)%Z eqn:E; cbn [app].
  - rewrite telnet_data_cons, telnet_data_cons.
    change (so_state (telnet_step 255 (so_state (telnet_step 255 S_TELNET_SUBNEG
      zero_negotiation)) zero_negotiation)) with S_TELNET_SUBNEG.
    by rewrite IH.
  - rewrite telnet_data_cons. rewrite telnet_step_subneg by done. cbn. by rewrite IH.
Qed.

Lemma telnet_data_item it :
  item_ok it → telnet_data (encode_item it) S_TELNET_DATA = (item_data it, S_TELNET_DATA).
Proof.
  destruct it as [b|v o|c|p]; intros Hok.
  - cbn. unfold escape_byte. destruct (b =? 255)%Z eqn:E; breflect; subst; [done|].
    cbn -[telnet_step]. unfold telnet_step. by rewrite (proj2 (Z.eqb_neq b 255) E).
  - cbn in Hok. assert (v = 251 ∨ v = 252 ∨ v = 253 ∨ v = 254)%Z
      as [-> | [-> | [-> | ->]]] by lia; done.
  - cbn in Hok. cbn -[telnet_step]. unfold telnet_step; cbn.
    rewrite !(proj2 (Z.eqb_neq c _)) by lia. done.
  - cbn [encode_item]. rewrite telnet_data_app. cbn -[telnet_data].
    by rewrite telnet_data_subneg.
Qed.

Lemma telnet_data_items its :
  Forall item_ok its →
  telnet_data (concat (map encode_item its)) S_TELNET_DATA
  = (concat (map item_data its), S_TELNET_DATA).
Proof.
  induction 1 as [|it its Hi _ IH]; [done|]. cbn [map concat].
  rewrite telnet_data_app, telnet_data_item by done. cbn [fst snd]. by rewrite IH.
Qed.

(** ** Option masks *)

Lemma land_bit_test w k :
  (0 ≤ k)%Z → negb (Z.land w (Z.shiftl 1 k) =? 0)%Z = Z.testbit w k.
Proof.
  intros Hk. rewrite Z.shiftl_1_l. destruct (Z.testbit w k) eqn:E.
  - apply negb_true_iff, Z.eqb_neq. intros H.
    apply (f_equal (fun x => Z.testbit x k)) in H.
    rewrite Z.land_spec, Z.pow2_bits_true, E in H by done. by rewrite Z.bits_0 in H.
  - apply negb_false_iff, Z.eqb_eq. apply Z.bits_inj'. intros j Hj.
    rewrite Z.land_spec, Z.bits_0, Z.pow2_bits_eqb by done.
    destruct (k =? j)%Z eqn:F; breflect; subst; [by rewrite E | apply andb_false_r].
Qed.

Lemma option_bit_range b : (0 ≤ Z.land b 31 < 32)%Z.
Proof.
  change 31%Z with (Z.ones 5). rewrite Z.land_ones by lia. apply Z.mod_pos_bound. lia.
Qed.

Lemma test_option_bit m o :
  test_option m o = Z.testbit (nth (option_word o) m 0%Z) (Z.land o 31).
Proof. apply land_bit_test. pose proof (option_bit_range o). lia. Qed.

Lemma option_index_inj a b :
  byte_ok a → byte_ok b → option_word a = option_word b → Z.land a 31 = Z.land b 31 → a = b.
Proof.
  unfold option_word, byte_ok. change 31%Z with (Z.ones 5).
  rewrite !Z.land_ones, !Z.shiftr_div_pow2 by lia. intros Ha Hb H1 H2.
  change (2 ^ 5)%Z with 32%Z in *.
  assert (a / 32 = b / 32)%Z.
  { apply Z2Nat.inj; auto; apply Z.div_pos; lia. }
  rewrite (Z.div_mod a 32), (Z.div_mod b 32) by lia. congruence.
Qed.

Lemma option_word_bound b : byte_ok b → option_word b < 8.
Proof.
  unfold byte_ok, option_word. intros Hb. rewrite Z.shiftr_div_pow2 by lia.
  change (2 ^ 5)%Z with 32%Z. assert (b / 32 < 8)%Z by (apply Z.div_lt_upper_bound; lia).
  assert (0 ≤ b / 32)%Z by (apply Z.div_pos; lia). lia.
Qed.

Lemma test_set_option m b o :
  length m = 8 → byte_ok b → byte_ok o →
  test_option (set_option m b) o = bool_decide (o = b) || test_option m o.
Proof.
  intros Hm Hb Ho. rewrite !test_option_bit. unfold set_option.
  destruct (decide (option_word b = option_word o)) as [E|E].
  - rewrite <- E, nth_insert_eq by (rewrite Hm; by apply option_word_bound).
    rewrite Z.lor_spec. unfold option_bit. rewrite Z.shiftl_1_l.
    rewrite Z.pow2_bits_eqb by (pose proof (option_bit_range b); lia).
    rewrite orb_comm. f_equal. case_bool_decide as D.
    + subst. apply Z.eqb_refl.
    + apply Z.eqb_neq. intros F. apply D. symmetry. by apply option_index_inj.
  - rewrite nth_insert_ne by done. rewrite bool_decide_eq_false_2; [done|]. by intros ->.
Qed.

Lemma test_clear_option m b o :
  length m = 8 → byte_ok b → byte_ok o →
  test_option (clear_option m b) o = negb (bool_decide (o = b)) && test_option m o.
Proof.
  intros Hm Hb Ho. rewrite !test_option_bit. unfold clear_option.
  destruct (decide (option_word b = option_word o)) as [E|E].
  - rewrite <- E, nth_insert_eq by (rewrite Hm; by apply option_word_bound).
    pose proof (option_bit_range o). pose proof (option_bit_range b).
    rewrite Z.land_spec. unfold u32. rewrite Z.mod_pow2_bits_low by lia.
    rewrite Z.lnot_spec by lia. unfold option_bit. rewrite Z.shiftl_1_l.
    rewrite Z.pow2_bits_eqb by lia. rewrite andb_comm. do 2 f_equal.
    case_bool_decide as D.
    + subst. apply Z.eqb_refl.
    + apply Z.eqb_neq. intros F. apply D. symmetry. by apply option_index_inj.
  - rewrite nth_insert_ne by done. rewrite bool_decide_eq_false_2; [done|]. by intros ->.
Qed.

Lemma length_set_option m b : length (set_option m b) = length m.
Proof. apply length_insert. Qed.
Lemma length_clear_option m b : length (clear_option m b) = length m.
Proof. apply length_insert. Qed.

(** ** The negotiation record stays well formed *)

Record neg_wf (n : comm_telnet_negotiation) : Prop := {
  nw_will : length (will_ n) = 8;
  nw_do : length (do_ n) = 8;
  nw_wont : length (wont_ n) = 8;
  nw_dont : length (dont_ n) = 8;
  nw_sb : sb_len n ≤ SUBOPT_BUF_SIZE;
  nw_buf : length (subopt_buf n) = SUBOPT_BUF_SIZE
}.

Definition telnet_state_ok (s : Z) : Prop := (0 ≤ s ≤ 7)%Z.

Lemma neg_wf_push n b : neg_wf n → neg_wf (push_subopt n b).
Proof.
  intros [? ? ? ? ? ?]. unfold push_subopt. case_bool; [|done]. breflect.
  constructor; cbn; auto; [lia|]. by rewrite length_insert.
Qed.

Lemma neg_wf_verb n b :
  neg_wf n → neg_wf (recv_will n b) ∧ neg_wf (recv_wont n b) ∧
             neg_wf (recv_do n b) ∧ neg_wf (recv_dont n b).
Proof.
  intros [? ? ? ? ? ?].
  repeat split; cbn; rewrite ?length_set_option, ?length_clear_option; auto.
Qed.

Lemma telnet_step_wf b s n :
  neg_wf n → neg_wf (so_neg (telnet_step b s n)) ∧ telnet_state_ok (so_state (telnet_step b s n)).
Proof.
  intros W. pose proof (neg_wf_verb n b W) as (? & ? & ? & ?).
  unfold telnet_step, telnet_state_ok.
  repeat case_bool; cbn -[push_subopt]; breflect; subst;
    (split; [auto using neg_wf_push | split; vm_compute; discriminate]).
Qed.

Lemma telnet_loop_wf src : ∀ i s n dest,
  neg_wf n → telnet_state_ok s →
  neg_wf (po_neg (telnet_loop src i s n dest)) ∧
  telnet_state_ok (po_state (telnet_loop src i s n dest)).
Proof.
  induction src as [|b src IH]; intros i s n dest W Hs; cbn -[telnet_step]; [done|].
  destruct (telnet_step_wf b s n W). destruct (so_stop _); [done|]. by apply IH.
Qed.

(** C30: one call of the TELNET parser never writes past the bytes it has
    consumed (so a destination as large as the source suffices), never
    consumes more than it was given, makes progress on a non-empty chunk, and
    leaves the subnegotiation length within its 1024-byte buffer, the option
    masks at eight words and the state one of the eight defined ones. *)
Theorem telnet_process_bounds src s n :
  neg_wf n → telnet_state_ok s →
  let r := comm_telnet_process_inbound src s n in
  length (po_data r) ≤ po_consumed r ∧ po_consumed r ≤ length src ∧
  (src ≠ [] → 0 < po_consumed r) ∧ neg_wf (po_neg r) ∧ telnet_state_ok (po_state r).
Proof.
  intros W Hs r. destruct (process_inbound_spec src s n) as (? & ? & ? & _).
  assert (W0 : neg_wf (set_sb_len n 0)) by (destruct W; constructor; cbn; auto; lia).
  pose proof (telnet_loop_wf src 0 s _ [] W0 Hs) as [? ?]. auto 10.
Qed.

Lemma zero_negotiation_wf : neg_wf zero_negotiation.
Proof. constructor; cbn; rewrite ?length_replicate; unfold SUBOPT_BUF_SIZE; lia. Qed.

Lemma telnet_process_bounds_witness :
  let r := comm_telnet_process_inbound [104; 105; 255; 253; 1; 255; 255]%Z 0 zero_negotiation in
  length (po_data r) ≤ 7 ∧ po_data r = [104; 105; 255]%Z ∧ po_consumed r = 7.
Proof.
  pose proof (telnet_process_bounds [104; 105; 255; 253; 1; 255; 255]%Z 0 zero_negotiation
    zero_negotiation_wf ltac:(unfold telnet_state_ok; lia)) as (H1 & H2 & _).
  cbn -[telnet_loop comm_telnet_process_inbound] in H2.
  split; [lia | split; vm_compute; reflexivity].
Defined.

(** C29: the application bytes and the parser state do not depend on how the
    network cuts the stream: feeding any list of chunks, each re-submitted
    until it is consumed, delivers what a single pass over the concatenated
    bytes delivers. *)
Theorem telnet_chunking_irrelevant chunks s :
  feed_chunks chunks s = telnet_data (concat chunks) s.
Proof. apply feed_chunks_spec. Qed.

(** TELNET round trip: whatever mixture of application bytes (escaped),
    option negotiations, two-byte commands and subnegotiations a peer sends,
    in whatever chunks it arrives, the parser delivers exactly the application
    bytes in order and ends in the data state. *)
Theorem telnet_items_roundtrip items chunks :
  Forall item_ok items →
  concat chunks = concat (map encode_item items) →
  feed_chunks chunks S_TELNET_DATA = (concat (map item_data items), S_TELNET_DATA).
Proof. intros HF E. by rewrite feed_chunks_spec, E, telnet_data_items. Qed.

Lemma telnet_items_roundtrip_witness :
  feed_chunks [[104; 255]; [255; 255; 251]; [34; 255; 250; 34]; [1; 255; 240; 33]]%Z
    S_TELNET_DATA = ([104; 255; 33]%Z, S_TELNET_DATA).
Proof.
  rewrite (telnet_items_roundtrip
    [IData 104; IData 255; IVerb 251 34; ISub [34; 1]; IData 33]%Z); [reflexivity| |reflexivity].
  repeat constructor; unfold byte_ok; lia.
Defined.

(** *** Options: the last verb wins *)

Definition verb_effect (v : Z) (cur : bool * bool) : bool * bool :=
  if (v =? 251)%Z then (true, false) else if (v =? 252)%Z then (false, true) else cur.
Definition ask_effect (v : Z) (cur : bool * bool) : bool * bool :=
  if (v =? 253)%Z then (true, false) else if (v =? 254)%Z then (false, true) else cur.

(** The client's claim (WILL, WONT) and request (DO, DONT) about an option
    after a sequence of verbs. *)
Definition claims_after (opt : Z) (vs : list (Z * Z)) (cur : bool * bool) : bool * bool :=
  fold_left (fun c '(v, o) => if bool_decide (opt = o) then verb_effect v c else c) vs cur.
Definition asks_after (opt : Z) (vs : list (Z * Z)) (cur : bool * bool) : bool * bool :=
  fold_left (fun c '(v, o) => if bool_decide (opt = o) then ask_effect v c else c) vs cur.

Definition verbs_wire (vs : list (Z * Z)) : list Z :=
  concat (map (fun '(v, o) => [255; v; o]%Z) vs).
Definition verb_ok (vo : Z * Z) : Prop := (251 ≤ vo.1 ≤ 254)%Z ∧ byte_ok vo.2.

Definition claim_state (n : comm_telnet_negotiation) (opt : Z) : bool * bool :=
  (test_option (will_ n) opt, test_option (wont_ n) opt).
Definition ask_state (n : comm_telnet_negotiation) (opt : Z) : bool * bool :=
  (test_option (do_ n) opt, test_option (dont_ n) opt).

Definition recv_verb (v : Z) (n : comm_telnet_negotiation) (o : Z) :=
  if (v =? 251)%Z then recv_will n o else if (v =? 252)%Z then recv_wont n o
  else if (v =? 253)%Z then recv_do n o else recv_dont n o.

Lemma recv_verb_state v n o opt :
  neg_wf n → byte_ok o → byte_ok opt → (251 ≤ v ≤ 254)%Z →
  claim_state (recv_verb v n o) opt
    = (if bool_decide (opt = o) then verb_effect v (claim_state n opt) else claim_state n opt) ∧
  ask_state (recv_verb v n o) opt
    = (if bool_decide (opt = o) then ask_effect v (ask_state n opt) else ask_state n opt) ∧
  neg_wf (recv_verb v n o).
Proof.
  intros W Ho Hopt Hv. pose proof (neg_wf_verb n o W) as (? & ? & ? & ?). destruct W.
  assert (v = 251 ∨ v = 252 ∨ v = 253 ∨ v = 254)%Z as [-> | [-> | [-> | ->]]] by lia;
    cbn; unfold claim_state, ask_state; cbn;
    rewrite ?test_set_option, ?test_clear_option by done;
    case_bool_decide; cbn; auto.
Qed.

Lemma telnet_loop_verb v o rest i n dest :
  (251 ≤ v ≤ 254)%Z →
  telnet_loop (255 :: v :: o :: rest)%Z i S_TELNET_DATA n dest
  = telnet_loop rest (i + 1 + 1 + 1) S_TELNET_DATA (recv_verb v n o) (((dest ++ []) ++ []) ++ []).
Proof.
  intros Hv. assert (v = 251 ∨ v = 252 ∨ v = 253 ∨ v = 254)%Z as [-> | [-> | [-> | ->]]] by lia;
    reflexivity.
Qed.

Lemma telnet_loop_verbs vs : ∀ i n dest opt,
  neg_wf n → Forall verb_ok vs → byte_ok opt →
  let n' := po_neg (telnet_loop (verbs_wire vs) i S_TELNET_DATA n dest) in
  claim_state n' opt = claims_after opt vs (claim_state n opt) ∧
  ask_state n' opt = asks_after opt vs (ask_state n opt).
Proof.
  induction vs as [|[v o] vs IH]; intros i n dest opt W HF Ho; [done|].
  inversion HF as [|? ? [Hv Hb] HF']; subst. cbn in Hv, Hb.
  unfold verbs_wire. cbn [map concat app]. rewrite telnet_loop_verb by done.
  destruct (recv_verb_state v n o opt W Hb Ho Hv) as (E1 & E2 & W').
  destruct (IH (i + 1 + 1 + 1) (recv_verb v n o) (((dest ++ []) ++ []) ++ []) opt W' HF' Ho)
    as [F1 F2].
  unfold verbs_wire in F1, F2. cbn zeta. rewrite F1, F2, E1, E2. done.
Qed.

(** The option masks record negotiation faithfully for all 256 options:
    after any sequence of WILL/WONT/DO/DONT commands, an option is claimed
    (or refused, requested, forbidden) exactly as the last command about it
    says, and commands about other options leave it alone. *)
Theorem telnet_last_verb_wins vs opt :
  Forall verb_ok vs → byte_ok opt →
  let n := po_neg (comm_telnet_process_inbound (verbs_wire vs) S_TELNET_DATA zero_negotiation) in
  claim_state n opt = claims_after opt vs (false, false) ∧
  ask_state n opt = asks_after opt vs (false, false).
Proof.
  intros HF Ho n.
  destruct (telnet_loop_verbs vs 0 (set_sb_len zero_negotiation 0) [] opt zero_negotiation_wf HF Ho)
    as [E1 E2].
  unfold n, comm_telnet_process_inbound. rewrite E1, E2.
  unfold claim_state, ask_state. cbn [set_sb_len will_ do_ wont_ dont_ zero_negotiation].
  rewrite !test_option_bit, !nth_replicate_default. by rewrite Z.bits_0.
Qed.

Lemma telnet_last_verb_wins_witness :
  let n := po_neg (comm_telnet_process_inbound
    (verbs_wire [(251, 34); (253, 1); (252, 34); (251, 255)]%Z) S_TELNET_DATA zero_negotiation) in
  claim_state n 34 = (false, true) ∧ ask_state n 34 = (false, false).
Proof.
  apply (telnet_last_verb_wins [(251, 34); (253, 1); (252, 34); (251, 255)]%Z 34);
    [|unfold byte_ok; lia].
  repeat constructor; cbn; unfold byte_ok; try lia.
Defined.

(** *** Subnegotiations *)

Definition sb_payload (n : comm_telnet_negotiation) : list Z := take (sb_len n) (subopt_buf n).

Lemma push_subopt_payload n b :
  neg_wf n → sb_len n < SUBOPT_BUF_SIZE →
  sb_payload (push_subopt n b) = sb_payload n ++ [b] ∧ neg_wf (push_subopt n b) ∧
  sb_len (push_subopt n b) = sb_len n + 1.
Proof.
  intros W Hl. split; [|split].
  - unfold push_subopt, sb_payload. rewrite (proj2 (Nat.ltb_lt _ _) Hl). cbn.
    destruct W as [? ? ? ? ? Hb]. rewrite Nat.add_1_r.
    rewrite (take_S_r _ _ b) by (apply list_lookup_insert_eq; lia).
    by rewrite take_insert_ge by lia.
  - by apply neg_wf_push.
  - unfold push_subopt. by rewrite (proj2 (Nat.ltb_lt _ _) Hl).
Qed.

Lemma telnet_loop_cons b rest i s n dest :
  so_stop (telnet_step b s n) = false →
  telnet_loop (b :: rest) i s n dest
  = telnet_loop rest (i + 1) (so_state (telnet_step b s n)) (so_neg (telnet_step b s n))
      (dest ++ option_list (so_emit (telnet_step b s n))).
Proof. intros E. cbn -[telnet_step]. by rewrite E. Qed.

Lemma telnet_loop_subneg_byte b rest i n dest :
  telnet_loop (escape_byte b ++ rest) i S_TELNET_SUBNEG n dest
  = telnet_loop rest (i + length (escape_byte b)) S_TELNET_SUBNEG (push_subopt n b) dest.
Proof.
  unfold escape_byte. destruct (b =? 255)%Z eqn:E; cbn [app length].
  - apply Z.eqb_eq in E. subst b.
    rewrite telnet_loop_cons by done. rewrite telnet_loop_cons by done.
    change (so_emit (telnet_step 255 S_TELNET_SUBNEG n)) with (@None Z).
    change (so_neg (telnet_step 255 S_TELNET_SUBNEG n)) with n.
    change (so_state (telnet_step 255 S_TELNET_SUBNEG n)) with S_TELNET_SUBNEG_IAC.
    change (telnet_step 255 S_TELNET_SUBNEG_IAC n)
      with (mk_step S_TELNET_SUBNEG (push_subopt n 255) None false).
    cbn [so_state so_neg so_emit option_list]. rewrite !app_nil_r. f_equal. lia.
  - rewrite telnet_loop_cons by (by rewrite telnet_step_subneg).
    rewrite telnet_step_subneg by done. cbn [so_state so_neg so_emit option_list].
    by rewrite app_nil_r.
Qed.

(** In the subnegotiation state, an escaped payload that fits is appended to
    the buffer. *)
Lemma telnet_loop_subneg_payload p : ∀ rest i n dest,
  neg_wf n → sb_len n + length p ≤ SUBOPT_BUF_SIZE →
  ∃ n', telnet_loop (escape p ++ rest) i S_TELNET_SUBNEG n dest
        = telnet_loop rest (i + length (escape p)) S_TELNET_SUBNEG n' dest ∧
    sb_payload n' = sb_payload n ++ p ∧ sb_len n' = sb_len n + length p ∧ neg_wf n'.
Proof.
  unfold escape. induction p as [|b p IH]; intros rest i n dest W Hl; cbn [map concat length].
  { exists n. rewrite app_nil_r, !Nat.add_0_r. done. }
  destruct (push_subopt_payload n b W) as (Ep & W' & El); [cbn in Hl; lia|].
  destruct (IH rest (i + length (escape_byte b)) (push_subopt n b) dest W') as (n' & E & Es & El' & Wn).
  { cbn in Hl. lia. }
  exists n'. rewrite <- app_assoc, telnet_loop_subneg_byte, E, length_app, Es, El', Ep, El.
  rewrite <- app_assoc. split; [f_equal; lia|]. split; [done|]. split; [lia|done].
Qed.

Lemma telnet_loop_subneg p rest i n dest :
  neg_wf n → sb_len n + length p ≤ SUBOPT_BUF_SIZE →
  let r := telnet_loop (escape p ++ [255; 240]%Z ++ rest) i S_TELNET_SUBNEG n dest in
  sb_payload (po_neg r) = sb_payload n ++ p ∧ sb_len (po_neg r) = sb_len n + length p ∧
  po_state r = S_TELNET_DATA ∧ po_consumed r = i + length (escape p) + 2 ∧ po_data r = dest.
Proof.
  intros W Hl r. destruct (telnet_loop_subneg_payload p ([255; 240]%Z ++ rest) i n dest W Hl)
    as (n' & E & Es & El & _).
  unfold r. rewrite E. cbn [app]. rewrite telnet_loop_cons by done. cbn.
  rewrite !app_nil_r. repeat split; auto; lia.
Qed.

Lemma neg_wf_reset n : neg_wf n → neg_wf (set_sb_len n 0) ∧ sb_payload (set_sb_len n 0) = [].
Proof. intros []. split; [constructor; cbn; auto; lia | done]. Qed.

(** A subnegotiation that arrives in one chunk is handed over unchanged:
    the parser stops right after IAC SE, with the unescaped payload of up to
    1024 bytes in the buffer, no application byte emitted and the following
    bytes unconsumed. *)
Theorem telnet_subnegotiation_roundtrip p rest n :
  neg_wf n → length p ≤ SUBOPT_BUF_SIZE →
  let r := comm_telnet_process_inbound
             (encode_item (ISub p) ++ rest) S_TELNET_DATA n in
  sb_payload (po_neg r) = p ∧ sb_len (po_neg r) = length p ∧
  po_consumed r = length (encode_item (ISub p)) ∧
  po_data r = [] ∧ po_state r = S_TELNET_DATA.
Proof.
  intros W Hl r. destruct (neg_wf_reset n W) as [W0 E0].
  destruct (telnet_loop_subneg p rest 2 (set_sb_len n 0) [] W0 Hl) as (F1 & F2 & F3 & F4 & F5).
  assert (E : r = telnet_loop (escape p ++ [255; 240]%Z ++ rest) 2 S_TELNET_SUBNEG
                    (set_sb_len n 0) []).
  { unfold r, comm_telnet_process_inbound. cbn [encode_item app].
    rewrite <- app_assoc. reflexivity. }
  rewrite <- E in *. rewrite E0 in F1. cbn in F1, F2. repeat split; auto.
  rewrite F4. cbn. rewrite length_app. cbn. lia.
Qed.

Lemma telnet_subnegotiation_roundtrip_witness :
  let r := comm_telnet_process_inbound
    [255; 250; 34; 3; 255; 255; 255; 240; 104; 105]%Z S_TELNET_DATA zero_negotiation in
  sb_payload (po_neg r) = [34; 3; 255]%Z ∧ po_consumed r = 8.
Proof.
  destruct (telnet_subnegotiation_roundtrip [34; 3; 255]%Z [104; 105]%Z zero_negotiation)
    as (E & _ & F & _).
  - apply zero_negotiation_wf.
  - vm_compute; lia.
  - split; [exact E | exact F].
Defined.

(** A subnegotiation whose bytes arrive in two chunks is not reassembled:
    the callers hand each call a cleared record and the parser resets the
    length on entry, so the call that sees IAC SE delivers only the part of
    the payload of its own chunk, and the call before it leaves the unfinished
    part in the record with a non-zero length, which its caller dispatches as
    a complete subnegotiation. *)
Theorem telnet_split_subnegotiation_truncated p1 p2 rest :
  p1 ≠ [] → length p1 + length p2 ≤ SUBOPT_BUF_SIZE →
  let r1 := comm_telnet_process_inbound ([255; 250]%Z ++ escape p1)
              S_TELNET_DATA zero_negotiation in
  let r2 := comm_telnet_process_inbound (escape p2 ++ [255; 240]%Z ++ rest)
              (po_state r1) zero_negotiation in
  po_consumed r1 = 2 + length (escape p1) ∧ sb_payload (po_neg r1) = p1 ∧
  0 < sb_len (po_neg r1) ∧ sb_payload (po_neg r2) = p2.
Proof.
  intros Hne Hl r1 r2.
  destruct (neg_wf_reset zero_negotiation zero_negotiation_wf) as [W0 E0].
  destruct (telnet_loop_subneg_payload p1 [] 2 (set_sb_len zero_negotiation 0) [] W0
              ltac:(cbn; lia)) as (n' & E & Es & El & _).
  assert (E1 : r1 = mk_parse [] (2 + length (escape p1)) S_TELNET_SUBNEG n').
  { rewrite app_nil_r in E. cbn [telnet_loop] in E. rewrite <- E. reflexivity. }
  destruct (telnet_loop_subneg p2 rest 0 (set_sb_len zero_negotiation 0) [] W0 ltac:(cbn; lia))
    as (K1 & _).
  rewrite E1. cbn [po_consumed po_neg]. rewrite Es, El, E0. repeat split.
  - cbn. destruct p1; cbn; [done|lia].
  - unfold r2. rewrite E1. unfold comm_telnet_process_inbound. cbn [po_state].
    etransitivity; [exact K1|]. by rewrite E0.
Qed.

Lemma telnet_split_subnegotiation_truncated_witness :
  let r1 := comm_telnet_process_inbound [255; 250; 24; 0]%Z S_TELNET_DATA zero_negotiation in
  let r2 := comm_telnet_process_inbound [120; 116; 255; 240]%Z (po_state r1) zero_negotiation in
  sb_payload (po_neg r1) = [24; 0]%Z ∧ sb_payload (po_neg r2) = [120; 116]%Z.
Proof.
  destruct (telnet_split_subnegotiation_truncated [24; 0]%Z [120; 116]%Z [])
    as (_ & E1 & _ & E2); [discriminate | vm_compute; lia |].
  split; [exact E1 | exact E2].
Defined.
