(* ===== verification/Utf8.v ===== *)
(** * UTF-8 validation (lib/comm/websocket.cpp, [is_valid_utf8])

    The decoder of WebSocket text messages accepts a byte string exactly when
    it is the encoding of a sequence of Unicode scalar values. *)

From S2P Require Import Prelude.

(** ** The validator *)

(** The loop over the continuation bytes: the accumulated code point and the
    rest of the input, or [None] for [return false]. *)
Fixpoint continuation_loop (count : nat) (codepoint : Z) (value : list Z)
    : option (Z * list Z) :=
  match count with
  | 0 => Some (codepoint, value)
  | S k =>
      match value with
      | [] => None
      | next :: rest =>
          if negb (Z.land next 0xc0 =? 0x80)%Z then None
          else continuation_loop k (Z.lor (Z.shiftl codepoint 6) (Z.land next 0x3f)) rest
      end
  end.

(** Lead byte: initial code point bits and number of continuation bytes. *)
Definition lead_byte (first : Z) : option (Z * nat) :=
  if ((0xc2 <=? first) && (first <=? 0xdf))%Z then Some (Z.land first 0x1f, 1)
  else if ((0xe0 <=? first) && (first <=? 0xef))%Z then Some (Z.land first 0x0f, 2)
  else if ((0xf0 <=? first) && (first <=? 0xf4))%Z then Some (Z.land first 0x07, 3)
  else None.

(** Overlong forms, surrogates and values above U+10FFFF. *)
Definition bad_codepoint (count : nat) (cp : Z) : bool :=
  ((count =? 1) && (cp <? 0x80)%Z) || ((count =? 2) && (cp <? 0x800)%Z) ||
  ((count =? 3) && (cp <? 0x10000)%Z) ||
  ((0xd800 <=? cp) && (cp <=? 0xdfff))%Z || (0x10ffff <? cp)%Z.

(** [value] is the suffix at index [i]; every iteration consumes a byte, so
    the length bounds the number of iterations. *)
Fixpoint utf8_loop (fuel : nat) (value : list Z) : bool :=
  match value with
  | [] => true
  | first :: rest =>
      match fuel with
      | 0 => false
      | S k =>
          if (first <=? 0x7f)%Z then utf8_loop k rest
          else
            match lead_byte first with
            | None => false
            | Some (cp0, count) =>
                if length rest <? count then false
                else
                  match continuation_loop count cp0 rest with
                  | None => false
                  | Some (cp, rest') =>
                      if bad_codepoint count cp then false else utf8_loop k rest'
                  end
            end
      end
  end.

Definition is_valid_utf8 (value : list Z) : bool := utf8_loop (length value) value.

(** ** Unicode *)

Definition scalar_value (cp : Z) : Prop :=
  (0 ≤ cp ≤ 0x10ffff ∧ ¬ (0xd800 ≤ cp ≤ 0xdfff))%Z.

(** The encoding of a scalar value (RFC 3629, section 3). *)
Definition utf8_encode (cp : Z) : list Z :=
  (if cp <? 0x80 then [cp]
   else if cp <? 0x800 then [0xc0 + cp / 64; 0x80 + cp mod 64]
   else if cp <? 0x10000 then [0xe0 + cp / 4096; 0x80 + cp / 64 mod 64; 0x80 + cp mod 64]
   else [0xf0 + cp / 262144; 0x80 + cp / 4096 mod 64; 0x80 + cp / 64 mod 64;
         0x80 + cp mod 64])%Z.

(** ** Lemmas *)

Lemma land_mask (b n : Z) : (0 ≤ n)%Z → Z.land b (Z.ones n) = (b mod 2 ^ n)%Z.
Proof. intros. by apply Z.land_ones. Qed.

Lemma continuation_byte b :
  byte_ok b → (Z.land b 0xc0 =? 0x80)%Z = ((0x80 <=? b) && (b <? 0xc0))%Z.
Proof.
  intros Hb. apply eqb_prop.
  apply (forall_byte (fun b => eqb (Z.land b 0xc0 =? 0x80)%Z ((0x80 <=? b) && (b <? 0xc0))%Z));
    [vm_compute; reflexivity | done].
Qed.

(** Accumulating six bits. *)
Lemma push_six cp b :
  (0x80 ≤ b < 0xc0)%Z → Z.lor (Z.shiftl cp 6) (Z.land b 0x3f) = (cp * 64 + (b - 0x80))%Z.
Proof.
  intros Hb. change 0x3f%Z with (Z.ones 6). rewrite land_mask by lia.
  rewrite shiftl_lor_add by (try (apply Z.mod_pos_bound); lia).
  change (2 ^ 6)%Z with 64%Z. f_equal. symmetry. apply Z.mod_unique with 2%Z; lia.
Qed.

Lemma continuation_loop_S k cp b rest :
  byte_ok b →
  continuation_loop (S k) cp (b :: rest) =
    if ((0x80 <=? b) && (b <? 0xc0))%Z then continuation_loop k (cp * 64 + (b - 0x80)) rest
    else None.
Proof.
  intros Hb. cbn [continuation_loop]. rewrite continuation_byte by done.
  destruct ((0x80 <=? b) && (b <? 0xc0))%Z eqn:E; [|done]. breflect.
  cbn [negb]. by rewrite push_six by lia.
Qed.

Definition lead_bits (count : nat) : Z :=
  match count with 1 => 0xc0%Z | 2 => 0xe0%Z | _ => 0xf0%Z end.

Definition lead_room (count : nat) : Z :=
  match count with 1 => 32%Z | 2 => 16%Z | _ => 8%Z end.

Lemma lead_byte_spec first cp count :
  byte_ok first → lead_byte first = Some (cp, count) →
  (1 ≤ count ≤ 3) ∧ cp = (first - lead_bits count)%Z ∧ (0 ≤ cp < lead_room count)%Z.
Proof.
  unfold lead_byte, byte_ok. intros Hb.
  change 0x1f%Z with (Z.ones 5). change 0x0f%Z with (Z.ones 4). change 0x07%Z with (Z.ones 3).
  rewrite !land_mask by lia.
  repeat case_bool; intros E; simplify_eq; breflect; cbn [lead_bits lead_room];
    (assert (Hm : ∀ m q, (0 < m → q * m ≤ first < q * m + m → first mod m = first - q * m)%Z)
      by (intros m q ? ?; symmetry; apply Z.mod_unique with q; lia)).
  - change (2 ^ 5)%Z with 32%Z. rewrite (Hm 32 6)%Z by lia. lia.
  - change (2 ^ 4)%Z with 16%Z. rewrite (Hm 16 14)%Z by lia. lia.
  - change (2 ^ 3)%Z with 8%Z. rewrite (Hm 8 30)%Z by lia. lia.
Qed.

Ltac Zify.zify_post_hook ::= Z.div_mod_to_equations.

(** One accepted multi-byte character is the encoding of its code point. *)
Lemma accepted_char first rest cp0 count cp rest' :
  bytes_ok (first :: rest) → lead_byte first = Some (cp0, count) →
  continuation_loop count cp0 rest = Some (cp, rest') → bad_codepoint count cp = false →
  scalar_value cp ∧ first :: rest = utf8_encode cp ++ rest'.
Proof.
  intros Hok Hl Hc Hb. inversion Hok as [|? ? Hf Hr]; subst.
  destruct (lead_byte_spec _ _ _ Hf Hl) as (Hn & Ecp & Hup).
  assert (count = 1 ∨ count = 2 ∨ count = 3) as [-> | [-> | ->]] by lia.
  all: repeat match goal with
       | H : continuation_loop (S _) _ ?l = _ |- _ =>
           destruct l as [|? l]; [discriminate H|];
           match goal with HH : Forall byte_ok (_ :: _) |- _ => inversion HH; subst; clear HH end;
           rewrite continuation_loop_S in H by done; case_bool; [|discriminate H]; breflect
       end.
  all: cbn [continuation_loop] in Hc; simplify_eq; unfold bad_codepoint in Hb; cbn in Hb;
    cbn [lead_bits lead_room] in *; rewrite ?orb_false_l in Hb; breflect.
  all: match goal with H : (_ && _) = false |- _ => apply andb_false_iff in H end.
  all: unfold scalar_value, utf8_encode.
  all: split; [destruct_or?; breflect; lia|].
  all: repeat (case_bool; breflect; [lia|]) || (case_bool; breflect); try lia.
  all: cbn [app]; repeat f_equal; lia.
Qed.

Lemma lead_byte_intro first :
  ((0xc2 ≤ first ≤ 0xdf → lead_byte first = Some (first - 0xc0, 1%nat)) ∧
   (0xe0 ≤ first ≤ 0xef → lead_byte first = Some (first - 0xe0, 2%nat)) ∧
   (0xf0 ≤ first ≤ 0xf4 → lead_byte first = Some (first - 0xf0, 3%nat)))%Z.
Proof.
  unfold lead_byte.
  change 0x1f%Z with (Z.ones 5). change 0x0f%Z with (Z.ones 4). change 0x07%Z with (Z.ones 3).
  rewrite !land_mask by lia.
  change (2 ^ 5)%Z with 32%Z. change (2 ^ 4)%Z with 16%Z. change (2 ^ 3)%Z with 8%Z.
  repeat split; intros; repeat case_bool; breflect; try (f_equal; f_equal; lia);
    repeat match goal with H : (_ && _) = false |- _ => apply andb_false_iff in H; destruct H end;
    breflect; lia.
Qed.

Lemma utf8_encode_bytes cp : scalar_value cp → bytes_ok (utf8_encode cp) ∧ utf8_encode cp ≠ [].
Proof.
  unfold scalar_value, utf8_encode. intros H. split; [|repeat case_bool; discriminate].
  repeat case_bool; breflect; repeat constructor; lia.
Qed.

Lemma continuation_loop_ok k cp x rest :
  (0 ≤ x < 64)%Z →
  continuation_loop (S k) cp ((0x80 + x)%Z :: rest) = continuation_loop k (cp * 64 + x) rest.
Proof.
  intros Hx. rewrite continuation_loop_S by (unfold byte_ok; lia).
  rewrite (proj2 (Z.leb_le _ _)), (proj2 (Z.ltb_lt _ _)) by lia. cbn [andb]. f_equal. lia.
Qed.

Definition min_codepoint (count : nat) : Z :=
  match count with 1 => 0x80%Z | 2 => 0x800%Z | 3 => 0x10000%Z | _ => 0%Z end.

Lemma good_codepoint count cp :
  scalar_value cp → (min_codepoint count ≤ cp)%Z → bad_codepoint count cp = false.
Proof.
  intros Hs Hm. unfold bad_codepoint, scalar_value in *.
  destruct (_ || _) eqn:E; [|done]. exfalso.
  repeat (apply orb_true_iff in E as [E|E]); breflect; subst; cbn [min_codepoint] in Hm; lia.
Qed.

(** The validator steps over one encoded scalar value. *)
Lemma utf8_loop_encode cp rest k :
  scalar_value cp → utf8_loop (S k) (utf8_encode cp ++ rest) = utf8_loop k rest.
Proof.
  intros Hs. unfold utf8_encode. pose proof Hs as [Hr _].
  destruct (lead_byte_intro (0xc0 + cp / 64)%Z) as (L1 & _).
  destruct (lead_byte_intro (0xe0 + cp / 4096)%Z) as (_ & L2 & _).
  destruct (lead_byte_intro (0xf0 + cp / 262144)%Z) as (_ & _ & L3).
  destruct (cp <? 0x80)%Z eqn:E1; [|destruct (cp <? 0x800)%Z eqn:E2;
    [|destruct (cp <? 0x10000)%Z eqn:E3]]; breflect; cbn [app utf8_loop].
  { case_bool; breflect; [done|lia]. }
  all: first [rewrite L1 by lia | rewrite L2 by lia | rewrite L3 by lia].
  all: case_bool; breflect; [lia|]; case_bool; breflect; [cbn in *; lia|].
  all: rewrite !continuation_loop_ok by lia; cbn [continuation_loop].
  all: match goal with |- context [bad_codepoint _ ?c] => replace c with cp by lia end.
  all: rewrite good_codepoint by (try done; cbn [min_codepoint]; lia); done.
Qed.

Lemma utf8_loop_complete cps fuel :
  Forall scalar_value cps → length (concat (map utf8_encode cps)) ≤ fuel →
  utf8_loop fuel (concat (map utf8_encode cps)) = true.
Proof.
  intros H. revert fuel. induction H as [|cp cps Hs _ IH]; intros fuel Hl; cbn [map concat] in *.
  { by destruct fuel. }
  destruct (utf8_encode_bytes cp Hs) as [_ Hne]. rewrite length_app in Hl.
  destruct fuel as [|k]; [destruct (utf8_encode cp); [done | cbn in Hl; lia]|].
  rewrite utf8_loop_encode by done. apply IH. destruct (utf8_encode cp); [done | cbn in Hl; lia].
Qed.

Lemma utf8_loop_sound fuel : ∀ value,
  bytes_ok value → utf8_loop fuel value = true →
  ∃ cps, Forall scalar_value cps ∧ value = concat (map utf8_encode cps).
Proof.
  induction fuel as [|k IH]; intros value Hok H.
  { destruct value; [|done]. by exists []. }
  destruct value as [|first rest]; [by exists []|]. cbn [utf8_loop] in H.
  destruct (first <=? 0x7f)%Z eqn:E.
  - inversion Hok as [|? ? Hf Hr]; subst. destruct (IH rest Hr H) as (cps & HF & ->).
    breflect. unfold byte_ok in Hf. exists (first :: cps). split.
    + constructor; [unfold scalar_value; lia | done].
    + cbn. unfold utf8_encode at 2. by rewrite (proj2 (Z.ltb_lt first 128)) by lia.
  - destruct (lead_byte first) as [[cp0 count]|] eqn:Hl; [|done].
    destruct (length rest <? count); [done|].
    destruct (continuation_loop count cp0 rest) as [[cp rest']|] eqn:Hc; [|done].
    destruct (bad_codepoint count cp) eqn:Hb; [done|].
    destruct (accepted_char _ _ _ _ _ _ Hok Hl Hc Hb) as [Hs Eq].
    rewrite Eq in Hok. apply Forall_app in Hok as [_ Hr'].
    destruct (IH rest' Hr' H) as (cps & HF & ->).
    exists (cp :: cps). split; [by constructor | done].
Qed.

(** ** Property *)

(** C32: [is_valid_utf8] accepts a byte string if and only if it is the UTF-8
    encoding of some sequence of Unicode scalar values: overlong forms,
    surrogates, values above U+10FFFF, stray and missing continuation bytes
    are all refused, and nothing well-formed is. *)
Theorem is_valid_utf8_correct value :
  bytes_ok value →
  is_valid_utf8 value = true ↔
  ∃ cps, Forall scalar_value cps ∧ value = concat (map utf8_encode cps).
Proof.
  intros Hok. split.
  - by apply utf8_loop_sound.
  - intros (cps & HF & ->). by apply utf8_loop_complete.
Qed.

Lemma is_valid_utf8_correct_witness :
  is_valid_utf8 [0x68; 0xc3; 0xa9; 0xe4; 0xb8; 0xad; 0xf0; 0x9f; 0x98; 0x80]%Z = true ∧
  ¬ ∃ cps, Forall scalar_value cps ∧ [0xed; 0xa0; 0x80]%Z = concat (map utf8_encode cps).
Proof.
  split.
  - apply is_valid_utf8_correct; [repeat constructor; lia|].
    exists [0x68; 0xe9; 0x4e2d; 0x1f600]%Z. split; [|reflexivity].
    repeat constructor; lia.
  - intros H. apply is_valid_utf8_correct in H; [vm_compute in H; discriminate H|].
    repeat constructor; lia.
Defined.
