(* ===== verification/WsFrame.v ===== *)
(** * WebSocket frames (lib/comm/websocket.cpp)

    The encoder of server frames, the decoder of one client frame, the close
    payload, and the frame format of RFC 6455 section 5.2 that both are
    checked against. *)

From S2P Require Import Prelude.

(** ** Encoder: [comm_websocket_encode_frame] *)

(** [None] is [return false]; a payload is a list, so its size is below 2^64
    by construction of the caller. *)
Definition comm_websocket_encode_frame (payload : list Z) (opcode : Z) : option (list Z) :=
  if (0x0f <? opcode)%Z || (2 ^ 64 - 1 <? Z.of_nat (length payload))%Z then None
  else
    let size := Z.of_nat (length payload) in
    let header :=
      if (size <=? 125)%Z then [size]
      else if (size <=? 0xffff)%Z then
        [126; Z.land (Z.shiftr size 8) 0xff; Z.land size 0xff]%Z
      else
        127%Z :: map (fun shift => Z.land (Z.shiftr size shift) 0xff)
                   [56; 48; 40; 32; 24; 16; 8; 0]%Z in
    Some (Z.lor 0x80 opcode :: header ++ payload).

(** [websocket_close_code]: the status code of a close payload, 0 without one. *)
Definition websocket_close_code (payload : list Z) : Z :=
  match payload with
  | a :: b :: _ => Z.lor (Z.shiftl a 8) b
  | _ => 0%Z
  end.

(** The two-byte payload [comm_process_websocket_input] sends with a code. *)
Definition close_payload (code : Z) : list Z :=
  [Z.land (Z.shiftr code 8) 0xff; Z.land code 0xff]%Z.

(** ** Decoder: the part of [comm_websocket_process_inbound] up to [offset += frame_size] *)

Definition kMaxMessageBytes : Z := (64 * 1024)%Z.

Inductive frame_result :=
  | NeedMore                       (* [break]: the frame is not complete *)
  | BadFrame (close_code : Z)      (* [return false] *)
  | Frame (fin : bool) (opcode : Z) (payload : list Z) (frame_size : nat).

Definition byte_at (wire : list Z) (i : nat) : Z := nth i wire 0%Z.

(** [payload[i] = wire[...] ^ mask[i % 4]]. *)
Definition unmask (mask data : list Z) : list Z :=
  imap (fun i b => Z.lxor b (nth (i mod 4) mask 0%Z)) data.

(** The length fields: [None] asks for more bytes, [inr] is [return false]. *)
Definition frame_length (wire : list Z) : option ((Z * nat) + unit) :=
  let second := byte_at wire 1 in
  let payload_size := Z.land second 0x7f in
  if (payload_size =? 126)%Z then
    if length wire <? 4 then None
    else Some (inl (Z.lor (Z.shiftl (byte_at wire 2) 8) (byte_at wire 3), 4))
  else if (payload_size =? 127)%Z then
    if length wire <? 10 then None
    else if negb (Z.land (byte_at wire 2) 0x80 =? 0)%Z then Some (inr tt)
    else Some (inl (be_combine (take 8 (drop 2 wire)), 10))
  else Some (inl (payload_size, 2)).

(** [wire] is the suffix at [offset]. *)
Definition decode_frame (wire : list Z) : frame_result :=
  if length wire <? 2 then NeedMore
  else
    let first := byte_at wire 0 in
    let second := byte_at wire 1 in
    let fin := negb (Z.land first 0x80 =? 0)%Z in
    let rsv := Z.land first 0x70 in
    let opcode := Z.land first 0x0f in
    let masked := negb (Z.land second 0x80 =? 0)%Z in
    if negb (rsv =? 0)%Z || negb masked || ((3 <=? opcode) && (opcode <=? 7))%Z
       || (0x0b <=? opcode)%Z
    then BadFrame 1002
    else
      match frame_length wire with
      | None => NeedMore
      | Some (inr _) => BadFrame 1002
      | Some (inl (payload_size, header_size)) =>
          let control := negb (Z.land opcode 0x08 =? 0)%Z in
          if length wire <? header_size + 4 then NeedMore
          else if (control && (negb fin || (125 <? payload_size)%Z))
                  || (kMaxMessageBytes <? payload_size)%Z
          then BadFrame 1009
          else
            let frame_size := header_size + 4 + Z.to_nat payload_size in
            if length wire <? frame_size then NeedMore
            else
              let mask := take 4 (drop header_size wire) in
              let payload := unmask mask
                (take (Z.to_nat payload_size) (drop (header_size + 4) wire)) in
              Frame fin opcode payload frame_size
      end.

(** ** The frame format of RFC 6455 *)

Definition rfc_length (size : Z) : Z * list Z :=
  if (size <=? 125)%Z then (size, [])
  else if (size <=? 0xffff)%Z then (126%Z, be_split 2 size)
  else (127%Z, be_split 8 size).

(** Masking: the key's bytes in turn, round and round. *)
Fixpoint rfc_mask (key data : list Z) : list Z :=
  match data with
  | [] => []
  | b :: rest => Z.lxor b (hd 0%Z key) :: rfc_mask (tail key ++ [hd 0%Z key]) rest
  end.

(** [mask = None] is an unmasked (server) frame. *)
Definition rfc_frame (fin : bool) (opcode : Z) (mask : option (list Z)) (payload : list Z)
    : list Z :=
  let '(len7, ext) := rfc_length (Z.of_nat (length payload)) in
  let first := ((if fin then 0x80 else 0) + opcode)%Z in
  match mask with
  | None => first :: len7 :: ext ++ payload
  | Some m => first :: (0x80 + len7)%Z :: ext ++ m ++ rfc_mask m payload
  end.

Definition valid_opcode (op : Z) : Prop := (0 ≤ op ≤ 2 ∨ 8 ≤ op ≤ 10)%Z.
Definition control_opcode (op : Z) : bool := (8 <=? op)%Z.

(** A client frame the server accepts: a masked frame with a defined opcode,
    at most 64 KiB, control frames unfragmented and at most 125 bytes. *)
Record client_frame_ok (fin : bool) (op : Z) (mask payload : list Z) : Prop := {
  cf_op : valid_opcode op;
  cf_mask : length mask = 4;
  cf_mask_ok : bytes_ok mask;
  cf_payload : bytes_ok payload;
  cf_size : (Z.of_nat (length payload) ≤ kMaxMessageBytes)%Z;
  cf_control : control_opcode op = true →
               fin = true ∧ (Z.of_nat (length payload) ≤ 125)%Z
}.

(** ** Lemmas *)

(** The decoder's indexing of the key is the rotation of the format. *)
Lemma unmask_rfc key data : length key = 4 → unmask key data = rfc_mask key data.
Proof.
  revert key. induction data as [|b data IH]; intros key Hk; [done|].
  destruct key as [|k0 [|k1 [|k2 [|k3 [|]]]]]; try done. cbn [rfc_mask hd tail app].
  rewrite <- IH by done. unfold unmask. cbn [imap]. f_equal.
  apply imap_ext. intros i c _. f_equal. unfold compose.
  pose proof (Nat.mod_upper_bound i 4 ltac:(lia)) as Hi.
  rewrite <- Nat.add_1_r, <- Nat.Div0.add_mod_idemp_l.
  destruct (i mod 4) as [|[|[|[|]]]]; try done. lia.
Qed.

Lemma length_unmask m l : length (unmask m l) = length l.
Proof. apply length_imap. Qed.

Lemma unmask_involutive m l : unmask m (unmask m l) = l.
Proof.
  unfold unmask. apply list_eq. intros i. rewrite !list_lookup_imap.
  destruct (l !! i) as [b|]; cbn; [|done].
  by rewrite Z.lxor_assoc, Z.lxor_nilpotent, Z.lxor_0_r.
Qed.

Lemma lor_80 op : (0 ≤ op < 128)%Z → Z.lor 0x80 op = (0x80 + op)%Z.
Proof. intros H. change 0x80%Z with (Z.shiftl 1 7) at 1. rewrite shiftl_lor_add; cbn; lia. Qed.

Lemma rfc_length_range size :
  (0 ≤ size)%Z → (0 ≤ (rfc_length size).1 ≤ 127)%Z.
Proof. intros. unfold rfc_length. repeat case_bool; cbn; breflect; lia. Qed.

(** Fields of the two header bytes. *)

Lemma land_low7 b : Z.land b 0x7f = (b mod 128)%Z.
Proof. change 0x7f%Z with (Z.ones 7). by rewrite Z.land_ones by lia. Qed.

Lemma land_high b :
  byte_ok b → negb (Z.land b 0x80 =? 0)%Z = (128 <=? b)%Z.
Proof.
  intros Hb. apply eqb_prop.
  apply (forall_byte (fun b => eqb (negb (Z.land b 0x80 =? 0)%Z) (128 <=? b)%Z));
    [vm_compute; reflexivity | done].
Qed.

Lemma first_byte_fields (fin : bool) op :
  valid_opcode op →
  let b := ((if fin then 0x80 else 0) + op)%Z in
  negb (Z.land b 0x80 =? 0)%Z = fin ∧ Z.land b 0x70 = 0%Z ∧ Z.land b 0x0f = op.
Proof.
  unfold valid_opcode. intros H.
  assert (op = 0 ∨ op = 1 ∨ op = 2 ∨ op = 8 ∨ op = 9 ∨ op = 10)%Z
    as [->|[->|[->|[->|[->| ->]]]]] by lia; destruct fin; repeat split; reflexivity.
Qed.

Lemma valid_opcode_test op :
  valid_opcode op → ((3 <=? op) && (op <=? 7))%Z || (0x0b <=? op)%Z = false.
Proof.
  unfold valid_opcode. intros H. apply orb_false_iff. rewrite andb_false_iff, !Z.leb_gt. lia.
Qed.

Lemma control_bit op :
  valid_opcode op → negb (Z.land op 0x08 =? 0)%Z = control_opcode op.
Proof.
  unfold valid_opcode. intros H.
  assert (op = 0 ∨ op = 1 ∨ op = 2 ∨ op = 8 ∨ op = 9 ∨ op = 10)%Z
    as [->|[->|[->|[->|[->| ->]]]]] by lia; reflexivity.
Qed.

(** The length fields are read back, whatever follows them. *)
Lemma frame_length_rfc first size rest :
  (0 ≤ size < 2 ^ 63)%Z →
  frame_length (first :: (0x80 + (rfc_length size).1)%Z :: (rfc_length size).2 ++ rest)
  = Some (inl (size, 2 + length (rfc_length size).2)).
Proof.
  intros Hs. unfold frame_length, rfc_length.
  destruct (size <=? 125)%Z eqn:E1; [|destruct (size <=? 0xffff)%Z eqn:E2]; breflect;
    cbn [fst snd];
    match goal with |- context [byte_at (_ :: ?b :: ?r) 1] =>
      change (byte_at (first :: b :: r) 1) with b end; rewrite land_low7.
  - replace ((0x80 + size) mod 128)%Z with size by (apply Z.mod_unique with 1%Z; lia).
    rewrite (proj2 (Z.eqb_neq size 126)), (proj2 (Z.eqb_neq size 127)) by lia. done.
  - change ((128 + 126) mod 128)%Z with 126%Z. cbn [Z.eqb Pos.eqb].
    case_bool; breflect; [cbn in *; lia|].
    do 3 f_equal.
    change (Z.lor (Z.shiftl (Z.land (Z.shiftr size 8) 255) 8) (Z.land (Z.shiftr size 0) 255) = size).
    pose proof (be_combine_split 2 size) as B. unfold be_combine in B. cbn in B.
    rewrite <- B at 3 by (cbn; lia). done.
  - change ((128 + 127) mod 128)%Z with 127%Z. cbn [Z.eqb Pos.eqb].
    case_bool; breflect; [cbn in *; lia|].
    assert (Hb : byte_at (first :: 255%Z :: be_split 8 size ++ rest) 2
                 = (size / 2 ^ 56)%Z).
    { cbn. rewrite land_255, Z.shiftr_div_pow2 by lia. apply Z.mod_small.
      split; [apply Z.div_pos; lia | apply Z.div_lt_upper_bound; lia]. }
    change (128 + 127)%Z with 255%Z. rewrite Hb.
    rewrite land_high, (proj2 (Z.leb_gt _ _)).
    + cbn [negb]. do 3 f_equal.
      change (drop 2 (first :: 255%Z :: be_split 8 size ++ rest)) with (be_split 8 size ++ rest).
      rewrite take_app_le, take_ge by (rewrite length_be_split; lia).
      apply be_combine_split. change (8 * Z.of_nat 8)%Z with 64%Z. lia.
    + apply Z.div_lt_upper_bound; lia.
    + split; [apply Z.div_pos; lia | apply Z.div_lt_upper_bound; lia].
Qed.

(** Whatever the header says, the length it announces is not negative and the
    header is 2, 4 or 10 bytes. *)
Lemma frame_length_sound wire size hs :
  bytes_ok wire → frame_length wire = Some (inl (size, hs)) → (0 ≤ size)%Z ∧ 2 ≤ hs.
Proof.
  intros Hw. unfold frame_length.
  assert (Hb : ∀ i, (0 ≤ byte_at wire i)%Z).
  { intros i. unfold byte_at. destruct (Nat.lt_ge_cases i (length wire)).
    - by apply (Forall_nth_default byte_ok).
    - by rewrite nth_overflow. }
  repeat case_bool; intros [= <- <-].
  - split; [|lia]. apply Z.lor_nonneg. rewrite Z.shiftl_nonneg. auto.
  - split; [|lia]. apply be_combine_nonneg. apply Forall_take, Forall_drop, Hw.
  - split; [|lia]. apply Z.land_nonneg. lia.
Qed.

Lemma low4_range b : (0 ≤ Z.land b 0x0f < 16)%Z.
Proof. change 0x0f%Z with (Z.ones 4). rewrite Z.land_ones by lia. apply Z.mod_pos_bound. lia. Qed.

(** ** Properties *)

Lemma encode_frame_spec payload opcode :
  (0 ≤ opcode)%Z → (Z.of_nat (length payload) < 2 ^ 64)%Z →
  comm_websocket_encode_frame payload opcode =
    if (0x0f <? opcode)%Z then None else Some (rfc_frame true opcode None payload).
Proof.
  intros Ho Hl. unfold comm_websocket_encode_frame, rfc_frame, rfc_length.
  rewrite (proj2 (Z.ltb_ge (2 ^ 64 - 1) _)) by lia. rewrite orb_false_r.
  destruct (0x0f <? opcode)%Z eqn:E; [done|]. breflect. rewrite lor_80 by lia.
  repeat case_bool; cbn [map app be_split]; try done.
Qed.

(** The server encoder produces exactly the unmasked, final RFC 6455 frame
    with the shortest length field, for every 4-bit opcode and payload size;
    opcodes above 15 are refused. *)
Theorem encode_frame_rfc payload opcode :
  (0 ≤ opcode)%Z → (Z.of_nat (length payload) < 2 ^ 64)%Z →
  comm_websocket_encode_frame payload opcode =
    if (0x0f <? opcode)%Z then None else Some (rfc_frame true opcode None payload).
Proof. apply encode_frame_spec. Qed.

Lemma encode_frame_rfc_witness :
  comm_websocket_encode_frame (replicate 126 97%Z) 2
  = Some ([0x82; 126; 0; 126]%Z ++ replicate 126 97%Z).
Proof. rewrite (encode_frame_rfc (replicate 126 97%Z) 2); [reflexivity | lia | cbn; lia]. Defined.

Section ClientFrames.
Variables (fin : bool) (op : Z) (mask payload : list Z).
Hypothesis ok : client_frame_ok fin op mask payload.

Let size := Z.of_nat (length payload).
Let len := rfc_length size.
Let first := ((if fin then 0x80 else 0) + op)%Z.

Lemma client_frame_shape :
  rfc_frame fin op (Some mask) payload
  = first :: (0x80 + len.1)%Z :: len.2 ++ mask ++ unmask mask payload.
Proof.
  unfold rfc_frame, len, size, first. rewrite <- unmask_rfc by apply ok.
  by destruct (rfc_length _).
Qed.

Lemma length_client_frame :
  length (rfc_frame fin op (Some mask) payload) = 2 + length len.2 + 4 + length payload.
Proof.
  rewrite client_frame_shape. cbn. rewrite !length_app, length_unmask, (cf_mask _ _ _ _ ok). lia.
Qed.

(** Whatever bytes [tl] follow the length fields, the decoder passes the
    header checks and waits for, or extracts, the announced payload. *)
Lemma decode_header tl :
  decode_frame (first :: (0x80 + len.1)%Z :: len.2 ++ tl) =
    if length tl <? 4 then NeedMore
    else if length tl <? 4 + length payload then NeedMore
    else Frame fin op (unmask (take 4 tl) (take (length payload) (drop 4 tl)))
           (2 + length len.2 + 4 + length payload).
Proof.
  destruct ok as [Hop Hm Hmo Hp Hs Hc].
  destruct (first_byte_fields fin op Hop) as (F1 & F2 & F3). fold first in F1, F2, F3.
  assert (Hsz : (0 ≤ size < 2 ^ 63)%Z) by (unfold size, kMaxMessageBytes in *; lia).
  pose proof (rfc_length_range size ltac:(lia)) as Hr. fold len in Hr.
  unfold decode_frame. case_bool; breflect; [cbn in *; lia|].
  change (byte_at (first :: (0x80 + len.1)%Z :: len.2 ++ tl) 0) with first.
  change (byte_at (first :: (0x80 + len.1)%Z :: len.2 ++ tl) 1) with (0x80 + len.1)%Z.
  rewrite F1, F2, F3, land_high by (unfold byte_ok; lia).
  rewrite (proj2 (Z.leb_le 128 _)) by lia.
  rewrite <- orb_assoc, valid_opcode_test by done. cbn [Z.eqb negb orb].
  unfold len. rewrite frame_length_rfc by done. fold len.
  rewrite control_bit by done.
  assert ((control_opcode op && (negb fin || (125 <? size)%Z)) || (kMaxMessageBytes <? size)%Z
          = false) as ->.
  { apply orb_false_iff. split; [|apply Z.ltb_ge; exact Hs].
    destruct (control_opcode op); [|done]. destruct (Hc eq_refl) as [-> Hle].
    cbn. apply Z.ltb_ge. exact Hle. }
  cbn [length]. rewrite length_app. unfold size. rewrite Nat2Z.id.
  assert (Hd : ∀ k, drop (2 + length len.2 + k) (first :: (0x80 + len.1)%Z :: len.2 ++ tl)
                    = drop k tl).
  { intros k. change (2 + length len.2 + k) with (S (S (length len.2 + k))). cbn [drop].
    by rewrite drop_app_add. }
  rewrite Hd. pose proof (Hd 0) as Hd0. rewrite Nat.add_0_r, drop_0 in Hd0. rewrite Hd0.
  repeat case_bool; breflect; try done; lia.
Qed.

(** A prefix that stops inside the extended length asks for more. *)
Lemma decode_short_length k :
  k < length len.2 → decode_frame (first :: (0x80 + len.1)%Z :: take k len.2) = NeedMore.
Proof.
  destruct ok as [Hop Hm Hmo Hp Hs Hc]. intros Hk.
  destruct (first_byte_fields fin op Hop) as (F1 & F2 & F3). fold first in F1, F2, F3.
  pose proof (rfc_length_range size ltac:(unfold size; lia)) as Hr. fold len in Hr.
  unfold decode_frame. case_bool; breflect; [cbn in *; lia|].
  change (byte_at (first :: (0x80 + len.1)%Z :: take k len.2) 0) with first.
  change (byte_at (first :: (0x80 + len.1)%Z :: take k len.2) 1) with (0x80 + len.1)%Z.
  rewrite F1, F2, F3, land_high by (unfold byte_ok; lia).
  rewrite (proj2 (Z.leb_le 128 _)), <- orb_assoc, valid_opcode_test by (done || lia).
  cbn [Z.eqb negb orb].
  enough (frame_length (first :: (0x80 + len.1)%Z :: take k len.2) = None) as -> by done.
  assert (Hl : length (take k len.2) = k) by (rewrite length_take; lia).
  clear -Hk Hl. unfold len, rfc_length in *.
  destruct (size <=? 125)%Z; [cbn in Hk; lia|].
  destruct (size <=? 0xffff)%Z; cbn [fst snd] in *; rewrite length_be_split in Hk;
    unfold frame_length; cbn [byte_at nth length]; rewrite Hl.
  - change (Z.land (128 + 126) 127 =? 126)%Z with true.
    cbv iota. by rewrite (proj2 (Nat.ltb_lt _ _)) by lia.
  - change (Z.land (128 + 127) 127 =? 126)%Z with false.
    change (Z.land (128 + 127) 127 =? 127)%Z with true.
    cbv iota. by rewrite (proj2 (Nat.ltb_lt _ _)) by lia.
Qed.

End ClientFrames.

Lemma decode_client_frame fin op mask payload rest :
  client_frame_ok fin op mask payload →
  decode_frame (rfc_frame fin op (Some mask) payload ++ rest)
  = Frame fin op payload (length (rfc_frame fin op (Some mask) payload)).
Proof.
  intros ok. pose proof (cf_mask _ _ _ _ ok) as Hm.
  rewrite length_client_frame by done. rewrite client_frame_shape by done. cbn [app].
  rewrite <- app_assoc, (decode_header fin op mask payload ok).
  rewrite !length_app, length_unmask, Hm.
  repeat case_bool; breflect; try lia. f_equal.
  rewrite <- !app_assoc, (take_app_length' mask), (drop_app_length' mask) by done.
  rewrite take_app_length' by (by rewrite length_unmask). apply unmask_involutive.
Qed.

(** C31: client frame round trip: the decoder recovers the FIN bit, opcode and
    unmasked payload of every well-formed client frame, whatever follows it
    on the wire, and reports exactly the bytes of that frame as consumed. *)
Theorem decode_frame_roundtrip fin op mask payload rest :
  client_frame_ok fin op mask payload →
  decode_frame (rfc_frame fin op (Some mask) payload ++ rest)
  = Frame fin op payload (length (rfc_frame fin op (Some mask) payload)).
Proof. apply decode_client_frame. Qed.

Lemma client_frame_example : client_frame_ok true 1 [1; 2; 3; 4]%Z [72; 105; 33; 33; 33]%Z.
Proof.
  constructor; try done; [left; lia | repeat constructor; lia | repeat constructor; lia].
Qed.

Lemma decode_frame_roundtrip_witness :
  decode_frame [0x81; 0x85; 1; 2; 3; 4; 73; 107; 34; 37; 32; 0x88]%Z
  = Frame true 1 [72; 105; 33; 33; 33]%Z 11.
Proof. apply (decode_frame_roundtrip true 1 [1; 2; 3; 4]%Z _ [0x88]%Z client_frame_example). Defined.

(** No frame is decoded early: on every strict prefix of a well-formed
    client frame the decoder asks for more bytes and reports no error. *)
Theorem decode_frame_prefix fin op mask payload k :
  client_frame_ok fin op mask payload →
  k < length (rfc_frame fin op (Some mask) payload) →
  decode_frame (take k (rfc_frame fin op (Some mask) payload)) = NeedMore.
Proof.
  intros ok Hk. rewrite length_client_frame in Hk by done. rewrite client_frame_shape by done.
  set (len := rfc_length (Z.of_nat (length payload))) in *.
  destruct k as [|[|k]]; [done | done |]. cbn [take].
  destruct (Nat.lt_ge_cases k (length len.2)) as [Hlt|Hge].
  - rewrite take_app_le by lia. by apply (decode_short_length fin op mask payload ok).
  - rewrite take_app_ge by lia. rewrite (decode_header fin op mask payload ok).
    rewrite length_take, !length_app, length_unmask, (cf_mask _ _ _ _ ok).
    repeat case_bool; breflect; try done; lia.
Qed.

Lemma decode_frame_prefix_witness :
  decode_frame [0x81; 0x85; 1; 2; 3; 4; 73; 107; 34; 37]%Z = NeedMore.
Proof.
  apply (decode_frame_prefix true 1 [1; 2; 3; 4]%Z _ 10 client_frame_example).
  vm_compute. lia.
Defined.

(** The decoder is safe on arbitrary bytes: an accepted frame lies inside the
    bytes received and advances the offset, carries at most 64 KiB and a
    defined opcode, and a control frame is unfragmented and at most 125 bytes;
    a rejected one carries close code 1002 or 1009. *)
Theorem decode_frame_safe wire :
  bytes_ok wire →
  match decode_frame wire with
  | NeedMore => True
  | BadFrame code => code = 1002%Z ∨ code = 1009%Z
  | Frame fin op payload frame_size =>
      6 ≤ frame_size ≤ length wire ∧ length payload + 6 ≤ frame_size
      ∧ (Z.of_nat (length payload) ≤ kMaxMessageBytes)%Z ∧ valid_opcode op
      ∧ (control_opcode op = true → fin = true ∧ length payload ≤ 125)
  end.
Proof.
  intros Hw. unfold decode_frame. case_bool; [done|].
  case_bool; [by left|]. breflect.
  destruct (frame_length wire) as [[[size hs]|]|] eqn:L; [|by left|done].
  apply frame_length_sound in L as [Hsz Hhs]; [|done].
  case_bool; [done|]. case_bool; [by right|]. case_bool; [done|]. breflect.
  rewrite length_unmask, length_take, length_drop.
  set (op := Z.land (byte_at wire 0) 0x0f) in *.
  assert (Hop : valid_opcode op).
  { pose proof (low4_range (byte_at wire 0)) as R. fold op in R. unfold valid_opcode.
    match goal with H : (_ && _) = false |- _ => rewrite andb_false_iff, !Z.leb_gt in H end. lia. }
  rewrite control_bit in * by done.
  split; [lia|]. split; [lia|]. split; [lia|]. split; [done|].
  intros Hc. rewrite Hc in H3. cbn [andb] in H3.
  apply orb_false_iff in H3 as [Hfin Hle]. apply negb_false_iff in Hfin.
  apply Z.ltb_ge in Hle. split; [exact Hfin | lia].
Qed.

Lemma decode_frame_safe_witness :
  bytes_ok [0x89; 0x80; 1; 2; 3; 4]%Z
  ∧ decode_frame [0x89; 0x80; 1; 2; 3; 4]%Z = Frame true 9 [] 6
  ∧ valid_opcode 9.
Proof.
  assert (H : bytes_ok [0x89; 0x80; 1; 2; 3; 4]%Z) by (repeat constructor; lia).
  split; [exact H|]. split; [reflexivity|].
  exact (proj1 (proj2 (proj2 (proj2 (decode_frame_safe _ H))))).
Defined.

(** A close code survives the close payload it is sent in. *)
Theorem close_code_roundtrip code rest :
  (0 ≤ code < 2 ^ 16)%Z → websocket_close_code (close_payload code ++ rest) = code.
Proof.
  intros H. unfold close_payload, websocket_close_code. cbn [app].
  rewrite !land_255, Z.shiftr_div_pow2 by lia.
  rewrite shiftl_lor_add by (change (2 ^ 8)%Z with 256%Z; pose proof (Z.mod_pos_bound code 256); lia).
  change (2 ^ 8)%Z with 256%Z. rewrite (Z.mod_small (code / 256)).
  - pose proof (Z.div_mod code 256). lia.
  - split; [apply Z.div_pos | apply Z.div_lt_upper_bound]; lia.
Qed.

Lemma close_code_roundtrip_witness : websocket_close_code [0x03; 0xEA; 104]%Z = 1002%Z.
Proof. apply (close_code_roundtrip 1002 [104]%Z). lia. Defined.
