(* ===== verification/TextUtil.v ===== *)
(** * Text helpers (lib/comm/websocket.cpp)

    The ASCII functions of the request parser ([to_lower_ascii], [trim_ascii])
    with the [<cctype>] classes of the C locale they use, the searches of
    [std::string_view], and their lemmas. *)

From S2P Require Import Prelude.

(** ** Definitions *)

Definition tolower (c : Z) : Z := if ((65 <=? c) && (c <=? 90))%Z then (c + 32)%Z else c.
Definition isspace (c : Z) : bool := ((c =? 32) || ((9 <=? c) && (c <=? 13)))%Z.

Definition to_lower_ascii (s : list Z) : list Z := map tolower s.

(** [begin]: the index of the first byte that is not a space. *)
Fixpoint trim_begin (s : list Z) : nat :=
  match s with
  | c :: t => if isspace c then S (trim_begin t) else 0
  | [] => 0
  end.

(** [while (end > begin && isspace(in[end - 1])) --end;] *)
Fixpoint trim_end (s : list Z) (begin en : nat) : nat :=
  match en with
  | S k => if (begin <? S k) && isspace (nth k s 0%Z) then trim_end s begin k else S k
  | 0 => 0
  end.

Definition trim_ascii (s : list Z) : list Z :=
  let begin := trim_begin s in
  let en := trim_end s begin (length s) in
  take (en - begin) (drop begin s).

(** [find] of one character and of a string in the suffix searched. *)
Fixpoint find_char (c : Z) (s : list Z) : option nat :=
  match s with
  | [] => None
  | x :: t => if (x =? c)%Z then Some 0 else S <$> find_char c t
  end.

Fixpoint starts_with (pat s : list Z) : bool :=
  match pat, s with
  | [], _ => true
  | p :: pat', x :: s' => (p =? x)%Z && starts_with pat' s'
  | _ :: _, [] => false
  end.

Fixpoint find_sub (pat s : list Z) : option nat :=
  if starts_with pat s then Some 0
  else match s with
       | [] => None
       | _ :: t => S <$> find_sub pat t
       end.

Definition is_empty {A} (s : list A) : bool := match s with [] => true | _ => false end.

Notation "a =s b" := (bool_decide (a = b :> list Z)) (at level 70).

(** ** Lemmas: searches *)

Lemma find_char_None c s : c ∉ s → find_char c s = None.
Proof.
  induction s as [|x t IH]; [done|]. rewrite not_elem_of_cons. intros [Hx Ht]. cbn.
  rewrite (proj2 (Z.eqb_neq x c)) by done. by rewrite IH.
Qed.

Lemma find_char_app c s rest : c ∉ s → find_char c (s ++ c :: rest) = Some (length s).
Proof.
  induction s as [|x t IH]; cbn.
  - by rewrite Z.eqb_refl.
  - rewrite not_elem_of_cons. intros [Hx Ht]. rewrite (proj2 (Z.eqb_neq x c)) by done.
    by rewrite IH.
Qed.

Lemma find_char_split c s i :
  find_char c s = Some i → s = take i s ++ c :: drop (i + 1) s ∧ (c ∉ take i s) ∧ i < length s.
Proof.
  revert i. induction s as [|x t IH]; intros i; cbn [find_char]; [done|].
  destruct (x =? c)%Z eqn:E; breflect.
  - intros [= <-]. subst x. split; [done|]. split; [apply not_elem_of_nil | cbn; lia].
  - destruct (find_char c t) as [j|] eqn:F; [|done]. intros [= <-].
    destruct (IH j eq_refl) as (Ht & Hn & Hl). cbn [take drop app length]. split; [by f_equal|].
    split; [|lia]. rewrite not_elem_of_cons. auto.
Qed.

Lemma find_char_none_not_in c s : find_char c s = None → c ∉ s.
Proof.
  induction s as [|x t IH]; cbn; [intros _; apply not_elem_of_nil|].
  destruct (x =? c)%Z eqn:E; breflect; [done|].
  destruct (find_char c t); [done|]. intros _. rewrite not_elem_of_cons. auto.
Qed.

Lemma starts_with_lookup pat s j x :
  starts_with pat s = true → pat !! j = Some x → s !! j = Some x.
Proof.
  revert s j. induction pat as [|p pat IH]; intros s j H Hj; [done|].
  destruct s as [|y s]; [done|]. cbn in H. apply andb_true_iff in H as [He H].
  apply Z.eqb_eq in He. destruct j; cbn in *; [congruence|]. by apply IH.
Qed.

Lemma find_sub_skip pat a b :
  (∀ i, i < length a → starts_with pat (drop i (a ++ b)) = false) →
  find_sub pat (a ++ b) = (fun n => length a + n) <$> find_sub pat b.
Proof.
  induction a as [|x a IH]; intros H.
  { cbn [app]. by destruct (find_sub pat b). }
  pose proof (H 0 ltac:(cbn; lia)) as H0. change (drop 0 _) with (x :: a ++ b) in H0.
  cbn [app]. unfold find_sub. fold find_sub. rewrite H0, IH.
  - by destruct (find_sub pat b).
  - intros i Hi. apply (H (S i)). cbn. lia.
Qed.

(** ** Lemmas: trimming *)

Lemma trim_begin_le s : trim_begin s ≤ length s.
Proof. induction s as [|c t IH]; cbn; [lia|]. case_bool; lia. Qed.

Lemma trim_end_cons c s begin en :
  en ≤ length s → trim_end (c :: s) (S begin) (S en) = S (trim_end s begin en) ∨ en <= begin.
Proof.
  induction en as [|k IH]; intros H; [lia|].
  cbn -[Nat.ltb nth]. change (nth (S k) (c :: s) 0%Z) with (nth k s 0%Z).
  change (S begin <? S (S k)) with (begin <? S k).
  destruct (begin <? S k) eqn:E; breflect; [|lia]. cbn [andb].
  destruct (isspace (nth k s 0%Z)); [|by left].
  destruct (IH ltac:(lia)) as [IHk|]; [by left|].
  left. assert (k = begin) as -> by lia.
  cbn -[Nat.ltb nth]. rewrite Nat.ltb_irrefl. cbn [andb].
  destruct begin; [done|]. cbn -[Nat.ltb nth]. by rewrite Nat.ltb_irrefl.
Qed.

(** A leading space does not change the trimmed text. *)
Lemma trim_space s : trim_ascii (32%Z :: s) = trim_ascii s.
Proof.
  unfold trim_ascii. change (trim_begin (32%Z :: s)) with (S (trim_begin s)).
  pose proof (trim_begin_le s). cbn [length drop].
  destruct (trim_end_cons 32 s (trim_begin s) (length s) ltac:(lia)) as [->|H1].
  - by rewrite Nat.sub_succ.
  - by rewrite drop_ge, !take_nil by lia.
Qed.
