(* ===== verification/HttpUpgrade.v ===== *)
(** * HTTP upgrade to WebSocket (lib/comm/websocket.cpp)

    The request parser, the token lists, the subprotocol choice and the
    construction of the 101 response and of the rejections.  The SHA-1 and
    base64 routines of OpenSSL are parameters ([WsCrypto]). *)

From stdpp Require pretty.
From S2P Require Import Prelude TextUtil.

(** ** Token lists *)

(** The loop of [token_list_contains] and of [select_protocol] over the
    comma-separated tokens of [csv.substr(start)]; [body] is its [return]. *)
Fixpoint comma_loop {A} (body : list Z → option A) (fuel : nat) (s : list Z) : option A :=
  match fuel with
  | 0 => None
  | S f =>
      if is_empty s then None
      else
        let comma := find_char 44 s in
        let token := trim_ascii (take (default (length s) comma) s) in
        match body token with
        | Some r => Some r
        | None =>
            match comma with
            | None => None
            | Some i => comma_loop body f (drop (i + 1) s)
            end
        end
  end.

Definition token_list_contains (csv needle_lower : list Z) : bool :=
  match comma_loop
          (fun token => if negb (is_empty token) && (to_lower_ascii token =s needle_lower)
                        then Some tt else None)
          (S (length csv)) csv with
  | Some _ => true
  | None => false
  end.

Definition select_protocol (preferred client : list Z) : list Z :=
  default [] (comma_loop
    (fun candidate =>
       if negb (is_empty candidate) && token_list_contains client (to_lower_ascii candidate)
       then Some candidate else None)
    (S (length preferred)) preferred).

(** ** Request parser *)

Definition header_index (name : list Z) : option nat :=
  if name =s bytes_of_string "upgrade" then Some 0
  else if name =s bytes_of_string "connection" then Some 1
  else if name =s bytes_of_string "sec-websocket-key" then Some 2
  else if name =s bytes_of_string "sec-websocket-version" then Some 3
  else if name =s bytes_of_string "sec-websocket-protocol" then Some 4
  else None.

(** [line.back() == '\r'] then [remove_suffix(1)]. *)
Definition strip_cr (line : list Z) : list Z :=
  if negb (is_empty line) && (nth (length line - 1) line 0 =? 13)%Z
  then take (length line - 1) line else line.

Definition store_header (hv : list (list Z)) (name value : list Z) : list (list Z) :=
  match header_index name with
  | Some i => <[i := value]> hv
  | None => hv
  end.

Definition header_line (hv : list (list Z)) (line : list Z) : list (list Z) :=
  match find_char 58 line with
  | Some colon =>
      if 0 <? colon then
        store_header hv (to_lower_ascii (trim_ascii (take colon line)))
          (trim_ascii (drop (colon + 1) line))
      else hv
  | None => hv
  end.

Fixpoint parse_loop (fuel : nat) (s : list Z) (is_first_line : bool)
    (request_line : list Z) (hv : list (list Z)) : bool * list Z * list (list Z) :=
  match fuel with
  | 0 => (false, request_line, hv)
  | S f =>
      if is_empty s then (false, request_line, hv)
      else
        let line_end := default (length s) (find_char 10 s) in
        let line := strip_cr (take line_end s) in
        if is_empty line then (negb (is_empty request_line), request_line, hv)
        else
          let request_line' := if is_first_line then line else request_line in
          let hv' := if is_first_line then hv else header_line hv line in
          if line_end =? length s then (false, request_line', hv')
          else parse_loop f (drop (line_end + 1) s) false request_line' hv'
  end.

Definition parse_http_headers (request : list Z) : bool * list Z * list (list Z) :=
  parse_loop (S (length request)) request true [] (replicate 5 []).

(** ** Responses *)

(** OpenSSL: [SHA1] ([None] is a null result) and [EVP_EncodeBlock], whose
    result is the number of bytes it wrote. *)
Class WsCrypto := {
  SHA1 : list Z → option (list Z);
  EVP_EncodeBlock : list Z → list Z;
}.

Definition kWebSocketGuid : list Z := bytes_of_string "258EAFA5-E914-47DA-95CA-C5AB0DC85B11".
Definition crlf : list Z := [13; 10]%Z.

Definition build_websocket_accept `{WsCrypto} (client_key : list Z) : option (list Z) :=
  match SHA1 (client_key ++ kWebSocketGuid) with
  | None => None
  | Some digest =>
      let b64 := EVP_EncodeBlock digest in
      if length b64 <=? 0 then None else Some b64
  end.

Inductive upgrade_result :=
  | Rejected (status : Z)
  | Accepted (response : list Z) (negotiated_telnet : bool).

Definition is_telnet_subprotocol (p : list Z) : bool :=
  (p =s bytes_of_string "telnet.ietf.org") || (p =s bytes_of_string "telnet.mudstandards.org").

Definition comm_websocket_build_upgrade_response `{WsCrypto}
    (request preferred_protocols : list Z) : upgrade_result :=
  let '(ok, request_line, headers) := parse_http_headers request in
  let header i := nth i headers [] in
  if negb ok then Rejected 400
  else if negb (starts_with (bytes_of_string "GET ") request_line)
          || bool_decide (find_sub (bytes_of_string "HTTP/1.1") request_line = None)
  then Rejected 400
  else if negb (to_lower_ascii (header 0) =s bytes_of_string "websocket") then Rejected 400
  else if negb (token_list_contains (header 1) (bytes_of_string "upgrade")) then Rejected 400
  else if is_empty (header 2) then Rejected 400
  else if negb (is_empty (header 3)) && negb (trim_ascii (header 3) =s bytes_of_string "13")
  then Rejected 426
  else
    match build_websocket_accept (header 2) with
    | None => Rejected 400
    | Some accept_key =>
        let response :=
          bytes_of_string "HTTP/1.1 101 Switching Protocols" ++ crlf ++
          bytes_of_string "Upgrade: websocket" ++ crlf ++
          bytes_of_string "Connection: Upgrade" ++ crlf ++
          bytes_of_string "Sec-WebSocket-Accept: " ++ accept_key ++ crlf in
        let selected_protocol := select_protocol preferred_protocols (header 4) in
        if is_empty selected_protocol then Accepted (response ++ crlf) false
        else Accepted
               (response ++ bytes_of_string "Sec-WebSocket-Protocol: " ++ selected_protocol
                  ++ crlf ++ crlf)
               (is_telnet_subprotocol selected_protocol)
    end.

(** [_find_http_header_end]: [header_len], or [None] for [return false]. *)
Definition find_http_header_end (data : list Z) : option nat :=
  match find_sub [13; 10; 13; 10]%Z data with
  | Some crlf_crlf => Some (crlf_crlf + 4)
  | None =>
      match find_sub [10; 10]%Z data with
      | Some lf_lf => Some (lf_lf + 2)
      | None => None
      end
  end.

(** The text [_send_websocket_rejection] writes. *)
Definition rejection_response (status_code : Z) : list Z :=
  let reason :=
    if (status_code =? 426)%Z then "Upgrade Required"
    else if (status_code =? 431)%Z then "Request Header Fields Too Large"
    else "Bad Request" in
  bytes_of_string "HTTP/1.1 " ++ bytes_of_string (pretty.pretty status_code)
    ++ bytes_of_string " " ++ bytes_of_string reason ++ crlf
    ++ bytes_of_string "Connection: close" ++ crlf
    ++ bytes_of_string "Content-Length: 0" ++ crlf
    ++ (if (status_code =? 426)%Z
        then bytes_of_string "Sec-WebSocket-Version: 13" ++ crlf else [])
    ++ crlf.

(** ** Reference definitions *)

(** The fields of [s] between separators [c]. *)
Fixpoint split_on (c : Z) (s : list Z) : list (list Z) :=
  match s with
  | [] => [[]]
  | x :: t =>
      if (x =? c)%Z then [] :: split_on c t
      else match split_on c t with
           | f :: fs => (x :: f) :: fs
           | [] => [[x]]
           end
  end.

Definition tokens (csv : list Z) : list (list Z) := map trim_ascii (split_on 44 csv).

(** A token the client lists, compared without case. *)
Definition offered (client p : list Z) : Prop :=
  ∃ t, t ∈ tokens client ∧ t ≠ [] ∧ to_lower_ascii t = to_lower_ascii p.

(** A request as a client writes it. *)
Definition render_header (h : list Z * list Z) : list Z := h.1 ++ [58; 32]%Z ++ h.2.
Definition render_request (request_line : list Z) (hs : list (list Z * list Z)) : list Z :=
  request_line ++ crlf ++ concat (map (fun h => render_header h ++ crlf) hs) ++ crlf.

Definition header_ok (h : list Z * list Z) : Prop :=
  let '(name, value) := h in name ≠ [] ∧ (58%Z ∉ name) ∧ (10%Z ∉ name) ∧ (10%Z ∉ value).

Record request_ok (request_line : list Z) (hs : list (list Z * list Z)) : Prop := {
  rq_line : request_line ≠ [];
  rq_line_lf : 10%Z ∉ request_line;
  rq_headers : Forall header_ok hs
}.

(** The value of header [name]: the last one wins, [[]] when it is absent. *)
Definition header_value (name : string) (hs : list (list Z * list Z)) : list Z :=
  default [] (last (omap (fun h =>
    if to_lower_ascii (trim_ascii h.1) =s bytes_of_string name
    then Some (trim_ascii h.2) else None) hs)).

Definition header_names : list string :=
  ["upgrade"; "connection"; "sec-websocket-key"; "sec-websocket-version";
   "sec-websocket-protocol"]%string.

(** ** Lemmas: fields *)

Lemma split_on_app c s rest : c ∉ s → split_on c (s ++ c :: rest) = s :: split_on c rest.
Proof.
  induction s as [|x t IH]; cbn.
  - by rewrite Z.eqb_refl.
  - rewrite not_elem_of_cons. intros [Hx Ht].
    rewrite (proj2 (Z.eqb_neq x c)) by done. by rewrite IH.
Qed.

Lemma split_on_none c s : c ∉ s → split_on c s = [s].
Proof.
  induction s as [|x t IH]; cbn; [done|]. rewrite not_elem_of_cons. intros [Hx Ht].
  rewrite (proj2 (Z.eqb_neq x c)) by done. by rewrite IH.
Qed.

(** ** Lemmas: token lists *)

Fixpoint first_some {A B} (f : A → option B) (l : list A) : option B :=
  match l with
  | [] => None
  | x :: t => match f x with Some r => Some r | None => first_some f t end
  end.

(** The loop visits the trimmed fields in order and stops at the first hit. *)
Lemma comma_loop_spec {A} (body : list Z → option A) fuel s :
  body [] = None → length s < fuel → comma_loop body fuel s = first_some body (tokens s).
Proof.
  intros Hb. unfold tokens. revert s. induction fuel as [|f IH]; intros s Hf; [lia|].
  cbn [comma_loop]. destruct (is_empty s) eqn:Es.
  { destruct s; [|done]. cbn. change (trim_ascii []) with (@nil Z). by rewrite Hb. }
  destruct (find_char 44 s) as [i|] eqn:F; cbn [default from_option id].
  - destruct (find_char_split _ _ _ F) as (Hs & Hn & Hl).
    replace (split_on 44 s) with (take i s :: split_on 44 (drop (i + 1) s))
      by (rewrite Hs at 3; by rewrite split_on_app).
    cbn [map first_some]. destruct (body (trim_ascii _)); [done|]. apply IH. rewrite length_drop. lia.
  - apply find_char_none_not_in in F. rewrite split_on_none, take_ge by (done || lia).
    cbn [map first_some]. by destruct (body (trim_ascii _)).
Qed.

Lemma token_list_contains_iff csv needle :
  token_list_contains csv needle = true
  ↔ ∃ t, t ∈ tokens csv ∧ t ≠ [] ∧ to_lower_ascii t = needle.
Proof.
  unfold token_list_contains. rewrite comma_loop_spec by (done || lia).
  induction (tokens csv) as [|t ts IH]; cbn.
  { split; [done|]. intros (t & Ht & _). by apply elem_of_nil in Ht. }
  destruct (negb (is_empty t) && (to_lower_ascii t =s needle)) eqn:E.
  - apply andb_true_iff in E as [E1 E2]. apply bool_decide_eq_true in E2.
    split; [|done]. intros _. exists t. split; [left|]. split; [|done]. by destruct t.
  - rewrite IH. split.
    + intros (u & Hu & Hr). exists u. split; [by right|done].
    + intros (u & Hu & Hn & Hr). exists u. split; [|done].
      apply elem_of_cons in Hu as [->|Hu]; [|done]. exfalso.
      apply andb_false_iff in E as [E|E].
      * by destruct t.
      * by apply bool_decide_eq_false in E.
Qed.

(** ** Lemmas: the parser *)

Lemma strip_cr_crlf line : strip_cr (line ++ [13%Z]) = line.
Proof.
  unfold strip_cr. rewrite length_app. cbn [length].
  replace (length line + 1 - 1) with (length line) by lia.
  rewrite nth_middle, take_app_length. by destruct line.
Qed.

(** One line of a rendered request. *)
Lemma parse_loop_line f line rest first rl hv :
  10%Z ∉ line → line ≠ [] → rest ≠ [] →
  parse_loop (S f) (line ++ crlf ++ rest) first rl hv =
    parse_loop f rest false (if first then line else rl) (if first then hv else header_line hv line).
Proof.
  intros Hlf Hne Hr. cbn [parse_loop]. unfold crlf. cbn [app].
  assert (Hf : find_char 10 (line ++ 13%Z :: 10%Z :: rest) = Some (length line + 1)).
  { change (13%Z :: 10%Z :: rest) with ([13%Z] ++ 10%Z :: rest). rewrite app_assoc.
    rewrite find_char_app, length_app; [done|].
    rewrite elem_of_app, list_elem_of_singleton. by intros [?|?]. }
  rewrite Hf. cbn [default from_option id].
  assert (Ht : take (length line + 1) (line ++ 13%Z :: 10%Z :: rest) = line ++ [13%Z]).
  { by rewrite take_app_add. }
  rewrite Ht, strip_cr_crlf.
  replace (is_empty (line ++ 13%Z :: 10%Z :: rest)) with false by by destruct line.
  replace (is_empty line) with false by by destruct line.
  rewrite length_app. cbn [length].
  rewrite (proj2 (Nat.eqb_neq _ _)) by lia.
  replace (length line + 1 + 1) with (length line + 2) by lia.
  by rewrite drop_app_add.
Qed.

Definition store_headers (hs : list (list Z * list Z)) (hv : list (list Z)) : list (list Z) :=
  fold_left (fun hv h =>
    store_header hv (to_lower_ascii (trim_ascii h.1)) (trim_ascii h.2)) hs hv.

Lemma length_store_headers hs hv : length (store_headers hs hv) = length hv.
Proof.
  unfold store_headers. revert hv. induction hs as [|h hs IH]; intros hv; cbn; [done|].
  rewrite IH. unfold store_header. destruct (header_index _); [by rewrite length_insert|done].
Qed.

Lemma header_line_render hv h :
  header_ok h →
  header_line hv (render_header h)
  = store_header hv (to_lower_ascii (trim_ascii h.1)) (trim_ascii h.2).
Proof.
  destruct h as [n v]. intros (Hne & Hc & _). unfold header_line, render_header.
  cbn [app fst snd]. rewrite find_char_app by done. destruct n as [|c n]; [done|].
  cbn [length].
  change (0 <? S (length n)) with true. cbv iota.
  rewrite (take_app_length (c :: n)).
  rewrite (drop_app_add (c :: n) _ 1). cbn [drop]. by rewrite trim_space.
Qed.

Lemma parse_headers_render hs rest f rl hv :
  Forall header_ok hs →
  rl ≠ [] → length hs < f →
  parse_loop f (concat (map (fun h => render_header h ++ crlf) hs) ++ crlf ++ rest) false rl hv
  = (true, rl, store_headers hs hv).
Proof.
  intros Hok Hrl. revert f hv. induction Hok as [|h hs Hh _ IH]; intros f hv Hf.
  - destruct f as [|f]; [cbn in Hf; lia|]. cbn. by destruct rl.
  - destruct f as [|f]; [cbn in Hf; lia|]. cbn [map concat fold_left].
    rewrite <- !app_assoc, parse_loop_line.
    + rewrite IH by (cbn in Hf; lia). by rewrite header_line_render.
    + destruct h as [n v], Hh as (_ & _ & H3 & H4). unfold render_header. cbn [app fst snd].
      rewrite elem_of_app, !elem_of_cons. intros [?|[?|[?|?]]]; done.
    + destruct h as [[|] v], Hh as [Hn _]; done.
    + intros E. apply app_eq_nil in E as [_ E]. done.
Qed.

(** The header array holds the last value of each name the code knows. *)
Lemma header_index_name i name :
  header_names !! i = Some name →
  ∀ n, header_index n = Some i ↔ n = bytes_of_string name.
Proof.
  intros Hi n. unfold header_index, header_names in *.
  do 5 (destruct i as [|i]; [injection Hi as <-;
    repeat case_bool_decide; subst; split; try done; vm_compute; done|]).
  by destruct i.
Qed.

Lemma store_header_value hs hv i name :
  length hv = 5 → header_names !! i = Some name → hv !! i = Some [] →
  store_headers hs hv !! i = Some (header_value name hs).
Proof.
  intros Hl Hn H0. unfold header_value.
  induction hs as [|h hs IH] using rev_ind; [exact H0|].
  unfold store_headers. rewrite fold_left_app, omap_app, last_app. cbn [fold_left].
  fold (store_headers hs hv). unfold store_header at 1.
  pose proof (length_store_headers hs hv) as Hl'.
  set (key := to_lower_ascii (trim_ascii h.1)).
  pose proof (header_index_name i name Hn key) as Hk. cbn [omap list_omap].
  fold key. case_bool_decide as E.
  - rewrite (proj2 Hk E). cbn. apply list_lookup_insert_eq.
    apply lookup_lt_Some in Hn. unfold header_names in Hn. cbn in Hn. lia.
  - cbn. rewrite <- IH. destruct (header_index key) as [j|] eqn:J; [|done].
    apply list_lookup_insert_ne. intros ->. by apply E, Hk.
Qed.

(** ** Properties *)

Lemma parse_render rl hs rest :
  request_ok rl hs →
  parse_http_headers (render_request rl hs ++ rest)
  = (true, rl, store_headers hs (replicate 5 [])).
Proof.
  intros [H1 H2 H3]. unfold parse_http_headers, render_request.
  rewrite <- !app_assoc.
  rewrite parse_loop_line by (done || (intros E; apply app_eq_nil in E as [_ E]; done)).
  apply parse_headers_render; [done..|].
  rewrite !length_app.
  assert (length hs <= length (concat (map (fun h => render_header h ++ crlf) hs))).
  { clear. induction hs as [|h hs IH]; cbn; [lia|]. rewrite !length_app. cbn. lia. }
  destruct rl; [done|]. cbn. lia.
Qed.

Lemma parsed_header hs i name :
  header_names !! i = Some name →
  store_headers hs (replicate 5 []) !! i = Some (header_value name hs).
Proof.
  intros Hi. apply store_header_value; [done..|].
  apply lookup_replicate_2. by apply lookup_lt_Some in Hi.
Qed.

(** Request round trip: parsing a rendered request succeeds and gives the
    request line and, for each header the upgrade uses, the trimmed value of
    its last occurrence (names compared without case), whatever follows the
    blank line. *)
Theorem parse_http_roundtrip rl hs rest :
  request_ok rl hs →
  ∃ hv, parse_http_headers (render_request rl hs ++ rest) = (true, rl, hv) ∧ length hv = 5
    ∧ ∀ i name, header_names !! i = Some name → hv !! i = Some (header_value name hs).
Proof.
  intros ok. exists (store_headers hs (replicate 5 [])).
  split; [by apply parse_render|]. split; [by rewrite length_store_headers|].
  intros i name. apply parsed_header.
Qed.

Definition sample_headers : list (list Z * list Z) :=
  map (fun h => (bytes_of_string h.1, bytes_of_string h.2))
    [("Upgrade", "websocket"); ("Connection", "keep-alive, Upgrade");
     ("Sec-WebSocket-Key", "dGhlIHNhbXBsZSBub25jZQ=="); ("Sec-WebSocket-Version", "13");
     ("Sec-WebSocket-Protocol", "chat, Telnet.IETF.org")]%string.
Definition sample_line : list Z := bytes_of_string "GET /mud HTTP/1.1".

Lemma sample_request_ok : request_ok sample_line sample_headers.
Proof.
  constructor; [done | by apply (bool_decide_unpack _); vm_compute |].
  repeat constructor; try done; by apply (bool_decide_unpack _); vm_compute.
Qed.

Lemma parse_http_roundtrip_witness :
  ∃ hv, parse_http_headers (render_request sample_line sample_headers ++ [7%Z])
        = (true, sample_line, hv)
      ∧ hv !! 3 = Some (bytes_of_string "13").
Proof.
  destruct (parse_http_roundtrip sample_line sample_headers [7%Z] sample_request_ok)
    as (hv & E & _ & Hv).
  exists hv. split; [exact E|].
  rewrite (Hv 3 "sec-websocket-version"%string eq_refl). reflexivity.
Defined.

(** *** The end of the header block *)

Definition blank_line : list Z := [13; 10; 13; 10]%Z.

(** The blank line does not start inside a line. *)
Lemma blank_not_in_line line rest i :
  10%Z ∉ line → i < length line →
  starts_with blank_line (drop i (line ++ crlf ++ rest)) = false.
Proof.
  intros Hl Hi. apply not_true_iff_false. intros Hs.
  pose proof (starts_with_lookup _ _ 1 10%Z Hs eq_refl) as L.
  rewrite lookup_drop in L.
  destruct (Nat.lt_ge_cases (i + 1) (length line)).
  - rewrite lookup_app_l in L by lia. apply Hl. by eapply list_elem_of_lookup_2.
  - rewrite lookup_app_r in L by lia.
    replace (i + 1 - length line) with 0 in L by lia. done.
Qed.

Lemma find_sub_blank line rest :
  10%Z ∉ line → find_sub blank_line (line ++ crlf ++ crlf ++ rest) = Some (length line).
Proof.
  intros Hl. rewrite find_sub_skip by (intros; by apply blank_not_in_line).
  cbn. f_equal. lia.
Qed.

Lemma find_sub_line line rest :
  10%Z ∉ line → starts_with crlf rest = false →
  find_sub blank_line (line ++ crlf ++ rest)
  = (fun n => length line + 2 + n) <$> find_sub blank_line rest.
Proof.
  intros Hl Hr. rewrite find_sub_skip by (intros; by apply blank_not_in_line).
  rewrite (find_sub_skip _ crlf).
  - cbn [length crlf]. destruct (find_sub blank_line rest); [|done]. cbn. f_equal. lia.
  - intros [|[|i]] Hi; [exact Hr | done | cbn in Hi; lia].
Qed.

Lemma render_header_no_lf h : header_ok h → 10%Z ∉ render_header h.
Proof.
  destruct h as [n v]. intros (_ & _ & H3 & H4). unfold render_header. cbn [app fst snd].
  rewrite elem_of_app, !elem_of_cons. intros [?|[?|[?|?]]]; done.
Qed.

Lemma render_header_no_crlf h rest :
  header_ok h → starts_with crlf (render_header h ++ rest) = false.
Proof.
  destruct h as [n v]. intros (H1 & H2 & H3 & H4). unfold render_header. cbn [app fst snd].
  destruct n as [|a [|b n]]; [done| |]; cbn [app starts_with crlf].
  - by destruct (_ =? a)%Z.
  - destruct (10 =? b)%Z eqn:E; [|by destruct (_ =? a)%Z].
    apply Z.eqb_eq in E. subst b. exfalso. apply H3. by right; left.
Qed.

Lemma find_sub_headers hs line rest :
  Forall header_ok hs → 10%Z ∉ line →
  find_sub blank_line
    (line ++ crlf ++ concat (map (fun h => render_header h ++ crlf) hs) ++ crlf ++ rest)
  = Some (length line + length (concat (map (fun h => render_header h ++ crlf) hs))).
Proof.
  intros Hok. revert line. induction Hok as [|h hs Hh Hok IH]; intros line Hl.
  - cbn [map concat app length]. rewrite find_sub_blank by done. f_equal. lia.
  - cbn [map concat]. rewrite <- !app_assoc, find_sub_line by (done || by apply render_header_no_crlf).
    rewrite IH by by apply render_header_no_lf. cbn. f_equal.
    rewrite !length_app. cbn. lia.
Qed.

Lemma header_end_render rl hs rest :
  request_ok rl hs →
  find_http_header_end (render_request rl hs ++ rest) = Some (length (render_request rl hs)).
Proof.
  intros [H1 H2 H3]. unfold find_http_header_end, render_request. rewrite <- !app_assoc.
  fold blank_line. rewrite find_sub_headers by done. f_equal.
  rewrite !length_app. cbn. lia.
Qed.

(** *** The decision on a request *)

Section Upgrade.
Context `{WsCrypto}.

(** What RFC 6455 section 4.2.1 asks of a request, version apart. *)
Definition upgrade_request_ok (rl : list Z) (hs : list (list Z * list Z)) : Prop :=
  starts_with (bytes_of_string "GET ") rl = true
  ∧ is_Some (find_sub (bytes_of_string "HTTP/1.1") rl)
  ∧ to_lower_ascii (header_value "upgrade" hs) = bytes_of_string "websocket"
  ∧ Exists (fun t => t ≠ [] ∧ to_lower_ascii t = bytes_of_string "upgrade")
      (tokens (header_value "connection" hs))
  ∧ header_value "sec-websocket-key" hs ≠ [].

#[export] Instance upgrade_request_ok_dec rl hs : Decision (upgrade_request_ok rl hs).
Proof. unfold upgrade_request_ok. apply _. Defined.

Definition version_ok (hs : list (list Z * list Z)) : Prop :=
  header_value "sec-websocket-version" hs = []
  ∨ trim_ascii (header_value "sec-websocket-version" hs) = bytes_of_string "13".

#[export] Instance version_ok_dec hs : Decision (version_ok hs).
Proof. unfold version_ok. apply _. Defined.

(** The head of the 101 response, and the whole response. *)
Definition switching_response (accept_key protocol : list Z) : list Z :=
  bytes_of_string "HTTP/1.1 101 Switching Protocols" ++ crlf ++
  bytes_of_string "Upgrade: websocket" ++ crlf ++
  bytes_of_string "Connection: Upgrade" ++ crlf ++
  bytes_of_string "Sec-WebSocket-Accept: " ++ accept_key ++ crlf ++
  (if is_empty protocol then []
   else bytes_of_string "Sec-WebSocket-Protocol: " ++ protocol ++ crlf) ++ crlf.

Definition upgrade_spec (rl : list Z) (hs : list (list Z * list Z)) (preferred : list Z)
    : upgrade_result :=
  if decide (upgrade_request_ok rl hs) then
    if decide (version_ok hs) then
      match build_websocket_accept (header_value "sec-websocket-key" hs) with
      | None => Rejected 400
      | Some key =>
          let p := select_protocol preferred (header_value "sec-websocket-protocol" hs) in
          Accepted (switching_response key p) (negb (is_empty p) && is_telnet_subprotocol p)
      end
    else Rejected 426
  else Rejected 400.

Lemma token_list_contains_Exists csv needle :
  token_list_contains csv needle
  = bool_decide (Exists (fun t => t ≠ [] ∧ to_lower_ascii t = needle) (tokens csv)).
Proof.
  apply eq_bool_prop_intro. rewrite bool_decide_spec, Is_true_true, token_list_contains_iff.
  rewrite Exists_exists. done.
Qed.

Lemma version_test hs :
  negb (is_empty (header_value "sec-websocket-version" hs)) &&
  negb (trim_ascii (header_value "sec-websocket-version" hs) =s bytes_of_string "13")
  = negb (bool_decide (version_ok hs)).
Proof.
  destruct (bool_decide_reflect (version_ok hs)) as [V|V]; unfold version_ok in V.
  - destruct V as [->|V]; [done|]. by rewrite (bool_decide_eq_true_2 _ V), andb_false_r.
  - apply Decidable.not_or in V as [V1 V2]. rewrite (bool_decide_eq_false_2 _ V2).
    by destruct (header_value _ hs).
Qed.

Lemma request_test {A} rl hs (a b : A) :
  (if negb (starts_with (bytes_of_string "GET ") rl)
      || bool_decide (find_sub (bytes_of_string "HTTP/1.1") rl = None)
   then b
   else if negb (to_lower_ascii (header_value "upgrade" hs) =s bytes_of_string "websocket") then b
   else if negb (token_list_contains (header_value "connection" hs) (bytes_of_string "upgrade"))
   then b
   else if is_empty (header_value "sec-websocket-key" hs) then b else a)
  = if decide (upgrade_request_ok rl hs) then a else b.
Proof.
  rewrite token_list_contains_Exists.
  destruct (decide (upgrade_request_ok rl hs)) as [(U1 & [u U2] & U3 & U4 & U5)|U].
  - rewrite U1, U2, (bool_decide_eq_true_2 _ U3), (bool_decide_eq_true_2 _ U4). cbn [negb orb].
    rewrite bool_decide_eq_false_2 by done.
    destruct (header_value "sec-websocket-key" hs); [congruence | done].
  - unfold upgrade_request_ok in U.
    destruct (starts_with _ rl); [|done].
    case_bool_decide as F; [done|]. apply not_eq_None_Some in F.
    case_bool_decide; [|done]. case_bool_decide; [|done]. cbn [negb orb].
    destruct (header_value "sec-websocket-key" hs); [done|]. naive_solver.
Qed.

(** C34: the upgrade decision, for every request a client can render and whatever
    follows it: the header block is found exactly, and parsing it gives the
    101 response with the accept key and the selected subprotocol when the
    request meets RFC 6455, status 426 when only the version is wrong, and
    status 400 otherwise. *)
Theorem upgrade_handshake rl hs rest preferred :
  request_ok rl hs →
  ∃ n, find_http_header_end (render_request rl hs ++ rest) = Some n
    ∧ comm_websocket_build_upgrade_response
        (take n (render_request rl hs ++ rest)) preferred = upgrade_spec rl hs preferred.
Proof.
  intros ok. eexists. split; [by apply header_end_render|]. rewrite take_app_length.
  pose proof (parse_render rl hs [] ok) as P. rewrite app_nil_r in P.
  unfold comm_websocket_build_upgrade_response. rewrite P.
  assert (N : ∀ i name, header_names !! i = Some name →
                nth i (store_headers hs (replicate 5 [])) [] = header_value name hs).
  { intros i name Hi. apply nth_lookup_Some. by apply parsed_header. }
  rewrite (N 0 "upgrade"%string eq_refl), (N 1 "connection"%string eq_refl),
    (N 2 "sec-websocket-key"%string eq_refl), (N 3 "sec-websocket-version"%string eq_refl),
    (N 4 "sec-websocket-protocol"%string eq_refl).
  cbn [negb]. rewrite version_test. cbv zeta. rewrite request_test. unfold upgrade_spec.
  destruct (decide (upgrade_request_ok rl hs)); [|done].
  destruct (decide (version_ok hs)) as [V|V].
  - rewrite bool_decide_eq_true_2 by done. cbn [negb].
    destruct (build_websocket_accept _); [|done]. unfold switching_response.
    destruct (is_empty (select_protocol _ _)); cbn [negb andb app]; by rewrite <- !app_assoc.
  - by rewrite bool_decide_eq_false_2 by done.
Qed.
End Upgrade.

(** The handshake of RFC 6455 section 1.3, with a hash that keeps its input. *)
Definition sample_crypto : WsCrypto := {| SHA1 := Some; EVP_EncodeBlock := fun d => d |}.

Lemma upgrade_handshake_witness :
  ∃ n r, find_http_header_end (render_request sample_line sample_headers ++ [1%Z]) = Some n
    ∧ @comm_websocket_build_upgrade_response sample_crypto
        (take n (render_request sample_line sample_headers ++ [1%Z]))
        (bytes_of_string "telnet.ietf.org, chat") = Accepted r true.
Proof.
  destruct (@upgrade_handshake sample_crypto sample_line sample_headers [1%Z]
              (bytes_of_string "telnet.ietf.org, chat") sample_request_ok) as (n & E & U).
  exists n. eexists. split; [exact E|]. rewrite U. vm_compute. reflexivity.
Defined.

(** The server chooses the first of its preferred subprotocols that the
    client offers, compared without case, and none when the client offers
    none of them. *)
Theorem select_protocol_first preferred client :
  match select_protocol preferred client with
  | [] => ∀ p, p ∈ tokens preferred → p ≠ [] → ¬ offered client p
  | r => ∃ before after, tokens preferred = before ++ r :: after ∧ offered client r
           ∧ ∀ p, p ∈ before → p ≠ [] → ¬ offered client p
  end.
Proof.
  unfold select_protocol. rewrite comma_loop_spec by (done || lia).
  induction (tokens preferred) as [|t ts IH]; cbn [first_some default from_option].
  { intros p Hp. by apply elem_of_nil in Hp. }
  destruct (negb (is_empty t) && token_list_contains client (to_lower_ascii t)) eqn:E.
  - apply andb_true_iff in E as [E1 E2]. apply token_list_contains_iff in E2.
    cbn [default from_option id]. destruct t as [|c t]; [done|].
    exists [], ts. split; [done|]. split; [exact E2|]. intros p Hp. by apply elem_of_nil in Hp.
  - assert (Ht : t ≠ [] → ¬ offered client t).
    { intros Hn Ho. apply token_list_contains_iff in Ho. rewrite Ho in E. by destruct t. }
    destruct (first_some _ ts) as [[|c r]|]; cbn [default from_option id] in *.
    + intros p [->|Hp]%elem_of_cons; auto.
    + destruct IH as (before & after & -> & Ho & Hb). exists (t :: before), after.
      split; [done|]. split; [done|]. intros p [->|Hp]%elem_of_cons; auto.
    + intros p [->|Hp]%elem_of_cons; auto.
Qed.

(** *** Arbitrary header blocks *)

Lemma find_sub_app pat s k :
  find_sub pat s = Some k → s = take k s ++ pat ++ drop (k + length pat) s.
Proof.
  assert (SW : ∀ p t, starts_with p t = true → t = p ++ drop (length p) t).
  { induction p as [|a p IH]; intros [|b t] H; cbn in *; try done.
    apply andb_true_iff in H as [->%Z.eqb_eq H]. f_equal. by apply IH. }
  revert k. induction s as [|x t IH]; intros k; unfold find_sub; fold find_sub;
    destruct (starts_with pat _) eqn:E.
  - intros [= <-]. by apply SW in E.
  - done.
  - intros [= <-]. by apply SW in E.
  - destruct (find_sub pat t) as [j|] eqn:F; [|done]. intros [= <-].
    cbn [take drop app Nat.add]. f_equal. by apply IH.
Qed.

(** Lines with their terminators. *)
Definition unlines (ls : list (list Z)) : list Z := concat (map (fun l => l ++ [10%Z]) ls).

Lemma lines_of s : ∃ ls, s ++ [10%Z] = unlines ls ∧ ls ≠ [] ∧ Forall (fun l => 10%Z ∉ l) ls.
Proof.
  induction s as [|x t (ls & E & Hne & Hls)].
  - exists [[]]. split; [done|]. split; [done|]. constructor; [apply not_elem_of_nil|done].
  - destruct (decide (x = 10%Z)) as [->|Hx].
    + exists ([] :: ls). split; [cbn; by rewrite E|]. split; [done|].
      constructor; [apply not_elem_of_nil|done].
    + destruct ls as [|l ls]; [done|]. exists ((x :: l) :: ls). inversion_clear Hls.
      split; [cbn; by rewrite E|]. split; [done|]. constructor; [|done].
      rewrite not_elem_of_cons. auto.
Qed.

Lemma parse_loop_raw f l rest first rl hv :
  10%Z ∉ l →
  parse_loop (S f) (l ++ 10%Z :: rest) first rl hv =
    if is_empty (strip_cr l) then (negb (is_empty rl), rl, hv)
    else parse_loop f rest false (if first then strip_cr l else rl)
           (if first then hv else header_line hv (strip_cr l)).
Proof.
  intros Hl. cbn [parse_loop]. rewrite find_char_app by done. cbn [default from_option id].
  rewrite take_app_length. replace (is_empty (l ++ 10%Z :: rest)) with false by by destruct l.
  destruct (is_empty (strip_cr l)); [done|].
  rewrite length_app, (proj2 (Nat.eqb_neq _ _)) by (cbn; lia).
  by rewrite drop_app_add.
Qed.

Lemma parse_loop_blank ls b f rl hv :
  Forall (fun l => 10%Z ∉ l) ls → 10%Z ∉ b → strip_cr b = [] → rl ≠ [] → length ls < f →
  (parse_loop f (unlines (ls ++ [b])) false rl hv).1.1 = true.
Proof.
  intros Hls Hb Hs Hrl. unfold unlines. revert f hv.
  induction Hls as [|l ls Hl _ IH]; intros [|f] hv Hf; cbn in Hf; try lia.
  - cbn [app map concat]. rewrite <- app_assoc. cbn [app].
    rewrite parse_loop_raw, Hs by done. by destruct rl.
  - cbn [app map concat]. rewrite <- app_assoc. cbn [app]. rewrite parse_loop_raw by done.
    destruct (is_empty _); [by destruct rl|]. apply IH. lia.
Qed.

Lemma length_unlines ls : length ls ≤ length (unlines ls).
Proof.
  unfold unlines. induction ls as [|l ls IH]; cbn; [lia|]. rewrite !length_app. cbn. lia.
Qed.

Lemma header_end_lines data n :
  find_http_header_end data = Some n →
  ∃ ls b, take n data = unlines (ls ++ [b]) ∧ ls ≠ [] ∧ Forall (fun l => 10%Z ∉ l) ls
    ∧ (b = [] ∨ b = [13%Z]) ∧ 2 ≤ n ≤ length data.
Proof.
  unfold find_http_header_end. intros H.
  assert (∃ k pre b, find_sub (pre ++ [10%Z] ++ b ++ [10%Z]) data = Some k
            ∧ (b = [] ∨ b = [13%Z]) ∧ n = k + length (pre ++ [10%Z] ++ b ++ [10%Z]))
    as (k & pre & b & F & Hb & ->).
  { destruct (find_sub [13; 10; 13; 10]%Z data) as [k|] eqn:F.
    - injection H as <-. exists k, [13%Z], [13%Z]. auto.
    - destruct (find_sub [10; 10]%Z data) as [k|] eqn:F2; [|done].
      injection H as <-. exists k, [], []. auto. }
  pose proof (find_sub_app _ _ _ F) as E.
  assert (Hk : k ≤ length data).
  { destruct (Nat.lt_ge_cases (length data) k); [|done]. apply (f_equal length) in E.
    rewrite !length_app, length_take in E. cbn in E. lia. }
  assert (Hx : length (take k data) = k) by (rewrite length_take; lia).
  revert E Hx. generalize (take k data) as x, (drop (k + length (pre ++ [10%Z] ++ b ++ [10%Z])) data) as y.
  intros x y -> Hx. destruct (lines_of (x ++ pre)) as (ls & El & Hne & Hls).
  exists ls, b. split_and!; try done; cycle 1.
  - rewrite !length_app. cbn. lia.
  - rewrite !length_app. cbn. lia.
  - rewrite (app_assoc x), take_app_length' by (rewrite (length_app x), Hx; done).
    unfold unlines. rewrite map_app, concat_app. fold (unlines ls). rewrite <- El.
    cbn. rewrite app_nil_r. by rewrite <- !app_assoc.
Qed.

(** The search for the end of the header block is sound on arbitrary bytes:
    it stays within the data, the block always ends in a blank line, and so
    the parser accepts it exactly when its first line is not empty. *)
Theorem header_end_sound data n :
  find_http_header_end data = Some n →
  2 ≤ n ≤ length data
  ∧ ((parse_http_headers (take n data)).1.1 = true ↔
     strip_cr (hd [] (split_on 10 data)) ≠ []).
Proof.
  intros H. destruct (header_end_lines data n H) as (ls & b & E & Hne & Hls & Hb & Hn).
  split; [exact Hn|]. destruct ls as [|l ls]; [done|]. inversion_clear Hls as [|?? Hl Hls'].
  assert (Hd : hd [] (split_on 10 data) = l).
  { rewrite <- (take_drop n data), E. unfold unlines. cbn [app map concat].
    rewrite <- !app_assoc. cbn [app]. by rewrite split_on_app. }
  rewrite Hd, E. unfold parse_http_headers.
  pose proof (length_unlines (ls ++ [b])) as Hlen.
  unfold unlines in *. cbn [app map concat] in *. rewrite <- app_assoc. cbn [app].
  rewrite parse_loop_raw by done.
  destruct (strip_cr l) as [|c l'] eqn:S; [done|]. cbn [is_empty]. split; [done|]. intros _.
  apply parse_loop_blank; try done.
  - destruct Hb as [-> | ->]; [apply not_elem_of_nil|]. by rewrite list_elem_of_singleton.
  - by destruct Hb as [-> | ->].
  - rewrite !length_app in *. cbn [length] in *. lia.
Qed.

Lemma header_end_sound_witness :
  let data := bytes_of_string "GET" ++ [10; 10; 7]%Z in
  find_http_header_end data = Some 5 ∧ (parse_http_headers (take 5 data)).1.1 = true.
Proof.
  intros data. assert (E : find_http_header_end data = Some 5) by reflexivity.
  split; [exact E|]. apply (header_end_sound data 5 E). vm_compute. done.
Defined.
