(* ===== verification/OutBuf.v ===== *)
(** * Outbound buffer chains (lib/comm/outbound.cpp)

    The pool of recycled buffers, the append loops of
    [comm_buffered_write_raw_comm] and [append_websocket_upgrade_barrier], and
    [normalize_telnet_newlines]. *)

From S2P Require Import Prelude.

(** ** Buffers and pool *)

(** [ob_data] holds the bytes [buffer[0 .. end)], so [end] is its length. *)
Record outbound_buffer := { ob_data : list Z; ob_start : nat }.

Definition kBufferSize : nat := 4096.
Definition MAX_OUTBOUND_BUFFERS_PER_SLOT : nat := 16.

#[global] Opaque kBufferSize.

Definition ob_end (b : outbound_buffer) : nat := length (ob_data b).
Definition ob_space (b : outbound_buffer) : nat := kBufferSize - ob_end b.
Definition ob_reset : outbound_buffer := {| ob_data := []; ob_start := 0 |}.

(** [memcpy(tail->buffer + tail->end, data, n); tail->end += n]. *)
Definition ob_append (b : outbound_buffer) (bytes : list Z) : outbound_buffer :=
  {| ob_data := ob_data b ++ bytes; ob_start := ob_start b |}.

(** A pooled buffer is reset before it is handed out. *)
Definition allocate_outbound_buffer (pool : list outbound_buffer)
    : outbound_buffer * list outbound_buffer :=
  match pool with
  | _ :: rest => (ob_reset, rest)
  | [] => (ob_reset, [])
  end.

Definition free_outbound_buffer (b : outbound_buffer) (pool : list outbound_buffer)
    : list outbound_buffer := b :: pool.

(** The two loops of [comm_free_outbound_buffers] free a chain head first. *)
Fixpoint free_chain (chain pool : list outbound_buffer) : list outbound_buffer :=
  match chain with
  | [] => pool
  | b :: rest => free_chain rest (free_outbound_buffer b pool)
  end.

(** [if (!chain) chain = allocate_outbound_buffer();] *)
Definition first_buffer (chain pool : list outbound_buffer)
    : list outbound_buffer * list outbound_buffer :=
  match chain with
  | [] => let '(fresh, pool') := allocate_outbound_buffer pool in ([fresh], pool')
  | _ => (chain, pool)
  end.

(** ** The append loop of [comm_buffered_write_raw_comm] *)

(** [while (len > space) ...] from buffer [obb], which is number [buffer_count]
    of its chain, and the final copy; the result is [obb] and what follows it.
    The count bounds the iterations, so [MAX_OUTBOUND_BUFFERS_PER_SLOT + 1] of
    them are never used up. *)
Fixpoint raw_fill (fuel : nat) (obb : outbound_buffer) (buffer_count : nat) (buf : list Z)
    (pool : list outbound_buffer) : list outbound_buffer * list outbound_buffer :=
  match fuel with
  | 0 => ([obb], pool)
  | S f =>
      let space := ob_space obb in
      if space <? length buf then
        let obb' := ob_append obb (take space buf) in
        let buf' := drop space buf in
        if MAX_OUTBOUND_BUFFERS_PER_SLOT <? S buffer_count then ([obb'], pool)
        else
          let '(fresh, pool') := allocate_outbound_buffer pool in
          let '(rest, pool'') := raw_fill f fresh (S buffer_count) buf' pool' in
          (obb' :: rest, pool'')
      else ([ob_append obb buf], pool)
  end.

(** The queue part of [comm_buffered_write_raw_comm] after its argument checks;
    the boolean tells whether it got as far as setting [C_BUFFERED_WRITE]. *)
Definition raw_append (chain : list outbound_buffer) (pool : list outbound_buffer) (buf : list Z)
    : list outbound_buffer * list outbound_buffer * bool :=
  let '(chain, pool) := first_buffer chain pool in
  if MAX_OUTBOUND_BUFFERS_PER_SLOT <=? length chain then
    (* [while (obb->next)] counts the buffers and gives up at the maximum *)
    (chain, pool, false)
  else
    match last chain with
    | None => (chain, pool, true)
    | Some tail =>
        let '(rest, pool') := raw_fill (S MAX_OUTBOUND_BUFFERS_PER_SLOT) tail (length chain) buf pool in
        (take (length chain - 1) chain ++ rest, pool', true)
    end.

(** ** [append_websocket_upgrade_barrier] *)

(** Two turns of the loop per buffer: one fills it, one links the next. *)
Fixpoint barrier_fill (fuel : nat) (tail : outbound_buffer) (buffer_count : nat) (data : list Z)
    (pool : list outbound_buffer) : list outbound_buffer * list outbound_buffer * bool :=
  match fuel with
  | 0 => ([tail], pool, false)
  | S f =>
      if length data =? 0 then ([tail], pool, true)
      else
        let space := ob_space tail in
        if space =? 0 then
          if MAX_OUTBOUND_BUFFERS_PER_SLOT <? S buffer_count then ([tail], pool, false)
          else
            let '(fresh, pool') := allocate_outbound_buffer pool in
            let '(rest, pool'', ok) := barrier_fill f fresh (S buffer_count) data pool' in
            (tail :: rest, pool'', ok)
        else
          let copied := Nat.min space (length data) in
          barrier_fill f (ob_append tail (take copied data)) buffer_count (drop copied data) pool
  end.

Definition barrier_append (barrier : list outbound_buffer) (pool : list outbound_buffer)
    (data : list Z) : list outbound_buffer * list outbound_buffer * bool :=
  if length data =? 0 then (barrier, pool, false)
  else
    let '(barrier, pool) := first_buffer barrier pool in
    if MAX_OUTBOUND_BUFFERS_PER_SLOT <=? length barrier then (barrier, pool, false)
    else
      match last barrier with
      | None => (barrier, pool, false)
      | Some tail =>
          let '(rest, pool', ok) :=
            barrier_fill (2 * S MAX_OUTBOUND_BUFFERS_PER_SLOT) tail (length barrier) data pool in
          (take (length barrier - 1) barrier ++ rest, pool', ok)
      end.

(** ** [normalize_telnet_newlines] *)

(** A carriage return consumes a following line feed, and then, in a second
    independent test, a following NUL. *)
Fixpoint normalize_telnet_newlines (input : list Z) : list Z :=
  match input with
  | [] => []
  | ch :: rest =>
      if (ch =? 13)%Z then
        match rest with
        | [] => [13%Z]
        | n :: rest1 =>
            if (n =? 10)%Z then
              match rest1 with
              | [] => [13; 10]%Z
              | z :: rest2 =>
                  if (z =? 0)%Z then 13%Z :: 10%Z :: 10%Z :: normalize_telnet_newlines rest2
                  else 13%Z :: 10%Z :: normalize_telnet_newlines rest1
              end
            else if (n =? 0)%Z then 13%Z :: 10%Z :: normalize_telnet_newlines rest1
            else 13%Z :: normalize_telnet_newlines rest
        end
      else if (ch =? 10)%Z then 13%Z :: 10%Z :: normalize_telnet_newlines rest
      else ch :: normalize_telnet_newlines rest
  end.

(** ** Specification: a bounded byte queue *)

Definition buffer_ok (b : outbound_buffer) : Prop := ob_start b ≤ ob_end b ≤ kBufferSize.

Definition chain_ok (c : list outbound_buffer) : Prop :=
  length c ≤ MAX_OUTBOUND_BUFFERS_PER_SLOT ∧ Forall buffer_ok c.

(** The bytes still to be sent, in order. *)
Definition content (c : list outbound_buffer) : list Z :=
  concat (map (fun b => drop (ob_start b) (ob_data b)) c).

(** The bytes an append can take: the space of the last buffer and the buffers
    the chain may still grow by; a chain of 16 buffers takes nothing. *)
Definition room (c : list outbound_buffer) : nat :=
  match last c with
  | None => MAX_OUTBOUND_BUFFERS_PER_SLOT * kBufferSize
  | Some tail =>
      if MAX_OUTBOUND_BUFFERS_PER_SLOT <=? length c then 0
      else ob_space tail + (MAX_OUTBOUND_BUFFERS_PER_SLOT - length c) * kBufferSize
  end.

(** ** Lemmas *)

Lemma content_app c d : content (c ++ d) = content c ++ content d.
Proof. unfold content. by rewrite map_app, concat_app. Qed.

Lemma content_single b : content [b] = drop (ob_start b) (ob_data b).
Proof. unfold content. cbn. apply app_nil_r. Qed.

Lemma content_append b bytes :
  ob_start b ≤ ob_end b → content [ob_append b bytes] = content [b] ++ bytes.
Proof. intros H. rewrite !content_single. cbn. by rewrite drop_app_le. Qed.

Lemma allocate_fresh pool :
  (allocate_outbound_buffer pool).1 = ob_reset
  ∧ length (allocate_outbound_buffer pool).2 = length pool - 1.
Proof. destruct pool; cbn; split; lia || done. Qed.

Lemma buffer_ok_reset : buffer_ok ob_reset.
Proof. unfold buffer_ok, ob_end. cbn [ob_reset ob_data ob_start length]. lia. Qed.

Lemma buffer_ok_append b bytes :
  buffer_ok b → length bytes ≤ ob_space b → buffer_ok (ob_append b bytes).
Proof. unfold buffer_ok, ob_space, ob_end. cbn [ob_append ob_data ob_start]. rewrite length_app. lia. Qed.
#[export] Hint Resolve buffer_ok_reset buffer_ok_append : mudmux.

Lemma ob_space_reset : ob_space ob_reset = kBufferSize.
Proof. reflexivity. Qed.

(** What an append loop that starts in the last buffer [b] of a chain of
    [count] buffers achieves. *)
Definition appended (b : outbound_buffer) (count : nat) (pool : list outbound_buffer)
    (data : list Z) (rest pool' : list outbound_buffer) : Prop :=
  content rest = content [b]
    ++ take (ob_space b + (MAX_OUTBOUND_BUFFERS_PER_SLOT - count) * kBufferSize) data
  ∧ 1 ≤ length rest ≤ 1 + (MAX_OUTBOUND_BUFFERS_PER_SLOT - count)
  ∧ Forall buffer_ok rest
  ∧ length pool' = length pool - (length rest - 1).

(** Copying part of the data into the last buffer first. *)
Lemma appended_copy b count pool data n rest pool' :
  buffer_ok b → n ≤ ob_space b → n ≤ length data →
  appended (ob_append b (take n data)) count pool (drop n data) rest pool' →
  appended b count pool data rest pool'.
Proof.
  intros Hb Hn Hd (E & H). split; [|exact H]. rewrite E, content_append by apply Hb.
  rewrite <- app_assoc. f_equal.
  assert (Hs : ob_space (ob_append b (take n data)) = ob_space b - n).
  { unfold ob_space, ob_end. cbn [ob_append ob_data]. rewrite length_app, length_take. lia. }
  rewrite Hs. generalize ((MAX_OUTBOUND_BUFFERS_PER_SLOT - count) * kBufferSize). intros k.
  rewrite <- (take_drop n (take (ob_space b + k) data)).
  rewrite take_take, take_drop_commute. f_equal; [f_equal; lia|]. do 2 f_equal. lia.
Qed.

(** Linking a fresh buffer behind a full one. *)
Lemma appended_link b count pool data pool0 rest pool' :
  buffer_ok b → ob_space b = 0 → count < MAX_OUTBOUND_BUFFERS_PER_SLOT →
  length pool0 = length pool - 1 →
  appended ob_reset (S count) pool0 data rest pool' →
  appended b count pool data (b :: rest) pool'.
Proof.
  intros Hb Hs Hc Hp (E & Hl & Hok & Hpl). unfold appended. split.
  - change (b :: rest) with ([b] ++ rest).
    rewrite content_app, E, (content_single ob_reset), ob_space_reset, Hs.
    cbn [app ob_reset ob_data ob_start drop]. do 2 f_equal.
    replace (MAX_OUTBOUND_BUFFERS_PER_SLOT - count)
      with (S (MAX_OUTBOUND_BUFFERS_PER_SLOT - S count)) by lia. lia.
  - cbn [length]. split; [lia|]. split; [auto|lia].
Qed.

(** Nothing to append, or nowhere to append it. *)
Lemma appended_stop b count pool data :
  buffer_ok b →
  data = [] ∨ (ob_space b = 0 ∧ MAX_OUTBOUND_BUFFERS_PER_SLOT ≤ count) →
  appended b count pool data [b] pool.
Proof.
  intros Hb H. unfold appended. split; [|cbn [length]; split; [lia|]; split; [auto|lia]].
  destruct H as [->|[-> Hc]]; [by rewrite take_nil, app_nil_r|].
  replace (MAX_OUTBOUND_BUFFERS_PER_SLOT - count) with 0 by lia.
  by rewrite Nat.mul_0_l, take_0, app_nil_r.
Qed.

Lemma ob_space_full b data :
  ob_space b ≤ length data → ob_space (ob_append b (take (ob_space b) data)) = 0.
Proof.
  intros H. unfold ob_space at 1. unfold ob_end. cbn [ob_append ob_data].
  rewrite length_app, length_take. unfold ob_space, ob_end in *. lia.
Qed.

Lemma buffer_ok_take b n data :
  buffer_ok b → n ≤ ob_space b → buffer_ok (ob_append b (take n data)).
Proof. intros. apply buffer_ok_append; [done|]. rewrite length_take. lia. Qed.
#[export] Hint Resolve buffer_ok_take : mudmux.

Lemma raw_fill_spec fuel b count data pool :
  buffer_ok b → count ≤ MAX_OUTBOUND_BUFFERS_PER_SLOT →
  MAX_OUTBOUND_BUFFERS_PER_SLOT - count < fuel →
  appended b count pool data (raw_fill fuel b count data pool).1 (raw_fill fuel b count data pool).2.
Proof.
  revert b count data pool. induction fuel as [|f IH]; intros b count data pool Hb Hc Hf; [lia|].
  cbn [raw_fill]. destruct (ob_space b <? length data) eqn:E; breflect; cycle 1.
  { apply (appended_copy b count pool data (length data)); [done|lia|done|].
    rewrite firstn_all, drop_all. apply appended_stop; auto with mudmux. }
  pose proof (ob_space_full b data ltac:(lia)) as Hfull.
  destruct (MAX_OUTBOUND_BUFFERS_PER_SLOT <? S count) eqn:F; breflect.
  { apply (appended_copy b count pool data (ob_space b)); [done..|lia|].
    apply appended_stop; [auto with mudmux|]. right. split; [done|lia]. }
  destruct (allocate_fresh pool) as [Ha Hp].
  destruct (allocate_outbound_buffer pool) as [fresh pool0]. cbn [fst snd] in Ha, Hp. subst fresh.
  specialize (IH ob_reset (S count) (drop (ob_space b) data) pool0 buffer_ok_reset
                ltac:(lia) ltac:(lia)).
  destruct (raw_fill f _ _ _ _) as [rest pool']. cbn [fst snd] in *.
  apply (appended_copy b count pool data (ob_space b)); [done..|lia|].
  eapply appended_link; auto with mudmux; done.
Qed.

Lemma barrier_fill_spec fuel b count data pool :
  buffer_ok b → count ≤ MAX_OUTBOUND_BUFFERS_PER_SLOT →
  2 * (MAX_OUTBOUND_BUFFERS_PER_SLOT - count) + (if ob_space b =? 0 then 0 else 1) + 1 < fuel →
  let '(rest, pool', ok) := barrier_fill fuel b count data pool in
  appended b count pool data rest pool'
  ∧ ok = (length data <=? ob_space b + (MAX_OUTBOUND_BUFFERS_PER_SLOT - count) * kBufferSize).
Proof.
  revert b count data pool. induction fuel as [|f IH]; intros b count data pool Hb Hc Hf; [lia|].
  cbn [barrier_fill]. destruct (length data =? 0) eqn:E0; breflect.
  { apply nil_length_inv in E0 as ->. split; [|done]. apply appended_stop; auto. }
  destruct (ob_space b =? 0) eqn:Es; breflect.
  - destruct (MAX_OUTBOUND_BUFFERS_PER_SLOT <? S count) eqn:F; breflect.
    { split; [apply appended_stop; [done|right; split; [done|lia]]|]. symmetry. apply Nat.leb_gt.
      replace (MAX_OUTBOUND_BUFFERS_PER_SLOT - count) with 0 by lia. lia. }
    destruct (allocate_fresh pool) as [Ha Hp].
    destruct (allocate_outbound_buffer pool) as [fresh pool0]. cbn [fst snd] in Ha, Hp. subst fresh.
    specialize (IH ob_reset (S count) data pool0 buffer_ok_reset ltac:(lia)).
    rewrite ob_space_reset in IH. specialize (IH ltac:(case_bool; lia)).
    destruct (barrier_fill f _ _ _ _) as [[rest pool'] ok]. destruct IH as [A ->].
    split; [by eapply appended_link|]. rewrite Es. f_equal.
    replace (MAX_OUTBOUND_BUFFERS_PER_SLOT - count)
      with (S (MAX_OUTBOUND_BUFFERS_PER_SLOT - S count)) by lia. lia.
  - set (n := Nat.min (ob_space b) (length data)).
    assert (Hs : ob_space (ob_append b (take n data)) = ob_space b - n).
    { unfold ob_space, ob_end. cbn [ob_append ob_data]. rewrite length_app, length_take. lia. }
    destruct (Nat.le_gt_cases (length data) (ob_space b)) as [Hle|Hgt].
    + assert (n = length data) as -> by lia. rewrite drop_all. destruct f as [|f]; [lia|].
      cbn [barrier_fill length Nat.eqb]. split; [|symmetry; apply Nat.leb_le, Nat.le_trans with (ob_space b); [done|apply Nat.le_add_r]].
      apply (appended_copy b count pool data (length data)); [done|lia|done|].
      rewrite drop_all. apply appended_stop; auto with mudmux.
    + specialize (IH (ob_append b (take n data)) count (drop n data) pool
                    ltac:(apply buffer_ok_take; [done|lia]) Hc).
      rewrite Hs in IH. assert (ob_space b - n = 0) as H0 by lia. rewrite H0 in IH.
      specialize (IH ltac:(cbn [Nat.eqb]; lia)).
      destruct (barrier_fill f _ _ _ _) as [[rest pool'] ok]. destruct IH as [A ->].
      split; [eapply appended_copy; [done|..|exact A]; lia|].
      rewrite length_drop. apply eq_true_iff_eq. rewrite !Nat.leb_le.
      generalize ((MAX_OUTBOUND_BUFFERS_PER_SLOT - count) * kBufferSize). lia.
Qed.

(** ** Properties *)

Lemma chain_last (c : list outbound_buffer) tail :
  last c = Some tail → c = take (length c - 1) c ++ [tail] ∧ 0 < length c.
Proof.
  intros H. apply last_Some in H as [c' ->]. rewrite length_app. cbn [length].
  replace (length c' + 1 - 1) with (length c') by lia. rewrite take_app_length. split; [done|lia].
Qed.

(** What both append operations do to a chain. *)
Lemma appended_chain c tail pool data rest pool' :
  chain_ok c → last c = Some tail → length c < MAX_OUTBOUND_BUFFERS_PER_SLOT →
  appended tail (length c) pool data rest pool' →
  let c' := take (length c - 1) c ++ rest in
  content c' = content c ++ take (room c) data ∧ chain_ok c'
  ∧ length pool' = length pool - (length c' - length c).
Proof.
  intros [Hl Hok] Ht Hlt (E & Hr & Hrok & Hp) c'. subst c'.
  destruct (chain_last c tail Ht) as [Hc Hpos].
  split_and!.
  - assert (content c = content (take (length c - 1) c) ++ content [tail]) as ->
      by (rewrite Hc at 1; apply content_app).
    rewrite content_app, E, app_assoc. f_equal.
    unfold room. rewrite Ht, (proj2 (Nat.leb_gt _ _)) by lia. done.
  - split.
    + rewrite length_app, length_take. lia.
    + apply Forall_app. split; [by apply Forall_take|done].
  - rewrite length_app, length_take. lia.
Qed.

Lemma chain_first_ok : chain_ok [ob_reset].
Proof.
  split; [cbn [length]; unfold MAX_OUTBOUND_BUFFERS_PER_SLOT; lia|].
  auto with mudmux.
Qed.

Lemma room_first : room [ob_reset] = room [].
Proof.
  unfold room. cbn [last length]. rewrite ob_space_reset.
  change (MAX_OUTBOUND_BUFFERS_PER_SLOT <=? 1) with false. cbv iota.
  change (MAX_OUTBOUND_BUFFERS_PER_SLOT - 1) with 15.
  change MAX_OUTBOUND_BUFFERS_PER_SLOT with 16. lia.
Qed.

Lemma first_buffer_spec chain pool :
  chain_ok chain →
  let c := (first_buffer chain pool).1 in
  chain_ok c ∧ content c = content chain ∧ room c = room chain
  ∧ (length chain <? MAX_OUTBOUND_BUFFERS_PER_SLOT)
    = negb (MAX_OUTBOUND_BUFFERS_PER_SLOT <=? length c)
  ∧ ∃ tail, last c = Some tail ∧ buffer_ok tail.
Proof.
  intros Hok. destruct chain as [|b chain]; unfold first_buffer.
  - destruct (allocate_fresh pool) as [Ha _]. destruct (allocate_outbound_buffer pool) as [f p].
    cbn [fst] in *. subst f.
    split; [apply chain_first_ok|]. split; [done|]. split; [apply room_first|].
    split; [done|]. exists ob_reset. auto with mudmux.
  - cbn [fst]. split_and!; try done; [by rewrite Nat.ltb_antisym|].
    destruct (last (b :: chain)) as [tail|] eqn:L; [|by apply last_None in L].
    exists tail. split; [done|]. destruct Hok as [_ Hok]. rewrite Forall_forall in Hok.
    by apply Hok, last_Some_elem_of.
Qed.

Lemma room_full c : c ≠ [] → MAX_OUTBOUND_BUFFERS_PER_SLOT ≤ length c → room c = 0.
Proof.
  intros Hne Hl. unfold room. destruct (last c) eqn:L; [|by apply last_None in L].
  by rewrite (proj2 (Nat.leb_le _ _)).
Qed.

Lemma raw_append_spec chain pool buf :
  chain_ok chain →
  let '(chain', pool', wrote) := raw_append chain pool buf in
  content chain' = content chain ++ take (room chain) buf ∧ chain_ok chain'
  ∧ wrote = (length chain <? MAX_OUTBOUND_BUFFERS_PER_SLOT).
Proof.
  intros Hok. unfold raw_append. pose proof (first_buffer_spec chain pool Hok) as H.
  destruct (first_buffer chain pool) as [c p]. cbn [fst] in H.
  destruct H as (Hc & <- & <- & -> & tail & L & Hb).
  destruct (MAX_OUTBOUND_BUFFERS_PER_SLOT <=? length c) eqn:F; breflect.
  - split_and!; try done. rewrite room_full, take_0, app_nil_r; [done| |done]. by intros ->.
  - rewrite L. pose proof (raw_fill_spec (S MAX_OUTBOUND_BUFFERS_PER_SLOT) tail (length c) buf p Hb
                  ltac:(lia) ltac:(lia)) as A.
    destruct (raw_fill _ _ _ _ _) as [rest pool']. cbn [fst snd] in A.
    destruct (appended_chain c tail p buf rest pool' Hc L ltac:(lia) A) as (E1 & E2 & _). done.
Qed.

(** Appending raw bytes to a slot's output queue keeps the order and never
    grows a chain past 16 buffers of 4096 bytes: the queue gains exactly the
    longest prefix of the data that fits in the remaining room, all of it when
    it fits, and nothing when the chain already has 16 buffers. *)
Theorem raw_append_queue chain pool buf :
  chain_ok chain →
  let '(chain', pool', wrote) := raw_append chain pool buf in
  content chain' = content chain ++ take (room chain) buf ∧ chain_ok chain'
  ∧ wrote = (length chain <? MAX_OUTBOUND_BUFFERS_PER_SLOT).
Proof. apply raw_append_spec. Qed.

Definition sample_chain : list outbound_buffer := [{| ob_data := [1; 2; 3]%Z; ob_start := 1 |}].

Lemma sample_chain_ok : chain_ok sample_chain.
Proof.
  split; [cbn; unfold MAX_OUTBOUND_BUFFERS_PER_SLOT; lia|].
  repeat constructor; vm_compute; lia.
Qed.

Lemma raw_append_queue_witness :
  content (raw_append sample_chain [] [4; 5]%Z).1.1 = [2; 3; 4; 5]%Z.
Proof.
  pose proof (raw_append_queue sample_chain [] [4; 5]%Z sample_chain_ok) as H.
  destruct (raw_append sample_chain [] [4; 5]%Z) as [[c p] w]. cbn [fst].
  destruct H as [-> _]. vm_compute. reflexivity.
Defined.

Lemma barrier_append_spec barrier pool data :
  chain_ok barrier →
  let '(barrier', pool', ok) := barrier_append barrier pool data in
  content barrier' = content barrier ++ take (room barrier) data ∧ chain_ok barrier'
  ∧ ok = negb (length data =? 0) && (length data <=? room barrier).
Proof.
  intros Hok. unfold barrier_append. destruct (length data =? 0) eqn:E0; breflect.
  { apply nil_length_inv in E0 as ->. by rewrite take_nil, app_nil_r. }
  pose proof (first_buffer_spec barrier pool Hok) as H.
  destruct (first_buffer barrier pool) as [c p]. cbn [fst] in H.
  destruct H as (Hc & <- & <- & _ & tail & L & Hb). cbn [negb andb].
  destruct (MAX_OUTBOUND_BUFFERS_PER_SLOT <=? length c) eqn:F; breflect.
  - rewrite room_full, take_0, app_nil_r; [| by intros -> |done].
    split_and!; try done. symmetry. apply Nat.leb_gt. lia.
  - rewrite L.
    pose proof (barrier_fill_spec (2 * S MAX_OUTBOUND_BUFFERS_PER_SLOT) tail (length c) data p Hb
                  ltac:(lia)) as A.
    destruct (chain_last c tail L) as [_ Hpos].
    specialize (A ltac:(case_bool; lia)).
    destruct (barrier_fill _ _ _ _ _) as [[rest pool'] ok]. destruct A as [A ->].
    destruct (appended_chain c tail p data rest pool' Hc L ltac:(lia) A) as (E1 & E2 & _).
    split_and!; try done. f_equal. unfold room. rewrite L, (proj2 (Nat.leb_gt _ _)) by lia. done.
Qed.

(** Output held behind a WebSocket upgrade follows the same discipline as
    the normal queue, and the append reports success exactly when all the data
    was queued. *)
Theorem barrier_append_queue barrier pool data :
  chain_ok barrier →
  let '(barrier', pool', ok) := barrier_append barrier pool data in
  content barrier' = content barrier ++ take (room barrier) data ∧ chain_ok barrier'
  ∧ ok = negb (length data =? 0) && (length data <=? room barrier).
Proof. apply barrier_append_spec. Qed.

Lemma barrier_append_queue_witness :
  (barrier_append sample_chain [] [4; 5]%Z).2 = true.
Proof.
  pose proof (barrier_append_queue sample_chain [] [4; 5]%Z sample_chain_ok) as H.
  destruct (barrier_append sample_chain [] [4; 5]%Z) as [[c p] ok]. cbn [snd].
  destruct H as (_ & _ & ->).
  vm_compute. reflexivity.
Defined.

(** Data that does not fit is cut in the middle: whenever a slot's chain has
    fewer than 16 buffers and the data exceeds the room, the queue receives a
    strict prefix of it and the write still counts as made.  A WebSocket frame
    cut this way leaves its length field announcing bytes that never come. *)
Theorem raw_append_truncates chain pool buf :
  chain_ok chain → length chain < MAX_OUTBOUND_BUFFERS_PER_SLOT → room chain < length buf →
  ∃ chain' pool' sent lost,
    raw_append chain pool buf = (chain', pool', true) ∧ buf = sent ++ lost
    ∧ content chain' = content chain ++ sent ∧ lost ≠ [] ∧ length sent = room chain.
Proof.
  intros Hok Hl Hr. pose proof (raw_append_spec chain pool buf Hok) as H.
  destruct (raw_append chain pool buf) as [[chain' pool'] w]. destruct H as (E & _ & ->).
  exists chain', pool', (take (room chain) buf), (drop (room chain) buf).
  rewrite (proj2 (Nat.ltb_lt _ _)) by done. split_and!; try done.
  - by rewrite take_drop.
  - intros Hd. apply (f_equal length) in Hd. rewrite length_drop in Hd. cbn in Hd. lia.
  - rewrite length_take. lia.
Qed.

Definition full_chain : list outbound_buffer :=
  replicate 15 {| ob_data := replicate 4096 65%Z; ob_start := 0 |}.

Lemma raw_append_truncates_witness :
  ∃ chain' pool' sent lost,
    raw_append full_chain [] (replicate 4097 66%Z) = (chain', pool', true)
    ∧ replicate 4097 66%Z = sent ++ lost
    ∧ content chain' = content full_chain ++ sent ∧ lost ≠ [] ∧ length sent = 4096.
Proof.
  apply (raw_append_truncates full_chain [] (replicate 4097 66%Z)).
  - split; [vm_compute; lia|]. apply Forall_replicate. vm_compute. lia.
  - vm_compute. lia.
  - vm_compute. lia.
Defined.

(** *** Newline normalisation *)

(** Every line feed follows a carriage return; [cr] tells whether the byte
    before was one. *)
Fixpoint crlf_lines (cr : bool) (s : list Z) : bool :=
  match s with
  | [] => true
  | c :: t =>
      if (c =? 10)%Z then cr && crlf_lines false t
      else crlf_lines (c =? 13)%Z t
  end.

(** [CR LF NUL] somewhere in the text. *)
Definition has_crlf_nul (s : list Z) : Prop := ∃ a b, s = a ++ [13; 10; 0]%Z ++ b.

Lemma has_crlf_nul_app a s : ¬ has_crlf_nul (a ++ s) → ¬ has_crlf_nul s.
Proof. intros H (x & y & ->). apply H. exists (a ++ x), y. by rewrite <- app_assoc. Qed.

(** Case analysis following [normalize_telnet_newlines]. *)
Lemma normalize_ind (P : list Z → list Z → Prop) :
  P [] [] → P [13]%Z [13]%Z → P [13; 10]%Z [13; 10]%Z →
  (∀ t, P t (normalize_telnet_newlines t) →
        P (13 :: 10 :: 0 :: t)%Z (13 :: 10 :: 10 :: normalize_telnet_newlines t)%Z) →
  (∀ z t, z ≠ 0%Z → P (z :: t) (normalize_telnet_newlines (z :: t)) →
        P (13 :: 10 :: z :: t)%Z (13 :: 10 :: normalize_telnet_newlines (z :: t))%Z) →
  (∀ t, P t (normalize_telnet_newlines t) →
        P (13 :: 0 :: t)%Z (13 :: 10 :: normalize_telnet_newlines t)%Z) →
  (∀ n t, n ≠ 10%Z → n ≠ 0%Z → P (n :: t) (normalize_telnet_newlines (n :: t)) →
        P (13 :: n :: t)%Z (13 :: normalize_telnet_newlines (n :: t))%Z) →
  (∀ t, P t (normalize_telnet_newlines t) →
        P (10 :: t)%Z (13 :: 10 :: normalize_telnet_newlines t)%Z) →
  (∀ c t, c ≠ 13%Z → c ≠ 10%Z → P t (normalize_telnet_newlines t) →
        P (c :: t) (c :: normalize_telnet_newlines t)) →
  ∀ s, P s (normalize_telnet_newlines s).
Proof.
  intros H0 H1 H2 H3 H4 H5 H6 H7 H8 s. remember (length s) as n eqn:E. revert s E.
  induction (lt_wf n) as [n _ IH]. intros s ->.
  assert (R : ∀ t, length t < length s → P t (normalize_telnet_newlines t))
    by (intros t Ht; by eapply IH).
  destruct s as [|c s]; [done|].
  destruct (Z.eqb_spec c 13) as [->|Hc]; [destruct s as [|d s]; [done|];
    destruct (Z.eqb_spec d 10) as [->|Hd];
    [destruct s as [|z s]; [done|]; destruct (Z.eqb_spec z 0) as [->|Hz]|
     destruct (Z.eqb_spec d 0) as [->|Hd0]]|destruct (Z.eqb_spec c 10) as [->|Hc10]].
  - apply H3, R. cbn. lia.
  - change (normalize_telnet_newlines (13%Z :: 10%Z :: z :: s))
      with (if (z =? 0)%Z then 13%Z :: 10%Z :: 10%Z :: normalize_telnet_newlines s
            else 13%Z :: 10%Z :: normalize_telnet_newlines (z :: s)).
    rewrite (proj2 (Z.eqb_neq z 0)) by done. apply H4; [done|]. apply R. cbn. lia.
  - apply H5, R. cbn. lia.
  - assert (normalize_telnet_newlines (13%Z :: d :: s)
            = 13%Z :: normalize_telnet_newlines (d :: s)) as ->.
    { cbn [normalize_telnet_newlines]. rewrite (proj2 (Z.eqb_neq d 10)), (proj2 (Z.eqb_neq d 0))
        by done. done. }
    apply H6; [done..|]. apply R. cbn. lia.
  - apply H7, R. cbn. lia.
  - cbn [normalize_telnet_newlines].
    rewrite (proj2 (Z.eqb_neq c 13)), (proj2 (Z.eqb_neq c 10)) by done.
    apply H8; [done..|]. apply R. cbn. lia.
Qed.

(** Normalised text starts with the first byte of the text, or with [CR]. *)
Lemma normalize_head s :
  match normalize_telnet_newlines s with
  | [] => s = []
  | c :: _ => c = 13%Z ∨ hd_error s = Some c ∧ c ≠ 10%Z
  end.
Proof.
  apply (normalize_ind (fun s out => match out with
    | [] => s = [] | c :: _ => c = 13%Z ∨ hd_error s = Some c ∧ c ≠ 10%Z end)); auto.
Qed.

Lemma crlf_lines_normalize cr s :
  crlf_lines cr (normalize_telnet_newlines s) = crlf_lines false (normalize_telnet_newlines s).
Proof.
  pose proof (normalize_head s) as H. destruct (normalize_telnet_newlines s) as [|c t]; [done|].
  cbn. destruct (Z.eqb_spec c 10) as [->|]; [|done]. by destruct H as [?|[_ ?]].
Qed.

(** Output sent to a telnet client never carries a line feed without its
    carriage return, unless the text contains the bytes CR LF NUL. *)
Theorem normalize_crlf s :
  ¬ has_crlf_nul s → crlf_lines false (normalize_telnet_newlines s) = true.
Proof.
  apply (normalize_ind (fun s out => ¬ has_crlf_nul s → crlf_lines false out = true)); try done.
  - intros t _ H. exfalso. apply H. by exists [], t.
  - intros z t _ IH H. cbn -[normalize_telnet_newlines]. apply IH.
    by apply (has_crlf_nul_app [13; 10]%Z).
  - intros t IH H. cbn. apply IH. by apply (has_crlf_nul_app [13; 0]%Z).
  - intros n t _ _ IH H. cbn -[normalize_telnet_newlines]. rewrite crlf_lines_normalize. apply IH.
    by apply (has_crlf_nul_app [13]%Z).
  - intros t IH H. cbn. apply IH. by apply (has_crlf_nul_app [10]%Z).
  - intros c t Hc Hl IH H. cbn. rewrite (proj2 (Z.eqb_neq c 10)), (proj2 (Z.eqb_neq c 13)) by done.
    apply IH. by apply (has_crlf_nul_app [c]).
Qed.

Lemma normalize_crlf_witness :
  crlf_lines false (normalize_telnet_newlines [65; 10; 13; 66; 13; 0]%Z) = true.
Proof.
  apply normalize_crlf. intros (a & b & E). repeat (destruct a as [|? a]; simplify_eq/=).
Defined.

Lemma normalize_crlf_step o :
  hd_error o ≠ Some 0%Z →
  normalize_telnet_newlines (13%Z :: 10%Z :: o) = 13%Z :: 10%Z :: normalize_telnet_newlines o.
Proof.
  intros H. destruct o as [|c o]; [done|]. cbn in H.
  change (normalize_telnet_newlines (13%Z :: 10%Z :: c :: o))
    with (if (c =? 0)%Z then 13%Z :: 10%Z :: 10%Z :: normalize_telnet_newlines o
          else 13%Z :: 10%Z :: normalize_telnet_newlines (c :: o)).
  rewrite (proj2 (Z.eqb_neq c 0)); [done|]. by intros ->.
Qed.

Lemma normalize_cr_step o :
  hd_error o ≠ Some 0%Z → hd_error o ≠ Some 10%Z →
  normalize_telnet_newlines (13%Z :: o) = 13%Z :: normalize_telnet_newlines o.
Proof.
  intros H0 H1. destruct o as [|c o]; [done|]. cbn [hd_error] in *.
  cbn [normalize_telnet_newlines Z.eqb Pos.eqb].
  rewrite (proj2 (Z.eqb_neq c 10)), (proj2 (Z.eqb_neq c 0)); [done|..]; by intros ->.
Qed.

Lemma normalize_hd_not_nul s :
  0%Z ∉ s → hd_error (normalize_telnet_newlines s) ≠ Some 0%Z
            ∧ hd_error (normalize_telnet_newlines s) ≠ Some 10%Z.
Proof.
  intros H. pose proof (normalize_head s) as Hd.
  destruct (normalize_telnet_newlines s) as [|c o]; [done|].
  destruct Hd as [->|[Hs Hc]]; [done|]. cbn [hd_error]. split; [|congruence].
  intros [= ->]. destruct s; [done|]. injection Hs as ->. apply H. left.
Qed.

(** Normalising twice is normalising once, on text without NUL bytes, so
    output that is already in network form is sent unchanged. *)
Theorem normalize_idempotent s :
  0%Z ∉ s →
  normalize_telnet_newlines (normalize_telnet_newlines s) = normalize_telnet_newlines s.
Proof.
  apply (normalize_ind (fun s out => 0%Z ∉ s → normalize_telnet_newlines out = out)); try done.
  - intros t _ H. exfalso. apply H. do 2 right. left.
  - intros z t Hz IH H. assert (H' : 0%Z ∉ z :: t) by (intros ?; apply H; by do 2 right).
    rewrite normalize_crlf_step, IH by (done || by apply normalize_hd_not_nul). done.
  - intros t _ H. exfalso. apply H. right. left.
  - intros n t Hn Hn0 IH H. assert (H' : 0%Z ∉ n :: t) by (intros ?; apply H; by right).
    destruct (normalize_hd_not_nul _ H'). rewrite normalize_cr_step, IH by done. done.
  - intros t IH H. assert (H' : 0%Z ∉ t) by (intros ?; apply H; by right).
    rewrite normalize_crlf_step, IH by (done || by apply normalize_hd_not_nul). done.
  - intros c t Hc Hl IH H. assert (H' : 0%Z ∉ t) by (intros ?; apply H; by right).
    cbn [normalize_telnet_newlines].
    rewrite (proj2 (Z.eqb_neq c 13)), (proj2 (Z.eqb_neq c 10)) by done. f_equal. by apply IH.
Qed.

Lemma normalize_idempotent_witness :
  normalize_telnet_newlines (normalize_telnet_newlines [65; 10; 66; 13; 10]%Z)
  = [65; 13; 10; 66; 13; 10]%Z.
Proof.
  etransitivity; [apply (normalize_idempotent [65; 10; 66; 13; 10]%Z)|reflexivity].
  by apply (bool_decide_unpack _); vm_compute.
Defined.

(** The bytes CR LF NUL are sent as CR LF LF: the NUL test runs on the byte
    after the line feed already handled, so a bare line feed appears and the
    NUL is lost. *)
Theorem normalize_crlf_nul before after :
  13%Z ∉ before → 10%Z ∉ before →
  normalize_telnet_newlines (before ++ [13; 10; 0]%Z ++ after)
  = before ++ [13; 10; 10]%Z ++ normalize_telnet_newlines after.
Proof.
  induction before as [|c b IH]; [done|]. rewrite !not_elem_of_cons. intros [H1 H2] [H3 H4].
  cbn [app normalize_telnet_newlines].
  rewrite (proj2 (Z.eqb_neq c 13)), (proj2 (Z.eqb_neq c 10)) by done. f_equal. by apply IH.
Qed.

Lemma normalize_crlf_nul_witness :
  crlf_lines false (normalize_telnet_newlines ([65] ++ [13; 10; 0] ++ [66])%Z) = false.
Proof.
  rewrite (normalize_crlf_nul [65]%Z [66]%Z); [reflexivity|..];
    by apply (bool_decide_unpack _); vm_compute.
Defined.
