(* ===== verification/InBuf.v ===== *)
(** * Inbound buffer chains (lib/comm/inbound.cpp)

    The chain of receive buffers of a slot and its pool, the copy and consume
    operations, the raw fill loop, the line scanner [_find_newline_and_strip]
    and the key scanner [_find_char_input_sequence].  The C library's [mbrlen]
    is a parameter ([MultiByte]). *)

From S2P Require Import Prelude TextUtil.

(** ** Buffers, pool and chains *)

(** [ib_data] holds the bytes [buffer[0 .. end)], so [end] is its length. *)
Record inbound_buffer := { ib_band : nat; ib_start : nat; ib_data : list Z }.

Definition kInboundSize : nat := 4096.
#[global] Opaque kInboundSize.
Definition INBOUND_BAND_DATA : nat := 0.
Definition INBOUND_BAND_SUBNEG : nat := 1.

Definition ib_end (b : inbound_buffer) : nat := length (ib_data b).
Definition ib_reset : inbound_buffer :=
  {| ib_band := INBOUND_BAND_DATA; ib_start := 0; ib_data := [] |}.
Definition is_data (b : inbound_buffer) : bool := ib_band b =? INBOUND_BAND_DATA.

(** [buffer + start .. buffer + end]. *)
Definition ib_pending (b : inbound_buffer) : list Z := drop (ib_start b) (ib_data b).
Definition ib_advance (b : inbound_buffer) (n : nat) : inbound_buffer :=
  {| ib_band := ib_band b; ib_start := ib_start b + n; ib_data := ib_data b |}.

Definition allocate_inbound_buffer (pool : list inbound_buffer)
    : inbound_buffer * list inbound_buffer :=
  match pool with
  | _ :: rest => (ib_reset, rest)
  | [] => (ib_reset, [])
  end.

Definition free_inbound_buffer (b : inbound_buffer) (pool : list inbound_buffer)
    : list inbound_buffer := b :: pool.

(** [comm_free_inbound_buffers]. *)
Fixpoint free_inbound_chain (chain pool : list inbound_buffer) : list inbound_buffer :=
  match chain with
  | [] => pool
  | b :: rest => free_inbound_chain rest (free_inbound_buffer b pool)
  end.

(** [comm_copy_inbound_data_prefix], [out] after [copied] bytes. *)
Fixpoint copy_prefix (chain : list inbound_buffer) (limit copied : nat) : list Z :=
  match chain with
  | [] => []
  | b :: rest =>
      if copied <? limit then
        if negb (is_data b) || (ib_end b <=? ib_start b) then copy_prefix rest limit copied
        else
          let chunk := Nat.min (ib_end b - ib_start b) (limit - copied) in
          take chunk (drop (ib_start b) (ib_data b)) ++ copy_prefix rest limit (copied + chunk)
      else []
  end.

Definition comm_copy_inbound_data_prefix (chain : list inbound_buffer) (limit : nat) : list Z :=
  copy_prefix chain limit 0.

(** [comm_consume_inbound_data]. *)
Fixpoint comm_consume_inbound_data (chain : list inbound_buffer) (pool : list inbound_buffer)
    (bytes : nat) : list inbound_buffer * list inbound_buffer :=
  if bytes =? 0 then (chain, pool)
  else
    match chain with
    | [] => ([], pool)
    | head :: rest =>
        let available := ib_end head - ib_start head in
        if negb (is_data head) || (available =? 0) then
          comm_consume_inbound_data rest (free_inbound_buffer head pool) bytes
        else
          let consume := Nat.min available bytes in
          let head' := ib_advance head consume in
          if ib_end head' <=? ib_start head' then
            comm_consume_inbound_data rest (free_inbound_buffer head' pool) (bytes - consume)
          else (head' :: rest, pool)   (* then [bytes] is 0 *)
    end.

(** [_skip_non_data_head_buffers]. *)
Fixpoint skip_non_data (chain pool : list inbound_buffer)
    : list inbound_buffer * list inbound_buffer :=
  match chain with
  | b :: rest => if is_data b then (chain, pool) else skip_non_data rest (free_inbound_buffer b pool)
  | [] => ([], pool)
  end.

(** [_recycle_current_inbound_buffer]: the head moves to the tail, reset. *)
Definition recycle_head (chain pool : list inbound_buffer)
    : list inbound_buffer * list inbound_buffer :=
  match chain with
  | _ :: rest => skip_non_data (rest ++ [ib_reset]) pool
  | [] => ([], pool)
  end.

(** ** Filling a chain *)

(** [if (start >= end) start = end = 0], then the shift of a full buffer. *)
Definition compact_buffer (b : inbound_buffer) : inbound_buffer :=
  let b1 := if ib_end b <=? ib_start b
            then {| ib_band := ib_band b; ib_start := 0; ib_data := [] |} else b in
  if (ib_end b1 =? kInboundSize) && (0 <? ib_start b1)
  then {| ib_band := ib_band b1; ib_start := 0; ib_data := ib_pending b1 |} else b1.

(** Number of buffers before the one [_refill_inbound_buffers_from_src] starts
    with: the first empty one, or the last. *)
Fixpoint refill_index (chain : list inbound_buffer) : nat :=
  match chain with
  | b :: ((_ :: _) as rest) => if ib_end b =? ib_start b then 0 else S (refill_index rest)
  | _ => 0
  end.

(** The fill loop for slots without a telnet decoder: [src] is what remains.
    A buffer is refilled at most twice (once up to its end and once more after
    the shift), so [fuel] is twice the length of the chain, plus one. *)
Fixpoint fill_raw (fuel : nat) (chain : list inbound_buffer) (src : list Z)
    : list inbound_buffer * list Z :=
  match fuel with
  | 0 => (chain, src)
  | S f =>
      match chain, src with
      | [], _ => (chain, src)
      | _, [] => (chain, src)
      | b :: rest, _ =>
          let b1 := compact_buffer b in
          if negb (is_data b1) then
            let '(rest', src') := fill_raw f rest src in (b1 :: rest', src')
          else
            let bytes_to_copy := Nat.min (length src) (kInboundSize - ib_end b1) in
            if bytes_to_copy =? 0 then (b1 :: rest, src)
            else
              let b2 := {| ib_band := ib_band b1; ib_start := ib_start b1;
                           ib_data := ib_data b1 ++ take bytes_to_copy src |} in
              fill_raw f (b2 :: rest) (drop bytes_to_copy src)
      end
  end.

(** [_refill_inbound_buffers_from_src] without telnet decoding and before the
    upgrade attempt: the chain, the pool, and the bytes discarded. *)
Definition refill_raw (chain pool : list inbound_buffer) (src : list Z)
    : list inbound_buffer * list inbound_buffer * list Z :=
  let '(chain, pool) :=
    match chain with
    | [] => let '(fresh, pool') := allocate_inbound_buffer pool in ([fresh], pool')
    | _ => (chain, pool)
    end in
  let i := refill_index chain in
  let '(filled, lost) := fill_raw (2 * length chain + 1) (drop i chain) src in
  (take i chain ++ filled, pool, lost).

(** ** The line scanner *)

Definition is_newline (c : Z) : bool := ((c =? 13) || (c =? 10) || (c =? 0))%Z.

Fixpoint find_newline (s : list Z) : option nat :=
  match s with
  | [] => None
  | c :: t => if is_newline c then Some 0 else S <$> find_newline t
  end.

(** [while (start < line_end && isspace(buffer[start])) buffer[start++] = 0],
    [n] being [line_end - start]. *)
Fixpoint strip_front (n : nat) (buf : list Z) (start : nat) : list Z * nat :=
  match n with
  | S k => if isspace (nth start buf 0%Z) then strip_front k (<[start := 0%Z]> buf) (S start)
           else (buf, start)
  | 0 => (buf, start)
  end.

(** [while (line_end > start && isspace(buffer[line_end - 1])) buffer[--line_end] = 0]. *)
Fixpoint strip_back (n : nat) (buf : list Z) (start : nat) : list Z * nat :=
  match n with
  | S k => if isspace (nth (start + k) buf 0%Z) then strip_back k (<[start + k := 0%Z]> buf) start
           else (buf, start + S k)
  | 0 => (buf, start)
  end.

(** Result: the index of the next line, the length of the stripped line, and
    the buffer, whose [start] is the first byte of the line. *)
Definition find_newline_and_strip (b : inbound_buffer) : option (nat * nat * inbound_buffer) :=
  if ib_end b <=? ib_start b then None
  else
    match find_newline (ib_pending b) with
    | None => None
    | Some k =>
        let i := ib_start b + k in
        let has c j := (nth j (ib_data b) 0 =? c)%Z in
        let crlf := has 13%Z i && (i + 1 <? ib_end b) && (has 10%Z (i + 1) || has 0%Z (i + 1)) in
        let after_cr := negb crlf && (has 10%Z i || has 0%Z i) && (ib_start b <? i)
                        && has 13%Z (i - 1) in
        let ret := if crlf then i + 2 else i + 1 in
        let line_end := if after_cr then i - 1 else i in
        let buf1 := if crlf then <[i + 1 := 0%Z]> (ib_data b) else ib_data b in
        let buf2 := <[line_end := 0%Z]> buf1 in
        let '(buf3, start') := strip_front (line_end - ib_start b) buf2 (ib_start b) in
        let '(buf4, line_end') := strip_back (line_end - start') buf3 start' in
        Some (ret, line_end' - start',
              {| ib_band := ib_band b; ib_start := start'; ib_data := buf4 |})
    end.

(** The line mode of [_comm_process_input] on one buffer, for a hook that only
    records its message: every complete line is stripped, delivered, and
    skipped ([ibb->start = next_line_start]). *)
Fixpoint drain_lines (fuel : nat) (b : inbound_buffer) : list (list Z) * inbound_buffer :=
  match fuel with
  | 0 => ([], b)
  | S f =>
      match find_newline_and_strip b with
      | None => ([], b)
      | Some (ret, len, b') =>
          let line := take len (ib_pending b') in
          let '(lines, last) :=
            drain_lines f {| ib_band := ib_band b'; ib_start := ret; ib_data := ib_data b' |} in
          (line :: lines, last)
      end
  end.

(** ** The key scanner *)

(** [mbrlen]: the values -1 and -2 of its result, or a length. *)
Inductive mbr := MbInvalid | MbIncomplete | MbLen (n : nat).
Class MultiByte := mbrlen : list Z → mbr.

Definition isdigit (c : Z) : bool := ((48 <=? c) && (c <=? 57))%Z.
Definition is_final (c : Z) : bool :=
  (((65 <=? c) && (c <=? 90)) || ((97 <=? c) && (c <=? 122)) || (c =? 126))%Z.

(** [while (++i < end && (isdigit(buffer[i]) || buffer[i] == ';'))]: the number
    of parameter bytes. *)
Fixpoint skip_params (s : list Z) : nat :=
  match s with
  | c :: t => if isdigit c || (c =? 59)%Z then S (skip_params t) else 0
  | [] => 0
  end.

(** The bytes from [start]: [inl r] is a [return], [inr tt] falls through to
    the multibyte branch; lengths are relative to [start]. *)
Definition ansi_sequence (s : list Z) : option nat + unit :=
  match s with
  | [] => inr tt
  | esc :: t =>
      if (esc =? 27)%Z then
        match t with
        | [] => inl None
        | c :: u =>
            if (c =? 91)%Z then
              let n := skip_params u in
              match drop n u with
              | [] => inl None
              | final :: _ => if is_final final then inl (Some (n + 3)) else inl (Some 1)
              end
            else inr tt
        end
      else inr tt
  end.

(** [None] is -1; otherwise the index after the sequence and its length. *)
Definition find_char_input_sequence `{MultiByte} (b : inbound_buffer) (enable_ansi : bool)
    : option (nat * nat) :=
  if ib_end b <=? ib_start b then None
  else
    let s := ib_pending b in
    let multibyte :=
      match mbrlen s with
      | MbIncomplete => None
      | MbInvalid => Some (ib_start b + 1, 1)
      | MbLen n => Some (ib_start b + n, n)
      end in
    if enable_ansi then
      match ansi_sequence s with
      | inl None => None
      | inl (Some n) => Some (ib_start b + n, n)
      | inr _ => multibyte
      end
    else multibyte.

(** ** Specification: the bytes of a chain *)

Definition in_content (chain : list inbound_buffer) : list Z :=
  concat (map (fun b => if is_data b then ib_pending b else []) chain).

Definition ib_ok (b : inbound_buffer) : Prop := ib_start b ≤ ib_end b ≤ kInboundSize.
Definition in_chain_ok (chain : list inbound_buffer) : Prop := Forall ib_ok chain.

(** The shape a slot's chain really has: at most one buffer, a data buffer. *)
Definition single_data (chain : list inbound_buffer) : Prop :=
  in_chain_ok chain ∧ length chain ≤ 1 ∧ Forall (fun b => is_data b = true) chain.

(** ** Lemmas *)

Lemma length_pending b : length (ib_pending b) = ib_end b - ib_start b.
Proof. unfold ib_pending. by rewrite length_drop. Qed.

Lemma pending_nil b : ib_end b ≤ ib_start b → ib_pending b = [].
Proof. intros H. apply nil_length_inv. rewrite length_pending. lia. Qed.

Lemma copy_prefix_take chain limit copied :
  copy_prefix chain limit copied = take (limit - copied) (in_content chain).
Proof.
  unfold in_content. revert copied.
  induction chain as [|b rest IH]; intros copied; cbn [copy_prefix map concat].
  { by rewrite take_nil. }
  destruct (copied <? limit) eqn:E; breflect; cycle 1.
  { by replace (limit - copied) with 0 by lia. }
  destruct (is_data b) eqn:Eb; cbn [negb orb]; [|apply IH].
  destruct (ib_end b <=? ib_start b) eqn:Es; breflect.
  { rewrite pending_nil by done. apply IH. }
  fold (ib_pending b). rewrite IH. pose proof (length_pending b) as Hl.
  destruct (Nat.le_gt_cases (ib_end b - ib_start b) (limit - copied)).
  - rewrite Nat.min_l by done. rewrite take_app_ge, (take_ge (ib_pending b)) by lia.
    do 2 f_equal. lia.
  - rewrite Nat.min_r by lia. rewrite take_app_le by lia.
    replace (limit - (copied + (limit - copied))) with 0 by lia. by rewrite take_0, app_nil_r.
Qed.

Lemma consume_drop chain pool bytes :
  in_content (comm_consume_inbound_data chain pool bytes).1 = drop bytes (in_content chain).
Proof.
  unfold in_content. revert pool bytes.
  induction chain as [|b rest IH]; intros pool bytes; cbn [comm_consume_inbound_data];
    (destruct (bytes =? 0) eqn:E0; breflect; [subst; by rewrite drop_0|]).
  { cbn [fst map concat]. by rewrite drop_nil. }
  cbn [map concat]. pose proof (length_pending b) as Hl.
  destruct (is_data b) eqn:Eb; cbn [negb orb]; [|apply IH].
  destruct (ib_end b - ib_start b =? 0) eqn:Ea; breflect.
  { rewrite (nil_length_inv (ib_pending b)) by lia. apply IH. }
  cbn zeta. unfold ib_end at 1, ib_advance at 1 2. cbn [ib_start ib_data].
  fold (ib_end b). destruct (ib_end b <=? _) eqn:Ef; breflect.
  - rewrite IH, drop_app_ge by lia. do 2 f_equal. lia.
  - rewrite Nat.min_r in * by lia. cbn [fst map concat]. unfold is_data in *.
    cbn [ib_advance ib_band]. rewrite Eb, drop_app_le by lia. f_equal.
    unfold ib_pending. cbn [ib_advance ib_start ib_data]. by rewrite drop_drop.
Qed.

Lemma consume_single chain pool bytes :
  single_data chain → single_data (comm_consume_inbound_data chain pool bytes).1.
Proof.
  assert (N : single_data []) by (split; [constructor|split; [cbn; lia|constructor]]).
  intros (H1 & H2 & H3). destruct chain as [|b [|? ?]]; [by destruct bytes| |cbn in H2; lia].
  - cbn [comm_consume_inbound_data]. destruct (bytes =? 0); [by split_and!|].
    inversion_clear H1 as [|?? Hb _]. inversion_clear H3 as [|?? Hd _].
    destruct (negb (is_data b) || _); [try case_bool; exact N|]. cbn zeta.
    destruct (_ <=? _) eqn:E; [try case_bool; exact N|]. breflect. cbn [fst].
    split; [|split; [done|constructor; [exact Hd|done]]].
    constructor; [|done]. unfold ib_ok in *. split; [lia|]. apply Hb.
Qed.

(** Reading ahead and consuming agree: copying a prefix returns the first
    bytes of the slot's data in order, and consuming removes exactly the bytes
    copied, across any number of buffers. *)
Theorem copy_consume chain pool limit :
  let copied := comm_copy_inbound_data_prefix chain limit in
  copied = take limit (in_content chain)
  ∧ copied ++ in_content (comm_consume_inbound_data chain pool (length copied)).1
    = in_content chain.
Proof.
  unfold comm_copy_inbound_data_prefix. rewrite copy_prefix_take, Nat.sub_0_r.
  split; [done|]. rewrite consume_drop, length_take.
  destruct (Nat.le_gt_cases limit (length (in_content chain))).
  - by rewrite Nat.min_l, take_drop by done.
  - by rewrite Nat.min_r, drop_all, app_nil_r, take_ge by lia.
Qed.

(** *** Filling *)

Lemma compact_buffer_spec b :
  ib_ok b → let b1 := compact_buffer b in
  ib_ok b1 ∧ ib_pending b1 = ib_pending b ∧ is_data b1 = is_data b
  ∧ (ib_end b1 = kInboundSize → ib_start b1 = 0)
  ∧ (ib_start b1 ≠ 0 → ib_start b ≠ 0 ∧ ib_end b ≠ kInboundSize).
Proof.
  intros [H1 H2]. unfold compact_buffer. cbn zeta.
  destruct (ib_end b <=? ib_start b) eqn:E; breflect.
  - cbn [ib_end ib_data ib_start length]. rewrite andb_false_r.
    split_and!; try done; [unfold ib_ok, ib_end; cbn; lia|]. by rewrite (pending_nil b).
  - destruct ((ib_end b =? kInboundSize) && (0 <? ib_start b)) eqn:F.
    + breflect. split_and!; try done. unfold ib_ok, ib_end. cbn [ib_start ib_data].
      rewrite length_pending. lia.
    + rewrite andb_false_iff, Nat.eqb_neq, Nat.ltb_ge in F. split_and!; try done; lia.
Qed.

(** Space a buffer really has, counting the bytes already consumed. *)
Definition ib_free (b : inbound_buffer) : nat := kInboundSize - length (ib_pending b).

(** Turns of the fill loop a buffer still needs. *)
Definition fill_turns (b : inbound_buffer) : nat :=
  (if ib_end b =? kInboundSize then 0 else 1) + (if ib_start b =? 0 then 0 else 1).

Lemma fill_raw_single fuel b src :
  ib_ok b → is_data b = true → fill_turns b ≤ fuel →
  ∃ b', fill_raw fuel [b] src = ([b'], drop (ib_free b) src) ∧ ib_ok b' ∧ is_data b' = true
    ∧ ib_pending b' = ib_pending b ++ take (ib_free b) src.
Proof.
  revert b src. induction fuel as [|f IH]; intros b src Hb Hd Hf.
  { exists b. assert (ib_free b = 0) as ->.
    { unfold ib_free. rewrite length_pending. unfold fill_turns in Hf.
      destruct (ib_end b =? kInboundSize) eqn:?, (ib_start b =? 0) eqn:?; breflect; lia. }
    by rewrite drop_0, take_0, app_nil_r. }
  cbn [fill_raw]. destruct src as [|x src0] eqn:Esrc.
  { exists b. by rewrite drop_nil, take_nil, app_nil_r. }
  rewrite <- Esrc. destruct (compact_buffer_spec b Hb) as (R1 & R2 & R3 & R4 & R5).
  rewrite R3, Hd. cbn [negb]. set (b1 := compact_buffer b) in *.
  assert (HF : ib_free b = ib_free b1) by (unfold ib_free; by rewrite R2).
  assert (Hsrc : 0 < length src) by (subst src; cbn; lia).
  set (n := Nat.min (length src) (kInboundSize - ib_end b1)).
  unfold ib_ok in R1. pose proof (length_pending b1) as Hl.
  destruct (n =? 0) eqn:En; breflect.
  - assert (ib_free b1 = 0) as F0 by (unfold ib_free; lia).
    exists b1. rewrite HF, F0, drop_0, take_0, app_nil_r, R2, R3. done.
  - set (b2 := {| ib_band := ib_band b1; ib_start := ib_start b1;
                  ib_data := ib_data b1 ++ take n src |}).
    assert (E2 : ib_end b2 = ib_end b1 + n)
      by (unfold ib_end, b2; cbn [ib_data]; rewrite length_app, length_take; lia).
    assert (P2 : ib_pending b2 = ib_pending b1 ++ take n src)
      by (unfold ib_pending, b2; cbn [ib_data ib_start]; by rewrite drop_app_le by apply R1).
    assert (F2 : ib_free b2 = ib_free b1 - n)
      by (unfold ib_free; rewrite P2, length_app, length_take; lia).
    destruct (Nat.le_gt_cases (length src) (kInboundSize - ib_end b1)) as [Hle|Hgt].
    + exists b2. rewrite HF, drop_ge by lia. rewrite drop_ge by (unfold ib_free; lia).
      rewrite take_ge by (unfold ib_free; lia). rewrite P2, R2, take_ge by lia.
      split_and!; try done; [by destruct f|unfold ib_ok; cbn [b2 ib_start]; lia|by rewrite <- Hd, <- R3].
    + destruct (IH b2 (drop n src)) as (b' & E & Hok & Hd' & Hp).
      * unfold ib_ok. cbn [b2 ib_start]. fold b2. lia.
      * by rewrite <- Hd, <- R3.
      * unfold fill_turns in *. rewrite (proj2 (Nat.eqb_eq (ib_end b2) _)) by lia.
        cbn [b2 ib_start]. fold b2. destruct (ib_start b1 =? 0) eqn:Es1; [lia|]. breflect.
        destruct (ib_end b =? kInboundSize) eqn:Ee, (ib_start b =? 0) eqn:Es; breflect; lia.
      * exists b'. rewrite E, F2, HF. split_and!; try done.
        { rewrite drop_drop. do 2 f_equal. unfold ib_free. lia. }
        rewrite Hp, P2, R2, F2, <- app_assoc. f_equal.
        rewrite <- (take_drop n (take (ib_free b1) src)), take_take, take_drop_commute.
        unfold ib_free. f_equal; [f_equal; lia|]. do 2 f_equal. lia.
Qed.

(** Receiving into a slot: the bytes are appended in order up to 4096 pending
    bytes and the rest is reported lost; space already consumed is reused, and
    the chain stays one data buffer. *)
Theorem refill_raw_single chain pool src :
  single_data chain →
  let '(chain', pool', lost) := refill_raw chain pool src in
  let accepted := kInboundSize - length (in_content chain) in
  in_content chain' = in_content chain ++ take accepted src
  ∧ lost = drop accepted src ∧ single_data chain'.
Proof.
  intros (H1 & H2 & H3). unfold refill_raw.
  assert (∃ b p, (match chain with
                  | [] => let '(fresh, pool') := allocate_inbound_buffer pool in ([fresh], pool')
                  | _ => (chain, pool) end) = ([b], p)
            ∧ ib_ok b ∧ is_data b = true ∧ in_content chain = ib_pending b)
    as (b & p & E & Hb & Hd & Hc).
  { destruct chain as [|b [|? ?]]; [| |cbn in H2; lia].
    - exists ib_reset. destruct pool; eexists; split_and!; try done;
        unfold ib_ok, ib_end; cbn; lia.
    - inversion_clear H1. inversion_clear H3 as [|?? Hd _]. exists b, pool.
      split_and!; try done. unfold in_content. cbn. by rewrite Hd, app_nil_r. }
  rewrite E. cbn [refill_index length drop take app].
  destruct (fill_raw_single (2 * 1 + 1) b src Hb Hd) as (b' & E' & Hb' & Hd' & Hp').
  { unfold fill_turns. repeat case_bool; lia. }
  rewrite E'. cbn zeta. rewrite Hc. fold (ib_free b).
  split; [unfold in_content; cbn; by rewrite Hd', app_nil_r|]. split; [done|].
  split; [by constructor|]. split; [done|by constructor].
Qed.

Definition sample_in : list inbound_buffer :=
  [{| ib_band := 0; ib_start := 2; ib_data := [65; 66; 67]%Z |}].

Lemma sample_in_single : single_data sample_in.
Proof.
  split; [repeat constructor; vm_compute; lia|]. split; [cbn; lia|]. by repeat constructor.
Qed.

Lemma refill_raw_single_witness :
  in_content (refill_raw sample_in [] [68; 69]%Z).1.1 = [67; 68; 69]%Z.
Proof.
  pose proof (refill_raw_single sample_in [] [68; 69]%Z sample_in_single) as H.
  destruct (refill_raw sample_in [] [68; 69]%Z) as [[c p] l]. cbn [fst].
  destruct H as [-> _]. vm_compute. reflexivity.
Defined.

(** *** The line scanner *)

Lemma strip_front_spec n buf start :
  start + n ≤ length buf →
  let '(buf', start') := strip_front n buf start in
  start' = start + trim_begin (take n (drop start buf)) ∧ length buf' = length buf
  ∧ ∀ j, start' ≤ j → buf' !! j = buf !! j.
Proof.
  revert buf start. induction n as [|n IH]; intros buf start Hl; cbn [strip_front].
  { rewrite take_0. split; [cbn; lia|done]. }
  destruct (lookup_lt_is_Some_2 buf start ltac:(lia)) as [c Hc].
  rewrite (nth_lookup_Some _ _ _ _ Hc), (drop_S _ _ _ Hc). cbn [take trim_begin].
  destruct (isspace c); [|split; [lia|done]].
  specialize (IH (<[start := 0%Z]> buf) (S start)). rewrite length_insert in IH.
  specialize (IH ltac:(lia)). rewrite drop_insert_lt in IH by lia.
  destruct (strip_front n _ _) as [buf' start']. destruct IH as (-> & HL & Hj).
  split; [lia|]. split; [done|]. intros j Hge. rewrite Hj by done.
  apply list_lookup_insert_ne. lia.
Qed.

Lemma strip_back_spec n buf start s begin :
  start + n ≤ length buf → begin + n ≤ length s →
  (∀ k, k < n → buf !! (start + k) = s !! (begin + k)) →
  let '(buf', line_end) := strip_back n buf start in
  line_end + begin = start + trim_end s begin (begin + n)
  ∧ start ≤ line_end ≤ start + n ∧ length buf' = length buf
  ∧ ∀ j, j < line_end ∨ start + n ≤ j → buf' !! j = buf !! j.
Proof.
  revert buf. induction n as [|n IH]; intros buf Hl Hs Hk; cbn [strip_back].
  { rewrite Nat.add_0_r. split_and!; try done; [|lia..].
    destruct begin; [done|]. cbn -[Nat.ltb]. by rewrite Nat.ltb_irrefl. }
  rewrite (Nat.add_succ_r begin). cbn [trim_end].
  rewrite (proj2 (Nat.ltb_lt begin _)) by lia. cbn [andb].
  pose proof (Hk n ltac:(lia)) as Hn.
  destruct (lookup_lt_is_Some_2 buf (start + n) ltac:(lia)) as [c Hc]. rewrite Hc in Hn.
  rewrite (nth_lookup_Some _ _ _ _ Hc), (nth_lookup_Some _ _ _ _ (eq_sym Hn)).
  destruct (isspace c); [|split_and!; try done; lia].
  specialize (IH (<[start + n := 0%Z]> buf)). rewrite length_insert in IH.
  specialize (IH ltac:(lia) ltac:(lia)).
  destruct (strip_back n _ _) as [buf' line_end]. destruct IH as (E & Hr & HL & Hj).
  { intros k Hlt. rewrite list_lookup_insert_ne by lia. apply Hk. lia. }
  split_and!; try lia. intros j Hj'. rewrite Hj by lia. apply list_lookup_insert_ne. lia.
Qed.

Lemma find_newline_Some s k :
  find_newline s = Some k →
  Forall (fun c => is_newline c = false) (take k s)
  ∧ ∃ c rest, s = take k s ++ c :: rest ∧ is_newline c = true ∧ k < length s.
Proof.
  revert k. induction s as [|x t IH]; intros k; cbn [find_newline]; [done|].
  destruct (is_newline x) eqn:E.
  - intros [= <-]. split; [constructor|]. exists x, t. split; [done|]. split; [done|cbn; lia].
  - destruct (find_newline t) as [j|]; [|done]. intros [= <-].
    destruct (IH j eq_refl) as (H1 & c & rest & Hs & Hc & Hl). cbn [take].
    split; [by constructor|]. exists c, rest. split; [cbn; by f_equal|]. split; [done|cbn; lia].
Qed.

(** A line terminator: one newline byte, or two that start with CR. *)
Definition terminator (nl : list Z) : Prop :=
  (∃ c, nl = [c] ∧ is_newline c = true) ∨ nl = [13; 10]%Z ∨ nl = [13; 0]%Z.

(** Both strip loops: the line is trimmed in place. *)
Lemma strip_line_spec buf start line_end :
  start ≤ line_end ≤ length buf →
  let '(buf3, start') := strip_front (line_end - start) buf start in
  let '(buf4, line_end') := strip_back (line_end - start') buf3 start' in
  take (line_end' - start') (drop start' buf4) = trim_ascii (take (line_end - start) (drop start buf))
  ∧ start ≤ start' ∧ start' ≤ line_end' ≤ line_end ∧ length buf4 = length buf
  ∧ ∀ j, line_end ≤ j → buf4 !! j = buf !! j.
Proof.
  intros Hl. set (seg := take (line_end - start) (drop start buf)).
  assert (Hseg : length seg = line_end - start)
    by (unfold seg; rewrite length_take, length_drop; lia).
  pose proof (strip_front_spec (line_end - start) buf start ltac:(lia)) as Hf. fold seg in Hf.
  destruct (strip_front _ buf start) as [buf3 start']. destruct Hf as (-> & HL3 & Hj3).
  pose proof (trim_begin_le seg) as Htb.
  assert (Hag : ∀ k, k < line_end - (start + trim_begin seg) →
                buf3 !! (start + trim_begin seg + k) = seg !! (trim_begin seg + k)).
  { intros k Hk. rewrite Hj3 by lia. unfold seg.
    rewrite lookup_take_lt, lookup_drop by (fold seg; lia). f_equal. fold seg. lia. }
  pose proof (strip_back_spec (line_end - (start + trim_begin seg)) buf3 (start + trim_begin seg)
                seg (trim_begin seg) ltac:(lia) ltac:(lia) Hag) as Hb.
  destruct (strip_back _ buf3 _) as [buf4 line_end']. destruct Hb as (E & Hr & HL4 & Hj4).
  split_and!; try lia.
  - unfold trim_ascii.
    replace (trim_begin seg + (line_end - (start + trim_begin seg))) with (length seg) in E by lia.
    replace (line_end' - (start + trim_begin seg))
      with (trim_end seg (trim_begin seg) (length seg) - trim_begin seg) by lia.
    set (m := trim_end seg (trim_begin seg) (length seg) - trim_begin seg).
    assert (Hm : m = line_end' - (start + trim_begin seg)) by lia.
    apply list_eq. intros j. destruct (Nat.lt_ge_cases j m).
    + rewrite !lookup_take_lt, !lookup_drop by done. rewrite Hj4 by lia. apply Hag. lia.
    + by rewrite !lookup_take_ge by done.
  - intros j Hj. rewrite Hj4 by lia. apply Hj3. lia.
Qed.

(** The bytes around the first newline of a buffer. *)
Record newline_at (b : inbound_buffer) (k : nat) (line : list Z) (c : Z) (rest : list Z) : Prop := {
  nw_pending : ib_pending b = line ++ c :: rest;
  nw_line : Forall (fun c => is_newline c = false) line;
  nw_newline : is_newline c = true;
  nw_length : length line = k;
  nw_before buf : (∀ j, j < ib_start b + k → buf !! j = ib_data b !! j) →
    take (ib_start b + k - ib_start b) (drop (ib_start b) buf) = line;
  nw_drop : drop (ib_start b + k) (ib_data b) = c :: rest;
  nw_here : nth (ib_start b + k) (ib_data b) 0%Z = c;
  nw_next : nth (ib_start b + k + 1) (ib_data b) 0%Z = default 0%Z (hd_error rest);
  nw_end : ib_end b = ib_start b + k + 1 + length rest;
  nw_no_cr : (ib_start b <? ib_start b + k) && (nth (ib_start b + k - 1) (ib_data b) 0 =? 13)%Z = false
}.

Lemma find_newline_at b k :
  ib_ok b → find_newline (ib_pending b) = Some k → ∃ line c rest, newline_at b k line c rest.
Proof.
  intros [Hs He] F. destruct (find_newline_Some _ _ F) as (Hline & c & rest & Hp & Hc & Hk).
  rewrite length_pending in Hk. set (line := take k (ib_pending b)) in *.
  assert (Hlen : length line = k) by (unfold line; rewrite length_take, length_pending; lia).
  assert (Hin : ∀ buf, (∀ j, j < ib_start b + k → buf !! j = ib_data b !! j) →
                take (ib_start b + k - ib_start b) (drop (ib_start b) buf) = line).
  { intros buf Hb. replace (ib_start b + k - ib_start b) with k by lia. unfold line, ib_pending.
    apply list_eq. intros j. destruct (Nat.lt_ge_cases j k).
    - rewrite !lookup_take_lt, !lookup_drop by done. apply Hb. lia.
    - by rewrite !lookup_take_ge. }
  clearbody line.
  assert (Hd : drop (ib_start b + k) (ib_data b) = c :: rest).
  { rewrite <- drop_drop. fold (ib_pending b). rewrite Hp. by rewrite drop_app_length'. }
  exists line, c, rest. constructor; try done.
  - apply nth_lookup_Some. rewrite <- (Nat.add_0_r (ib_start b + k)), <- lookup_drop, Hd. done.
  - rewrite nth_lookup, <- lookup_drop, Hd. by destruct rest.
  - apply (f_equal length) in Hd. rewrite length_drop in Hd. cbn in Hd. unfold ib_end in *. lia.
  - destruct (Nat.ltb_spec (ib_start b) (ib_start b + k)); [|done]. cbn [andb].
    destruct (lookup_lt_is_Some_2 line (k - 1) ltac:(lia)) as [x Hx].
    assert (ib_data b !! (ib_start b + k - 1) = Some x) as Hx'.
    { rewrite <- (Hin (ib_data b)) in Hx by done.
      apply lookup_take_Some in Hx as [Hx _]. rewrite lookup_drop in Hx.
      rewrite <- Hx. f_equal. lia. }
    rewrite (nth_lookup_Some _ _ _ _ Hx').
    assert (is_newline x = false) as Hnx by (eapply Forall_lookup_1 in Hline; [exact Hline|done]).
    unfold is_newline in Hnx. apply orb_false_iff in Hnx as [Hnx _].
    by apply orb_false_iff in Hnx as [Hnx _].
Qed.

(** Stripping a line whose terminator was overwritten: [buf] differs from the
    buffer only between the end of the line and [ret]. *)
Lemma strip_newline_at b k line c rest buf ret :
  newline_at b k line c rest → length buf = length (ib_data b) → ib_start b + k < ret ≤ ib_end b →
  (∀ j, j < ib_start b + k ∨ ret ≤ j → buf !! j = ib_data b !! j) →
  let '(buf3, start') := strip_front (ib_start b + k - ib_start b) buf (ib_start b) in
  let '(buf4, line_end') := strip_back (ib_start b + k - start') buf3 start' in
  let b' := {| ib_band := ib_band b; ib_start := start'; ib_data := buf4 |} in
  take (line_end' - start') (ib_pending b') = trim_ascii line
  ∧ drop ret (ib_data b') = drop ret (ib_data b) ∧ ib_end b' = ib_end b
  ∧ ib_start b' + (line_end' - start') ≤ ret ≤ ib_end b.
Proof.
  intros N Hb Hr Hj. pose proof (nw_end _ _ _ _ _ N) as Hend. unfold ib_end in *.
  pose proof (strip_line_spec buf (ib_start b) (ib_start b + k)) as S. specialize (S ltac:(lia)).
  rewrite (nw_before _ _ _ _ _ N) in S by (intros j ?; apply Hj; lia).
  destruct (strip_front _ _ _) as [buf3 start']. destruct (strip_back _ _ _) as [buf4 line_end'].
  destruct S as (HL & Hs' & Hle & Hlen4 & Hk). cbn zeta. cbn [ib_data ib_start]. split_and!; try done; try lia.
  apply list_eq. intros j. rewrite !lookup_drop, Hk by lia. apply Hj. lia.
Qed.

(** What the scanner returns: the line without terminator and surrounding
    space, and a next index that leaves the bytes after it untouched. *)
Lemma find_newline_and_strip_spec b :
  ib_ok b →
  match find_newline_and_strip b with
  | None => find_newline (ib_pending b) = None
  | Some (ret, len, b') =>
      ∃ line nl rest,
        ib_pending b = line ++ nl ++ rest ∧ Forall (fun c => is_newline c = false) line
        ∧ terminator nl ∧ (nl = [13]%Z → hd_error rest ≠ Some 10%Z ∧ hd_error rest ≠ Some 0%Z)
        ∧ ret = ib_start b + length line + length nl
        ∧ take len (ib_pending b') = trim_ascii line
        ∧ drop ret (ib_data b') = rest ∧ ib_end b' = ib_end b ∧ ib_band b' = ib_band b
        ∧ ib_start b' + len ≤ ret ≤ ib_end b
  end.
Proof.
  intros Hok. unfold find_newline_and_strip.
  destruct (ib_end b <=? ib_start b) eqn:E0; breflect.
  { by rewrite pending_nil. }
  destruct (find_newline (ib_pending b)) as [k|] eqn:F; [|done].
  destruct (find_newline_at b k Hok F) as (line & c & rest & N). pose proof N as [Hp Hline Hc Hlen _ Hd Hn0 Hn1 Hend Hac].
  cbn zeta. rewrite <- !andb_assoc, Hac, !andb_false_r, Hn0, Hn1.
  assert (Hl : ib_end b = length (ib_data b)) by done.
  set (i := ib_start b + k) in *.
  match goal with |- context [if ?t then <[_ := _]> _ else _] => destruct t eqn:EC end.
  - apply andb_true_iff in EC as [->%Z.eqb_eq EC]. apply andb_true_iff in EC as [Hr EC].
    destruct rest as [|d rest]; [apply Nat.ltb_lt in Hr; cbn in *; lia|]. cbn in EC. cbn [length] in Hend.
    pose proof (strip_newline_at b k line 13%Z (d :: rest) (<[i := 0%Z]> (<[i + 1 := 0%Z]> (ib_data b))) (i + 2) N) as S.
    fold i in S. specialize (S ltac:(by rewrite !length_insert) ltac:(lia)
      ltac:(intros j ?; by rewrite !list_lookup_insert_ne by lia)).
    destruct (strip_front _ _ _) as [buf3 start']. destruct (strip_back _ _ _) as [buf4 line_end'].
    destruct S as (S1 & S2 & S3 & S4). exists line, [13%Z; d], rest. split_and!; try done; try (cbn [length]; lia).
    + right. apply orb_true_iff in EC as [->%Z.eqb_eq| ->%Z.eqb_eq]; auto.
    + by rewrite S2, <- drop_drop, Hd.
  - pose proof (strip_newline_at b k line c rest (<[i := 0%Z]> (ib_data b)) (i + 1) N) as S.
    fold i in S. specialize (S ltac:(by rewrite !length_insert) ltac:(lia)
      ltac:(intros j ?; by rewrite !list_lookup_insert_ne by lia)).
    destruct (strip_front _ _ _) as [buf3 start']. destruct (strip_back _ _ _) as [buf4 line_end'].
    destruct S as (S1 & S2 & S3 & S4). exists line, [c], rest. split_and!; try done; try (cbn [length]; lia).
    + left. eauto.
    + injection 1 as ->. cbn [Z.eqb Pos.eqb andb] in EC. destruct rest as [|d rest]; [done|].
      rewrite (proj2 (Nat.ltb_lt _ _)) in EC by (cbn in *; lia). cbn in EC.
      apply orb_false_iff in EC as [E1%Z.eqb_neq E2%Z.eqb_neq]. cbn. split; congruence.
    + by rewrite S2, <- drop_drop, Hd.
Qed.

(** Bytes that consist of the lines [ls], each with its terminator, and an
    incomplete line [tail]. *)
Inductive framed : list Z → list (list Z) → list Z → Prop :=
  | framed_tail tail :
      Forall (fun c => is_newline c = false) tail → framed tail [] tail
  | framed_line line nl rest ls tail :
      Forall (fun c => is_newline c = false) line → terminator nl →
      (nl = [13]%Z → hd_error rest ≠ Some 10%Z ∧ hd_error rest ≠ Some 0%Z) →
      framed rest ls tail → framed (line ++ nl ++ rest) (line :: ls) tail.

Lemma terminator_hd nl : terminator nl → ∃ c nl', nl = c :: nl' ∧ is_newline c = true.
Proof. intros [(c & -> & Hc)|[->| ->]]; eauto. Qed.

Lemma find_newline_app line c rest :
  Forall (fun c => is_newline c = false) line → is_newline c = true →
  find_newline (line ++ c :: rest) = Some (length line).
Proof.
  intros H Hc. induction H as [|x line Hx _ IH]; cbn; [by rewrite Hc|]. by rewrite Hx, IH.
Qed.

Lemma find_newline_none tail :
  Forall (fun c => is_newline c = false) tail → find_newline tail = None.
Proof. induction 1 as [|x l Hx _ IH]; cbn; [done|]. by rewrite Hx, IH. Qed.

(** The first line of a buffer is unambiguous. *)
Lemma framed_unique line nl rest line' nl' rest' :
  line ++ nl ++ rest = line' ++ nl' ++ rest' →
  Forall (fun c => is_newline c = false) line → Forall (fun c => is_newline c = false) line' →
  terminator nl → terminator nl' →
  (nl = [13]%Z → hd_error rest ≠ Some 10%Z ∧ hd_error rest ≠ Some 0%Z) →
  (nl' = [13]%Z → hd_error rest' ≠ Some 10%Z ∧ hd_error rest' ≠ Some 0%Z) →
  line = line' ∧ nl = nl' ∧ rest = rest'.
Proof.
  intros E H1 H2 T1 T2 C1 C2.
  assert (line = line' ∧ nl ++ rest = nl' ++ rest') as [-> E'].
  { destruct (terminator_hd _ T1) as (c & n & -> & Hc), (terminator_hd _ T2) as (c' & n' & -> & Hc').
    pose proof (find_newline_app line c (n ++ rest) H1 Hc) as F1.
    pose proof (find_newline_app line' c' (n' ++ rest') H2 Hc') as F2.
    cbn [app] in *. rewrite E, F2 in F1. injection F1 as F1. by apply app_inj_1. }
  split; [done|].
  destruct T1 as [(c & -> & Hc)|[->| ->]], T2 as [(c' & -> & Hc')|[->| ->]]; simplify_eq/=;
    try done; exfalso;
    first [by destruct (C1 eq_refl) | by destruct (C2 eq_refl)].
Qed.

(** The next line of a buffer, behind which the rest is still in frame. *)
Definition line_at (ret : nat) (b' : inbound_buffer) : inbound_buffer :=
  {| ib_band := ib_band b'; ib_start := ret; ib_data := ib_data b' |}.

Lemma scan_framed b ls tail :
  ib_ok b → framed (ib_pending b) ls tail →
  match ls with
  | [] => find_newline_and_strip b = None ∧ ib_pending b = tail
  | line :: ls' => ∃ ret len b', find_newline_and_strip b = Some (ret, len, b')
      ∧ take len (ib_pending b') = trim_ascii line ∧ ib_ok (line_at ret b')
      ∧ framed (ib_pending (line_at ret b')) ls' tail
      ∧ ib_end b' = ib_end b ∧ ib_band b' = ib_band b ∧ ib_start b < ib_end b
  end.
Proof.
  intros Hb Hf. pose proof (find_newline_and_strip_spec b Hb) as Sp.
  inversion Hf as [t Ht|line nl rest ls' t H1 H2 H3 Hf' E]; subst.
  - destruct (find_newline_and_strip b) as [[[ret len] b']|]; [|done].
    destruct Sp as (line & nl & rest & E & _ & T & _). exfalso.
    destruct (terminator_hd _ T) as (c & n & -> & Hc). rewrite E in Ht.
    apply Forall_app in Ht as [_ Ht]. apply Forall_app in Ht as [Ht _].
    inversion Ht. congruence.
  - destruct (terminator_hd _ H2) as (c & n & Hnl & Hc).
    destruct (find_newline_and_strip b) as [[[ret len] b']|].
    + destruct Sp as (line' & nl' & rest' & E' & L & T & C & -> & Hline & Hrest & He & Hband & Hr).
      rewrite E' in E.
      destruct (framed_unique _ _ _ _ _ _ E H1 L H2 T H3 C) as (<- & <- & <-).
      exists (ib_start b + length line + length nl), len, b'. split_and!; try done.
      * unfold ib_ok, line_at, ib_end in *. cbn [ib_start ib_data]. lia.
      * unfold ib_pending, line_at. cbn [ib_start ib_data]. by rewrite Hrest.
      * rewrite Hnl in Hr. cbn [length] in Hr. lia.
    + exfalso. rewrite <- E, Hnl in Sp. cbn [app] in Sp. by rewrite find_newline_app in Sp.
Qed.

Lemma drain_lines_framed fuel b ls tail :
  ib_ok b → framed (ib_pending b) ls tail → length ls < fuel →
  ∃ b', drain_lines fuel b = (map trim_ascii ls, b') ∧ ib_pending b' = tail
    ∧ ib_ok b' ∧ ib_band b' = ib_band b.
Proof.
  revert b ls. induction fuel as [|f IH]; intros b ls Hb Hf Hl; [lia|].
  cbn [drain_lines]. pose proof (scan_framed b ls tail Hb Hf) as Sc. destruct ls as [|line ls'].
  - destruct Sc as [-> <-]. by exists b.
  - destruct Sc as (ret & len & b' & -> & Hline & Hok & Hfr & _ & Hband & _).
    destruct (IH (line_at ret b') ls' Hok Hfr ltac:(cbn in Hl; lia)) as (b'' & E2 & P2 & O2 & B2).
    unfold line_at in E2. rewrite E2. exists b''. cbn [map]. rewrite Hline.
    split_and!; try done. by rewrite B2.
Qed.

(** Line input: whatever the lines and their terminators (LF, NUL, CR, CR LF
    or CR NUL, in any mixture), draining a buffer delivers exactly those lines
    in order, trimmed, and leaves the incomplete last line pending. *)
Theorem line_input_roundtrip b ls tail :
  ib_ok b → framed (ib_pending b) ls tail →
  ∃ b', drain_lines (S (length ls)) b = (map trim_ascii ls, b') ∧ ib_pending b' = tail.
Proof.
  intros Hb Hf. destruct (drain_lines_framed (S (length ls)) b ls tail Hb Hf) as (b' & E & P & _);
    [lia|]. eauto.
Qed.

Definition sample_lines : inbound_buffer :=
  {| ib_band := 0; ib_start := 1;
     ib_data := [0; 32; 104; 105; 13; 10; 10; 98; 121; 101; 13; 120]%Z |}.

Lemma line_input_roundtrip_witness :
  ∃ b', drain_lines 4 sample_lines = ([[104; 105]; []; [98; 121; 101]]%Z, b')
    ∧ ib_pending b' = [120]%Z.
Proof.
  apply (line_input_roundtrip sample_lines [[32; 104; 105]; []; [98; 121; 101]]%Z [120]%Z).
  - vm_compute. lia.
  - apply (framed_line [32; 104; 105]%Z [13; 10]%Z [10; 98; 121; 101; 13; 120]%Z);
      [repeat constructor | right; auto | done |].
    apply (framed_line [] [10]%Z [98; 121; 101; 13; 120]%Z);
      [repeat constructor | left; eauto | done |].
    apply (framed_line [98; 121; 101]%Z [13]%Z [120]%Z);
      [repeat constructor | left; eauto | done |].
    by apply framed_tail; repeat constructor.
Defined.

(** A CR LF split between two receives is read as two line endings: the line
    is delivered when the CR arrives, and the LF that follows delivers an empty
    line that an unsplit CR LF does not. *)
Theorem split_crlf_extra_line b line :
  ib_ok b → ib_pending b = line ++ [13]%Z → Forall (fun c => is_newline c = false) line →
  ib_end b < kInboundSize → is_data b = true →
  ∃ b1 b2 b3,
    drain_lines 2 b = ([trim_ascii line], b1)
    ∧ fill_raw 3 [b1] [10]%Z = ([b2], [])
    ∧ drain_lines 2 b2 = ([[]], b3).
Proof.
  intros Hb Hp Hl Hend Hd.
  destruct (drain_lines_framed 2 b [line] [] Hb) as (b1 & E1 & P1 & O1 & B1); [|cbn; lia|].
  { rewrite Hp. change (line ++ [13]%Z) with (line ++ [13]%Z ++ []).
    apply framed_line; [done|left; eauto|done|]. by apply framed_tail. }
  destruct (fill_raw_single 3 b1 [10]%Z O1) as (b2 & E2 & O2 & D2 & P2).
  { unfold is_data in *. by rewrite B1. }
  { unfold fill_turns. repeat case_bool; lia. }
  assert (ib_free b1 = kInboundSize) as HF.
  { unfold ib_free. rewrite P1. cbn. lia. }
  assert (Hk : 1 ≤ kInboundSize) by lia.
  rewrite HF, P1, take_ge in P2 by (cbn; lia). rewrite HF, drop_ge in E2 by (cbn; lia).
  destruct (drain_lines_framed 2 b2 [[]] [] O2) as (b3 & E3 & _); [|cbn; lia|].
  { rewrite P2. apply (framed_line [] [10]%Z []); [constructor|left; eauto|done|].
    by apply framed_tail. }
  exists b1, b2, b3. split_and!; done.
Qed.

Lemma split_crlf_extra_line_witness :
  ∃ b1 b2 b3,
    drain_lines 2 {| ib_band := 0; ib_start := 0; ib_data := [104; 105; 13]%Z |}
    = ([[104; 105]%Z], b1)
    ∧ fill_raw 3 [b1] [10]%Z = ([b2], []) ∧ drain_lines 2 b2 = ([[]], b3).
Proof.
  apply (split_crlf_extra_line _ [104; 105]%Z); [vm_compute; lia | done | by repeat constructor
    | vm_compute; lia | done].
Defined.

(** *** The key scanner *)

Lemma skip_params_app params final rest :
  Forall (fun c => isdigit c || (c =? 59)%Z = true) params → isdigit final || (final =? 59)%Z = false →
  skip_params (params ++ final :: rest) = length params.
Proof.
  intros H Hf. induction H as [|c l Hc _ IH]; cbn [app skip_params length].
  - by rewrite Hf.
  - by rewrite Hc, IH.
Qed.

Lemma skip_params_all params :
  Forall (fun c => isdigit c || (c =? 59)%Z = true) params → skip_params params = length params.
Proof. induction 1 as [|c l Hc _ IH]; cbn [skip_params length]; [done|]. by rewrite Hc, IH. Qed.

Lemma skip_params_le s : skip_params s ≤ length s.
Proof. induction s as [|c t IH]; cbn [skip_params length]; [lia|]. case_bool; lia. Qed.

Lemma is_final_not_param c : is_final c = true → isdigit c || (c =? 59)%Z = false.
Proof.
  unfold is_final, isdigit. intros H. apply orb_false_iff. rewrite andb_false_iff.
  rewrite !orb_true_iff, !andb_true_iff in H. rewrite !Z.leb_gt, Z.eqb_neq.
  rewrite !Z.leb_le, Z.eqb_eq in H. lia.
Qed.

Section Keys.
Context `{MultiByte}.

(** Documented behaviour of [mbrlen]: a length it returns does not exceed the
    bytes it was given. *)
Hypothesis mbrlen_bounded : ∀ s n, mbrlen s = MbLen n → n ≤ length s.

(** A key the scanner reports lies inside the pending bytes and its end index
    is its length past the start; it is never empty unless [mbrlen] itself
    reports the null character. *)
Theorem key_scanner_bounds b ansi next len :
  find_char_input_sequence b ansi = Some (next, len) →
  next = ib_start b + len ∧ next ≤ ib_end b
  ∧ (len = 0 → mbrlen (ib_pending b) = MbLen 0).
Proof.
  unfold find_char_input_sequence. destruct (ib_end b <=? ib_start b) eqn:E; [done|]. breflect.
  pose proof (length_pending b) as Hl.
  assert (M : match mbrlen (ib_pending b) with
      | MbIncomplete => None | MbInvalid => Some (ib_start b + 1, 1)
      | MbLen n => Some (ib_start b + n, n) end = Some (next, len) →
      next = ib_start b + len ∧ next ≤ ib_end b ∧ (len = 0 → mbrlen (ib_pending b) = MbLen 0)).
  { destruct (mbrlen (ib_pending b)) as [| |n] eqn:Em; intros [= <- <-]; try done.
    - split_and!; lia.
    - apply mbrlen_bounded in Em. split_and!; [done|lia|]. by intros ->. }
  cbn zeta. destruct ansi; [|exact M].
  destruct (ib_pending b) as [|esc t] eqn:Ep; cbn [ansi_sequence]; [exact M|].
  destruct (esc =? 27)%Z; [|exact M]. destruct t as [|c u]; [done|].
  destruct (c =? 91)%Z; [|exact M]. cbn [length] in Hl.
  destruct (drop (skip_params u) u) as [|final r] eqn:Ed; [done|].
  apply (f_equal length) in Ed. rewrite length_drop in Ed. cbn [length] in Ed.
  destruct (is_final final); intros [= <- <-]; split_and!; lia.
Qed.

(** Terminal key sequences: with ANSI input enabled, ESC [ parameters final
    is reported as one key whatever follows, and every strict prefix of it that
    starts with ESC waits for more input. *)
Theorem ansi_key_sequence b params final rest :
  Forall (fun c => isdigit c || (c =? 59)%Z = true) params → is_final final = true →
  ib_pending b = [27; 91]%Z ++ params ++ final :: rest →
  find_char_input_sequence b true
  = Some (ib_start b + (length params + 3), length params + 3)
  ∧ ∀ k b', 0 < k < length params + 3 →
      ib_pending b' = take k ([27; 91]%Z ++ params ++ [final]) →
      find_char_input_sequence b' true = None.
Proof.
  intros Hp Hf Hb. pose proof (is_final_not_param final Hf) as Hn. split.
  - unfold find_char_input_sequence. pose proof (length_pending b) as Hl. rewrite Hb in Hl.
    cbn [app length] in Hl. rewrite length_app in Hl. cbn [length] in Hl.
    rewrite (proj2 (Nat.leb_gt _ _)) by lia. cbn zeta. rewrite Hb. cbn [app ansi_sequence].
    change (27 =? 27)%Z with true. change (91 =? 91)%Z with true. cbv iota.
    rewrite skip_params_app by done. rewrite drop_app_length. by rewrite Hf.
  - intros k b' Hk Hb'. unfold find_char_input_sequence.
    destruct (ib_end b' <=? ib_start b') eqn:E; [done|]. cbn zeta. rewrite Hb'.
    destruct k as [|[|k]]; [lia|done|]. cbn [app take ansi_sequence].
    change (27 =? 27)%Z with true. change (91 =? 91)%Z with true. cbv iota.
    rewrite take_app_le by lia.
    rewrite skip_params_all by by apply Forall_take.
    by rewrite drop_all.
Qed.
End Keys.

(** An [mbrlen] for single-byte text. *)
Definition ascii_mbrlen : MultiByte := fun s =>
  match s with
  | [] => MbIncomplete
  | c :: _ => if (c =? 0)%Z then MbLen 0 else MbLen 1
  end.

Lemma ascii_mbrlen_bounded s n : @mbrlen ascii_mbrlen s = MbLen n → n ≤ length s.
Proof. destruct s as [|c t]; cbn; [done|]. case_bool; intros [= <-]; lia. Qed.

Definition arrow_key : inbound_buffer :=
  {| ib_band := 0; ib_start := 1; ib_data := [120; 27; 91; 49; 59; 53; 65; 122]%Z |}.

Lemma key_scanner_bounds_witness :
  @find_char_input_sequence ascii_mbrlen arrow_key true = Some (7, 6) ∧ 7 ≤ ib_end arrow_key.
Proof.
  assert (E : @find_char_input_sequence ascii_mbrlen arrow_key true = Some (7, 6)) by reflexivity.
  split; [exact E|]. apply (key_scanner_bounds ascii_mbrlen_bounded arrow_key true 7 6 E).
Defined.

Lemma ansi_key_sequence_witness :
  @find_char_input_sequence ascii_mbrlen arrow_key true = Some (7, 6).
Proof.
  apply (ansi_key_sequence (H := ascii_mbrlen) arrow_key [49; 59; 53]%Z 65%Z [122]%Z);
    [by repeat constructor | done | done].
Defined.

(** A NUL byte is reported as a key of length zero whose next index is its
    own: [mbrlen] returns 0 for the null character, so delivering the key does
    not advance the input. *)
Theorem nul_key_stuck (mb : MultiByte) b rest ansi :
  (∀ s, mbrlen (0%Z :: s) = MbLen 0) →
  ib_pending b = 0%Z :: rest →
  find_char_input_sequence b ansi = Some (ib_start b, 0).
Proof.
  intros Hmb Hb. unfold find_char_input_sequence. pose proof (length_pending b) as Hl.
  rewrite Hb in Hl. cbn in Hl. rewrite (proj2 (Nat.leb_gt _ _)) by lia.
  cbn zeta. rewrite Hb, Hmb, Nat.add_0_r. by destruct ansi.
Qed.

Lemma nul_key_stuck_witness :
  @find_char_input_sequence ascii_mbrlen
    {| ib_band := 0; ib_start := 3; ib_data := [97; 98; 99; 0; 100]%Z |} false = Some (3, 0).
Proof.
  by apply (nul_key_stuck ascii_mbrlen
    {| ib_band := 0; ib_start := 3; ib_data := [97; 98; 99; 0; 100]%Z |} [100]%Z false).
Defined.
