(* ===== verification/Execution.v ===== *)
(** * The per-slot hook scheduler (src/execution.cpp)

    The scheduler state of one slot, the critical sections of the functions
    that change it (each runs under the slot's mutex), and the interleavings of
    those sections by worker threads and by the event loop as an executable
    transition system.  Slots have separate states, so one slot is modelled;
    closures and hook contexts are identified by numbers. *)

From S2P Require Import Prelude.

Inductive hook_type :=
  | HOOK_CONNECT | HOOK_DISCONNECT | HOOK_MESSAGE_INBOUND | HOOK_MESSAGE_OUTBOUND
  | HOOK_TRANSPORT_READY | HOOK_PROMPT | HOOK_TELNET_SUBNEG | HOOK_TIMER
  | HOOK_GARBAGE_COLLECTION | HOOK_RESUME | HOOK_COMPLETION | MAX_HOOK_TYPE.

#[export] Instance hook_type_eq_dec : EqDecision hook_type.
Proof. solve_decision. Defined.

Inductive dispatch_result :=
  | DISPATCH_ERROR | DISPATCH_OK | DISPATCH_QUEUE_FULL | DISPATCH_QUEUED.

Definition mudmux_dispatch_accepted (r : dispatch_result) : bool :=
  match r with DISPATCH_OK | DISPATCH_QUEUED => true | _ => false end.

(** ** State of a slot *)

Record slot_execution := { se_id : nat; se_hook : hook_type; se_generation : Z }.

Record slot_execution_state := {
  active : bool;
  pending : list slot_execution;
  await_requested : bool;
  await_pending : bool;
  await_generation : Z;
  await_work : option nat;
  await_resume : option nat
}.

Definition idle_state : slot_execution_state :=
  {| active := false; pending := []; await_requested := false; await_pending := false;
     await_generation := 0; await_work := None; await_resume := None |}.

(** [mudmux_execution_slot_busy]. *)
Definition slot_busy (st : slot_execution_state) : bool :=
  active st || await_requested st || await_pending st.

(** ** Critical sections *)

Definition set_active (st : slot_execution_state) (b : bool) : slot_execution_state :=
  {| active := b; pending := pending st; await_requested := await_requested st;
     await_pending := await_pending st; await_generation := await_generation st;
     await_work := await_work st; await_resume := await_resume st |}.

Definition set_pending (st : slot_execution_state) (p : list slot_execution) : slot_execution_state :=
  {| active := active st; pending := p; await_requested := await_requested st;
     await_pending := await_pending st; await_generation := await_generation st;
     await_work := await_work st; await_resume := await_resume st |}.

(** [clear_slot_await]. *)
Definition clear_slot_await (st : slot_execution_state) : slot_execution_state :=
  {| active := active st; pending := pending st; await_requested := false;
     await_pending := false; await_generation := 0; await_work := None; await_resume := None |}.

(** The reset of a claimed or cancelled pending await. *)
Definition take_resume (st : slot_execution_state) : slot_execution_state :=
  {| active := active st; pending := pending st; await_requested := await_requested st;
     await_pending := false; await_generation := 0; await_work := await_work st;
     await_resume := None |}.

(** The section of [mudmux_execution_enqueue]; [inl] is an early return,
    [inr] continues to the submission. *)
Definition enqueue_section (backlog : nat) (st : slot_execution_state) (t : slot_execution)
    (allow_pending : bool) : (dispatch_result * slot_execution_state) + slot_execution_state :=
  let allow := if decide (se_hook t = HOOK_MESSAGE_INBOUND ∨ se_hook t = HOOK_TELNET_SUBNEG)
               then false else allow_pending in
  if active st then
    if negb allow || (backlog <=? length (pending st)) then inl (DISPATCH_QUEUE_FULL, st)
    else inl (DISPATCH_QUEUED, set_pending st (pending st ++ [t]))
  else inr (set_active st true).

(** The first section of [finish_slot_execution]. *)
Definition finish_section (st : slot_execution_state)
    : option slot_execution * slot_execution_state :=
  match pending st with
  | t :: rest => (Some t, set_pending st rest)
  | [] => (None, set_active st false)
  end.

(** Its second section, after a failed submission. *)
Definition finish_failed_section (st : slot_execution_state) : slot_execution_state :=
  set_active (set_pending st []) false.

(** The section of [mudmux_workers_await]. *)
Definition await_section (st : slot_execution_state) (generation : Z) (work resume : nat)
    : option slot_execution_state :=
  if await_requested st || await_pending st then None
  else Some {| active := active st; pending := pending st; await_requested := true;
               await_pending := await_pending st; await_generation := generation;
               await_work := Some work; await_resume := Some resume |}.

(** The section of [mudmux_execution_finalize_await]. *)
Definition finalize_section (st : slot_execution_state)
    : option (Z * option nat) * slot_execution_state :=
  if await_requested st then
    (Some (await_generation st, await_work st),
     {| active := true; pending := pending st; await_requested := false; await_pending := true;
        await_generation := await_generation st; await_work := None;
        await_resume := await_resume st |})
  else (None, st).

(** The section of [run_slot_await_work]. *)
Definition claim_section (st : slot_execution_state) (generation : Z) (generation_matches : bool)
    : option (option nat) * slot_execution_state :=
  if await_pending st && (await_generation st =? generation)%Z && generation_matches
  then (Some (await_resume st), take_resume st)
  else (None, st).

(** The section of [discard_slot_await]. *)
Definition discard_section (st : slot_execution_state) (generation : Z)
    : bool * slot_execution_state :=
  if (await_requested st || await_pending st) && (await_generation st =? generation)%Z
  then (true, clear_slot_await st)
  else (false, st).

(** The section of [mudmux_execution_cancel_await]; the boolean is
    [finish_pending_slot]. *)
Definition cancel_section (st : slot_execution_state) : bool * slot_execution_state :=
  if await_requested st then (false, clear_slot_await st)
  else if await_pending st then (true, take_resume st)
  else (false, st).

(** [mudmux_workers_await] is refused outside these hooks. *)
Definition may_await (h : hook_type) : bool :=
  match h with
  | HOOK_TRANSPORT_READY | HOOK_MESSAGE_INBOUND | HOOK_TELNET_SUBNEG | HOOK_RESUME => true
  | _ => false
  end.

(** [mudmux_execution_should_dispatch_async]. *)
Definition should_dispatch_async (relaxed : bool) (h : hook_type) : bool :=
  relaxed && match h with
  | HOOK_CONNECT | HOOK_DISCONNECT | HOOK_MESSAGE_INBOUND | HOOK_MESSAGE_OUTBOUND
  | HOOK_TRANSPORT_READY | HOOK_PROMPT | HOOK_TELNET_SUBNEG => true
  | _ => false
  end.

(** ** Threads *)

(** A call in progress, at the point before its next section; whether it runs
    on a worker or inline after a failed submission makes no difference. *)
Inductive activity :=
  | AEnqueue (t : slot_execution) (allow_pending : bool) (* generation read, lock next *)
  | AExec (t : slot_execution)          (* [run_slot_execution] accepted by the pool *)
  | AInvoke (t : slot_execution)        (* its hook is running *)
  | AComplete (t : slot_execution)      (* hook returned, [complete] next *)
  | AFinalize                           (* [mudmux_execution_finalize_await] next *)
  | AFinish                             (* [finish_slot_execution] next *)
  | AFinishFailed (t : slot_execution)  (* its submission of [t] failed *)
  | AWork (generation : Z)              (* [run_slot_await_work]: work closure *)
  | AWorkDone (generation : Z)          (* work returned, generation check next *)
  | AClaim (generation : Z) (matches : bool)
  | ADiscard (generation : Z)           (* [discard_slot_await] next *)
  | AResume (generation : Z)            (* [run_slot_await_resume] accepted *)
  | AResumeRun.                         (* the resume closure is running *)

(** What a running callback, or the pool, decides. *)
Inductive choice :=
  | CStep                               (* nothing to decide *)
  | CSubmitFails                        (* [worker_pool.submit] returns false *)
  | CAwait (work resume : nat)          (* the callback calls [mudmux_workers_await] *)
  | CThrow.                             (* the hook throws *)

Record sys := {
  s_state : slot_execution_state;
  s_acts : list activity;
  s_generation : Z;                     (* [comm_abstract_generation]; 0 without a comm *)
  s_backlog : nat;
  s_accepted : list slot_execution;     (* history: accepted for execution *)
  s_consumed : list slot_execution;     (* history: started, skipped or dropped *)
  s_thrown : nat;                       (* history: hooks left by an exception *)
  s_cancelled : nat;                    (* history: awaits cancelled before their work ended *)
  s_stale : nat                         (* history: requested awaits discarded by older works *)
}.

(** One activity's next step: the new state, what the activity becomes, and
    the additions to the two histories. *)
Definition act_step (gen : Z) (backlog : nat) (st : slot_execution_state) (a : activity) (c : choice)
    : option (slot_execution_state * list activity * list slot_execution * list slot_execution) :=
  match a with
  | AEnqueue t allow =>
      match enqueue_section backlog st t allow with
      | inl (DISPATCH_QUEUED, st') => Some (st', [], [t], [])
      | inl (_, st') => Some (st', [], [], [])
      | inr st' =>
          match c with
          | CSubmitFails => Some (st', [AFinish], [], [])
          | _ => Some (st', [AExec t], [t], [])
          end
      end
  | AExec t =>
      if (gen =? se_generation t)%Z then Some (st, [AInvoke t], [], [t])
      else Some (st, [AFinalize], [], [t])
  | AInvoke t =>
      match c with
      | CAwait w r =>
          if may_await (se_hook t) && negb (gen =? 0)%Z then
            match await_section st gen w r with
            | Some st' => Some (st', [AInvoke t], [], [])
            | None => Some (st, [AInvoke t], [], [])
            end
          else Some (st, [AInvoke t], [], [])
      | CThrow => Some (st, [], [], [])   (* unwinds to the worker loop *)
      | _ => Some (st, [AComplete t], [], [])
      end
  | AComplete t => Some (st, [AFinalize], [], [])
  | AFinalize =>
      match finalize_section st with
      | (Some (g, _), st') => Some (st', [AWork g], [], [])
      | (None, st') => Some (st', [AFinish], [], [])
      end
  | AFinish =>
      match finish_section st with
      | (None, st') => Some (st', [], [], [])
      | (Some t, st') =>
          match c with
          | CSubmitFails => Some (st', [AFinishFailed t], [], [])
          | _ => Some (st', [AExec t], [], [])
          end
      end
  | AFinishFailed t => Some (finish_failed_section st, [], [], t :: pending st)
  | AWork g => Some (st, [AWorkDone g], [], [])
  | AWorkDone g => Some (st, [AClaim g (gen =? g)%Z], [], [])
  | AClaim g m =>
      match claim_section st g m with
      | (Some _, st') => Some (st', [AResume g], [], [])
      | (None, st') => Some (st', [ADiscard g], [], [])
      end
  | ADiscard g =>
      match discard_section st g with
      | (true, st') => Some (st', [AFinish], [], [])
      | (false, st') => Some (st', [], [], [])
      end
  | AResume g =>
      if (gen =? g)%Z then Some (st, [AResumeRun], [], []) else Some (st, [AFinalize], [], [])
  | AResumeRun =>
      match c with
      | CAwait w r =>
          if negb (gen =? 0)%Z then
            match await_section st gen w r with
            | Some st' => Some (st', [AResumeRun], [], [])
            | None => Some (st, [AResumeRun], [], [])
            end
          else Some (st, [AResumeRun], [], [])
      | _ => Some (st, [AFinalize], [], [])   (* [invoke_closure_safely] catches *)
      end
  end.

(** What the step adds to the histories of exceptions and of stale discards:
    [discard_slot_await] tells awaits apart by generation only, so the work of a
    cancelled await also discards one requested since by the same connection. *)
Definition throws (a : activity) (c : choice) : nat :=
  match a, c with AInvoke _, CThrow => 1 | _, _ => 0 end.

Definition discards_requested (st : slot_execution_state) (a : activity) : nat :=
  match a with
  | ADiscard g => if await_requested st && (await_generation st =? g)%Z then 1 else 0
  | _ => 0
  end.

Inductive label :=
  | LDispatch (id : nat) (h : hook_type) (allow_pending : bool) (* a call of [mudmux_execution_enqueue] *)
  | LCancel                             (* [mudmux_execution_cancel_await] *)
  | LGeneration (g : Z)                 (* the comm slot is removed or reassigned *)
  | LAct (i : nat) (c : choice).        (* activity [i] takes its next step *)

Definition sys_step (s : sys) (l : label) : option sys :=
  match l with
  | LDispatch id h allow =>
      let t := {| se_id := id; se_hook := h; se_generation := s_generation s |} in
      Some {| s_state := s_state s; s_acts := s_acts s ++ [AEnqueue t allow];
              s_generation := s_generation s; s_backlog := s_backlog s;
              s_accepted := s_accepted s; s_consumed := s_consumed s;
              s_thrown := s_thrown s; s_cancelled := s_cancelled s; s_stale := s_stale s |}
  | LCancel =>
      let '(finish, st') := cancel_section (s_state s) in
      Some {| s_state := st'; s_acts := s_acts s ++ (if finish then [AFinish] else []);
              s_generation := s_generation s; s_backlog := s_backlog s;
              s_accepted := s_accepted s; s_consumed := s_consumed s;
              s_thrown := s_thrown s; s_cancelled := s_cancelled s + (if finish then 1 else 0);
              s_stale := s_stale s |}
  | LGeneration g =>
      Some {| s_state := s_state s; s_acts := s_acts s; s_generation := g;
              s_backlog := s_backlog s; s_accepted := s_accepted s; s_consumed := s_consumed s;
              s_thrown := s_thrown s; s_cancelled := s_cancelled s; s_stale := s_stale s |}
  | LAct i c =>
      match s_acts s !! i with
      | None => None
      | Some a =>
          match act_step (s_generation s) (s_backlog s) (s_state s) a c with
          | None => None
          | Some (st', new, acc, con) =>
              Some {| s_state := st'; s_acts := take i (s_acts s) ++ new ++ drop (S i) (s_acts s);
                      s_generation := s_generation s; s_backlog := s_backlog s;
                      s_accepted := s_accepted s ++ acc; s_consumed := s_consumed s ++ con;
                      s_thrown := s_thrown s + throws a c; s_cancelled := s_cancelled s;
                      s_stale := s_stale s + discards_requested (s_state s) a |}
          end
      end
  end.

Fixpoint sys_run (s : sys) (ls : list label) : option sys :=
  match ls with
  | [] => Some s
  | l :: rest => match sys_step s l with Some s' => sys_run s' rest | None => None end
  end.

Definition sys_init (gen : Z) (backlog : nat) : sys :=
  {| s_state := idle_state; s_acts := []; s_generation := gen; s_backlog := backlog;
     s_accepted := []; s_consumed := []; s_thrown := 0; s_cancelled := 0; s_stale := 0 |}.

(** Every interleaving of calls, cancellations, slot reuse and sections,
    whatever the hooks and the pool do. *)
Inductive reachable (gen : Z) (backlog : nat) : sys → Prop :=
  | reach_init : reachable gen backlog (sys_init gen backlog)
  | reach_step s l s' :
      reachable gen backlog s → sys_step s l = Some s' → reachable gen backlog s'.

(** ** Accounting *)

(** The activities that own the slot ([active] on their behalf). *)
Definition token (a : activity) : nat :=
  match a with
  | AExec _ | AInvoke _ | AComplete _ | AFinalize | AFinish | AFinishFailed _
  | AResume _ | AResumeRun => 1
  | _ => 0
  end.

(** User code of the slot is running. *)
Definition in_hook (a : activity) : nat :=
  match a with AInvoke _ | AResumeRun => 1 | _ => 0 end.

(** A callback that may still turn its await request into a pending await. *)
Definition before_finalize (a : activity) : nat :=
  match a with AInvoke _ | AComplete _ | AFinalize | AResumeRun => 1 | _ => 0 end.

(** An await work that has not ended, and one of generation [g]. *)
Definition await_work_of (a : activity) : option Z :=
  match a with AWork g | AWorkDone g | AClaim g _ | ADiscard g => Some g | _ => None end.
Definition awaits (a : activity) : nat := if await_work_of a is Some _ then 1 else 0.
Definition await_of (g : Z) (a : activity) : nat :=
  if await_work_of a is Some g' then if (g' =? g)%Z then 1 else 0 else 0.

(** Accepted tasks handed to the pool and not yet started. *)
Definition inflight (a : activity) : list slot_execution :=
  match a with AExec t | AFinishFailed t => [t] | _ => [] end.

Definition total (f : activity → nat) (acts : list activity) : nat := sum_list_with f acts.
Definition inflights (acts : list activity) : list slot_execution := concat (map inflight acts).

Definition b2n (b : bool) : nat := if b then 1 else 0.

Record scheduler_inv (s : sys) : Prop := {
  inv_upper : total token (s_acts s) + b2n (await_pending (s_state s))
              ≤ b2n (active (s_state s)) + s_stale s;
  inv_lower : b2n (active (s_state s))
              ≤ total token (s_acts s) + b2n (await_pending (s_state s)) + s_thrown s;
  inv_requested : await_requested (s_state s) = true →
    await_pending (s_state s) = false ∧ 1 ≤ total before_finalize (s_acts s) + s_thrown s;
  inv_awaiting : await_pending (s_state s) = true →
    1 ≤ total (await_of (await_generation (s_state s))) (s_acts s);
  inv_works : total awaits (s_acts s) + s_stale s ≤ b2n (await_pending (s_state s)) + s_cancelled s;
  inv_queue : (pending (s_state s) ≠ [] → active (s_state s) = true)
    ∧ length (pending (s_state s)) ≤ s_backlog s;
  inv_history : s_accepted s ≡ₚ s_consumed s ++ inflights (s_acts s) ++ pending (s_state s);
  inv_order : s_stale s = 0 →
    s_accepted s = s_consumed s ++ inflights (s_acts s) ++ pending (s_state s)
}.

(** ** Lemmas *)

Lemma total_app f l r : total f (l ++ r) = total f l + total f r.
Proof. apply sum_list_with_app. Qed.

Lemma total_cons f a r : total f (a :: r) = f a + total f r.
Proof. done. Qed.

Lemma inflights_app l r : inflights (l ++ r) = inflights l ++ inflights r.
Proof. unfold inflights. by rewrite map_app, concat_app. Qed.

Lemma total_le f g acts : (∀ a, f a ≤ g a) → total f acts ≤ total g acts.
Proof.
  intros H. induction acts as [|a acts IH]; [done|]. rewrite !total_cons. specialize (H a). lia.
Qed.

Lemma inflights_token acts : length (inflights acts) ≤ total token acts.
Proof.
  induction acts as [|a acts IH]; [done|]. unfold inflights in *. cbn [map concat].
  rewrite length_app, total_cons. destruct a; cbn in *; lia.
Qed.

Lemma inflights_no_token acts : total token acts = 0 → inflights acts = [].
Proof. intros H. apply nil_length_inv. pose proof (inflights_token acts). lia. Qed.

Lemma in_hook_le_token a : in_hook a ≤ token a.
Proof. by destruct a; cbn; lia. Qed.

(** Replacing activity [a] between [l] and [r]. *)
Lemma sys_act_inv s i c s' :
  sys_step s (LAct i c) = Some s' →
  ∃ l a r st' new acc con,
    s_acts s = l ++ a :: r ∧ s_acts s !! i = Some a
    ∧ act_step (s_generation s) (s_backlog s) (s_state s) a c = Some (st', new, acc, con)
    ∧ s' = {| s_state := st'; s_acts := l ++ new ++ r; s_generation := s_generation s;
              s_backlog := s_backlog s; s_accepted := s_accepted s ++ acc;
              s_consumed := s_consumed s ++ con; s_thrown := s_thrown s + throws a c;
              s_cancelled := s_cancelled s;
              s_stale := s_stale s + discards_requested (s_state s) a |}.
Proof.
  cbn [sys_step]. destruct (s_acts s !! i) as [a|] eqn:L; [|done].
  destruct (act_step _ _ _ _ _) as [[[[st' new] acc] con]|] eqn:E; [|done].
  intros [= <-]. exists (take i (s_acts s)), a, (drop (S i) (s_acts s)), st', new, acc, con.
  split; [by rewrite take_drop_middle|done].
Qed.

Lemma inflights_cons a r : inflights (a :: r) = inflight a ++ inflights r.
Proof. done. Qed.

(** What one section does to the accounts, whatever else is under way. *)
Record accounts (backlog : nat) (st : slot_execution_state) (a : activity) (c : choice)
    (st' : slot_execution_state) (new : list activity) (acc con : list slot_execution) : Prop := {
  ac_upper : total token new + b2n (await_pending st') + b2n (active st)
    ≤ token a + b2n (await_pending st) + b2n (active st') + discards_requested st a;
  ac_lower : b2n (active st') ≤ total token new + b2n (await_pending st') + throws a c
    ∨ b2n (active st') + token a + b2n (await_pending st)
      ≤ b2n (active st) + total token new + b2n (await_pending st') + throws a c;
  ac_requested : await_requested st' = true → await_pending st' = false
    ∧ (1 ≤ total before_finalize new + throws a c
       ∨ await_requested st = true ∧ before_finalize a ≤ total before_finalize new + throws a c);
  ac_awaiting : await_pending st' = true →
    1 ≤ total (await_of (await_generation st')) new
    ∨ await_pending st = true ∧ await_generation st' = await_generation st
      ∧ await_of (await_generation st) a ≤ total (await_of (await_generation st)) new;
  ac_works : total awaits new + b2n (await_pending st) + discards_requested st a
    ≤ awaits a + b2n (await_pending st');
  ac_queue : (pending st' ≠ [] → active st' = true)
    ∧ (length (pending st) ≤ backlog → length (pending st') ≤ backlog);
  ac_history : inflight a ++ pending st ++ acc = con ++ inflights new ++ pending st';
  ac_quiet : token a = 1 ∨ active st = false
    ∨ con = [] ∧ inflights new = [] ∧ inflight a = []
}.

(** The sections, on a state whose fields are known. *)
Ltac sections_in E :=
  unfold enqueue_section, finish_section, finish_failed_section, await_section, finalize_section,
    claim_section, discard_section, set_active, set_pending, clear_slot_await, take_resume in E;
  cbn [active pending await_requested await_pending await_generation await_work await_resume] in E.

Ltac account :=
  repeat split; cbn in *; rewrite ?app_nil_r;
  repeat match goal with G : (_ =? _)%Z = _ |- _ => progress rewrite G end;
  intuition (done || lia || congruence).

Lemma act_accounts gen backlog st a c st' new acc con :
  act_step gen backlog st a c = Some (st', new, acc, con) →
  (pending st ≠ [] → active st = true) → (await_requested st = true → await_pending st = false) →
  accounts backlog st a c st' new acc con.
Proof.
  destruct st as [act pe rq pd g w rs]. cbn [active pending await_requested await_pending].
  intros E HQ HR. destruct a; cbn [act_step] in E; sections_in E.
  - (* AEnqueue *)
    destruct act; cbn in E; [destruct (negb _ || _) eqn:F; simplify_eq; [account|]|].
    + apply orb_false_iff in F as [_ F%Nat.leb_gt]. constructor; cbn; rewrite ?length_app; cbn; auto with lia.
    + destruct pe; [|by specialize (HQ ltac:(done))]. destruct c; simplify_eq; account.
  - destruct (gen =? _)%Z; simplify_eq; account.
  - destruct c; simplify_eq; try account.
    destruct (may_await _ && _); simplify_eq; [|account]. destruct rq, pd; cbn in E; simplify_eq; account.
  - simplify_eq; account.
  - destruct rq; simplify_eq; [rewrite (HR eq_refl)|]; cbn.
    + constructor; cbn; rewrite ?Z.eqb_refl, ?app_nil_r; auto with lia. destruct act; cbn; lia.
    + account.
  - destruct pe; [destruct act|assert (act = true) as -> by auto; destruct c]; simplify_eq; account.
  - destruct act; simplify_eq; account.
  - simplify_eq. account.
  - simplify_eq. account.
  - destruct pd, (Z.eqb_spec g generation), matches; cbn in E; simplify_eq; account.
  - pose proof (Z.eqb_sym generation g) as G'. destruct (g =? generation)%Z eqn:G, rq, pd; cbn in E; simplify_eq; account.
  - destruct (gen =? _)%Z; simplify_eq; account.
  - destruct c; simplify_eq; try account.
    destruct (negb _); simplify_eq; [|account]. destruct rq, pd; cbn in E; simplify_eq; account.
Qed.

(** A section of one activity keeps the invariant. *)
Lemma act_inv s l a r c st' new acc con :
  scheduler_inv s → s_acts s = l ++ a :: r →
  act_step (s_generation s) (s_backlog s) (s_state s) a c = Some (st', new, acc, con) →
  scheduler_inv {| s_state := st'; s_acts := l ++ new ++ r; s_generation := s_generation s;
                   s_backlog := s_backlog s; s_accepted := s_accepted s ++ acc;
                   s_consumed := s_consumed s ++ con; s_thrown := s_thrown s + throws a c;
                   s_cancelled := s_cancelled s;
                   s_stale := s_stale s + discards_requested (s_state s) a |}.
Proof.
  intros [U L R A W [Q B] P O] Hs E.
  destruct (act_accounts _ _ _ _ _ _ _ _ _ E Q (fun h => proj1 (R h))) as [U' L' R' A' W' [Q' B'] H' T'].
  rewrite Hs in *. rewrite ?inflights_app, ?inflights_cons in P, O.
  constructor; cbn [s_state s_acts s_generation s_backlog s_accepted s_consumed s_thrown s_cancelled s_stale];
    rewrite ?total_app, ?total_cons, ?inflights_app in *.
  - lia.
  - lia.
  - intros Hr. destruct (R' Hr) as [? Hb]. split; [done|]. rewrite ?total_app.
    destruct Hb as [?|[Hr0 ?]]; [lia|]. destruct (R Hr0) as [_ ?]. rewrite ?total_app, ?total_cons in *. lia.
  - intros Hp. rewrite ?total_app. destruct (A' Hp) as [?|(Hp0 & -> & ?)]; [lia|].
    specialize (A Hp0). rewrite ?total_app, ?total_cons in A. lia.
  - lia.
  - auto.
  - rewrite P. rewrite <- !app_assoc. apply Permutation_app_head.
    transitivity (inflights l ++ inflights r ++ inflight a ++ pending (s_state s) ++ acc); [solve_Permutation|].
    rewrite H'. solve_Permutation.
  - intros Hz. rewrite O by lia.
    assert (inflights l = [] ∧ inflights r = [] ∨ con = [] ∧ inflights new = [] ∧ inflight a = [])
      as [[-> ->]|(-> & Hn & Ha)].
    { destruct T' as [Ht|[Ht|?]]; [| |by right]; left; split; apply inflights_no_token;
        rewrite ?Ht in *; destruct (active (s_state s)); cbn [b2n] in *; lia. }
    + cbn [app]. rewrite <- !app_assoc. cbn [app]. by rewrite H'.
    + rewrite Hn, Ha in *. cbn [app] in *. rewrite <- !app_assoc. cbn [app]. by rewrite H'.
Qed.

Lemma cancel_inv s finish st' :
  scheduler_inv s → cancel_section (s_state s) = (finish, st') →
  scheduler_inv {| s_state := st'; s_acts := s_acts s ++ (if finish then [AFinish] else []);
                   s_generation := s_generation s; s_backlog := s_backlog s;
                   s_accepted := s_accepted s; s_consumed := s_consumed s; s_thrown := s_thrown s;
                   s_cancelled := s_cancelled s + (if finish then 1 else 0); s_stale := s_stale s |}.
Proof.
  unfold cancel_section. intros [U L R A W Q P O] E.
  assert (HF : ∀ f, total f [AFinish] = f AFinish) by (intros f; apply Nat.add_0_r).
  destruct (await_requested (s_state s)) eqn:Hr; [|destruct (await_pending (s_state s)) eqn:Hp];
    simplify_eq; constructor; cbn [s_state s_acts s_backlog s_accepted s_consumed s_thrown s_cancelled s_stale
      clear_slot_await take_resume active pending await_requested await_pending await_generation b2n];
    rewrite ?app_nil_r, ?Nat.add_0_r, ?total_app, ?HF, ?inflights_app; cbn [token awaits await_work_of];
    try (change (inflights [AFinish]) with (@nil slot_execution)); rewrite ?app_nil_r, ?Hr, ?Hp; try done;
    try (cbn [b2n] in *; lia).
  all: destruct (R eq_refl) as [Hp _]; rewrite Hp in *; cbn [b2n] in *; lia.
Qed.

Lemma scheduler_inv_reachable gen backlog s : reachable gen backlog s → scheduler_inv s.
Proof.
  induction 1 as [|s l s' _ IH E].
  { constructor; cbn; auto with lia. }
  destruct l as [id h allow| |g|i c]; cbn [sys_step] in E.
  - injection E as <-. destruct IH as [U L R A W Q P O].
    constructor; cbn [s_state s_acts s_backlog s_accepted s_consumed s_thrown s_cancelled s_stale];
      rewrite ?total_app, ?inflights_app, ?app_nil_r; try done.
    all: try (unfold total in *; cbn [sum_list_with token awaits await_work_of]; lia).
    + intros Hr. destruct (R Hr). split; [done|]. unfold total in *. cbn. lia.
    + intros Hp. specialize (A Hp). unfold total in *. cbn. lia.
  - destruct (cancel_section (s_state s)) as [finish st'] eqn:C. injection E as <-. by apply cancel_inv.
  - injection E as <-. by destruct IH.
  - destruct (sys_act_inv _ _ _ _ E) as (l & a & r & st' & new & acc & con & HA & _ & HS & ->).
    by apply act_inv.
Qed.

(** ** Properties *)

Lemma reachable_run gen backlog s ls s' :
  reachable gen backlog s → sys_run s ls = Some s' → reachable gen backlog s'.
Proof.
  revert s. induction ls as [|l ls IH]; intros s Hr E; cbn in *; [congruence|].
  destruct (sys_step s l) as [s1|] eqn:Es; [|done]. apply (IH s1); [|done]. by eapply reach_step.
Qed.

(** C1: hooks of one connection do not overlap: in every interleaving of
    workers, event loop, cancellation and slot reuse, with hooks that throw,
    await or are refused, the callbacks of a slot that run at a time are at most
    one, plus one for each requested await that the work of an older, cancelled
    await has discarded; such a discard needs a cancellation of an await whose
    work has not ended.  Without one the slot is reported busy while its
    callback runs. *)
Theorem slot_hooks_serialized gen backlog s :
  reachable gen backlog s →
  total in_hook (s_acts s) ≤ 1 + s_stale s ∧ s_stale s ≤ s_cancelled s
  ∧ (s_stale s = 0 → 1 ≤ total in_hook (s_acts s) → slot_busy (s_state s) = true).
Proof.
  intros Hr. destruct (scheduler_inv_reachable _ _ _ Hr) as [U _ _ A W _ _ _].
  pose proof (total_le in_hook token (s_acts s) in_hook_le_token) as Hle.
  unfold slot_busy. destruct (await_pending (s_state s)) eqn:Hp.
  - specialize (A eq_refl). split_and!; [destruct (active _); cbn in *; lia| |intros; apply orb_true_r].
    assert (total (await_of (await_generation (s_state s))) (s_acts s) ≤ total awaits (s_acts s)); [|cbn in *; lia].
    apply total_le. intros a. unfold await_of, awaits. destruct (await_work_of a); [case_match; lia|lia].
  - destruct (active (s_state s)); cbn in *; split_and!; lia || done.
Qed.

(** One message, an await, its resume and a message queued behind it. *)
Definition sample_trace : list label :=
  [LDispatch 1 HOOK_MESSAGE_INBOUND false; LAct 0 CStep; LAct 0 CStep; LAct 0 (CAwait 10 11);
   LDispatch 2 HOOK_MESSAGE_OUTBOUND true; LAct 1 CStep;
   LAct 0 CStep; LAct 0 CStep; LAct 0 CStep; LAct 0 CStep; LAct 0 CStep; LAct 0 CStep;
   LAct 0 CStep].

Lemma slot_hooks_serialized_witness :
  ∃ s, sys_run (sys_init 7 8) sample_trace = Some s ∧ total in_hook (s_acts s) = 1
    ∧ slot_busy (s_state s) = true.
Proof.
  assert (∃ s, sys_run (sys_init 7 8) sample_trace = Some s) as [s E]
    by (eexists; vm_compute; reflexivity).
  exists s. split; [exact E|].
  assert (R : reachable 7 8 s) by (eapply reachable_run; [apply reach_init|exact E]).
  assert (H1 : total in_hook (s_acts s) = 1 ∧ s_stale s = 0)
    by (vm_compute in E; injection E as <-; split; reflexivity).
  destruct H1 as [H1 H2]. split; [exact H1|].
  apply (slot_hooks_serialized 7 8 s R); [exact H2|]. rewrite H1. constructor.
Defined.

(** C2: nothing accepted is lost or duplicated, and the order is kept: in every
    interleaving the accepted hooks are those consumed (started, skipped because
    the connection had gone, or dropped when the pool refused the next one),
    those handed to the pool and those in the backlog, each once; the backlog
    never exceeds its capacity; and as long as no requested await has been
    discarded by the work of a cancelled one, they are consumed in the order of
    acceptance with at most one of them handed to the pool. *)
Theorem slot_accepted_fifo gen backlog s :
  reachable gen backlog s →
  s_accepted s ≡ₚ s_consumed s ++ inflights (s_acts s) ++ pending (s_state s)
  ∧ length (pending (s_state s)) ≤ s_backlog s
  ∧ (s_stale s = 0 →
     s_accepted s = s_consumed s ++ inflights (s_acts s) ++ pending (s_state s)
     ∧ length (inflights (s_acts s)) ≤ 1).
Proof.
  intros Hr. destruct (scheduler_inv_reachable _ _ _ Hr) as [U _ _ _ _ [_ B] P O].
  split_and!; [done..|]. intros Hz. split; [by apply O|].
  pose proof (inflights_token (s_acts s)). destruct (active (s_state s)); cbn in *; lia.
Qed.

Lemma slot_accepted_fifo_witness :
  ∃ s, sys_run (sys_init 7 8) sample_trace = Some s
    ∧ s_accepted s = s_consumed s ++ inflights (s_acts s) ++ pending (s_state s)
    ∧ length (s_accepted s) = 2.
Proof.
  assert (∃ s, sys_run (sys_init 7 8) sample_trace = Some s) as [s E]
    by (eexists; vm_compute; reflexivity).
  exists s. split; [exact E|]. split.
  - apply (slot_accepted_fifo 7 8 s).
    + eapply reachable_run; [apply reach_init|exact E].
    + vm_compute in E. injection E as <-. reflexivity.
  - vm_compute in E. injection E as <-. reflexivity.
Defined.

(** C3: a slot never stays busy with nothing to do: in every interleaving in
    which no hook was left by an exception, when every call on the slot has
    finished the slot is idle, its backlog is empty and every accepted hook has
    been consumed once. *)
Theorem slot_quiescent_idle gen backlog s :
  reachable gen backlog s → s_acts s = [] → s_thrown s = 0 →
  slot_busy (s_state s) = false ∧ pending (s_state s) = [] ∧ s_accepted s ≡ₚ s_consumed s.
Proof.
  intros Hr Hn Ht. destruct (scheduler_inv_reachable _ _ _ Hr) as [_ L R A _ [Q _] P _].
  rewrite Hn, Ht in *. cbn in L, R, A, P.
  destruct (await_pending (s_state s)) eqn:Hp; [specialize (A eq_refl); lia|].
  destruct (active (s_state s)) eqn:Ha; [cbn in L; lia|].
  destruct (await_requested (s_state s)) eqn:Hq; [destruct (R eq_refl); lia|].
  assert (pending (s_state s) = []) as He by (destruct (pending (s_state s)); [done|by specialize (Q ltac:(done))]).
  unfold slot_busy. rewrite Ha, Hq, Hp. rewrite He, app_nil_r in P. done.
Qed.

Definition complete_trace : list label :=
  sample_trace ++ [LAct 0 CStep; LAct 0 CStep; LAct 0 CStep; LAct 0 CStep; LAct 0 CStep;
                   LAct 0 CStep; LAct 0 CStep; LAct 0 CStep].

Lemma slot_quiescent_idle_witness :
  ∃ s, sys_run (sys_init 7 8) complete_trace = Some s ∧ slot_busy (s_state s) = false
    ∧ length (s_consumed s) = 2.
Proof.
  assert (∃ s, sys_run (sys_init 7 8) complete_trace = Some s ∧ s_acts s = [] ∧ s_thrown s = 0)
    as (s & E & Hn & Ht) by (eexists; split; [vm_compute; reflexivity|split; reflexivity]).
  exists s. split; [exact E|]. split.
  - apply (slot_quiescent_idle 7 8 s); [|exact Hn|exact Ht].
    eapply reachable_run; [apply reach_init|exact E].
  - vm_compute in E. injection E as <-. reflexivity.
Defined.

(** The interleaving of a cancelled await with a new await of the same
    connection: the first message awaits, its await is cancelled while its work
    runs, a second message requests an await, and then the first work ends. *)
Definition stale_await_trace : list label :=
  [LDispatch 1 HOOK_MESSAGE_INBOUND false; LAct 0 CStep; LAct 0 CStep; LAct 0 (CAwait 10 11);
   LAct 0 CStep; LAct 0 CStep; LAct 0 CStep;
   LCancel; LAct 1 CStep;
   LDispatch 2 HOOK_MESSAGE_INBOUND false; LAct 1 CStep; LAct 1 CStep; LAct 1 (CAwait 20 21);
   LAct 0 CStep; LAct 0 CStep; LAct 0 CStep; LAct 0 CStep; LAct 0 CStep;
   LDispatch 3 HOOK_MESSAGE_INBOUND false; LAct 1 CStep; LAct 1 CStep].

(** The bound is reached: the work of a cancelled await discards the await
    requested by a later hook of the same connection, releases the slot under
    that hook, and two hooks of the slot run at once. *)
Theorem stale_await_overlaps_hooks :
  ∃ s, sys_run (sys_init 1 8) stale_await_trace = Some s
    ∧ total in_hook (s_acts s) = 2 ∧ s_stale s = 1 ∧ s_cancelled s = 1.
Proof. eexists. split; [vm_compute; reflexivity|]. split_and!; reflexivity. Qed.

(** *** Throwing hooks *)

(** The slot is marked active on behalf of nobody. *)
Definition leaked (s : sys) : Prop :=
  active (s_state s) = true ∧ total token (s_acts s) = 0
  ∧ await_requested (s_state s) = false ∧ await_pending (s_state s) = false.

Lemma leaked_step s l s' :
  leaked s → sys_step s l = Some s' → leaked s' ∧ s_consumed s' = s_consumed s.
Proof.
  intros (Ha & Ht & Hr & Hp) E. destruct l as [id h allow| |g|i c].
  - cbn [sys_step] in E. simplify_eq. cbn. split; [|done]. unfold leaked. cbn.
    rewrite total_app, Ht. done.
  - cbn [sys_step] in E. unfold cancel_section in E. rewrite Hr, Hp in E. simplify_eq.
    cbn. split; [|done]. unfold leaked. cbn. by rewrite app_nil_r.
  - cbn [sys_step] in E. by simplify_eq.
  - destruct (sys_act_inv _ _ _ _ E) as (l & a & r & st' & new & acc & con & HA & _ & HS & ->).
    rewrite HA, total_app, total_cons in Ht.
    assert (leaked {| s_state := st'; s_acts := l ++ new ++ r; s_generation := s_generation s;
                      s_backlog := s_backlog s; s_accepted := s_accepted s ++ acc;
                      s_consumed := s_consumed s ++ con; s_thrown := s_thrown s + throws a c;
                      s_cancelled := s_cancelled s;
                      s_stale := s_stale s + discards_requested (s_state s) a |} ∧ con = []) as [? ->];
      [|split; [done|cbn; by rewrite app_nil_r]].
    unfold leaked. cbn [s_state s_acts s_consumed]. rewrite !total_app.
    destruct a; cbn [token] in Ht; try lia; cbn [act_step] in HS.
    + unfold enqueue_section in HS. rewrite Ha in HS.
      destruct (negb _ || _); simplify_eq; cbn; split_and!; done || lia.
    + simplify_eq. cbn. split_and!; done || lia.
    + simplify_eq. cbn. split_and!; done || lia.
    + unfold claim_section in HS. rewrite Hp in HS. cbn in HS. simplify_eq. cbn.
      split_and!; done || lia.
    + unfold discard_section in HS. rewrite Hp, Hr in HS. cbn in HS. simplify_eq. cbn.
      split_and!; done || lia.
Qed.

(** A hook that throws blocks its slot for good: the exception leaves
    [run_slot_execution] without releasing the slot, and from then on, whatever
    happens, the slot is reported busy and no further hook of it starts. *)
Theorem throwing_hook_blocks_slot gen backlog s i t s1 :
  reachable gen backlog s → s_stale s = 0 → s_acts s !! i = Some (AInvoke t) →
  await_requested (s_state s) = false → sys_step s (LAct i CThrow) = Some s1 →
  ∀ ls s2, sys_run s1 ls = Some s2 →
    slot_busy (s_state s2) = true ∧ s_consumed s2 = s_consumed s.
Proof.
  intros Hr Hz Hi Hq E ls s2 E2. destruct (scheduler_inv_reachable _ _ _ Hr) as [U _ _ _ _ _ _ _].
  assert (leaked s1 ∧ s_consumed s1 = s_consumed s) as [HL HC].
  { destruct (sys_act_inv _ _ _ _ E) as (l & a & r & st' & new & acc & con & HA & Hi' & HS & ->).
    rewrite Hi in Hi'. injection Hi' as <-. cbn [act_step] in HS. simplify_eq.
    rewrite HA, total_app, total_cons, Hz in U. cbn [token] in U.
    split; [|cbn; by rewrite app_nil_r]. unfold leaked. cbn. rewrite total_app, Hq.
    destruct (active (s_state s)), (await_pending (s_state s)); cbn [b2n] in U; split_and!; lia || done. }
  rewrite <- HC. clear -HL E2. revert s1 HL E2. induction ls as [|l ls IH]; intros s1 HL E2; cbn in E2.
  - simplify_eq. destruct HL as (Ha & _). unfold slot_busy. by rewrite Ha.
  - destruct (sys_step s1 l) as [s'|] eqn:Es; [|done].
    destruct (leaked_step _ _ _ HL Es) as [HL' <-]. by apply IH.
Qed.

Lemma throwing_hook_blocks_slot_witness :
  ∃ s2, sys_run (sys_init 1 8)
          [LDispatch 1 HOOK_MESSAGE_INBOUND false; LAct 0 CStep; LAct 0 CStep; LAct 0 CThrow;
           LDispatch 2 HOOK_MESSAGE_INBOUND false; LAct 0 CStep; LCancel] = Some s2
    ∧ slot_busy (s_state s2) = true.
Proof.
  set (pre := [LDispatch 1 HOOK_MESSAGE_INBOUND false; LAct 0 CStep; LAct 0 CStep]).
  assert (∃ s, sys_run (sys_init 1 8) pre = Some s) as [s E] by (eexists; vm_compute; reflexivity).
  assert (∃ s1, sys_step s (LAct 0 CThrow) = Some s1) as [s1 E1]
    by (vm_compute in E; injection E as <-; eexists; vm_compute; reflexivity).
  assert (∃ s2, sys_run s1 [LDispatch 2 HOOK_MESSAGE_INBOUND false; LAct 0 CStep; LCancel] = Some s2)
    as [s2 E2] by (vm_compute in E; injection E as <-; vm_compute in E1; injection E1 as <-;
                   eexists; vm_compute; reflexivity).
  exists s2. split.
  - vm_compute in E. injection E as <-. vm_compute in E1. injection E1 as <-.
    vm_compute in E2. injection E2 as <-. vm_compute. reflexivity.
  - refine (proj1 (throwing_hook_blocks_slot 1 8 s 0
      {| se_id := 1; se_hook := HOOK_MESSAGE_INBOUND; se_generation := 1 |} s1 _ _ _ _ E1 _ s2 E2)).
    + eapply reachable_run; [apply reach_init|exact E].
    + vm_compute in E. injection E as <-. reflexivity.
    + vm_compute in E. injection E as <-. reflexivity.
    + vm_compute in E. injection E as <-. reflexivity.
Defined.
