(* ===== verification/Abstract.v ===== *)
(** * Communication slots (lib/comm/abstract.cpp, lib/comm/abstract.hpp)

    The communication flags, the record of one slot, the slot table with its
    growth, assignment and removal, and the generation counter that tells the
    connections of one slot apart.  BIO, SSL and socket calls are recorded as
    events; their answers and the allocator's are parameters ([SlotEnv]). *)

From S2P Require Import Prelude InBuf OutBuf.

(** ** Flags (src/include/mudmux/comm.h) *)

Definition C_CLOSING : Z := 0x80000000.
Definition C_SOCKET_LISTENING : Z := 0x40000000.
Definition C_SOCKET_READABLE : Z := 0x20000000.
Definition C_SOCKET_WRITABLE : Z := 0x10000000.
Definition C_LINE_INPUT : Z := 0x08000000.
Definition C_CLIENT_ECHO : Z := 0x04000000.
Definition C_ENABLE_TELNET : Z := 0x02000000.
Definition C_ENABLE_ANSI : Z := 0x01000000.
Definition C_ENABLE_WEBSOCKET : Z := 0x00800000.
Definition C_ENABLE_PROMPT : Z := 0x00400000.
Definition C_TRANSPORT_READY : Z := 0x4000.
Definition C_INVOKED_PROMPT : Z := 0x2000.
Definition C_BUFFERED_WRITE : Z := 0x1000.
Definition C_TLS_ESTABLISHED : Z := 0x800.
Definition C_DEFERRED_INBOUND : Z := 0x400.
Definition C_AWAITING_HOOK : Z := 0x200.
Definition C_DISCONNECT_PENDING : Z := 0x100.
Definition M_WEBSOCKET_STATE : Z := 0xf0.
Definition M_TELNET_STATE : Z := 0x0f.

Definition WS_HANDSHAKE : Z := 0x00.
Definition WS_READY : Z := 0x10.
Definition WS_TELNET_PENDING : Z := 0x20.
Definition WS_CLOSE_SENT : Z := 0x30.
Definition WS_CLOSE_RECEIVED : Z := 0x40.

(** [flags & bits], [flags |= bits], [flags &= ~bits]. *)
Definition has_flag (flags bits : Z) : bool := negb (Z.land flags bits =? 0)%Z.
Definition set_flag (flags bits : Z) : Z := Z.lor flags bits.
Definition clear_flag (flags bits : Z) : Z := Z.ldiff flags bits.

Definition C_WEBSOCKET_STATE (flags : Z) : Z := Z.land flags M_WEBSOCKET_STATE.
Definition C_WEBSOCKET_IS_READY (flags : Z) : bool :=
  negb (C_WEBSOCKET_STATE flags =? WS_HANDSHAKE)%Z.
Definition C_WEBSOCKET_SET_STATE (flags state : Z) : Z :=
  Z.lor (Z.ldiff flags M_WEBSOCKET_STATE) (Z.land state M_WEBSOCKET_STATE).

(** ** Slots *)

Record client_capabilities := {
  telnet_linemode : bool; telnet_naws : bool; telnet_ttype : bool;
  telnet_tspeed : bool; telnet_new_environ : bool; telnet_echo : bool }.

Definition no_capabilities : client_capabilities :=
  {| telnet_linemode := false; telnet_naws := false; telnet_ttype := false;
     telnet_tspeed := false; telnet_new_environ := false; telnet_echo := false |}.

(** [comm_websocket_state_s]. *)
Record websocket_state := {
  fragmented_opcode : Z; fragmented_payload : list Z; preferred_protocols : list Z;
  pending_wire : list Z; decoded_input : list Z }.

(** BIO and SSL objects are handles; a null pointer is [None]. *)
Record comm_abstract := mk_comm {
  rbio : option nat; wbio : option nat; ssl : option nat;
  inbound : list inbound_buffer; outbound : list outbound_buffer;
  websocket_upgrade_barrier : list outbound_buffer;
  websocket : option websocket_state;
  generation : Z; flags : Z; caps : client_capabilities }.

(** A slot of [calloc]ed memory. *)
Definition zero_comm : comm_abstract :=
  mk_comm None None None [] [] [] None 0 0 no_capabilities.

Definition in_use (c : comm_abstract) : bool :=
  match rbio c, wbio c with None, None => false | _, _ => true end.

(** Calls that leave the program. *)
Inductive slot_event :=
  | EvSSLFree (s : nat)
  | EvUnlink (path : list Z)
  | EvBIOFree (b : nat).

(** The slot table with the buffer pools and the events of its operations. *)
Record table := {
  all_comms : option (list comm_abstract);   (* [None] is the null pointer *)
  max_comms : nat;
  in_pool : list inbound_buffer;
  out_pool : list outbound_buffer;
  events : list slot_event }.

Definition empty_table : table :=
  {| all_comms := None; max_comms := 0; in_pool := []; out_pool := []; events := [] |}.

Definition with_comms (t : table) (cs : option (list comm_abstract)) (n : nat) : table :=
  {| all_comms := cs; max_comms := n; in_pool := in_pool t; out_pool := out_pool t;
     events := events t |}.

(** Answers of the C library and of OpenSSL: whether an allocation of [n] slots
    succeeds, and the pathname a listening BIO is bound to (the [BIO_get_fd],
    [getsockname] and address tests of [comm_abstract_remove]). *)
Class SlotEnv := {
  alloc_ok : nat → bool;
  unix_path : nat → option (list Z);
}.

(** [slot_ptr_unlocked] and [resolve_slot_unlocked]. *)
Definition slot_ptr (t : table) (slot : Z) : option comm_abstract :=
  match all_comms t with
  | None => None
  | Some cs =>
      if ((slot <? 0) || (Z.of_nat (max_comms t) <=? slot))%Z then None
      else cs !! Z.to_nat slot
  end.

Definition resolve_slot (t : table) (slot : Z) : option comm_abstract :=
  match slot_ptr t slot with
  | Some c => if in_use c then Some c else None
  | None => None
  end.

(** Assignment through a slot pointer. *)
Definition put_slot (t : table) (slot : Z) (c : comm_abstract) : table :=
  with_comms t (fmap (fun cs => <[Z.to_nat slot := c]> cs) (all_comms t)) (max_comms t).

(** [while (n < required) n *= 2]; [n] at least doubles, so [required] turns
    are enough. *)
Fixpoint grow_to (fuel n required : nat) : nat :=
  match fuel with
  | 0 => n
  | S f => if n <? required then grow_to f (n * 2) required else n
  end.

(** [ensure_capacity]: [false] is -1.  The first allocation sets [max_comms_]
    before it is known to succeed. *)
Definition ensure_capacity `{SlotEnv} (t : table) (required : nat) : table * bool :=
  match all_comms t with
  | Some cs =>
      if required <=? max_comms t then (t, true)
      else
        let new_max := grow_to required (max_comms t * 2) required in
        if alloc_ok new_max then
          (with_comms t (Some (cs ++ replicate (new_max - max_comms t) zero_comm)) new_max, true)
        else (t, false)
  | None =>
      let n := grow_to required 64 required in
      if alloc_ok n then (with_comms t (Some (replicate n zero_comm)) n, true)
      else (with_comms t None n, false)
  end.

Definition RESERVED_SLOTS : nat := 1.
Definition COMM_SLOT_CONSOLE : Z := 0.

(** [while (slot < max_comms_ && (rbio || wbio)) slot++]. *)
Fixpoint first_free (cs : list comm_abstract) : nat :=
  match cs with
  | [] => 0
  | c :: rest => if in_use c then S (first_free rest) else 0
  end.

Definition find_slot `{SlotEnv} (t : table) : table * Z :=
  let cs := default [] (all_comms t) in
  let slot := RESERVED_SLOTS + first_free (drop RESERVED_SLOTS cs) in
  let t' := if max_comms t <=? slot then (ensure_capacity t (slot + 1)).1 else t in
  (t', Z.of_nat slot).

(** The calls [comm_abstract_remove] makes: the TLS session, the pathname of a
    Unix-domain listener, and each BIO once. *)
Definition removal_events `{SlotEnv} (c : comm_abstract) : list slot_event :=
  match ssl c with Some s => [EvSSLFree s] | None => [] end ++
  (if has_flag (flags c) C_SOCKET_LISTENING then
     match rbio c with
     | Some b => match unix_path b with Some p => [EvUnlink p] | None => [] end
     | None => []
     end
   else []) ++
  match rbio c with Some b => [EvBIOFree b] | None => [] end ++
  match wbio c with
  | Some b => if decide (rbio c = Some b) then [] else [EvBIOFree b]
  | None => []
  end.

(** [comm_free_outbound_buffers]: the queue, then the upgrade barrier. *)
Definition free_outbound (c : comm_abstract) (pool : list outbound_buffer)
    : list outbound_buffer :=
  free_chain (websocket_upgrade_barrier c) (free_chain (outbound c) pool).

(** [comm_abstract_remove]. *)
Definition comm_abstract_remove `{SlotEnv} (t : table) (slot : Z) : table :=
  match resolve_slot t slot with
  | None => t
  | Some c =>
      let c' := mk_comm None None None [] [] [] None (generation c) 0 (caps c) in
      let t' := put_slot t slot c' in
      {| all_comms := all_comms t'; max_comms := max_comms t';
         in_pool := free_inbound_chain (inbound c) (in_pool t);
         out_pool := free_outbound c (out_pool t);
         events := events t ++ removal_events c |}
  end.

(** [++generation], skipping 0 when the counter wraps. *)
Definition next_generation (g : Z) : Z :=
  let g1 := u64 (g + 1) in if (g1 =? 0)%Z then u64 (g1 + 1) else g1.

(** The slot [comm_abstract_add_bio] assigns: the requested one, cleared when it
    is in use, or the first free one when the request is out of range. *)
Definition prepare_slot `{SlotEnv} (t : table) (slot : Z) : table * Z :=
  if ((slot <? 0) || (Z.of_nat (max_comms t) <=? slot))%Z then find_slot t
  else match resolve_slot t slot with
       | Some _ => (comm_abstract_remove t slot, slot)
       | None => (t, slot)
       end.

(** [comm_abstract_add_bio]; [None] is -1. *)
Definition comm_abstract_add_bio `{SlotEnv} (t : table) (r w : option nat) (slot : Z) (fl : Z)
    : table * option Z :=
  if bool_decide (r = None) && bool_decide (w = None) then (t, None)
  else
    let '(t1, ok) := ensure_capacity t 2 in
    if negb ok then (t1, None)
    else
      let '(t2, slot') := prepare_slot t1 slot in
      match slot_ptr t2 slot' with
      | None => (t2, None)
      | Some c =>
          let c' := mk_comm r w (ssl c) (inbound c) (outbound c) (websocket_upgrade_barrier c)
                      (websocket c) (next_generation (generation c)) fl (caps c) in
          (put_slot t2 slot' c', Some slot')
      end.

(** [comm_abstract_generation], [comm_get_flags] and the other accessors. *)
Definition comm_abstract_generation (t : table) (slot : Z) : Z :=
  match resolve_slot t slot with Some c => generation c | None => 0%Z end.
Definition comm_get_flags (t : table) (slot : Z) : Z :=
  match resolve_slot t slot with Some c => flags c | None => 0%Z end.
Definition comm_abstract_has_rbio (t : table) (slot : Z) : bool :=
  match resolve_slot t slot with Some c => bool_decide (is_Some (rbio c)) | None => false end.
Definition comm_abstract_has_wbio (t : table) (slot : Z) : bool :=
  match resolve_slot t slot with Some c => bool_decide (is_Some (wbio c)) | None => false end.

Fixpoint remove_from `{SlotEnv} (n : nat) (i : nat) (t : table) : table :=
  match n with
  | 0 => t
  | S k => remove_from k (S i) (comm_abstract_remove t (Z.of_nat i))
  end.

(** [comm_abstract_remove_all]; removal does not change [max_slot_count()]. *)
Definition comm_abstract_remove_all `{SlotEnv} (t : table) : table :=
  match all_comms t with
  | None => t
  | Some _ => with_comms (remove_from (max_comms t) 0 t) None 0
  end.

(** ** Invariant *)

(** A free slot holds nothing of the connection before it (its telnet
    capabilities apart); a used one has been given a generation. *)
Record slot_ok (c : comm_abstract) : Prop := {
  so_generation : (0 ≤ generation c < 2 ^ 64)%Z;
  so_used : in_use c = true → (1 ≤ generation c)%Z;
  so_free : in_use c = false →
    ssl c = None ∧ inbound c = [] ∧ outbound c = [] ∧ websocket_upgrade_barrier c = []
    ∧ websocket c = None ∧ flags c = 0%Z }.

Definition table_ok (t : table) : Prop :=
  match all_comms t with
  | None => True
  | Some cs => length cs = max_comms t ∧ 64 ≤ max_comms t ∧ Forall slot_ok cs
  end.

(** ** Lemmas *)

Lemma zero_comm_ok : slot_ok zero_comm.
Proof. by constructor. Qed.
#[export] Hint Resolve zero_comm_ok : mudmux.

Lemma grow_to_enough fuel n required :
  1 ≤ n → required < n + fuel → required ≤ grow_to fuel n required ∧ n ≤ grow_to fuel n required.
Proof.
  revert n. induction fuel as [|f IH]; intros n Hn Hf; cbn [grow_to]; [lia|].
  destruct (n <? required) eqn:E; breflect; [|lia].
  destruct (IH (n * 2) ltac:(lia) ltac:(lia)). lia.
Qed.

Lemma slot_ptr_Some t slot c :
  slot_ptr t slot = Some c ↔
  ∃ cs, all_comms t = Some cs ∧ (0 ≤ slot < Z.of_nat (max_comms t))%Z
        ∧ cs !! Z.to_nat slot = Some c.
Proof.
  unfold slot_ptr. destruct (all_comms t) as [cs|]; [|by split; [|intros (? & ? & _)]].
  destruct ((slot <? 0) || (Z.of_nat (max_comms t) <=? slot))%Z eqn:E.
  - split; [done|]. intros (? & [= <-] & Hr & _). apply orb_true_iff in E.
    rewrite Z.ltb_lt, Z.leb_le in E. lia.
  - apply orb_false_iff in E as [E1%Z.ltb_ge E2%Z.leb_gt].
    split; [intros H; exists cs; split_and!; [done|lia|lia|done]|]. by intros (? & [= <-] & _ & ?).
Qed.

Lemma table_ok_slot t slot c : table_ok t → slot_ptr t slot = Some c → slot_ok c.
Proof.
  unfold table_ok. rewrite slot_ptr_Some. intros H (cs & Hcs & _ & Hl). rewrite Hcs in H.
  destruct H as (_ & _ & HF). by eapply Forall_lookup_1.
Qed.

Lemma slot_ptr_put t slot c slot' :
  table_ok t → is_Some (slot_ptr t slot) →
  slot_ptr (put_slot t slot c) slot' = if decide (slot' = slot) then Some c else slot_ptr t slot'.
Proof.
  intros Hok [c0 H0]. apply slot_ptr_Some in H0 as (cs & Hcs & Hr & Hl).
  unfold slot_ptr, put_slot. cbn [with_comms all_comms max_comms]. rewrite Hcs. cbn [fmap option_fmap option_map].
  destruct ((slot' <? 0) || (Z.of_nat (max_comms t) <=? slot'))%Z eqn:E.
  - rewrite decide_False; [done|]. intros ->. apply orb_true_iff in E.
    rewrite Z.ltb_lt, Z.leb_le in E. lia.
  - apply orb_false_iff in E as [E1%Z.ltb_ge E2%Z.leb_gt]. destruct (decide (slot' = slot)) as [->|Hne].
    + apply list_lookup_insert_eq. by eapply lookup_lt_Some.
    + apply list_lookup_insert_ne. lia.
Qed.

Lemma put_slot_ok t slot c :
  table_ok t → slot_ok c → table_ok (put_slot t slot c).
Proof.
  unfold table_ok, put_slot. cbn [with_comms all_comms max_comms]. intros H Hc.
  destruct (all_comms t) as [cs|]; [|done]. cbn [fmap option_fmap option_map].
  destruct H as (HL & Hm & HF). split_and!; [by rewrite length_insert|done|].
  by apply Forall_insert.
Qed.

Section Slots.
Context `{SlotEnv}.

(** Growing the table keeps every slot where it was. *)
Lemma ensure_capacity_spec t required t' ok :
  table_ok t → ensure_capacity t required = (t', ok) →
  table_ok t' ∧ (∀ slot c, slot_ptr t slot = Some c → slot_ptr t' slot = Some c)
  ∧ (ok = true → is_Some (all_comms t') ∧ required ≤ max_comms t')
  ∧ (∀ slot c, slot_ptr t' slot = Some c → slot_ptr t slot = None → c = zero_comm).
Proof.
  intros Hok E. unfold ensure_capacity in E. destruct (all_comms t) as [cs|] eqn:Hcs.
  - unfold table_ok in Hok. rewrite Hcs in Hok. destruct Hok as (HL & Hm & HF).
    destruct (required <=? max_comms t) eqn:El; breflect.
    { simplify_eq. split_and!; try done.
      - unfold table_ok. by rewrite Hcs.
      - intros ???. congruence. }
    destruct (grow_to_enough required (max_comms t * 2) required) as [G1 G2]; [lia..|].
    set (n := grow_to required (max_comms t * 2) required) in *.
    destruct (alloc_ok n); simplify_eq; [|split_and!; try done; [|intros ???; congruence];
      unfold table_ok; by rewrite Hcs].
    assert (HP : ∀ slot, slot_ptr (with_comms t (Some (cs ++ replicate (n - max_comms t) zero_comm)) n) slot
              = if decide (0 ≤ slot < Z.of_nat n)%Z
                then (cs ++ replicate (n - max_comms t) zero_comm) !! Z.to_nat slot else None).
    { intros slot. unfold slot_ptr. cbn [with_comms all_comms max_comms].
      destruct (_ || _)%Z eqn:E.
      - rewrite decide_False; [done|]. apply orb_true_iff in E.
        rewrite Z.ltb_lt, Z.leb_le in E. lia.
      - apply orb_false_iff in E as [E1%Z.ltb_ge E2%Z.leb_gt]. by rewrite decide_True by lia. }
    split_and!.
    + unfold table_ok. cbn [with_comms all_comms max_comms].
      rewrite length_app, length_replicate. split_and!; [lia|lia|].
      apply Forall_app. split; [done|]. apply Forall_replicate, zero_comm_ok.
    + intros slot c Hs. apply slot_ptr_Some in Hs as (cs' & Hcs' & Hr & Hl). rewrite Hcs in Hcs'.
      injection Hcs' as <-. rewrite HP, decide_True by lia. by apply lookup_app_l_Some.
    + intros _. cbn. split; [done|lia].
    + intros slot c Hs Hn. rewrite HP in Hs. destruct (decide _) as [Hr|]; [|done].
      destruct (Nat.lt_ge_cases (Z.to_nat slot) (length cs)).
      * exfalso. rewrite lookup_app_l in Hs by done.
        assert (slot_ptr t slot = Some c); [|congruence].
        apply slot_ptr_Some. exists cs. split_and!; [done|lia|lia|done].
      * rewrite lookup_app_r in Hs by done. by apply lookup_replicate in Hs as [-> _].
  - destruct (grow_to_enough required 64 required) as [G1 G2]; [lia..|].
    set (n := grow_to required 64 required) in *.
    assert (Hn : ∀ slot, slot_ptr t slot = None) by (intros slot; unfold slot_ptr; by rewrite Hcs).
    destruct (alloc_ok n); simplify_eq; [|split_and!; try done; intros ??; by rewrite Hn].
    split_and!.
    + unfold table_ok. cbn. rewrite length_replicate. split_and!; [done|lia|].
      apply Forall_replicate, zero_comm_ok.
    + intros slot c. by rewrite Hn.
    + intros _. cbn. split; [done|lia].
    + intros slot c Hs _. apply slot_ptr_Some in Hs as (cs & Hcs' & _ & Hl). cbn in Hcs'.
      injection Hcs' as <-. by apply lookup_replicate in Hl as [-> _].
Qed.

(** Removal frees the slot and touches no other. *)
Lemma remove_spec t slot :
  table_ok t →
  table_ok (comm_abstract_remove t slot)
  ∧ max_comms (comm_abstract_remove t slot) = max_comms t
  ∧ (is_Some (all_comms (comm_abstract_remove t slot)) ↔ is_Some (all_comms t))
  ∧ ∀ slot', slot_ptr (comm_abstract_remove t slot) slot'
      = if decide (slot' = slot) then
          match resolve_slot t slot with
          | Some c => Some (mk_comm None None None [] [] [] None (generation c) 0 (caps c))
          | None => slot_ptr t slot'
          end
        else slot_ptr t slot'.
Proof.
  intros Hok. unfold comm_abstract_remove.
  destruct (resolve_slot t slot) as [c|] eqn:R.
  - unfold resolve_slot in R. destruct (slot_ptr t slot) as [c0|] eqn:P; [|done].
    destruct (in_use c0); [|done]. injection R as ->.
    pose proof (table_ok_slot _ _ _ Hok P) as [G _ _].
    set (c' := mk_comm None None None [] [] [] None (generation c) 0 (caps c)).
    assert (Hc' : slot_ok c') by (by constructor).
    split_and!.
    + exact (put_slot_ok t slot c' Hok Hc').
    + done.
    + cbn. apply fmap_is_Some.
    + intros slot'. etransitivity; [exact (slot_ptr_put t slot c' slot' Hok ltac:(rewrite P; done))|].
      done.
  - split_and!; try done. intros slot'. by destruct (decide (slot' = slot)).
Qed.

(** The first free slot after the reserved ones. *)
Lemma first_free_spec cs :
  first_free cs ≤ length cs
  ∧ (first_free cs < length cs → ∃ c, cs !! first_free cs = Some c ∧ in_use c = false).
Proof.
  induction cs as [|c rest [IH1 IH2]]; cbn [first_free length]; [split; lia|].
  destruct (in_use c) eqn:E.
  - split; [lia|]. intros Hlt. destruct IH2 as (d & Hd & Hu); [lia|]. eauto.
  - split; [lia|]. eauto.
Qed.

Lemma find_slot_spec t t' slot :
  table_ok t → is_Some (all_comms t) → find_slot t = (t', slot) →
  table_ok t' ∧ (Z.of_nat RESERVED_SLOTS ≤ slot)%Z
  ∧ (∀ s c, slot_ptr t s = Some c → slot_ptr t' s = Some c)
  ∧ (∀ s c, slot_ptr t' s = Some c → slot_ptr t s = None → c = zero_comm)
  ∧ resolve_slot t' slot = None.
Proof.
  intros Hok [cs Hcs] E. unfold find_slot in E. rewrite Hcs in E. cbn [default from_option id] in E.
  pose proof (first_free_spec (drop RESERVED_SLOTS cs)) as [F1 F2].
  rewrite length_drop in F1, F2. set (k := first_free (drop RESERVED_SLOTS cs)) in *.
  pose proof Hok as Hok'. unfold table_ok in Hok'. rewrite Hcs in Hok'.
  destruct Hok' as (HL & Hm & _). unfold RESERVED_SLOTS in *.
  destruct (max_comms t <=? 1 + k) eqn:G; breflect; simplify_eq.
  - destruct (ensure_capacity t (1 + k + 1)) as [t1 ok] eqn:EC.
    destruct (ensure_capacity_spec _ _ _ _ Hok EC) as (O1 & O2 & _ & O4). cbn [fst].
    split_and!; [done|lia|done|done|].
    unfold resolve_slot. destruct (slot_ptr t1 _) as [c|] eqn:P; [|done].
    destruct (slot_ptr t (Z.of_nat (1 + k))) as [d|] eqn:P0.
    + apply slot_ptr_Some in P0 as (? & _ & Hr & _). lia.
    + by rewrite (O4 _ _ P P0).
  - split_and!; [done|lia|done|intros; congruence|].
    destruct F2 as (c & Hc & Hu); [lia|]. rewrite lookup_drop in Hc.
    unfold resolve_slot. destruct (slot_ptr t' _) as [d|] eqn:P; [|done].
    apply slot_ptr_Some in P as (cs' & Hcs' & _ & Hd). rewrite Hcs in Hcs'. injection Hcs' as <-.
    rewrite Nat2Z.id in Hd. rewrite Hc in Hd. injection Hd as ->. by rewrite Hu.
Qed.

Lemma next_generation_range g :
  (0 ≤ g < 2 ^ 64)%Z → (1 ≤ next_generation g < 2 ^ 64)%Z.
Proof.
  intros Hg. unfold next_generation, u64. cbn zeta.
  pose proof (Z.mod_pos_bound (g + 1) (2 ^ 64) ltac:(lia)).
  destruct ((g + 1) mod 2 ^ 64 =? 0)%Z eqn:E; breflect; [rewrite E; vm_compute; split; congruence|lia].
Qed.

(** How the tables before and after an operation relate, slot [s] apart. *)
Definition others_kept (t t' : table) (s : Z) : Prop :=
  ∀ s' d, s' ≠ s → slot_ptr t s' = Some d → slot_ptr t' s' = Some d.

Lemma prepare_slot_spec t slot t' s :
  table_ok t → is_Some (all_comms t) → prepare_slot t slot = (t', s) →
  table_ok t' ∧ others_kept t t' s
  ∧ (∀ c, slot_ptr t' s = Some c → in_use c = false)
  ∧ (∀ c d, slot_ptr t' s = Some c → slot_ptr t s = Some d →
       generation c = generation d ∧ caps c = caps d)
  ∧ (∀ c, slot_ptr t' s = Some c → slot_ptr t s = None → c = zero_comm)
  ∧ (s = slot ∨ (Z.of_nat RESERVED_SLOTS ≤ s)%Z ∧ resolve_slot t s = None).
Proof.
  intros Hok Hsome E. unfold prepare_slot in E.
  destruct ((slot <? 0) || (Z.of_nat (max_comms t) <=? slot))%Z.
  - destruct (find_slot_spec _ _ _ Hok Hsome E) as (P1 & P2 & P3 & P4 & P5).
    assert (Hu : ∀ c, slot_ptr t' s = Some c → in_use c = false).
    { intros c P. unfold resolve_slot in P5. rewrite P in P5. by destruct (in_use c). }
    split_and!; try done.
    + intros s' d _ Hd. by apply P3.
    + intros c d Hc Hd. apply P3 in Hd. by simplify_eq.
    + intros c Hc Hn. by apply (P4 s).
    + right. split; [done|]. unfold resolve_slot. destruct (slot_ptr t s) as [d|] eqn:D; [|done].
      apply P3 in D. by rewrite (Hu d D).
  - destruct (resolve_slot t slot) as [c1|] eqn:R; simplify_eq.
    + destruct (remove_spec t s Hok) as (Q1 & _ & _ & Q4).
      assert (Q4s := Q4 s). rewrite decide_True, R in Q4s by done.
      unfold resolve_slot in R. destruct (slot_ptr t s) as [d1|] eqn:D1; [|done].
      destruct (in_use d1); [|done]. injection R as ->. rewrite Q4s.
      split_and!; try done; [| |intros c d; by intros [= <-] [= <-]|by left].
      * intros s' d Hne Hd. by rewrite Q4, decide_False.
      * by intros c [= <-].
    + split_and!; try done; [| |intros c d ? ?; by simplify_eq|intros ? ? ?; congruence|by left].
      * by intros s' d _ Hd.
      * intros c P. unfold resolve_slot in R. rewrite P in R. by destruct (in_use c).
Qed.

Lemma add_bio_inv t r w slot fl t' s :
  table_ok t → comm_abstract_add_bio t r w slot fl = (t', Some s) →
  ∃ t2 c,
    table_ok t2 ∧ slot_ptr t2 s = Some c ∧ in_use c = false ∧ (r ≠ None ∨ w ≠ None)
    ∧ t' = put_slot t2 s (mk_comm r w (ssl c) (inbound c) (outbound c)
             (websocket_upgrade_barrier c) (websocket c) (next_generation (generation c)) fl (caps c))
    ∧ others_kept t t2 s
    ∧ (∀ d, slot_ptr t s = Some d → generation c = generation d ∧ caps c = caps d)
    ∧ (slot_ptr t s = None → generation c = 0%Z ∧ caps c = no_capabilities)
    ∧ (s = slot ∨ (Z.of_nat RESERVED_SLOTS ≤ s)%Z ∧ resolve_slot t s = None).
Proof.
  intros Hok E. unfold comm_abstract_add_bio in E.
  destruct (bool_decide (r = None) && bool_decide (w = None)) eqn:Hrw; [done|].
  rewrite andb_false_iff, !bool_decide_eq_false in Hrw.
  destruct (ensure_capacity t 2) as [t1 ok] eqn:EC.
  destruct (ensure_capacity_spec _ _ _ _ Hok EC) as (O1 & O2 & O3 & O4).
  destruct ok; [|done]. destruct (O3 eq_refl) as [Hsome _]. cbn [negb] in E.
  destruct (prepare_slot t1 slot) as [t2 s2] eqn:PS.
  destruct (prepare_slot_spec _ _ _ _ O1 Hsome PS) as (P1 & P2 & P3 & P4 & P5 & P6).
  destruct (slot_ptr t2 s2) as [c|] eqn:P; [|done]. simplify_eq.
  exists t2, c. split_and!; try done.
  - by apply P3.
  - intros s' d Hne Hd. apply P2; [done|]. by apply O2.
  - intros d Hd. apply (P4 c d); [done|]. by apply O2.
  - intros Hn. destruct (slot_ptr t1 s) as [d|] eqn:D; [|by rewrite (P5 c)].
    destruct (P4 c d) as [-> ->]; [done..|]. by rewrite (O4 s d D Hn).
  - destruct P6 as [->|[P6 P7]]; [by left|]. right. split; [done|].
    unfold resolve_slot in *. destruct (slot_ptr t s) as [d|] eqn:D; [|done].
    by rewrite (O2 _ _ D) in P7.
Qed.

Lemma assigned_ok c r w fl :
  slot_ok c → r ≠ None ∨ w ≠ None →
  let c' := mk_comm r w (ssl c) (inbound c) (outbound c) (websocket_upgrade_barrier c)
              (websocket c) (next_generation (generation c)) fl (caps c) in
  slot_ok c' ∧ in_use c' = true.
Proof.
  intros [Hg _ _] Hrw c'. pose proof (next_generation_range _ Hg) as Hn.
  assert (Hu : in_use c' = true).
  { unfold in_use. cbn. destruct r, w; try done. by destruct Hrw. }
  split; [|done]. constructor; [unfold c'; cbn [generation]; lia..|congruence].
Qed.

(** ** Properties *)

(** Assigning a connection to a slot: the slot then holds exactly the given
    transports and flags with empty queues, no TLS session, no WebSocket state
    and a nonzero generation; no other slot changes; an out-of-range request
    gets a free slot outside the reserved ones; and the table invariant is
    kept. *)
Theorem add_bio_fresh t r w slot fl t' s :
  table_ok t → comm_abstract_add_bio t r w slot fl = (t', Some s) →
  table_ok t'
  ∧ (∃ c, resolve_slot t' s = Some c ∧ rbio c = r ∧ wbio c = w ∧ flags c = fl
       ∧ ssl c = None ∧ inbound c = [] ∧ outbound c = [] ∧ websocket_upgrade_barrier c = []
       ∧ websocket c = None ∧ (1 ≤ generation c < 2 ^ 64)%Z)
  ∧ others_kept t t' s
  ∧ (s = slot ∨ (Z.of_nat RESERVED_SLOTS ≤ s)%Z ∧ resolve_slot t s = None).
Proof.
  intros Hok E. destruct (add_bio_inv _ _ _ _ _ _ _ Hok E)
    as (t2 & c & O2 & P & U & Hrw & -> & K & G & Z0 & Hs).
  pose proof (table_ok_slot _ _ _ O2 P) as [Hg _ Hf]. destruct (Hf U) as (F1 & F2 & F3 & F4 & F5 & _).
  pose proof (next_generation_range _ Hg) as Hn.
  destruct (assigned_ok c r w fl (table_ok_slot _ _ _ O2 P) Hrw) as [Hc' Hu].
  set (c' := mk_comm r w _ _ _ _ _ _ _ _) in *.
  split_and!; [by apply put_slot_ok| | |done].
  - exists c'. unfold resolve_slot. rewrite slot_ptr_put by (done || by rewrite P).
    rewrite decide_True, Hu by done. cbn. split_and!; done || lia.
  - intros s' d Hne Hd. rewrite slot_ptr_put by (done || by rewrite P).
    rewrite decide_False by done. by apply K.
Qed.

(** *** Generations *)

Inductive slot_op :=
  | OpAdd (r w : option nat) (slot : Z) (fl : Z)
  | OpRemove (slot : Z)
  | OpRemoveAll.                        (* the end of a run *)

#[export] Instance slot_op_eq_dec : EqDecision slot_op.
Proof. solve_decision. Defined.

Definition run_op (t : table) (o : slot_op) : table * option Z :=
  match o with
  | OpAdd r w slot fl => comm_abstract_add_bio t r w slot fl
  | OpRemove slot => (comm_abstract_remove t slot, None)
  | OpRemoveAll => (comm_abstract_remove_all t, None)
  end.

(** The number of connections assigned to slot [s] by [ops], and the table after. *)
Fixpoint run_ops (s : Z) (t : table) (ops : list slot_op) : table * nat :=
  match ops with
  | [] => (t, 0)
  | o :: rest =>
      let '(t1, a) := run_op t o in
      let '(t2, n) := run_ops s t1 rest in
      (t2, (if decide (a = Some s) then 1 else 0) + n)
  end.

Lemma add_bio_failed t r w slot fl t' :
  table_ok t → comm_abstract_add_bio t r w slot fl = (t', None) →
  table_ok t' ∧ ∀ s c, slot_ptr t s = Some c → ∃ d, slot_ptr t' s = Some d ∧ generation d = generation c.
Proof.
  intros Hok E. unfold comm_abstract_add_bio in E.
  destruct (bool_decide (r = None) && bool_decide (w = None)); [simplify_eq; eauto|].
  destruct (ensure_capacity t 2) as [t1 ok] eqn:EC.
  destruct (ensure_capacity_spec _ _ _ _ Hok EC) as (O1 & O2 & O3 & O4).
  destruct ok; cbn [negb] in E; [|simplify_eq; split; eauto].
  destruct (O3 eq_refl) as [Hsome _].
  destruct (prepare_slot t1 slot) as [t2 s2] eqn:PS.
  destruct (prepare_slot_spec _ _ _ _ O1 Hsome PS) as (P1 & P2 & P3 & P4 & P5 & P6).
  destruct (slot_ptr t2 s2) as [c|] eqn:P; [done|]. simplify_eq. split; [done|].
  intros s c Hc. apply O2 in Hc. destruct (decide (s = s2)) as [->|Hne]; [|by exists c; auto].
  exfalso. unfold prepare_slot in PS.
  destruct ((slot <? 0) || (Z.of_nat (max_comms t1) <=? slot))%Z.
  - destruct (find_slot_spec _ _ _ O1 Hsome PS) as (_ & _ & F & _). apply F in Hc. congruence.
  - destruct (resolve_slot t1 slot) eqn:R; simplify_eq.
    destruct (remove_spec t1 s2 O1) as (_ & _ & _ & Q4).
    rewrite Q4, decide_True, R in P by done. done.
Qed.

Lemma run_op_generation t o s c t' a :
  table_ok t → slot_ptr t s = Some c → o ≠ OpRemoveAll → run_op t o = (t', a) →
  table_ok t' ∧ ∃ d, slot_ptr t' s = Some d
    ∧ generation d = if decide (a = Some s) then next_generation (generation c) else generation c.
Proof.
  intros Hok Hc Ho E. destruct o as [r w slot fl|slot|]; cbn [run_op] in E; [| |done].
  - destruct a as [s1|].
    + destruct (add_bio_inv _ _ _ _ _ _ _ Hok E)
        as (t2 & c2 & O2 & P & U & Hrw & -> & K & G & _ & _).
      destruct (assigned_ok c2 r w fl (table_ok_slot _ _ _ O2 P) Hrw) as [Hc' _]. split.
      * by apply put_slot_ok.
      * rewrite slot_ptr_put by (done || by rewrite P).
        destruct (decide (s = s1)) as [->|Hne].
        -- destruct (G c Hc) as [Hgc _]. eexists. split; [done|]. cbn. by rewrite decide_True, Hgc.
        -- exists c. rewrite decide_False by congruence. split; [by apply K|done].
    + destruct (add_bio_failed _ _ _ _ _ _ Hok E) as [O F]. by destruct (F s c Hc) as (d & ? & ?); eauto.
  - simplify_eq. destruct (remove_spec t slot Hok) as (Q1 & _ & _ & Q4). split; [done|].
    destruct (decide (None = Some s)); [done|]. rewrite Q4.
    destruct (decide (s = slot)) as [->|]; [|eauto].
    unfold resolve_slot. rewrite Hc. destruct (in_use c); eauto.
Qed.

(** [k] assignments of a slot. *)
Fixpoint generations (k : nat) (g : Z) : Z :=
  match k with 0 => g | S n => generations n (next_generation g) end.

Lemma run_ops_generation s ops t c t' n :
  table_ok t → slot_ptr t s = Some c → OpRemoveAll ∉ ops → run_ops s t ops = (t', n) →
  n ≤ length ops ∧ ∃ d, slot_ptr t' s = Some d ∧ generation d = generations n (generation c).
Proof.
  revert t c n. induction ops as [|o ops IH]; intros t c n Hok Hc Hr E; cbn [run_ops] in E.
  { simplify_eq. eauto. }
  apply not_elem_of_cons in Hr as [Ho Hr].
  destruct (run_op t o) as [t1 a] eqn:E1. destruct (run_ops s t1 ops) as [t2 m] eqn:E2.
  simplify_eq. destruct (run_op_generation _ _ _ _ _ _ Hok Hc (not_eq_sym Ho) E1) as (O1 & d & Hd & Hg).
  destruct (IH _ _ _ O1 Hd Hr E2) as (Hle & e & He & Hge). cbn [length].
  destruct (decide (a = Some s)); cbn [Nat.add generations]; (split; [lia|]);
    exists e; split; congruence.
Qed.
End Slots.

(** The counter cycles through the [2^64 - 1] nonzero values. *)
Lemma next_generation_cycle g :
  (1 ≤ g < 2 ^ 64)%Z → next_generation g = ((g mod (2 ^ 64 - 1)) + 1)%Z.
Proof.
  intros Hg. unfold next_generation, u64. cbn zeta.
  destruct (Z.eq_dec g (2 ^ 64 - 1)%Z) as [->|Hne]; [reflexivity|].
  rewrite (Z.mod_small (g + 1)), (Z.mod_small g) by lia.
  rewrite (proj2 (Z.eqb_neq _ _)) by lia. done.
Qed.

Lemma generations_cycle k g :
  (1 ≤ g < 2 ^ 64)%Z → generations k g = ((g - 1 + Z.of_nat k) mod (2 ^ 64 - 1) + 1)%Z.
Proof.
  revert g. induction k as [|k IH]; intros g Hg; cbn [generations].
  - rewrite Z.add_0_r, Z.mod_small by lia. lia.
  - rewrite next_generation_cycle by done.
    pose proof (Z.mod_pos_bound g (2 ^ 64 - 1)%Z ltac:(lia)).
    rewrite IH by lia. f_equal.
    replace (g mod (2 ^ 64 - 1) + 1 - 1 + Z.of_nat k)%Z
      with (g mod (2 ^ 64 - 1) + Z.of_nat k)%Z by lia.
    rewrite Zplus_mod_idemp_l. f_equal. lia.
Qed.

(** C36: a stale reference to a slot is detected while the table lives: whatever
    connections are assigned and removed, short of the removal of all of them at
    the end of a run, which frees the counters, a slot in use shows the generation
    it had for an earlier connection exactly when it has not been reassigned
    since, as long as fewer than 2^64 - 1 operations happened in between. *)
Theorem generation_not_reused `{SlotEnv} s ops t c t' n d :
  table_ok t → resolve_slot t s = Some c → run_ops s t ops = (t', n) →
  OpRemoveAll ∉ ops → (Z.of_nat (length ops) < 2 ^ 64 - 1)%Z →
  resolve_slot t' s = Some d → generation d = generation c ↔ n = 0.
Proof.
  intros Hok Hc E Hr Hlen Hd. unfold resolve_slot in Hc, Hd.
  destruct (slot_ptr t s) as [c0|] eqn:P; [|done]. destruct (in_use c0) eqn:U; [|done].
  injection Hc as ->. destruct (table_ok_slot _ _ _ Hok P) as [G1 G2 _]. specialize (G2 U).
  destruct (run_ops_generation s ops t c t' n Hok P Hr E) as (Hle & e & He & Hge).
  rewrite He in Hd. destruct (in_use e); [|done]. injection Hd as ->. rewrite Hge.
  split; [|by intros ->]. rewrite generations_cycle by lia. intros Hg.
  destruct (Z_le_gt_dec (2 ^ 64 - 1)%Z (generation c - 1 + Z.of_nat n)%Z) as [Hw|Hw].
  - replace (generation c - 1 + Z.of_nat n)%Z
      with (generation c - 1 + Z.of_nat n - (2 ^ 64 - 1) + 1 * (2 ^ 64 - 1))%Z in Hg by lia.
    rewrite Z_mod_plus_full, Z.mod_small in Hg by lia. lia.
  - rewrite Z.mod_small in Hg by lia. lia.
Qed.

(** The telnet capabilities of a connection survive it: neither removal nor
    assignment of a slot resets them, so the next connection of the slot starts
    with the capabilities negotiated by the previous one. *)
Theorem capabilities_leak `{SlotEnv} t s c r w fl t' :
  table_ok t → resolve_slot t s = Some c →
  comm_abstract_add_bio (comm_abstract_remove t s) r w s fl = (t', Some s) →
  ∃ d, resolve_slot t' s = Some d ∧ caps d = caps c ∧ generation d ≠ generation c.
Proof.
  intros Hok Hc E. destruct (remove_spec t s Hok) as (Q1 & _ & _ & Q4).
  specialize (Q4 s). rewrite decide_True, Hc in Q4 by done.
  destruct (add_bio_inv _ _ _ _ _ _ _ Q1 E) as (t2 & c2 & O2 & P & U & Hrw & -> & _ & G & _ & _).
  destruct (G _ Q4) as [G1 G2]. cbn in G1, G2.
  destruct (assigned_ok c2 r w fl (table_ok_slot _ _ _ O2 P) Hrw) as [_ Hu].
  eexists. unfold resolve_slot. rewrite slot_ptr_put by (done || by rewrite P).
  rewrite decide_True, Hu by done. split; [done|]. cbn. split; [done|].
  unfold resolve_slot in Hc. destruct (slot_ptr t s) as [c0|] eqn:P0; [|done].
  destruct (in_use c0) eqn:U0; [|done]. injection Hc as ->.
  destruct (table_ok_slot _ _ _ Hok P0) as [Hg1 Hg2 _]. specialize (Hg2 U0).
  rewrite G1, next_generation_cycle by lia. intros Heq.
  pose proof (Z.mod_pos_bound (generation c) (2 ^ 64 - 1)%Z ltac:(lia)).
  destruct (Z.eq_dec (generation c) (2 ^ 64 - 1)%Z) as [He|Hne].
  - rewrite He, Z_mod_same_full in Heq. lia.
  - rewrite Z.mod_small in Heq by lia. lia.
Qed.

(** *** Witnesses *)

Definition sample_env : SlotEnv := {| alloc_ok := fun _ => true; unix_path := fun _ => None |}.

(** One connection, whose client has announced LINEMODE. *)
Definition sample_table : table :=
  with_comms empty_table
    (Some (<[1 := mk_comm (Some 5) (Some 5) None [] [] [] None 3 0
              {| telnet_linemode := true; telnet_naws := false; telnet_ttype := false;
                 telnet_tspeed := false; telnet_new_environ := false; telnet_echo := false |}]>
             (replicate 64 zero_comm))) 64.

Lemma sample_table_ok : table_ok sample_table.
Proof.
  split; [reflexivity|]. split; [cbn; lia|]. apply Forall_insert.
  - apply Forall_replicate, zero_comm_ok.
  - constructor; cbn; [lia|lia|done].
Qed.

Lemma add_bio_fresh_witness :
  ∃ t', @comm_abstract_add_bio sample_env sample_table (Some 6) (Some 6) (-1) 0 = (t', Some 2%Z)
    ∧ table_ok t'.
Proof.
  assert (∃ t', @comm_abstract_add_bio sample_env sample_table (Some 6) (Some 6) (-1) 0
                = (t', Some 2%Z)) as [t' E] by (eexists; vm_compute; reflexivity).
  exists t'. split; [exact E|].
  exact (proj1 (@add_bio_fresh sample_env _ _ _ _ _ _ _ sample_table_ok E)).
Defined.

Lemma generation_not_reused_witness :
  let ops := [OpAdd (Some 7) None 2 0; OpRemove 1; OpAdd (Some 8) None 1 0] in
  ∃ t' c d, @run_ops sample_env 1 sample_table ops = (t', 1) ∧ resolve_slot sample_table 1 = Some c
    ∧ resolve_slot t' 1 = Some d ∧ generation d ≠ generation c.
Proof.
  intros ops.
  assert (∃ t', @run_ops sample_env 1 sample_table ops = (t', 1)) as [t' E] by (eexists; vm_compute; reflexivity).
  assert (∃ c, resolve_slot sample_table 1 = Some c) as (c & C) by (eexists; vm_compute; reflexivity).
  assert (∃ d, resolve_slot t' 1 = Some d) as (d & D).
  { vm_compute in E. injection E as <-. eexists. vm_compute. reflexivity. }
  exists t', c, d. split; [exact E|]. split; [exact C|]. split; [exact D|]. intros Hg.
  assert (Hn : OpRemoveAll ∉ ops) by (by apply (bool_decide_unpack _)).
  apply (@generation_not_reused sample_env 1 ops sample_table c t' 1 d sample_table_ok C E Hn) in Hg;
    [discriminate|cbn; lia|exact D].
Defined.

(** The end of a run restarts the counters: a generation recorded before it names
    another connection in a later run. *)
Theorem generation_restarts :
  ∃ t' c d, @run_ops sample_env 1 (with_comms empty_table (Some (replicate 64 zero_comm)) 64)
      [OpAdd (Some 7) None 1 0; OpRemoveAll; OpAdd (Some 8) None 1 0] = (t', 2)
    ∧ resolve_slot (@comm_abstract_add_bio sample_env (with_comms empty_table (Some (replicate 64 zero_comm)) 64)
                      (Some 7) None 1 0).1 1 = Some c
    ∧ resolve_slot t' 1 = Some d ∧ generation d = generation c ∧ rbio d ≠ rbio c.
Proof. eexists _, _, _. split; [vm_compute; reflexivity|]. split_and!; [vm_compute; reflexivity..|done]. Qed.

Lemma capabilities_leak_witness :
  ∃ t' d,
    @comm_abstract_add_bio sample_env (@comm_abstract_remove sample_env sample_table 1)
      (Some 9) (Some 9) 1 0 = (t', Some 1%Z)
    ∧ resolve_slot t' 1 = Some d ∧ telnet_linemode (caps d) = true.
Proof.
  assert (∃ t', @comm_abstract_add_bio sample_env (@comm_abstract_remove sample_env sample_table 1)
                  (Some 9) (Some 9) 1 0 = (t', Some 1%Z)) as [t' E]
    by (eexists; vm_compute; reflexivity).
  assert (R : ∃ c, resolve_slot sample_table 1 = Some c ∧ telnet_linemode (caps c) = true)
    by (eexists; split; [vm_compute; reflexivity|reflexivity]).
  destruct R as (c & R & L).
  destruct (@capabilities_leak sample_env sample_table 1 c _ _ _ t' sample_table_ok R E)
    as (d & D & Hc & _).
  exists t', d. split; [exact E|]. split; [exact D|]. rewrite Hc. exact L.
Defined.
