(* ===== verification/WsConn.v ===== *)
(** * Connections: queued output, telnet replies and WebSocket messages
      (lib/comm/outbound.cpp, lib/comm/telnet.cpp, lib/comm/websocket.cpp)

    The operations on one live slot that do not call hooks: the write path with
    its telnet, upgrade-barrier and framing branches, the telnet senders and
    the option handling, and the WebSocket message assembler.  A connection is
    the slot record with the pool its output buffers come from. *)

From S2P Require Import Prelude InBuf OutBuf Abstract Utf8 WsFrame Telnet.

(** ** Record updates *)

Record conn := { cn : comm_abstract; cn_pool : list outbound_buffer }.

Definition set_flags (c : comm_abstract) (f : Z) : comm_abstract :=
  mk_comm (rbio c) (wbio c) (ssl c) (inbound c) (outbound c) (websocket_upgrade_barrier c)
    (websocket c) (generation c) f (caps c).
Definition set_outbound (c : comm_abstract) (o : list outbound_buffer) : comm_abstract :=
  mk_comm (rbio c) (wbio c) (ssl c) (inbound c) o (websocket_upgrade_barrier c)
    (websocket c) (generation c) (flags c) (caps c).
Definition set_barrier (c : comm_abstract) (b : list outbound_buffer) : comm_abstract :=
  mk_comm (rbio c) (wbio c) (ssl c) (inbound c) (outbound c) b
    (websocket c) (generation c) (flags c) (caps c).
Definition set_websocket (c : comm_abstract) (w : option websocket_state) : comm_abstract :=
  mk_comm (rbio c) (wbio c) (ssl c) (inbound c) (outbound c) (websocket_upgrade_barrier c)
    w (generation c) (flags c) (caps c).
Definition set_caps (c : comm_abstract) (k : client_capabilities) : comm_abstract :=
  mk_comm (rbio c) (wbio c) (ssl c) (inbound c) (outbound c) (websocket_upgrade_barrier c)
    (websocket c) (generation c) (flags c) k.

Definition on_comm (f : comm_abstract → comm_abstract) (x : conn) : conn :=
  {| cn := f (cn x); cn_pool := cn_pool x |}.
Definition on_flags (f : Z → Z) : conn → conn := on_comm (fun c => set_flags c (f (flags c))).

(** Whether the transport can be watched for writability: the BIO has a socket,
    a runtime is current and [async_runtime_modify] succeeds. *)
Class WriteEnv := arm_write : comm_abstract → bool.

Section Connection.
Context `{WriteEnv}.

(** ** The write path (outbound.cpp) *)

Definition comm_buffered_write_raw_comm (x : conn) (buf : list Z) : conn :=
  if bool_decide (wbio (cn x) = None) || (length buf =? 0) then x
  else if kBufferSize * MAX_OUTBOUND_BUFFERS_PER_SLOT <? length buf then x
  else
    let '(chain, pool, queued) := raw_append (outbound (cn x)) (cn_pool x) buf in
    let x1 := {| cn := set_outbound (cn x) chain; cn_pool := pool |} in
    if negb queued then x1
    else
      let x2 := on_flags (fun f => set_flag f C_BUFFERED_WRITE) x1 in
      if negb (has_flag (flags (cn x2)) C_SOCKET_WRITABLE) && arm_write (cn x2)
      then on_flags (fun f => set_flag f C_SOCKET_WRITABLE) x2
      else x2.

Definition append_websocket_upgrade_barrier (x : conn) (data : list Z) : conn :=
  let '(b, pool, _) := barrier_append (websocket_upgrade_barrier (cn x)) (cn_pool x) data in
  {| cn := set_barrier (cn x) b; cn_pool := pool |}.

Definition comm_buffered_write_comm_impl (x : conn) (buf : list Z) (normalize : bool) : conn :=
  if length buf =? 0 then x
  else
    let f := flags (cn x) in
    let data := if normalize && has_flag f C_ENABLE_TELNET
                then normalize_telnet_newlines buf else buf in
    if C_WEBSOCKET_IS_READY f && (C_WEBSOCKET_STATE f =? WS_CLOSE_SENT)%Z then x
    else if has_flag f C_ENABLE_WEBSOCKET && negb (C_WEBSOCKET_IS_READY f) then
      match comm_websocket_encode_frame data 0x2 with
      | Some frame => append_websocket_upgrade_barrier x frame
      | None => x
      end
    else if C_WEBSOCKET_IS_READY f then
      match comm_websocket_encode_frame data 0x2 with
      | Some frame => comm_buffered_write_raw_comm x frame
      | None => x
      end
    else comm_buffered_write_raw_comm x data.

Definition comm_buffered_write_comm (x : conn) (buf : list Z) : conn :=
  comm_buffered_write_comm_impl x buf true.
Definition comm_buffered_write_comm_no_telnet_normalize (x : conn) (buf : list Z) : conn :=
  comm_buffered_write_comm_impl x buf false.

(** ** Telnet senders and options (telnet.cpp) *)

Definition TELOPT_ECHO : Z := 1.
Definition TELOPT_SGA : Z := 3.
Definition TELOPT_LINEMODE : Z := 34.

(** [IAC verb option], the bodies of [comm_telnet_send_will] and the others. *)
Definition telnet_send (verb : Z) (x : conn) (option : Z) : conn :=
  if bool_decide (wbio (cn x) = None) then x
  else comm_buffered_write_comm_no_telnet_normalize x [255; verb; u8 option]%Z.
Definition comm_telnet_send_will := telnet_send 251.
Definition comm_telnet_send_wont := telnet_send 252.
Definition comm_telnet_send_do := telnet_send 253.
Definition comm_telnet_send_dont := telnet_send 254.

Definition comm_telnet_send_subnegotiation (x : conn) (option : Z) (data : list Z) : conn :=
  if bool_decide (wbio (cn x) = None) || (length data =? 0) then x
  else
    let x1 := comm_buffered_write_comm_no_telnet_normalize x [255; 250; u8 option]%Z in
    let x2 := comm_buffered_write_comm_no_telnet_normalize x1 data in
    comm_buffered_write_comm_no_telnet_normalize x2 [255; 240]%Z.

Definition start_telnet_negotiation (x : conn) : conn :=
  match ssl (cn x) with
  | Some _ => x
  | None =>
      let x := comm_telnet_send_will x TELOPT_SGA in
      let x := comm_telnet_send_do x TELOPT_SGA in
      let x := comm_telnet_send_wont x TELOPT_ECHO in
      comm_telnet_send_do x TELOPT_LINEMODE
  end.

Definition comm_enable_telnet_for_slot (x : conn) : conn :=
  let f := flags (cn x) in
  if has_flag f C_ENABLE_WEBSOCKET && negb (C_WEBSOCKET_IS_READY f) then x
  else if has_flag f C_ENABLE_TELNET then x
  else
    let x := on_flags (fun f => set_flag f C_ENABLE_TELNET) x in
    if (C_WEBSOCKET_STATE (flags (cn x)) =? WS_TELNET_PENDING)%Z then x
    else start_telnet_negotiation x.

Definition comm_start_telnet_negotiation (x : conn) : conn :=
  if has_flag (flags (cn x)) C_ENABLE_TELNET then start_telnet_negotiation x else x.

Definition set_linemode (k : client_capabilities) (b : bool) : client_capabilities :=
  {| telnet_linemode := b; telnet_naws := telnet_naws k; telnet_ttype := telnet_ttype k;
     telnet_tspeed := telnet_tspeed k; telnet_new_environ := telnet_new_environ k;
     telnet_echo := telnet_echo k |}.
Definition set_echo (k : client_capabilities) (b : bool) : client_capabilities :=
  {| telnet_linemode := telnet_linemode k; telnet_naws := telnet_naws k;
     telnet_ttype := telnet_ttype k; telnet_tspeed := telnet_tspeed k;
     telnet_new_environ := telnet_new_environ k; telnet_echo := b |}.

Definition comm_process_telnet_options (x : conn) (n : comm_telnet_negotiation) : conn :=
  let x1 :=
    if test_option (will_ n) TELOPT_LINEMODE then
      let x := on_comm (fun c => set_caps c (set_linemode (caps c) true)) x in
      if has_flag (flags (cn x)) C_LINE_INPUT
      then comm_telnet_send_subnegotiation x TELOPT_LINEMODE [1; 1]%Z
      else x
    else if test_option (wont_ n) TELOPT_LINEMODE
    then on_comm (fun c => set_caps c (set_linemode (caps c) false)) x
    else x in
  if test_option (do_ n) TELOPT_ECHO
  then on_comm (fun c => set_caps c (set_echo (caps c) true)) x1
  else if test_option (dont_ n) TELOPT_ECHO
  then on_comm (fun c => set_caps c (set_echo (caps c) false)) x1
  else x1.

(** ** WebSocket (websocket.cpp) *)

Definition new_websocket : websocket_state :=
  {| fragmented_opcode := 0; fragmented_payload := []; preferred_protocols := [];
     pending_wire := []; decoded_input := [] |}.

Definition comm_websocket_has_pending_input (x : conn) : bool :=
  match websocket (cn x) with
  | None => false
  | Some w => negb (fragmented_opcode w =? 0)%Z || negb (length (fragmented_payload w) =? 0)
              || negb (length (pending_wire w) =? 0) || negb (length (decoded_input w) =? 0)
  end.

Definition comm_enable_websocket_for_slot (x : conn) (protocols : list Z) : conn * bool :=
  match rbio (cn x), wbio (cn x) with
  | Some _, Some _ =>
      if has_flag (flags (cn x)) C_ENABLE_TELNET then (x, false)
      else
        let w := default new_websocket (websocket (cn x)) in
        let w' := {| fragmented_opcode := fragmented_opcode w;
                     fragmented_payload := fragmented_payload w;
                     preferred_protocols := protocols;
                     pending_wire := pending_wire w; decoded_input := decoded_input w |} in
        (on_flags (fun f => set_flag f C_ENABLE_WEBSOCKET)
           (on_comm (fun c => set_websocket c (Some w')) x), true)
  | _, _ => (x, false)
  end.

Definition comm_websocket_queue_close (x : conn) (payload : list Z) : conn * bool :=
  let s := C_WEBSOCKET_STATE (flags (cn x)) in
  if (s =? WS_CLOSE_SENT)%Z || (s =? WS_CLOSE_RECEIVED)%Z then (x, true)
  else
    match comm_websocket_encode_frame payload 0x8 with
    | None => (x, false)
    | Some frame =>
        (on_flags (fun f => C_WEBSOCKET_SET_STATE f WS_CLOSE_SENT)
           (comm_buffered_write_raw_comm x frame), true)
    end.

(** What [comm_websocket_process_inbound] reports: [true] with the bytes
    consumed and the messages, or [false] with a close code. *)
Inductive ws_result :=
  | WsOk (consumed : nat) (messages : list (list Z))
  | WsFail (close_code : Z).

(** One decoded frame: continue, a complete message, or failure. *)
Inductive frame_outcome := FContinue | FMessage (m : list Z) | FFail (close_code : Z).

Definition set_fragment (x : conn) (w : websocket_state) (op : Z) (payload : list Z) : conn :=
  on_comm (fun c => set_websocket c (Some
    {| fragmented_opcode := op; fragmented_payload := payload;
       preferred_protocols := preferred_protocols w; pending_wire := pending_wire w;
       decoded_input := decoded_input w |})) x.

Definition handle_frame (x : conn) (fin : bool) (opcode : Z) (payload : list Z)
    : conn * frame_outcome :=
  let w := default new_websocket (websocket (cn x)) in
  if (opcode =? 8)%Z then
    if length payload =? 1 then (x, FFail 1002)
    else
      let x1 := (comm_websocket_queue_close x payload).1 in
      (on_flags (fun f => C_WEBSOCKET_SET_STATE f WS_CLOSE_RECEIVED) x1, FFail 0)
  else if (opcode =? 9)%Z then
    match comm_websocket_encode_frame payload 0xA with
    | Some pong => (comm_buffered_write_raw_comm x pong, FContinue)
    | None => (x, FContinue)
    end
  else if (opcode =? 10)%Z then (x, FContinue)
  else if (opcode =? 0)%Z then
    if (fragmented_opcode w =? 0)%Z then (x, FFail 1002)
    else
      let whole := fragmented_payload w ++ payload in
      let x1 := set_fragment x w (fragmented_opcode w) whole in
      if (kMaxMessageBytes <? Z.of_nat (length whole))%Z then (x1, FFail 1009)
      else if fin then
        if (fragmented_opcode w =? 1)%Z && negb (is_valid_utf8 whole) then (x1, FFail 1007)
        else (set_fragment x w 0 [], FMessage whole)
      else (x1, FContinue)
  else if (opcode =? 1)%Z || (opcode =? 2)%Z then
    if negb (fragmented_opcode w =? 0)%Z then (x, FFail 1002)
    else if fin then
      if (opcode =? 1)%Z && negb (is_valid_utf8 payload) then (x, FFail 1007)
      else (x, FMessage payload)
    else (set_fragment x w opcode payload, FContinue)
  else (x, FContinue).

(** The loop from [offset]; every frame has at least 6 bytes, so the length of
    the data bounds its turns. *)
Fixpoint ws_loop (fuel : nat) (x : conn) (wire : list Z) (offset : nat)
    (messages : list (list Z)) (max_messages : nat) : conn * ws_result :=
  match fuel with
  | 0 => (x, WsOk offset messages)
  | S f =>
      match decode_frame (drop offset wire) with
      | NeedMore => (x, WsOk offset messages)
      | BadFrame code => (x, WsFail code)
      | Frame fin opcode payload frame_size =>
          let offset' := offset + frame_size in
          match handle_frame x fin opcode payload with
          | (x', FFail code) => (x', WsFail code)
          | (x', FContinue) => ws_loop f x' wire offset' messages max_messages
          | (x', FMessage m) =>
              let messages' := messages ++ [m] in
              if max_messages <=? length messages' then (x', WsOk offset' messages')
              else ws_loop f x' wire offset' messages' max_messages
          end
      end
  end.

Definition comm_websocket_process_inbound (x : conn) (wire : list Z) (max_messages : nat)
    : conn * ws_result :=
  let x := on_comm (fun c => set_websocket c (Some (default new_websocket (websocket c)))) x in
  ws_loop (S (length wire)) x wire 0 [] max_messages.

End Connection.

(** ** Lemmas *)

(** Setting or clearing other bits does not change the WebSocket state. *)
Lemma ws_state_set_flag f bits :
  Z.land bits M_WEBSOCKET_STATE = 0%Z →
  C_WEBSOCKET_STATE (set_flag f bits) = C_WEBSOCKET_STATE f.
Proof.
  intros H. unfold C_WEBSOCKET_STATE, set_flag. by rewrite Z.land_lor_distr_l, H, Z.lor_0_r.
Qed.

Lemma ws_state_set_state f s :
  C_WEBSOCKET_STATE (C_WEBSOCKET_SET_STATE f s) = Z.land s M_WEBSOCKET_STATE.
Proof.
  unfold C_WEBSOCKET_STATE, C_WEBSOCKET_SET_STATE. rewrite Z.land_lor_distr_l.
  assert (Z.land (Z.ldiff f M_WEBSOCKET_STATE) M_WEBSOCKET_STATE = 0%Z) as ->.
  { apply Z.bits_inj'. intros n Hn. rewrite Z.land_spec, Z.ldiff_spec, Z.bits_0.
    destruct (Z.testbit f n), (Z.testbit M_WEBSOCKET_STATE n); done. }
  rewrite Z.lor_0_l, <- Z.land_assoc, Z.land_diag. done.
Qed.

Lemma has_flag_set_other f a b : Z.land a b = 0%Z → has_flag (set_flag f a) b = has_flag f b.
Proof.
  intros E. unfold has_flag, set_flag. by rewrite Z.land_lor_distr_l, E, Z.lor_0_r.
Qed.

Lemma has_flag_set_state f s b :
  Z.land M_WEBSOCKET_STATE b = 0%Z → has_flag (C_WEBSOCKET_SET_STATE f s) b = has_flag f b.
Proof.
  intros E. unfold has_flag, C_WEBSOCKET_SET_STATE. do 2 f_equal.
  apply Z.bits_inj'. intros n Hn. rewrite !Z.land_spec, Z.lor_spec, Z.ldiff_spec, Z.land_spec.
  apply (f_equal (fun z => Z.testbit z n)) in E. rewrite Z.land_spec, Z.bits_0 in E.
  destruct (Z.testbit f n), (Z.testbit s n), (Z.testbit M_WEBSOCKET_STATE n), (Z.testbit b n);
    try done.
Qed.

Section ConnLemmas.
Context `{WriteEnv}.

(** A raw write touches the output queue and two flags only. *)
Lemma write_raw_frame x buf :
  let y := comm_buffered_write_raw_comm x buf in
  rbio (cn y) = rbio (cn x) ∧ wbio (cn y) = wbio (cn x) ∧ ssl (cn y) = ssl (cn x)
  ∧ inbound (cn y) = inbound (cn x)
  ∧ websocket_upgrade_barrier (cn y) = websocket_upgrade_barrier (cn x)
  ∧ websocket (cn y) = websocket (cn x) ∧ generation (cn y) = generation (cn x)
  ∧ caps (cn y) = caps (cn x)
  ∧ C_WEBSOCKET_STATE (flags (cn y)) = C_WEBSOCKET_STATE (flags (cn x))
  ∧ has_flag (flags (cn y)) C_ENABLE_TELNET = has_flag (flags (cn x)) C_ENABLE_TELNET
  ∧ has_flag (flags (cn y)) C_ENABLE_WEBSOCKET = has_flag (flags (cn x)) C_ENABLE_WEBSOCKET.
Proof.
  unfold comm_buffered_write_raw_comm.
  destruct (bool_decide (wbio (cn x) = None) || (length buf =? 0)); [by split_and!|].
  destruct (_ <? length buf); [by split_and!|].
  destruct (raw_append _ _ _) as [[chain pool] queued].
  destruct queued; cbn zeta; cbn [negb]; [|by split_and!].
  destruct (negb _ && arm_write _); cbn; split_and!; try done;
    rewrite ?ws_state_set_flag, ?has_flag_set_other by reflexivity; done.
Qed.

(** ... and appends what fits. *)
Lemma write_raw_content x buf :
  chain_ok (outbound (cn x)) → wbio (cn x) ≠ None →
  length buf ≤ kBufferSize * MAX_OUTBOUND_BUFFERS_PER_SLOT →
  content (outbound (cn (comm_buffered_write_raw_comm x buf)))
  = content (outbound (cn x)) ++ take (room (outbound (cn x))) buf
  ∧ chain_ok (outbound (cn (comm_buffered_write_raw_comm x buf))).
Proof.
  intros Hok Hw Hl. unfold comm_buffered_write_raw_comm.
  rewrite bool_decide_eq_false_2 by done. cbn [orb].
  destruct (length buf =? 0) eqn:E0; breflect.
  { apply nil_length_inv in E0 as ->. by rewrite take_nil, app_nil_r. }
  rewrite (proj2 (Nat.ltb_ge _ _)) by done.
  pose proof (raw_append_spec (outbound (cn x)) (cn_pool x) buf Hok) as R.
  destruct (raw_append _ _ _) as [[chain pool] queued]. destruct R as (R1 & R2 & _).
  destruct queued; cbn zeta; cbn [negb]; [|done].
  destruct (negb _ && arm_write _); done.
Qed.

Lemma write_raw_chain_ok x buf :
  chain_ok (outbound (cn x)) → chain_ok (outbound (cn (comm_buffered_write_raw_comm x buf))).
Proof.
  intros Hok. unfold comm_buffered_write_raw_comm.
  destruct (bool_decide (wbio (cn x) = None) || (length buf =? 0)); [done|].
  destruct (_ <? length buf); [done|].
  pose proof (raw_append_spec (outbound (cn x)) (cn_pool x) buf Hok) as R.
  destruct (raw_append _ _ _) as [[chain pool] queued]. destruct R as (_ & R2 & _).
  destruct queued; cbn zeta; cbn [negb]; [|done].
  destruct (negb _ && arm_write _); done.
Qed.

(** ** Properties *)

(** *** Messages *)

(** A client frame with its masking key. *)
Record cframe := { cf_fin : bool; cf_opcode : Z; cf_key : list Z; cf_data : list Z }.
Definition client_wire (f : cframe) : list Z :=
  rfc_frame (cf_fin f) (cf_opcode f) (Some (cf_key f)) (cf_data f).
Definition cframe_ok (f : cframe) : Prop :=
  client_frame_ok (cf_fin f) (cf_opcode f) (cf_key f) (cf_data f).

(** The frames of one message [m] as RFC 6455 section 5.4 allows them: data
    split over any number of fragments, with pings and pongs anywhere between
    them; [frag] is the part already received. *)
Inductive message_stream : option (Z * list Z) → list cframe → list Z → Prop :=
  | ms_control frag f fs m :
      cf_opcode f = 9%Z ∨ cf_opcode f = 10%Z → message_stream frag fs m →
      message_stream frag (f :: fs) m
  | ms_whole f :
      cf_opcode f = 1%Z ∧ is_valid_utf8 (cf_data f) = true ∨ cf_opcode f = 2%Z →
      cf_fin f = true → message_stream None [f] (cf_data f)
  | ms_first f fs m :
      cf_opcode f = 1%Z ∨ cf_opcode f = 2%Z → cf_fin f = false →
      message_stream (Some (cf_opcode f, cf_data f)) fs m → message_stream None (f :: fs) m
  | ms_more op acc f fs m :
      cf_opcode f = 0%Z → cf_fin f = false →
      (Z.of_nat (length (acc ++ cf_data f)) ≤ kMaxMessageBytes)%Z →
      message_stream (Some (op, acc ++ cf_data f)) fs m → message_stream (Some (op, acc)) (f :: fs) m
  | ms_last op acc f :
      cf_opcode f = 0%Z → cf_fin f = true →
      (Z.of_nat (length (acc ++ cf_data f)) ≤ kMaxMessageBytes)%Z →
      (op = 1%Z → is_valid_utf8 (acc ++ cf_data f) = true) →
      message_stream (Some (op, acc)) [f] (acc ++ cf_data f).

(** The assembler holds fragment [frag]. *)
Definition holds_fragment (x : conn) (frag : option (Z * list Z)) : Prop :=
  ∃ w, websocket (cn x) = Some w ∧
    match frag with
    | None => fragmented_opcode w = 0%Z
    | Some (op, acc) =>
        (op = 1%Z ∨ op = 2%Z) ∧ fragmented_opcode w = op ∧ fragmented_payload w = acc
    end.

Lemma handle_control x f frag :
  cf_opcode f = 9%Z ∨ cf_opcode f = 10%Z → holds_fragment x frag →
  (handle_frame x (cf_fin f) (cf_opcode f) (cf_data f)).2 = FContinue
  ∧ holds_fragment (handle_frame x (cf_fin f) (cf_opcode f) (cf_data f)).1 frag.
Proof.
  intros [-> | ->] (w & Hw & Hf); unfold handle_frame; cbn [Z.eqb Pos.eqb].
  - destruct (comm_websocket_encode_frame _ _) as [pong|]; [|split; [done|by exists w]].
    split; [done|]. exists w. cbn [fst].
    destruct (write_raw_frame x pong) as (_ & _ & _ & _ & _ & -> & _). done.
  - split; [done|]. by exists w.
Qed.

Lemma client_wire_length f : cframe_ok f → 6 ≤ length (client_wire f).
Proof. intros ok. unfold client_wire. rewrite length_client_frame by done. lia. Qed.

Lemma ws_loop_stream frag fs m x pre rest fuel :
  message_stream frag fs m → Forall cframe_ok fs → holds_fragment x frag →
  length fs < fuel →
  ∃ x', ws_loop fuel x (pre ++ concat (map client_wire fs) ++ rest) (length pre) [] 1
        = (x', WsOk (length pre + length (concat (map client_wire fs))) [m])
    ∧ holds_fragment x' None.
Proof.
  intros Hs. revert x pre fuel.
  induction Hs as [frag f fs m Hop _ IH|f Hop Hfin|f fs m Hop Hfin _ IH
    |op acc f fs m Hop Hfin Hlen _ IH|op acc f Hop Hfin Hlen Hu];
    intros x pre fuel Hok Hx Hf; (destruct fuel as [|fuel]; [cbn in Hf; lia|]);
    inversion_clear Hok as [|?? Hfo Hok'];
    cbn [map concat ws_loop]; rewrite <- ?app_assoc, drop_app_length;
    unfold client_wire at 1; rewrite (decode_client_frame _ _ _ _ _ Hfo); fold (client_wire f).
  - destruct (handle_control x f frag Hop Hx) as [H1 H2].
    destruct (handle_frame x _ _ _) as [x1 o]. cbn [fst snd] in H1, H2. subst o.
    destruct (IH x1 (pre ++ client_wire f) fuel Hok' H2 ltac:(cbn in Hf; lia)) as (x' & E & Hx').
    rewrite length_app, <- app_assoc in E. rewrite E. exists x'. split; [|done].
    do 2 f_equal. rewrite length_app. lia.
  - destruct Hx as (w & Hw & Hf0). rewrite Hfin.
    assert (handle_frame x true (cf_opcode f) (cf_data f) = (x, FMessage (cf_data f))) as ->.
    { unfold handle_frame. rewrite Hw. cbn [default from_option id]. rewrite Hf0.
      destruct Hop as [[-> Hv]| ->]; cbn [Z.eqb Pos.eqb orb negb andb]; [by rewrite Hv|done]. }
    exists x. cbn [app length Nat.leb]. rewrite app_nil_r. split; [done|]. by exists w.
  - destruct Hx as (w & Hw & Hf0). rewrite Hfin.
    set (x1 := set_fragment x w (cf_opcode f) (cf_data f)).
    assert (handle_frame x false (cf_opcode f) (cf_data f) = (x1, FContinue)) as ->.
    { unfold handle_frame. rewrite Hw. cbn [default from_option id]. rewrite Hf0.
      unfold x1. destruct Hop as [-> | ->]; cbn [Z.eqb Pos.eqb orb negb andb]; done. }
    assert (Hx1 : holds_fragment x1 (Some (cf_opcode f, cf_data f))) by (eexists; done).
    destruct (IH x1 (pre ++ client_wire f) fuel Hok' Hx1 ltac:(cbn in Hf; lia)) as (x' & E & Hx').
    rewrite length_app, <- app_assoc in E. rewrite E. exists x'. split; [|done].
    do 2 f_equal. rewrite length_app. lia.
  - destruct Hx as (w & Hw & Hf12 & Hf0 & Hp). rewrite Hfin, Hop.
    set (x1 := set_fragment x w op (acc ++ cf_data f)).
    assert (handle_frame x false 0 (cf_data f) = (x1, FContinue)) as ->.
    { unfold handle_frame. rewrite Hw. cbn [default from_option id Z.eqb]. rewrite Hf0, Hp.
      rewrite (proj2 (Z.ltb_ge _ _)) by done.
      destruct Hf12 as [-> | ->]; cbn [Z.eqb Pos.eqb]; done. }
    assert (Hx1 : holds_fragment x1 (Some (op, acc ++ cf_data f))) by (eexists; done).
    destruct (IH x1 (pre ++ client_wire f) fuel Hok' Hx1 ltac:(cbn in Hf; lia)) as (x' & E & Hx').
    rewrite length_app, <- app_assoc in E. rewrite E. exists x'. split; [|done].
    do 2 f_equal. rewrite length_app. lia.
  - destruct Hx as (w & Hw & Hf12 & Hf0 & Hp). rewrite Hfin, Hop.
    set (x1 := set_fragment x w 0 []).
    assert (handle_frame x true 0 (cf_data f) = (x1, FMessage (acc ++ cf_data f))) as ->.
    { unfold handle_frame. rewrite Hw. cbn [default from_option id Z.eqb]. rewrite Hf0, Hp.
      rewrite (proj2 (Z.ltb_ge _ _)) by done.
      destruct Hf12 as [-> | ->]; cbn [Z.eqb Pos.eqb andb]; [by rewrite Hu|done]. }
    exists x1. cbn [app length Nat.leb]. rewrite app_nil_r. split; [done|]. by eexists.
Qed.

(** C12: message round trip: a message sent by a client in any number of masked
    fragments, with pings and pongs between them, comes out of the assembler
    whole, whatever follows it; exactly its frames are consumed and no partial
    message is left behind. *)
Theorem ws_message_roundtrip x fs m rest :
  message_stream None fs m → Forall cframe_ok fs →
  (websocket (cn x) = None ∨ holds_fragment x None) →
  ∃ x', comm_websocket_process_inbound x (concat (map client_wire fs) ++ rest) 1
        = (x', WsOk (length (concat (map client_wire fs))) [m])
    ∧ holds_fragment x' None.
Proof.
  intros Hs Hok Hx. unfold comm_websocket_process_inbound. cbn zeta.
  set (x0 := on_comm _ x).
  assert (holds_fragment x0 None) as H0.
  { unfold holds_fragment. cbn. destruct Hx as [-> | (w & -> & Hw)]; eexists; done. }
  apply (ws_loop_stream None fs m x0 [] rest); [done..|].
  assert (∀ l, Forall cframe_ok l → length l ≤ length (concat (map client_wire l))) as L.
  { induction 1 as [|f l Hf _ IH]; cbn [map concat length]; [lia|].
    rewrite length_app. pose proof (client_wire_length f Hf). lia. }
  rewrite length_app. specialize (L fs Hok). lia.
Qed.

(** *** Control frames and the closing handshake *)

Lemma encode_small payload op :
  (0 ≤ op ≤ 15)%Z → length payload ≤ 125 →
  comm_websocket_encode_frame payload op
  = Some (Z.lor 0x80 op :: Z.of_nat (length payload) :: payload).
Proof.
  intros Ho Hl. unfold comm_websocket_encode_frame.
  rewrite (proj2 (Z.ltb_ge 15 op)), (proj2 (Z.ltb_ge _ (Z.of_nat (length payload)))) by lia.
  cbn [orb]. cbn zeta. by rewrite (proj2 (Z.leb_le _ _)) by lia.
Qed.

Lemma write_raw_fits x buf :
  chain_ok (outbound (cn x)) → wbio (cn x) ≠ None → length buf ≤ room (outbound (cn x)) →
  length buf ≤ kBufferSize * MAX_OUTBOUND_BUFFERS_PER_SLOT →
  content (outbound (cn (comm_buffered_write_raw_comm x buf)))
  = content (outbound (cn x)) ++ buf.
Proof.
  intros Hok Hw Hr Hl. destruct (write_raw_content x buf Hok Hw Hl) as [-> _].
  by rewrite take_ge.
Qed.

Lemma buffers_hold_control : 127 ≤ kBufferSize * MAX_OUTBOUND_BUFFERS_PER_SLOT.
Proof. apply Nat.leb_le. vm_compute. reflexivity. Qed.

(** Every ping is answered: its payload is queued unchanged in a pong frame
    behind the output already waiting, and the assembler's state is kept. *)
Theorem ping_is_answered x fin payload :
  chain_ok (outbound (cn x)) → wbio (cn x) ≠ None →
  length payload ≤ 125 → length payload + 2 ≤ room (outbound (cn x)) →
  ∃ x', handle_frame x fin 9 payload = (x', FContinue)
    ∧ content (outbound (cn x')) = content (outbound (cn x))
        ++ [0x8A; Z.of_nat (length payload)]%Z ++ payload
    ∧ websocket (cn x') = websocket (cn x).
Proof.
  intros Hok Hw Hl Hr. unfold handle_frame. cbn [Z.eqb Pos.eqb].
  rewrite encode_small by lia. eexists. split; [done|]. split.
  - rewrite write_raw_fits; cbn [length]; try done; [lia|].
    pose proof buffers_hold_control. lia.
  - by destruct (write_raw_frame x (Z.lor 0x80 10 :: Z.of_nat (length payload) :: payload))
      as (_ & _ & _ & _ & _ & -> & _).
Qed.

(** C35: application output cannot overtake the HTTP 101 response: while the
    upgrade is pending, a write leaves the transport queue and the flags alone
    and adds its binary frame to the barrier behind what is held there: the whole
    frame when the barrier has room for it, otherwise the part for which it has. *)
Theorem upgrade_barrier_holds_output x buf normalize :
  has_flag (flags (cn x)) C_ENABLE_WEBSOCKET = true →
  C_WEBSOCKET_IS_READY (flags (cn x)) = false →
  chain_ok (websocket_upgrade_barrier (cn x)) → buf ≠ [] →
  let data := if normalize && has_flag (flags (cn x)) C_ENABLE_TELNET
              then normalize_telnet_newlines buf else buf in
  (Z.of_nat (length data) < 2 ^ 64)%Z →
  let x' := comm_buffered_write_comm_impl x buf normalize in
  outbound (cn x') = outbound (cn x) ∧ flags (cn x') = flags (cn x)
  ∧ content (websocket_upgrade_barrier (cn x'))
    = content (websocket_upgrade_barrier (cn x))
      ++ take (room (websocket_upgrade_barrier (cn x))) (rfc_frame true 2 None data)
  ∧ (length (rfc_frame true 2 None data) ≤ room (websocket_upgrade_barrier (cn x)) →
     content (websocket_upgrade_barrier (cn x'))
     = content (websocket_upgrade_barrier (cn x)) ++ rfc_frame true 2 None data)
  ∧ chain_ok (websocket_upgrade_barrier (cn x')).
Proof.
  intros Hws Hr Hok Hb data Hl x'. subst x'. unfold comm_buffered_write_comm_impl.
  rewrite (proj2 (Nat.eqb_neq _ _)) by (by destruct buf). cbn zeta.
  rewrite Hws, Hr. cbn [negb andb]. fold data.
  rewrite encode_frame_spec by lia. cbn [Z.ltb Z.compare Pos.compare Pos.compare_cont].
  unfold append_websocket_upgrade_barrier.
  pose proof (barrier_append_spec (websocket_upgrade_barrier (cn x)) (cn_pool x)
                (rfc_frame true 2 None data) Hok) as B.
  destruct (barrier_append _ _ _) as [[b pool] ok]. destruct B as (B1 & B2 & _).
  split_and!; try done. intros Hr'. etransitivity; [exact B1|]. by rewrite take_ge.
Qed.

(** Once the server has sent its Close frame, application output is discarded
    and a second Close is not queued, for every sequence of such calls. *)
Theorem nothing_after_sent_close x (ops : list (list Z * bool)) :
  C_WEBSOCKET_STATE (flags (cn x)) = WS_CLOSE_SENT →
  fold_left (fun y o => if o.2 : bool then (comm_websocket_queue_close y o.1).1
                        else comm_buffered_write_comm y o.1) ops x = x.
Proof.
  intros Hs. induction ops as [|[b close] ops IH]; [done|]. cbn [fold_left].
  assert ((if close then (comm_websocket_queue_close x b).1 else comm_buffered_write_comm x b) = x)
    as E; [|cbn [fst snd]; by rewrite E].
  destruct close.
  - unfold comm_websocket_queue_close. by rewrite Hs.
  - unfold comm_buffered_write_comm, comm_buffered_write_comm_impl.
    destruct (length b =? 0); [done|]. cbn zeta. unfold C_WEBSOCKET_IS_READY. by rewrite Hs.
Qed.

(** When the peer closes first, application output still follows the Close
    frame: the reply moves the connection to [WS_CLOSE_RECEIVED], which the
    discard test does not cover, so a later write queues a data frame behind
    the Close frame. *)
Theorem data_follows_close_reply x code msg :
  chain_ok (outbound (cn x)) → wbio (cn x) ≠ None →
  C_WEBSOCKET_STATE (flags (cn x)) = WS_READY →
  has_flag (flags (cn x)) C_ENABLE_TELNET = false →
  msg ≠ [] → length msg ≤ 125 → length code = 2 →
  4 ≤ room (outbound (cn x)) →
  length msg + 2 ≤ room (outbound (cn (handle_frame x true 8 code).1)) →
  let x1 := (handle_frame x true 8 code).1 in
  let x2 := comm_buffered_write_comm x1 msg in
  content (outbound (cn x2))
  = content (outbound (cn x)) ++ ([0x88; 2]%Z ++ code)
    ++ ([0x82; Z.of_nat (length msg)]%Z ++ msg).
Proof.
  intros Hok Hw Hs Ht Hne Hl Hc Hr Hr2 x1 x2.
  assert (E1 : content (outbound (cn x1)) = content (outbound (cn x)) ++ [0x88; 2]%Z ++ code
    ∧ chain_ok (outbound (cn x1)) ∧ wbio (cn x1) ≠ None
    ∧ C_WEBSOCKET_STATE (flags (cn x1)) = WS_CLOSE_RECEIVED
    ∧ has_flag (flags (cn x1)) C_ENABLE_TELNET = false).
  { unfold x1, handle_frame. cbn [Z.eqb Pos.eqb]. rewrite Hc. cbn [Nat.eqb].
    unfold comm_websocket_queue_close. rewrite Hs. cbn [Z.eqb WS_READY WS_CLOSE_SENT
      WS_CLOSE_RECEIVED Pos.eqb orb]. rewrite encode_small, Hc by lia. cbn [fst].
    set (frame := Z.lor 128 8 :: Z.of_nat 2 :: code).
    destruct (write_raw_frame x frame) as (_ & W & _ & _ & _ & _ & _ & _ & _ & T & _).
    split_and!.
    - etransitivity; [apply (write_raw_fits x frame); try done; cbn [frame length]; rewrite Hc;
        [lia|pose proof buffers_hold_control; lia]|]. done.
    - exact (write_raw_chain_ok x frame Hok).
    - cbn. by rewrite W.
    - cbn. by rewrite ws_state_set_state.
    - cbn [on_flags on_comm cn set_flags flags].
      by rewrite !has_flag_set_state, T by reflexivity. }
  destruct E1 as (E1 & O1 & W1 & S1 & T1). fold x1 in Hr2.
  unfold x2, comm_buffered_write_comm, comm_buffered_write_comm_impl.
  rewrite (proj2 (Nat.eqb_neq _ _)) by (by destruct msg). cbn zeta.
  unfold C_WEBSOCKET_IS_READY. rewrite S1. cbn [Z.eqb WS_HANDSHAKE WS_CLOSE_SENT
    WS_CLOSE_RECEIVED Pos.eqb negb andb]. rewrite andb_false_r, T1. cbn [andb].
  rewrite encode_small by lia.
  rewrite write_raw_fits; [|done..|cbn [length]; lia|cbn [length]; pose proof buffers_hold_control; lia].
  rewrite E1. by rewrite <- app_assoc.
Qed.
End ConnLemmas.

(** ** Witnesses *)

(** A WebSocket connection that is open, with nothing queued. *)
#[local] Instance no_arm : WriteEnv := fun _ => false.

Definition demo_conn (f : Z) : conn :=
  {| cn := mk_comm (Some 1) (Some 2) None [] [] [] (Some new_websocket) 1 f no_capabilities;
     cn_pool := [] |}.

Definition ready_flags : Z := C_WEBSOCKET_SET_STATE C_ENABLE_WEBSOCKET WS_READY.

Lemma demo_chain_ok f : chain_ok (outbound (cn (demo_conn f))).
Proof. split; [apply Nat.leb_le; vm_compute; reflexivity|constructor]. Qed.

Lemma frame_ok_small fin op mask payload :
  valid_opcode op → length mask = 4 → bytes_ok mask → bytes_ok payload →
  length payload ≤ 125 → (control_opcode op = true → fin = true) →
  client_frame_ok fin op mask payload.
Proof.
  intros Ho Hm Hmb Hp Hl Hc. split; try done.
  - unfold kMaxMessageBytes. lia.
  - intros E. split; [by apply Hc|lia].
Qed.

(** "hi" in two fragments with a ping between them. *)
Definition demo_frames : list cframe :=
  [ {| cf_fin := false; cf_opcode := 1; cf_key := [1; 2; 3; 4]%Z; cf_data := [104]%Z |};
    {| cf_fin := true; cf_opcode := 9; cf_key := [5; 6; 7; 8]%Z; cf_data := [33]%Z |};
    {| cf_fin := true; cf_opcode := 0; cf_key := [9; 9; 9; 9]%Z; cf_data := [105]%Z |} ].

Lemma ws_message_roundtrip_witness :
  ∃ x', comm_websocket_process_inbound (demo_conn ready_flags)
          (concat (map client_wire demo_frames) ++ [7; 7]%Z) 1
        = (x', WsOk (length (concat (map client_wire demo_frames))) [[104; 105]%Z])
    ∧ holds_fragment x' None.
Proof.
  apply (ws_message_roundtrip (demo_conn ready_flags) demo_frames [104; 105]%Z [7; 7]%Z).
  - apply ms_first; [by left|done|]. apply ms_control; [by left|].
    apply (ms_last 1 [104]%Z); try done.
  - apply Forall_cons_2; [|apply Forall_cons_2; [|apply Forall_singleton]];
      (apply frame_ok_small; [unfold valid_opcode; cbn; lia|done|by repeat constructor..|cbn; lia|done]).
  - right. by exists new_websocket.
Defined.

Lemma ping_is_answered_witness :
  ∃ x', handle_frame (demo_conn ready_flags) true 9 [1; 2; 3]%Z = (x', FContinue)
    ∧ content (outbound (cn x')) = content (outbound (cn (demo_conn ready_flags)))
        ++ [0x8A; Z.of_nat 3]%Z ++ [1; 2; 3]%Z
    ∧ websocket (cn x') = websocket (cn (demo_conn ready_flags)).
Proof.
  apply (ping_is_answered (demo_conn ready_flags) true [1; 2; 3]%Z).
  - apply (demo_chain_ok 0).
  - done.
  - cbn. lia.
  - apply Nat.leb_le. vm_compute. reflexivity.
Defined.

Lemma upgrade_barrier_holds_output_witness :
  let x := demo_conn C_ENABLE_WEBSOCKET in
  let x' := comm_buffered_write_comm_impl x [104; 105]%Z true in
  outbound (cn x') = outbound (cn x) ∧ flags (cn x') = flags (cn x)
  ∧ content (websocket_upgrade_barrier (cn x'))
    = content (websocket_upgrade_barrier (cn x))
      ++ [0x82; 2; 104; 105]%Z.
Proof.
  assert (H : chain_ok (websocket_upgrade_barrier (cn (demo_conn C_ENABLE_WEBSOCKET)))) by apply (demo_chain_ok 0).
  destruct (upgrade_barrier_holds_output (demo_conn C_ENABLE_WEBSOCKET) [104; 105]%Z true
    eq_refl eq_refl H (ltac:(done)) eq_refl) as (A & B & _ & C & _).
  split; [exact A|]. split; [exact B|]. etransitivity; [apply C|reflexivity].
  apply Nat.leb_le. vm_compute. reflexivity.
Defined.

Lemma nothing_after_sent_close_witness :
  let x := demo_conn (C_WEBSOCKET_SET_STATE C_ENABLE_WEBSOCKET WS_CLOSE_SENT) in
  fold_left (fun y o => if o.2 : bool then (comm_websocket_queue_close y o.1).1
                        else comm_buffered_write_comm y o.1)
    [([1; 2]%Z, false); ([3; 232]%Z, true); ([4]%Z, false)] x = x.
Proof.
  apply (nothing_after_sent_close
           (demo_conn (C_WEBSOCKET_SET_STATE C_ENABLE_WEBSOCKET WS_CLOSE_SENT))).
  reflexivity.
Defined.

Lemma data_follows_close_reply_witness :
  let x1 := (handle_frame (demo_conn ready_flags) true 8 [3; 232]%Z).1 in
  content (outbound (cn (comm_buffered_write_comm x1 [104; 105]%Z)))
  = content (outbound (cn (demo_conn ready_flags))) ++ ([0x88; 2]%Z ++ [3; 232]%Z)
    ++ ([0x82; Z.of_nat 2]%Z ++ [104; 105]%Z).
Proof.
  apply (data_follows_close_reply (demo_conn ready_flags) [3; 232]%Z [104; 105]%Z);
    try done; try (apply Nat.leb_le; vm_compute; reflexivity).
  apply (demo_chain_ok 0).
Defined.
