(* ===== verification/World.v ===== *)
(** * One slot in the event loop: state, transport and host

    The state the lifecycle and input functions of lib/comm share for one slot:
    the slot record (absent when the slot is not in use), the buffer pools, the
    deferred-input flag, what the transport will answer, what was handed to it,
    and the calls made on the runtime.  Hooks and the scheduler are the host of
    these functions and enter as a parameter; the current runtime is the one
    the event loop runs on. *)

From S2P Require Import Prelude InBuf OutBuf Abstract Execution WsConn.

(** ** The transport *)

(** [BIO_write] or [SSL_write_ex]: some bytes accepted, try again, or failed. *)
Inductive write_answer := WrOk (n : nat) | WrRetry | WrFail.

(** [BIO_read_ex] or [SSL_read_ex]; [more] is [SSL_has_pending] afterwards. *)
Inductive read_answer := RdData (bytes : list Z) (more : bool) | RdRetry | RdClosed.

(** [SSL_is_init_finished] or the outcome of [SSL_do_handshake]. *)
Inductive tls_answer := TlsFinished | TlsDone | TlsWantRead | TlsWantWrite | TlsFail.

(** A successful write takes at least one byte and at most what is offered. *)
Definition accepted (n len : nat) : nat := Nat.max 1 (Nat.min n len).

(** ** Hooks and calls that leave lib/comm *)

Record hook_call := { hc_type : hook_type; hc_msg : Z; hc_data : list Z }.

Inductive effect :=
  | EPostError                      (* async_runtime_post_completion(ASYNC_IO_ERROR_KEY) *)
  | EModify (want_write : bool)     (* async_runtime_modify *)
  | EFlush                          (* BIO_flush *)
  | EShutdownWrite                  (* BIO_shutdown_wr *)
  | ESslShutdown                    (* SSL_shutdown *)
  | ERemoveFd (b : nat)             (* async_runtime_remove *)
  | ECancelAwait                    (* mudmux_execution_cancel_await *)
  | EDispatch (h : hook_call)       (* mudmux_execution_dispatch ... *)
  | EAnswer (h : hook_call) (r : dispatch_result)   (* ... and its result *)
  | EConsoleMode (canonical : option bool) (echo : bool)   (* tcsetattr on stdin *)
  | EConsoleEof                     (* comm_signal_console_eof *)
  | EServerShutdown                 (* mudmux_shutdown *)
  | ERemoved (evs : list slot_event).

(** ** State *)

Record world := mk_world {
  comm : option comm_abstract;
  opool : list outbound_buffer;
  ipool : list inbound_buffer;
  deferred : bool;
  reads : list read_answer;
  writes : list write_answer;
  tls : list tls_answer;
  sent : list Z;
  log : list effect;
  fault : bool   (* a member of a removed slot was accessed *)
}.

Definition with_comm (w : world) (c : option comm_abstract) : world :=
  mk_world c (opool w) (ipool w) (deferred w) (reads w) (writes w) (tls w) (sent w) (log w) (fault w).
Definition with_opool (w : world) (p : list outbound_buffer) : world :=
  mk_world (comm w) p (ipool w) (deferred w) (reads w) (writes w) (tls w) (sent w) (log w) (fault w).
Definition with_ipool (w : world) (p : list inbound_buffer) : world :=
  mk_world (comm w) (opool w) p (deferred w) (reads w) (writes w) (tls w) (sent w) (log w) (fault w).
Definition with_deferred (w : world) (b : bool) : world :=
  mk_world (comm w) (opool w) (ipool w) b (reads w) (writes w) (tls w) (sent w) (log w) (fault w).
Definition with_reads (w : world) (r : list read_answer) : world :=
  mk_world (comm w) (opool w) (ipool w) (deferred w) r (writes w) (tls w) (sent w) (log w) (fault w).
Definition with_tls (w : world) (l : list tls_answer) : world :=
  mk_world (comm w) (opool w) (ipool w) (deferred w) (reads w) (writes w) l (sent w) (log w) (fault w).
Definition with_writes (w : world) (l : list write_answer) (s : list Z) : world :=
  mk_world (comm w) (opool w) (ipool w) (deferred w) (reads w) l (tls w) s (log w) (fault w).
Definition emit (w : world) (e : effect) : world :=
  mk_world (comm w) (opool w) (ipool w) (deferred w) (reads w) (writes w) (tls w) (sent w)
    (log w ++ [e]) (fault w).
Definition fails (w : world) : world :=
  mk_world (comm w) (opool w) (ipool w) (deferred w) (reads w) (writes w) (tls w) (sent w) (log w) true.

(** [comm->member] when the slot may be gone. *)
Definition deref (w : world) (k : comm_abstract → world) : world :=
  match comm w with Some c => k c | None => fails w end.

Definition flags_of (w : world) : Z := match comm w with Some c => flags c | None => 0%Z end.
Definition flag (w : world) (bits : Z) : bool := has_flag (flags_of w) bits.

Definition set_flags_w (f : Z → Z) (w : world) : world :=
  match comm w with
  | Some c => with_comm w (Some (set_flags c (f (flags c))))
  | None => w
  end.
Definition raise (bits : Z) : world → world := set_flags_w (fun f => set_flag f bits).
Definition lower (bits : Z) : world → world := set_flags_w (fun f => clear_flag f bits).

(** A function of lib/comm on the connection, with the pool of output buffers. *)
Definition on_conn (f : conn → conn) (w : world) : world :=
  match comm w with
  | Some c =>
      let x := f {| cn := c; cn_pool := opool w |} in
      with_opool (with_comm w (Some (cn x))) (cn_pool x)
  | None => w
  end.

(** [comm->flags |= C_DEFERRED_INBOUND; has_deferred_input.store(true)]. *)
Definition defer (w : world) : world := with_deferred (raise C_DEFERRED_INBOUND w) true.

(** ** The host *)

(** The scheduler and the application's hooks: what dispatching a hook does and
    answers, whether the slot is busy, which hooks run on workers and which are
    registered; and OpenSSL's [BIO_get_fd]. *)
Class Host := {
  host_slot : Z;
  dispatch : hook_call → world → world * dispatch_result;
  busy : world → bool;
  hook_async : hook_type → bool;
  has_hook : hook_type → bool;
  bio_has_fd : nat → bool;
  file_inputs : bool;
  tty_ok : bool;   (* tcgetattr on stdin succeeds *)
  #[global] host_write :: WriteEnv;
  #[global] host_slots :: SlotEnv;
}.

Section Host.
Context `{Host}.

(** [mudmux_execution_dispatch] with the completion callback of the execution: a
    hook that runs inline is completed before the call returns, the completion
    of a queued hook runs later on its worker. *)
Definition do_dispatch (h : hook_call) (completion : world → world) (w : world)
    : world * dispatch_result :=
  let '(w', r) := dispatch h (emit w (EDispatch h)) in
  (emit (if hook_async (hc_type h) then w' else completion w') (EAnswer h r), r).

(** [comm_bio_get_socket_fd]. *)
Definition get_socket_fd (b : option nat) : bool :=
  match b with Some n => bio_has_fd n | None => false end.

(** [comm_abstract_remove] on this slot. *)
Definition remove_slot (w : world) : world :=
  match comm w with
  | None => w
  | Some c =>
      let w := with_ipool w (free_inbound_chain (inbound c) (ipool w)) in
      let w := with_opool w (free_outbound c (opool w)) in
      with_comm (emit w (ERemoved (removal_events c))) None
  end.

(** [comm_free_outbound_buffers] and [comm_free_inbound_buffers]. *)
Definition comm_free_outbound_buffers (w : world) : world :=
  match comm w with
  | None => w
  | Some c => with_opool (with_comm w (Some (set_barrier (set_outbound c []) [])))
                (free_outbound c (opool w))
  end.

Definition set_inbound (c : comm_abstract) (i : list inbound_buffer) : comm_abstract :=
  mk_comm (rbio c) (wbio c) (ssl c) i (outbound c) (websocket_upgrade_barrier c)
    (websocket c) (generation c) (flags c) (caps c).

Definition comm_free_inbound_buffers (w : world) : world :=
  match comm w with
  | None => w
  | Some c => with_ipool (with_comm w (Some (set_inbound c [])))
                (free_inbound_chain (inbound c) (ipool w))
  end.

End Host.

(** The removal of a slot of the table is the removal of this slot: what is read
    through the table afterwards, the pools and the calls agree. *)
Lemma remove_slot_table `{Host} t s c w :
  table_ok t → resolve_slot t s = Some c →
  comm w = Some c → opool w = out_pool t → ipool w = in_pool t →
  let t' := comm_abstract_remove t s in
  let w' := remove_slot w in
  resolve_slot t' s = comm w' ∧ out_pool t' = opool w' ∧ in_pool t' = ipool w'
  ∧ ∃ evs, events t' = events t ++ evs ∧ log w' = log w ++ [ERemoved evs].
Proof.
  intros Hok R Hc Ho Hi t' w'.
  destruct (remove_spec t s Hok) as (_ & _ & _ & P). specialize (P s).
  rewrite decide_True, R in P by done.
  unfold w', remove_slot. rewrite Hc. split_and!.
  - unfold resolve_slot, t'. by rewrite P.
  - unfold t', comm_abstract_remove. rewrite R. cbn. by rewrite Ho.
  - unfold t', comm_abstract_remove. rewrite R. cbn. by rewrite Hi.
  - unfold t', comm_abstract_remove. rewrite R. by eexists.
Qed.
