(* ===== verification/Outbound.v ===== *)
(** * Flushing and closing a slot (lib/comm/outbound.cpp, lib/comm/ssl.cpp,
      lib/comm/inbound.cpp)

    The transport-ready notification, the TLS handshake step, [comm_flush] with
    its write loop, the release of the WebSocket upgrade barrier, [comm_close]
    and the two output calls of the application. *)

From stdpp Require Import relations.
From S2P Require Import Prelude InBuf OutBuf Abstract Execution WsFrame WsConn World.

Section Outbound.
Context `{Host}.

(** ** Transport ready and TLS *)

Definition slot_hook (t : hook_type) : hook_call :=
  {| hc_type := t; hc_msg := host_slot; hc_data := [] |}.

(** [_resume_input_after_transport_ready_hook]. *)
Definition resume_input_after_transport_ready_hook (w : world) : world :=
  match comm w with
  | None => w
  | Some _ => defer (if flag w C_CLOSING then w else lower C_AWAITING_HOOK w)
  end.

Definition tls_pending (w : world) : bool :=
  match comm w with
  | Some c => bool_decide (is_Some (ssl c)) && negb (has_flag (flags c) C_TLS_ESTABLISHED)
  | None => false
  end.

Definition upgrade_pending (f : Z) : bool :=
  has_flag f C_ENABLE_WEBSOCKET && negb (C_WEBSOCKET_IS_READY f).

Definition comm_invoke_transport_ready (w : world) : world :=
  match comm w with
  | None => w
  | Some c =>
      if has_flag (flags c) (Z.lor C_CLOSING C_TRANSPORT_READY) then w
      else if tls_pending w then w
      else if upgrade_pending (flags c) then w
      else
        let await := hook_async HOOK_TRANSPORT_READY in
        let w := raise C_TRANSPORT_READY w in
        let w := if await then raise C_AWAITING_HOOK w else w in
        let completion := if await then resume_input_after_transport_ready_hook else id in
        let '(w, r) := do_dispatch (slot_hook HOOK_TRANSPORT_READY) completion w in
        if mudmux_dispatch_accepted r then w
        else deref w (fun _ => lower (Z.lor C_TRANSPORT_READY C_AWAITING_HOOK) w)
  end.

(** [update_slot_event_interest] on the read BIO's descriptor. *)
Definition update_slot_event_interest (w : world) (want_write : bool) : world :=
  match comm w with
  | Some c => if get_socket_fd (rbio c)
              then emit w (EModify (want_write || flag w C_SOCKET_WRITABLE)) else w
  | None => w
  end.

(** [comm_tls_handshake_step]: 1 ready, 0 in progress, -1 failed. *)
Definition comm_tls_handshake_step (w : world) : world * Z :=
  match comm w with
  | None => (w, -1)%Z
  | Some c =>
      if bool_decide (ssl c = None) || has_flag (flags c) C_TLS_ESTABLISHED then (w, 1%Z)
      else
        match tls w with
        | TlsFinished :: rest =>
            (comm_invoke_transport_ready (raise C_TLS_ESTABLISHED (with_tls w rest)), 1%Z)
        | TlsDone :: rest =>
            (comm_invoke_transport_ready
               (update_slot_event_interest (raise C_TLS_ESTABLISHED (with_tls w rest)) false), 1%Z)
        | TlsWantWrite :: rest => (update_slot_event_interest (with_tls w rest) true, 0%Z)
        | TlsWantRead :: rest => (update_slot_event_interest (with_tls w rest) false, 0%Z)
        | [] => (update_slot_event_interest w false, 0%Z)
        | TlsFail :: rest => (with_tls w rest, (-1)%Z)
        end
  end.

(** ** Flush *)

Definition ob_sent (b : outbound_buffer) (n : nat) : outbound_buffer :=
  {| ob_data := ob_data b; ob_start := ob_start b + n |}.

(** What the write loop leaves: the queue, the pool, the transport's answers and
    bytes, and whether a write failed. *)
Record drained := { dr_chain : list outbound_buffer; dr_pool : list outbound_buffer;
                    dr_writes : list write_answer; dr_sent : list Z; dr_failed : bool }.

(** The loop over the queue.  Each turn uses an answer of the transport or frees
    a buffer, so their number bounds the turns. *)
Fixpoint flush_loop (fuel : nat) (chain pool : list outbound_buffer)
    (ws : list write_answer) (out : list Z) : drained :=
  let stop failed := {| dr_chain := chain; dr_pool := pool; dr_writes := ws;
                        dr_sent := out; dr_failed := failed |} in
  match fuel, chain with
  | 0, _ | _, [] => stop false
  | S n, obb :: rest =>
      let data := drop (ob_start obb) (ob_data obb) in
      if length data =? 0 then flush_loop n rest (free_outbound_buffer obb pool) ws out
      else
        match ws with
        | [] => stop false
        | WrRetry :: ws' => {| dr_chain := chain; dr_pool := pool; dr_writes := ws';
                               dr_sent := out; dr_failed := false |}
        | WrFail :: ws' => {| dr_chain := chain; dr_pool := pool; dr_writes := ws';
                              dr_sent := out; dr_failed := true |}
        | WrOk k :: ws' =>
            let n' := accepted k (length data) in
            let obb' := ob_sent obb n' in
            if ob_start obb' <? ob_end obb'
            then flush_loop n (obb' :: rest) pool ws' (out ++ take n' data)
            else flush_loop n rest (free_outbound_buffer obb' pool) ws' (out ++ take n' data)
        end
  end.

Definition drain (chain pool : list outbound_buffer) (ws : list write_answer) (out : list Z)
    : drained :=
  flush_loop (S (length chain + length ws)) chain pool ws out.

(** A write that failed for good: the output is dropped and, unless the slot is
    closing, an error is posted; a closing TLS session is no longer used. *)
Definition flush_failed (w : world) (c : comm_abstract) : world :=
  let closing := flag w C_CLOSING in
  let w := if bool_decide (is_Some (ssl c)) && closing then lower C_TLS_ESTABLISHED w else w in
  let w := lower C_BUFFERED_WRITE (comm_free_outbound_buffers w) in
  if closing then w else emit w EPostError.

(** The end of [comm_flush]: write interest, buffered-write flag and shutdown. *)
Definition flush_settle (w : world) : world :=
  deref w (fun c =>
    if negb (get_socket_fd (wbio c)) then w
    else match outbound c with
    | _ :: _ =>
        if flag w C_SOCKET_WRITABLE then w
        else emit (raise C_SOCKET_WRITABLE w) (EModify true)
    | [] =>
        let w := if flag w C_SOCKET_WRITABLE
                 then lower C_SOCKET_WRITABLE (emit w (EModify false)) else w in
        let w := lower C_BUFFERED_WRITE w in
        let waiting := C_WEBSOCKET_IS_READY (flags_of w)
                       && negb (C_WEBSOCKET_STATE (flags_of w) =? WS_CLOSE_RECEIVED)%Z in
        if flag w C_CLOSING && negb waiting then
          if bool_decide (is_Some (ssl c)) && flag w C_TLS_ESTABLISHED
          then emit w ESslShutdown else emit w EShutdownWrite
        else w
    end).

(** The release of the upgrade barrier once the transport queue is empty. *)
Definition flush_barrier (rec : world → option world) (w : world) : option world :=
  match comm w with
  | None => Some (fails w)
  | Some c =>
      let empty := bool_decide (outbound c = []) in
      let ready := C_WEBSOCKET_IS_READY (flags c) in
      if empty && ready && bool_decide (websocket_upgrade_barrier c ≠ []) then
        let w := with_comm w (Some (set_barrier (set_outbound c (websocket_upgrade_barrier c)) [])) in
        let w := comm_invoke_transport_ready (raise C_BUFFERED_WRITE w) in
        match comm w with None => Some w | Some _ => rec w end
      else
        Some (flush_settle (if empty && ready then comm_invoke_transport_ready w else w))
  end.

Definition flush_queue (rec : world → option world) (w : world) : option world :=
  match comm w with
  | None => Some (fails w)
  | Some c =>
      let d := drain (outbound c) (opool w) (writes w) (sent w) in
      let w1 := with_writes (with_opool (with_comm w (Some (set_outbound c (dr_chain d))))
                               (dr_pool d)) (dr_writes d) (dr_sent d) in
      let w2 := emit (if dr_failed d then flush_failed w1 c else w1) EFlush in
      match comm w2 with
      | None => Some (fails w2)
      | Some c2 =>
          if bool_decide (outbound c2 = [])
             && (C_WEBSOCKET_STATE (flags c2) =? WS_TELNET_PENDING)%Z then
            let w3 := set_flags_w (fun f => C_WEBSOCKET_SET_STATE f WS_READY) w2 in
            if flag w3 C_CLOSING then flush_barrier rec w3
            else rec (on_conn comm_start_telnet_negotiation w3)
          else flush_barrier rec w2
      end
  end.

(** [comm_flush]; [None] when the fuel is exhausted.  It calls itself after the
    telnet negotiation was queued and after the barrier was released. *)
Fixpoint comm_flush (fuel : nat) (w : world) : option world :=
  match fuel with
  | 0 => None
  | S n =>
      match comm w with
      | None => Some w
      | Some c =>
          if bool_decide (wbio c = None) then Some w
          else if tls_pending w && negb (has_flag (flags c) C_CLOSING) then
            let '(w1, hs) := comm_tls_handshake_step w in
            if (hs <? 0)%Z then
              Some (deref w1 (fun _ => if flag w1 C_CLOSING then w1 else emit w1 EPostError))
            else if (hs =? 0)%Z then Some (deref w1 (fun _ => emit w1 EFlush))
            else flush_queue (comm_flush n) w1
          else flush_queue (comm_flush n) w
      end
  end.

(** ** Close *)

(** [_disconnect_hook_complete]. *)
Definition disconnect_hook_complete (w : world) : world := lower C_AWAITING_HOOK w.

(** From [if (comm->flags & C_AWAITING_HOOK)] to the end of [comm_close_impl]. *)
Definition close_tail (signal_console_eof : bool) (w : world) : world * bool :=
  match comm w with
  | None => (fails w, true)
  | Some c =>
      let f := flags c in
      if has_flag f C_AWAITING_HOOK then (w, false)
      else if (host_slot =? COMM_SLOT_CONSOLE)%Z then
        let w := lower C_BUFFERED_WRITE (comm_free_outbound_buffers w) in
        if file_inputs then (emit (remove_slot w) EServerShutdown, true)
        else (if signal_console_eof then emit w EConsoleEof else w, false)
      else if has_flag f C_BUFFERED_WRITE && negb (tls_pending w) then (w, false)
      else
        let w := if has_flag f C_BUFFERED_WRITE
                 then lower C_BUFFERED_WRITE (comm_free_outbound_buffers w) else w in
        let s := C_WEBSOCKET_STATE f in
        if C_WEBSOCKET_IS_READY f && negb (s =? WS_CLOSE_SENT)%Z
           && negb (s =? WS_CLOSE_RECEIVED)%Z
        then (on_conn (fun x => (comm_websocket_queue_close x [0x03; 0xe8]%Z).1) w, false)
        else if C_WEBSOCKET_IS_READY f && negb (s =? WS_CLOSE_RECEIVED)%Z then (w, false)
        else
          let w := if bool_decide (is_Some (ssl c)) && has_flag f C_TLS_ESTABLISHED
                   then emit w ESslShutdown else w in
          let drop_fd w b := match b with
                             | Some n => if bio_has_fd n then emit w (ERemoveFd n) else w
                             | None => w
                             end in
          (remove_slot (drop_fd (drop_fd w (rbio c)) (wbio c)), true)
  end.

(** [comm_close_impl]; [true] when the slot is gone. *)
Definition comm_close_impl (signal_console_eof : bool) (w : world) : world * bool :=
  match comm w with
  | None => (w, true)
  | Some c =>
      if negb (has_flag (flags c) C_CLOSING) || has_flag (flags c) C_DISCONNECT_PENDING then
        let w := lower C_DISCONNECT_PENDING (raise C_CLOSING w) in
        let w := raise C_AWAITING_HOOK (emit w ECancelAwait) in
        let '(w, r) := do_dispatch (slot_hook HOOK_DISCONNECT) disconnect_hook_complete w in
        match r with
        | DISPATCH_QUEUE_FULL =>
            (deref w (fun _ => lower C_AWAITING_HOOK (raise C_DISCONNECT_PENDING w)), false)
        | DISPATCH_QUEUED => (deref w (fun _ => lower C_ENABLE_PROMPT w), false)
        | DISPATCH_ERROR =>
            close_tail signal_console_eof
              (deref w (fun _ => lower C_ENABLE_PROMPT (lower C_AWAITING_HOOK w)))
        | DISPATCH_OK =>
            close_tail signal_console_eof (deref w (fun _ => lower C_ENABLE_PROMPT w))
        end
      else close_tail signal_console_eof w
  end.

Definition comm_close : world → world * bool := comm_close_impl true.
Definition comm_close_after_console_eof : world → world * bool := comm_close_impl false.

(** ** Application output *)

(** The thread-local slot and hook of current_slot.cpp. *)
Record hook_ctx := { current_slot : Z; current_hook : hook_type }.

Definition output_hook (h : hook_type) : bool :=
  bool_decide (h = HOOK_MESSAGE_OUTBOUND) || bool_decide (h = HOOK_PROMPT).

Definition comm_buffered_write (ctx : hook_ctx) (buf : list Z) (w : world) : world :=
  let inside := output_hook (current_hook ctx) in
  if inside && ((current_slot ctx <? 0)%Z || negb (host_slot =? current_slot ctx)%Z) then w
  else if has_hook HOOK_MESSAGE_OUTBOUND && negb inside then w
  else
    let w := if flag w C_ENABLE_PROMPT && negb (flag w C_LINE_INPUT)
                && negb (bool_decide (current_hook ctx = HOOK_PROMPT))
             then lower C_INVOKED_PROMPT w else w in
    on_conn (fun x => comm_buffered_write_comm x buf) w.

Definition comm_add_message (ctx : hook_ctx) (buf : list Z) (w : world) : world :=
  if length buf =? 0 then w
  else if output_hook (current_hook ctx) then w
  else if has_hook HOOK_MESSAGE_OUTBOUND
  then (do_dispatch {| hc_type := HOOK_MESSAGE_OUTBOUND; hc_msg := host_slot; hc_data := buf |}
          id w).1
  else comm_buffered_write ctx buf w.

End Outbound.

(** ** Lemmas *)

Section FlushLoop.

Definition no_failure (ws : list write_answer) : Prop := Forall (fun a => a ≠ WrFail) ws.

Lemma accepted_range k n : 1 ≤ n → 1 ≤ accepted k n ≤ n.
Proof. unfold accepted. lia. Qed.

(** The write loop moves bytes from the front of the queue to the transport. *)
Lemma flush_loop_spec fuel chain pool ws out :
  Forall buffer_ok chain →
  let d := flush_loop fuel chain pool ws out in
  dr_sent d ++ content (dr_chain d) = out ++ content chain
  ∧ Forall buffer_ok (dr_chain d) ∧ length (dr_chain d) ≤ length chain
  ∧ (no_failure ws → dr_failed d = false ∧ no_failure (dr_writes d)).
Proof.
  revert chain pool ws out. induction fuel as [|n IH]; intros chain pool ws out Hok; [done|].
  destruct chain as [|obb rest]; [done|]. inversion_clear Hok as [|?? Hb Hr].
  cbn [flush_loop]. cbn zeta. set (data := drop (ob_start obb) (ob_data obb)).
  destruct (length data =? 0) eqn:E0; breflect.
  { specialize (IH rest (free_outbound_buffer obb pool) ws out Hr). cbn zeta in IH.
    destruct IH as (I1 & I2 & I3 & I4). split_and!; try done; [|cbn [length]; lia].
    rewrite I1. unfold content. cbn [map concat]. fold data.
    by rewrite (nil_length_inv _ E0). }
  destruct ws as [|[k| |] ws']; [split_and!; try done; by constructor|..].
  - pose proof (accepted_range k (length data) ltac:(lia)) as Hk. set (m := accepted k _) in *.
    assert (Hdata : content (ob_sent obb m :: rest) = drop m data ++ content rest).
    { unfold content, data. cbn [map concat ob_sent ob_start ob_data]. by rewrite drop_drop. }
    assert (Hc : out ++ content (obb :: rest) = (out ++ take m data) ++ drop m data ++ content rest).
    { rewrite <- app_assoc, (app_assoc (take m data)), take_drop. done. }
    assert (Hb' : buffer_ok (ob_sent obb m)).
    { unfold data in Hk. rewrite length_drop in Hk. unfold buffer_ok, ob_end in *.
      cbn [ob_sent ob_start ob_data]. lia. }
    assert (Hf : no_failure (WrOk k :: ws') → no_failure ws') by (by inversion 1).
    destruct (_ <? _) eqn:E1; breflect.
    + specialize (IH (ob_sent obb m :: rest) pool ws' (out ++ take m data)
                    ltac:(by constructor)). cbn zeta in IH. destruct IH as (I1 & I2 & I3 & I4).
      split_and!; try done; [|by auto]. by rewrite I1, Hc, Hdata.
    + specialize (IH rest (free_outbound_buffer (ob_sent obb m) pool) ws' (out ++ take m data) Hr).
      cbn zeta in IH. destruct IH as (I1 & I2 & I3 & I4).
      split_and!; try done; [|cbn [length]; lia|by auto]. rewrite I1, Hc.
      rewrite (drop_ge data m); [done|]. unfold data. rewrite length_drop.
      unfold ob_end in E1. cbn [ob_sent ob_start ob_data] in E1. lia.
  - split_and!; try done; [by constructor|]. by inversion 1.
  - split_and!; try done; [by constructor|]. by inversion 1.
Qed.

(** With the loop's own bound it stops for a reason: the queue is empty, the
    transport asked to wait, or a write failed. *)
Lemma flush_loop_stops fuel chain pool ws out :
  length chain + length ws < fuel →
  let d := flush_loop fuel chain pool ws out in
  dr_chain d = [] ∨ dr_failed d = true ∨ dr_writes d = []
  ∨ ∃ pre, ws = pre ++ WrRetry :: dr_writes d.
Proof.
  revert chain pool ws out. induction fuel as [|n IH]; intros chain pool ws out Hf; [lia|].
  destruct chain as [|obb rest]; [by left|]. cbn [flush_loop]. cbn zeta. cbn [length] in Hf.
  destruct (_ =? 0); [apply IH; lia|].
  destruct ws as [|[k| |] ws']; [by right; right; left|..].
  - assert (R : ∀ d, dr_chain d = [] ∨ dr_failed d = true ∨ dr_writes d = []
        ∨ (∃ pre, ws' = pre ++ WrRetry :: dr_writes d) →
      dr_chain d = [] ∨ dr_failed d = true ∨ dr_writes d = []
        ∨ ∃ pre, WrOk k :: ws' = pre ++ WrRetry :: dr_writes d).
    { intros d [?|[?|[?|[pre ->]]]]; [by left|by right; left|by right; right; left|].
      right; right; right. by exists (WrOk k :: pre). }
    destruct (_ <? _); apply R, IH; cbn [length] in Hf |- *; lia.
  - right; right; right. by exists [].
  - by right; left.
Qed.
End FlushLoop.

(** *** Flags *)

Lemma land_clear f a m : Z.land a m = 0%Z → Z.land (clear_flag f a) m = Z.land f m.
Proof.
  intros E. unfold clear_flag. apply Z.bits_inj'. intros n Hn.
  rewrite !Z.land_spec, Z.ldiff_spec.
  apply (f_equal (fun z => Z.testbit z n)) in E. rewrite Z.land_spec, Z.bits_0 in E.
  by destruct (Z.testbit f n), (Z.testbit a n), (Z.testbit m n).
Qed.

Lemma has_flag_clear_other f a b : Z.land a b = 0%Z → has_flag (clear_flag f a) b = has_flag f b.
Proof. intros E. unfold has_flag. by rewrite land_clear. Qed.

Lemma has_flag_clear_same f a : has_flag (clear_flag f a) a = false.
Proof.
  unfold has_flag, clear_flag. rewrite negb_false_iff, Z.eqb_eq.
  apply Z.bits_inj'. intros n Hn. rewrite Z.land_spec, Z.ldiff_spec, Z.bits_0.
  by destruct (Z.testbit f n), (Z.testbit a n).
Qed.

Lemma has_flag_set_same f a : a ≠ 0%Z → has_flag (set_flag f a) a = true.
Proof.
  intros Ha. unfold has_flag, set_flag. rewrite negb_true_iff, Z.eqb_neq.
  rewrite Z.land_lor_distr_l, Z.land_diag. intros [_ E]%Z.lor_eq_0_iff. done.
Qed.

Lemma has_flag_lor f a b : has_flag f (Z.lor a b) = has_flag f a || has_flag f b.
Proof.
  unfold has_flag. rewrite Z.land_lor_distr_r. apply eq_true_iff_eq.
  rewrite orb_true_iff, !negb_true_iff, !Z.eqb_neq.
  rewrite Z.lor_eq_0_iff. destruct (Z.eq_dec (Z.land f a) 0%Z), (Z.eq_dec (Z.land f b) 0%Z); tauto.
Qed.

Lemma ws_state_clear f a : Z.land a M_WEBSOCKET_STATE = 0%Z →
  C_WEBSOCKET_STATE (clear_flag f a) = C_WEBSOCKET_STATE f.
Proof. apply land_clear. Qed.

Lemma ws_state_set f a : Z.land a M_WEBSOCKET_STATE = 0%Z →
  C_WEBSOCKET_STATE (set_flag f a) = C_WEBSOCKET_STATE f.
Proof.
  intros E. unfold C_WEBSOCKET_STATE, set_flag. by rewrite Z.land_lor_distr_l, E, Z.lor_0_r.
Qed.

Ltac flag_simpl := repeat first
  [ rewrite has_flag_clear_same | rewrite has_flag_set_same by done
  | rewrite has_flag_set_other by reflexivity | rewrite has_flag_clear_other by reflexivity
  | rewrite has_flag_set_state by reflexivity
  | rewrite ws_state_set by reflexivity | rewrite ws_state_clear by reflexivity ].

(** *** The output stream *)

(** What the transport took, what it will get next and what waits behind the
    upgrade. *)
Definition stream (w : world) : list Z :=
  sent w ++ match comm w with
            | Some c => content (outbound c) ++ content (websocket_upgrade_barrier c)
            | None => []
            end.

Lemma stream_emit w e : stream (emit w e) = stream w.
Proof. done. Qed.
Lemma stream_flags f w : stream (set_flags_w f w) = stream w.
Proof. unfold stream, set_flags_w. destruct (comm w) eqn:E; cbn; by rewrite ?E. Qed.

(** A slot whose queue can be written: no TLS handshake under way and a transport
    that does not fail. *)
Record flushable (w : world) (c : comm_abstract) : Prop := {
  fl_comm : comm w = Some c;
  fl_wbio : wbio c ≠ None;
  fl_out : chain_ok (outbound c);
  fl_bar : chain_ok (websocket_upgrade_barrier c);
  fl_writes : no_failure (writes w);
  fl_tls : tls_pending w = false
}.

(** ... and a WebSocket that is open, with nothing left behind the upgrade. *)
Record ready_world (w : world) (c : comm_abstract) : Prop := {
  rw_flush : flushable w c;
  rw_ready : C_WEBSOCKET_IS_READY (flags c) = true;
  rw_bar : websocket_upgrade_barrier c = [];
  rw_tp : C_WEBSOCKET_STATE (flags c) ≠ WS_TELNET_PENDING
}.

Definition extends (base : list Z) (w w' : world) : Prop :=
  fault w' = fault w ∧ ∃ extra, stream w' = base ++ extra.

(** Flag changes that keep the TLS and the WebSocket state. *)
Definition neutral (f : Z → Z) : Prop :=
  ∀ z, has_flag (f z) C_TLS_ESTABLISHED = has_flag z C_TLS_ESTABLISHED
       ∧ C_WEBSOCKET_STATE (f z) = C_WEBSOCKET_STATE z.

Lemma neutral_set a : Z.land a C_TLS_ESTABLISHED = 0%Z → Z.land a M_WEBSOCKET_STATE = 0%Z →
  neutral (fun z => set_flag z a).
Proof. intros E1 E2 z. by rewrite has_flag_set_other, ws_state_set. Qed.
Lemma neutral_clear a : Z.land a C_TLS_ESTABLISHED = 0%Z → Z.land a M_WEBSOCKET_STATE = 0%Z →
  neutral (fun z => clear_flag z a).
Proof. intros E1 E2 z. by rewrite has_flag_clear_other, ws_state_clear. Qed.
#[local] Hint Extern 1 (neutral _) => (apply neutral_set; reflexivity) : mudmux.
#[local] Hint Extern 1 (neutral _) => (apply neutral_clear; reflexivity) : mudmux.

Lemma flushable_flags f w c :
  (∀ z, has_flag (f z) C_TLS_ESTABLISHED = has_flag z C_TLS_ESTABLISHED) →
  flushable w c → flushable (set_flags_w f w) (set_flags c (f (flags c))).
Proof.
  intros Hn [Hc Hw Ho Hb Hws Ht]. unfold set_flags_w. rewrite Hc. split; try done.
  unfold tls_pending in *. rewrite Hc in Ht. cbn. by rewrite Hn.
Qed.

Lemma ready_flags f w c :
  neutral f → ready_world w c → ready_world (set_flags_w f w) (set_flags c (f (flags c))).
Proof.
  intros Hn [Hf Hr Hb Ht]. split; try done.
  - apply flushable_flags; [|done]. intros z. apply Hn.
  - unfold C_WEBSOCKET_IS_READY in *. cbn. by rewrite (proj2 (Hn _)).
  - cbn. by rewrite (proj2 (Hn _)).
Qed.

Lemma ready_emit w c e : ready_world w c → ready_world (emit w e) c.
Proof. intros [[] ? ? ?]. by split. Qed.
#[local] Hint Resolve ready_flags ready_emit : mudmux.

(** ** Order of the output *)

Section Flush.
Context `{Host}.

(** Hooks on an open WebSocket only add output behind what is queued, and do not
    drop the slot (its closing handshake is not over). *)
Class OutputHost := law_output : ∀ h w c,
  ready_world w c → ∃ c', ready_world (dispatch h w).1 c' ∧ extends (stream w) w (dispatch h w).1.

Context {laws : OutputHost}.

Lemma invoke_ready_spec w c :
  ready_world w c →
  ∃ c', ready_world (comm_invoke_transport_ready w) c'
    ∧ extends (stream w) w (comm_invoke_transport_ready w).
Proof.
  intros Hr. assert (Hc := fl_comm _ _ (rw_flush _ _ Hr)).
  assert (Same : ∃ c', ready_world w c' ∧ extends (stream w) w w).
  { exists c. split; [done|]. split; [done|]. exists []. by rewrite app_nil_r. }
  unfold comm_invoke_transport_ready. rewrite Hc.
  destruct (has_flag _ _); [done|]. destruct (tls_pending w); [done|].
  destruct (upgrade_pending _); [done|]. cbn zeta.
  set (w1 := raise C_TRANSPORT_READY w).
  set (w2 := if hook_async HOOK_TRANSPORT_READY then raise C_AWAITING_HOOK w1 else w1).
  assert (H2 : (∃ c2, ready_world w2 c2) ∧ stream w2 = stream w ∧ fault w2 = fault w).
  { assert (R1 : ready_world w1 (set_flags c (set_flag (flags c) C_TRANSPORT_READY))).
    { apply (ready_flags (fun z => set_flag z C_TRANSPORT_READY)); auto with mudmux. }
    assert (S1 : stream w1 = stream w) by apply stream_flags.
    assert (F1 : fault w1 = fault w) by (unfold w1, raise, set_flags_w; by rewrite Hc).
    unfold w2. destruct (hook_async _); [|by eauto]. split_and!.
    - eexists. apply (ready_flags (fun z => set_flag z C_AWAITING_HOOK)); [auto with mudmux|done].
    - etransitivity; [apply stream_flags|done].
    - unfold raise at 1, set_flags_w. by destruct (comm w1). }
  destruct H2 as ([c2 R2] & S2 & F2). clearbody w2. unfold do_dispatch.
  pose proof (law_output (slot_hook HOOK_TRANSPORT_READY) _ _
                (ready_emit _ _ (EDispatch (slot_hook HOOK_TRANSPORT_READY)) R2)) as (c3 & R3 & F3 & ex & S3).
  rewrite stream_emit, S2 in S3. cbn [emit fault] in F3. rewrite F2 in F3.
  destruct (dispatch _ _) as [w3 r]. cbn [fst] in R3, F3, S3. cbn [hc_type slot_hook].
  assert (G : ∀ w', w' = emit w3 (EAnswer (slot_hook HOOK_TRANSPORT_READY) r) → ∃ c', ready_world (if mudmux_dispatch_accepted r then w' else
      deref w' (fun _ => lower (Z.lor C_TRANSPORT_READY C_AWAITING_HOOK) w')) c'
    ∧ extends (stream w) w (if mudmux_dispatch_accepted r then w' else
      deref w' (fun _ => lower (Z.lor C_TRANSPORT_READY C_AWAITING_HOOK) w'))).
  { intros w' ->. destruct (mudmux_dispatch_accepted r).
    - exists c3. split; [by apply ready_emit|]. split; [done|]. by exists ex.
    - apply (ready_emit _ _ (EAnswer (slot_hook HOOK_TRANSPORT_READY) r)) in R3.
      assert (Hc3 := fl_comm _ _ (rw_flush _ _ R3)). unfold deref. rewrite Hc3. eexists. split.
      + apply (ready_flags (fun z => clear_flag z _)); [apply neutral_clear; reflexivity|done].
      + split; [unfold lower, set_flags_w; by rewrite Hc3|]. exists ex. unfold lower; by rewrite stream_flags. }
  apply G. by destruct (hook_async _).
Qed.

(** *** The telnet negotiation queued after the upgrade *)

(** What sending on an open WebSocket leaves alone. *)
Definition send_frame (x y : conn) : Prop :=
  wbio (cn y) = wbio (cn x) ∧ ssl (cn y) = ssl (cn x)
  ∧ websocket_upgrade_barrier (cn y) = websocket_upgrade_barrier (cn x)
  ∧ C_WEBSOCKET_STATE (flags (cn y)) = C_WEBSOCKET_STATE (flags (cn x))
  ∧ has_flag (flags (cn y)) C_TLS_ESTABLISHED = has_flag (flags (cn x)) C_TLS_ESTABLISHED
  ∧ (chain_ok (outbound (cn x)) → chain_ok (outbound (cn y))).

#[local] Instance send_frame_refl : Reflexive send_frame.
Proof. by intros x. Qed.
#[local] Instance send_frame_trans : Transitive send_frame.
Proof.
  intros x y z (A1 & A2 & A3 & A4 & A5 & A6) (B1 & B2 & B3 & B4 & B5 & B6).
  split_and!; try congruence. auto.
Qed.

Lemma write_raw_send x buf : send_frame x (comm_buffered_write_raw_comm x buf).
Proof.
  destruct (write_raw_frame x buf) as (_ & W & S & _ & B & _ & _ & _ & F & _).
  split_and!; try done; [|apply write_raw_chain_ok].
  unfold comm_buffered_write_raw_comm.
  destruct (bool_decide (wbio (cn x) = None) || (length buf =? 0)); [done|].
  destruct (_ <? length buf); [done|].
  destruct (raw_append _ _ _) as [[chain pool] queued].
  destruct queued; cbn zeta; cbn [negb]; [|done].
  destruct (negb _ && arm_write _); cbn; by flag_simpl.
Qed.

Lemma write_ready_send x buf normalize :
  C_WEBSOCKET_IS_READY (flags (cn x)) = true →
  send_frame x (comm_buffered_write_comm_impl x buf normalize).
Proof.
  intros Hr. unfold comm_buffered_write_comm_impl. destruct (_ =? 0); [done|]. cbn zeta.
  rewrite Hr. cbn [andb negb]. rewrite andb_false_r. destruct (_ =? _)%Z; [done|].
  destruct (comm_websocket_encode_frame _ _); [apply write_raw_send|done].
Qed.

Lemma send_ready x y : send_frame x y →
  C_WEBSOCKET_IS_READY (flags (cn x)) = true → C_WEBSOCKET_IS_READY (flags (cn y)) = true.
Proof. intros (_ & _ & _ & E & _). unfold C_WEBSOCKET_IS_READY. by rewrite E. Qed.

Lemma telnet_send_send verb x option :
  C_WEBSOCKET_IS_READY (flags (cn x)) = true → send_frame x (telnet_send verb x option).
Proof.
  intros Hr. unfold telnet_send. destruct (bool_decide _); [done|]. by apply write_ready_send.
Qed.

Lemma negotiation_send x :
  C_WEBSOCKET_IS_READY (flags (cn x)) = true → send_frame x (comm_start_telnet_negotiation x).
Proof.
  intros Hr. unfold comm_start_telnet_negotiation. destruct (has_flag _ _); [|done].
  unfold start_telnet_negotiation. destruct (ssl (cn x)); [done|].
  assert (A := telnet_send_send 251 x TELOPT_SGA Hr).
  assert (B := telnet_send_send 253 _ TELOPT_SGA (send_ready _ _ A Hr)).
  assert (C := telnet_send_send 252 _ TELOPT_ECHO (send_ready _ _ (transitivity A B) Hr)).
  assert (D := telnet_send_send 253 _ TELOPT_LINEMODE
                 (send_ready _ _ (transitivity (transitivity A B) C) Hr)).
  etransitivity; [exact A|]. etransitivity; [exact B|]. etransitivity; [exact C|exact D].
Qed.

(** *** The three stages of a flush *)

Lemma settle_spec w c : comm w = Some c →
  stream (flush_settle w) = stream w ∧ fault (flush_settle w) = fault w.
Proof.
  intros Hc. unfold flush_settle, deref. rewrite Hc.
  assert (K : ∀ f v, stream (set_flags_w f v) = stream v ∧ fault (set_flags_w f v) = fault v).
  { intros f v. split; [apply stream_flags|]. unfold set_flags_w. by destruct (comm v). }
  destruct (negb _); [done|]. destruct (outbound c); cbn zeta.
  - set (w1 := if flag w C_SOCKET_WRITABLE then _ else w).
    assert (K1 : stream w1 = stream w ∧ fault w1 = fault w).
    { unfold w1. destruct (flag w _); [|done]. apply (K _ (emit w _)). }
    destruct (K (fun f => clear_flag f C_BUFFERED_WRITE) w1) as [K2 K3]. destruct K1 as [K0 K1].
    fold (lower C_BUFFERED_WRITE w1) in K2, K3. set (w2 := lower _ w1) in *.
    destruct (flag w2 _ && _); [|split; congruence].
    destruct (_ && _); split; rewrite ?stream_emit; cbn; congruence.
  - destruct (flag w _); [done|]. apply (K _ w).
Qed.

(** The write loop in the slot: flags and barrier are kept, bytes only move. *)
Lemma drain_spec rec w c :
  flushable w c →
  ∃ w2 c2, flushable w2 c2 ∧ flags c2 = flags c
    ∧ websocket_upgrade_barrier c2 = websocket_upgrade_barrier c ∧ stream w2 = stream w
    ∧ fault w2 = fault w
    ∧ flush_queue rec w
      = if bool_decide (outbound c2 = []) && (C_WEBSOCKET_STATE (flags c2) =? WS_TELNET_PENDING)%Z
        then let w3 := set_flags_w (fun f => C_WEBSOCKET_SET_STATE f WS_READY) w2 in
             if flag w3 C_CLOSING then flush_barrier rec w3
             else rec (on_conn comm_start_telnet_negotiation w3)
        else flush_barrier rec w2.
Proof.
  intros [Hc Hw Ho Hb Hws Ht]. destruct Ho as [Hl Hf].
  unfold flush_queue. rewrite Hc. cbn zeta. set (d := drain _ _ _ _).
  destruct (flush_loop_spec (S (length (outbound c) + length (writes w))) (outbound c) (opool w)
              (writes w) (sent w) Hf) as (E & D1 & D2 & D3).
  fold (drain (outbound c) (opool w) (writes w) (sent w)) in E, D1, D2, D3. fold d in E, D1, D2, D3.
  destruct (D3 Hws) as [-> D4]. clear D3.
  set (w1 := with_writes _ _ _).
  exists (emit w1 EFlush), (set_outbound c (dr_chain d)).
  split; [|split_and!; [done..| |done|reflexivity]].
  - split; try done.
    + split; [cbn [set_outbound outbound]; lia|done].
    + unfold tls_pending in *. rewrite Hc in Ht. exact Ht.
  - unfold stream. rewrite Hc. cbn [w1 emit with_writes with_opool with_comm comm sent
      set_outbound outbound websocket_upgrade_barrier]. by rewrite !app_assoc, E.
Qed.

Lemma barrier_spec rec w c :
  flushable w c → C_WEBSOCKET_STATE (flags c) ≠ WS_TELNET_PENDING →
  (websocket_upgrade_barrier c ≠ [] →
   ∀ v d, ready_world v d → ∃ v', rec v = Some v' ∧ extends (stream v) v v') →
  ∃ w', flush_barrier rec w = Some w' ∧ extends (stream w) w w'.
Proof.
  intros Hfl Htp Hrec. assert (Hc := fl_comm _ _ Hfl). unfold flush_barrier. rewrite Hc. cbn zeta.
  assert (Settle : ∀ v d, comm v = Some d → extends (stream w) w v →
    ∃ w', Some (flush_settle v) = Some w' ∧ extends (stream w) w w').
  { intros v d Hv (Fv & ex & Sv). eexists. split; [done|].
    destruct (settle_spec v d Hv) as [S1 F1]. split; [congruence|]. exists ex. congruence. }
  assert (Refl : extends (stream w) w w) by (split; [done|exists []; by rewrite app_nil_r]).
  destruct (bool_decide (outbound c = [])) eqn:Eo; cbn [andb]; [|by eapply Settle].
  destruct (C_WEBSOCKET_IS_READY (flags c)) eqn:Er; cbn [andb]; [|by eapply Settle].
  apply bool_decide_eq_true in Eo.
  destruct (bool_decide (websocket_upgrade_barrier c ≠ [])) eqn:Eb.
  - apply bool_decide_eq_true in Eb.
    set (c1 := set_barrier (set_outbound c (websocket_upgrade_barrier c)) []).
    set (w1 := raise C_BUFFERED_WRITE (with_comm w (Some c1))).
    assert (R1 : ready_world w1 (set_flags c1 (set_flag (flags c) C_BUFFERED_WRITE))).
    { apply (ready_flags (fun z => set_flag z C_BUFFERED_WRITE) _ c1); [auto with mudmux|].
      destruct Hfl as [_ F2 F3 F4 F5 F6]. split; try done. split; try done.
      - split; [cbn; lia|constructor].
      - unfold tls_pending in *. by rewrite Hc in F6. }
    assert (S1 : stream w1 = stream w).
    { unfold stream. cbn. rewrite Hc, Eo. cbn. by rewrite app_nil_r. }
    destruct (invoke_ready_spec w1 _ R1) as (c2 & R2 & F2 & e2 & S2).
    rewrite (fl_comm _ _ (rw_flush _ _ R2)).
    destruct (Hrec Eb _ _ R2) as (v' & -> & F3 & e3 & S3). eexists. split; [done|].
    split; [rewrite F3, F2; done|]. exists (e2 ++ e3). by rewrite S3, S2, S1, app_assoc.
  - apply bool_decide_eq_false in Eb.
    assert (R : ready_world w c).
    { split; try done. by destruct (websocket_upgrade_barrier c); [|destruct Eb]. }
    destruct (invoke_ready_spec w c R) as (c2 & R2 & X2).
    eapply Settle; [exact (fl_comm _ _ (rw_flush _ _ R2))|done].
Qed.

Lemma flush_enter n w c :
  flushable w c → comm_flush (S n) w = flush_queue (comm_flush n) w.
Proof.
  intros [Hc Hw _ _ _ Ht]. cbn [comm_flush]. rewrite Hc, bool_decide_eq_false_2, Ht by done. done.
Qed.

Lemma flush_ready n w c :
  ready_world w c → ∃ w', comm_flush (S n) w = Some w' ∧ extends (stream w) w w'.
Proof.
  intros [Hf Hr Hb Ht]. rewrite (flush_enter _ _ _ Hf).
  destruct (drain_spec (comm_flush n) w c Hf) as (w2 & c2 & F2 & Fl & B2 & S2 & F & ->).
  rewrite Fl, (proj2 (Z.eqb_neq _ _)), andb_false_r by done.
  destruct (barrier_spec (comm_flush n) w2 c2 F2) as (w' & E & X).
  - by rewrite Fl.
  - rewrite B2. by intros [].
  - exists w'. split; [done|]. by rewrite <- S2; destruct X as [X1 X2]; split; [congruence|].
Qed.

Lemma flush_open n w c :
  flushable w c → C_WEBSOCKET_STATE (flags c) ≠ WS_TELNET_PENDING →
  ∃ w', comm_flush (S (S n)) w = Some w' ∧ extends (stream w) w w'.
Proof.
  intros Hf Ht. rewrite (flush_enter _ _ _ Hf).
  destruct (drain_spec (comm_flush (S n)) w c Hf) as (w2 & c2 & F2 & Fl & B2 & S2 & F & ->).
  rewrite Fl, (proj2 (Z.eqb_neq _ _)), andb_false_r by done.
  destruct (barrier_spec (comm_flush (S n)) w2 c2 F2) as (w' & E & X).
  - by rewrite Fl.
  - intros _ v d R. by eapply flush_ready.
  - exists w'. split; [done|]. rewrite <- S2. destruct X as [X1 X2]; split; [congruence|done].
Qed.

(** A drained slot whose telnet negotiation is due. *)
Lemma flush_negotiation n w c :
  flushable w c → outbound c = [] → C_WEBSOCKET_IS_READY (flags c) = true →
  C_WEBSOCKET_STATE (flags c) = WS_READY →
  ∃ w' nego, comm_flush (S (S n)) (on_conn comm_start_telnet_negotiation w) = Some w'
    ∧ extends (sent w ++ nego ++ content (websocket_upgrade_barrier c)) w w'.
Proof.
  intros [Hc Hw Ho Hb Hws Ht] Eo Hr Hs. unfold on_conn. rewrite Hc. cbn zeta.
  set (x := comm_start_telnet_negotiation _).
  destruct (negotiation_send {| cn := c; cn_pool := opool w |} Hr) as (N1 & N2 & N3 & N4 & N5 & N6).
  fold x in N1, N2, N3, N4, N5, N6. cbn [cn] in *.
  set (w4 := with_opool _ _).
  assert (F4 : flushable w4 (cn x)).
  { split; try done.
    - by rewrite N1.
    - by apply N6.
    - by rewrite N3.
    - unfold tls_pending in *. rewrite Hc in Ht. cbn. by rewrite N2, N5. }
  destruct (flush_open n w4 (cn x) F4) as (w' & E & F & ex & S); [by rewrite N4, Hs|].
  exists w', (content (outbound (cn x))). split; [done|]. split; [done|].
  exists ex. rewrite S. unfold stream. cbn. by rewrite N3, <- !app_assoc.
Qed.

(** What a flush of [w] may leave: the stream in order, with the telnet
    negotiation [nego] in its place. *)
Definition flushed (w : world) (c : comm_abstract) (w' : world) : Prop :=
  fault w' = fault w ∧ ∃ nego extra,
    stream w' = sent w ++ content (outbound c) ++ nego
                ++ content (websocket_upgrade_barrier c) ++ extra
    ∧ (nego = [] ∨ C_WEBSOCKET_STATE (flags c) = WS_TELNET_PENDING).

Lemma extends_flushed w c w' : comm w = Some c → extends (stream w) w w' → flushed w c w'.
Proof.
  intros Hc (F & ex & S). split; [done|]. exists [], ex. split; [|by left].
  rewrite S. unfold stream. by rewrite Hc, <- !app_assoc.
Qed.

Lemma flush_pending w c :
  flushable w c → C_WEBSOCKET_STATE (flags c) = WS_TELNET_PENDING →
  ∃ w', comm_flush 3 w = Some w' ∧ flushed w c w'.
Proof.
  intros Hf Tp. assert (Hc := fl_comm _ _ Hf). rewrite (flush_enter _ _ _ Hf).
  destruct (drain_spec (comm_flush 2) w c Hf) as (w2 & c2 & F2 & Fl & B2 & S2 & Fa & ->).
  assert ((C_WEBSOCKET_STATE (flags c2) =? WS_TELNET_PENDING)%Z = true) as ->
    by (by rewrite Fl, Tp). rewrite andb_true_r. assert (Hc2 := fl_comm _ _ F2).
  destruct (bool_decide (outbound c2 = [])) eqn:Eo; cbn zeta.
  2:{ destruct (settle_spec w2 c2 Hc2) as [S3 F3]. exists (flush_settle w2).
      split; [unfold flush_barrier; by rewrite Hc2, Eo|]. apply extends_flushed; [done|].
      split; [congruence|]. exists []. rewrite app_nil_r. congruence. }
  apply bool_decide_eq_true in Eo.
  set (w3 := set_flags_w _ w2). set (c3 := set_flags c2 (C_WEBSOCKET_SET_STATE (flags c2) WS_READY)).
  assert (F3 : flushable w3 c3)
    by (apply flushable_flags; [|done]; intros z; by rewrite has_flag_set_state).
  assert (St : C_WEBSOCKET_STATE (flags c3) = WS_READY)
    by (cbn; rewrite ws_state_set_state; reflexivity).
  assert (S3 : stream w3 = stream w) by (rewrite <- S2; apply stream_flags).
  assert (Fa3 : fault w3 = fault w) by (unfold w3, set_flags_w; rewrite Hc2; exact Fa).
  destruct (flag w3 C_CLOSING).
  - destruct (barrier_spec (comm_flush 2) w3 c3 F3) as (w' & E & X1 & X2).
    + by rewrite St.
    + intros _ v d R. by eapply flush_ready.
    + exists w'. split; [done|]. apply extends_flushed; [done|]. split; [congruence|]. by rewrite <- S3.
  - assert (Hr : C_WEBSOCKET_IS_READY (flags c3) = true) by (unfold C_WEBSOCKET_IS_READY; by rewrite St).
    destruct (flush_negotiation 0 w3 c3 F3 Eo Hr St) as (w' & nego & E & X1 & ex & X2).
    exists w'. split; [done|]. split; [congruence|]. exists nego, ex. split; [|by right].
    assert (Hs : sent w3 = sent w ++ content (outbound c)).
    { unfold stream in S2. rewrite Hc2, Eo, B2, Hc in S2. cbn in S2.
      rewrite app_assoc in S2. apply app_inv_tail in S2. unfold w3, set_flags_w. by rewrite Hc2. }
    rewrite X2, Hs. cbn [c3 set_flags websocket_upgrade_barrier]. by rewrite B2, <- !app_assoc.
Qed.

(** C4: a flush returns after at most three nested calls and, whatever the
    transport accepts and however often it asks to wait, the bytes leave in the
    order they were queued, none lost and none sent twice: the queue, then the
    telnet negotiation if one was due, then the output held behind the upgrade,
    then what the transport-ready hook adds.  No removed slot is accessed. *)
Theorem flush_order w c :
  flushable w c →
  ∃ w' nego extra, comm_flush 3 w = Some w' ∧ fault w' = fault w
    ∧ stream w' = sent w ++ content (outbound c) ++ nego
                  ++ content (websocket_upgrade_barrier c) ++ extra
    ∧ (nego = [] ∨ C_WEBSOCKET_STATE (flags c) = WS_TELNET_PENDING).
Proof.
  intros Hf. enough (∃ w', comm_flush 3 w = Some w' ∧ flushed w c w')
    as (w' & E & F & nego & ex & S & N) by (by exists w', nego, ex).
  destruct (decide (C_WEBSOCKET_STATE (flags c) = WS_TELNET_PENDING)) as [Tp|Tp];
    [by apply flush_pending|].
  destruct (flush_open 1 w c Hf Tp) as (w' & E & X). exists w'. split; [done|].
  by apply extends_flushed; [apply fl_comm|].
Qed.
End Flush.

(** ** Progress and failure *)

Section Progress.
Context `{Host}.

(** A transport that takes every buffer at once. *)
Definition willing (ws : list write_answer) : Prop :=
  Forall (fun a => ∃ k, a = WrOk k ∧ kBufferSize ≤ k) ws.

Lemma flush_loop_willing fuel chain pool ws out :
  Forall buffer_ok chain → willing ws → length chain ≤ length ws → length chain < fuel →
  let d := flush_loop fuel chain pool ws out in
  dr_chain d = [] ∧ dr_failed d = false ∧ dr_sent d = out ++ content chain.
Proof.
  revert chain pool ws out. induction fuel as [|n IH]; intros chain pool ws out Hok Hw Hl Hf; [lia|].
  destruct chain as [|obb rest]; [by rewrite app_nil_r|]. inversion_clear Hok as [|?? Hb Hr].
  cbn [length] in Hl, Hf. cbn [flush_loop]. cbn zeta. set (data := drop _ _).
  assert (Ec : content (obb :: rest) = data ++ content rest) by done.
  destruct (length data =? 0) eqn:E0; breflect.
  { destruct (IH rest (free_outbound_buffer obb pool) ws out Hr Hw ltac:(lia) ltac:(lia))
      as (I1 & I2 & I3). split_and!; try done. rewrite I3, Ec. by rewrite (nil_length_inv _ E0). }
  destruct ws as [|a ws']; [cbn in Hl; lia|]. inversion_clear Hw as [|?? (k & -> & Hk) Hws].
  assert (Hdata : length data ≤ kBufferSize)
    by (unfold data, buffer_ok, ob_end in *; rewrite length_drop; lia).
  assert (accepted k (length data) = length data) as -> by (unfold accepted; lia).
  rewrite (proj2 (Nat.ltb_ge _ _)).
  2:{ unfold ob_end, data. cbn [ob_sent ob_start ob_data]. rewrite length_drop. lia. }
  destruct (IH rest (free_outbound_buffer (ob_sent obb (length data)) pool) ws'
              (out ++ take (length data) data) Hr Hws ltac:(cbn in Hl; lia) ltac:(lia)) as (I1 & I2 & I3).
  split_and!; try done. rewrite I3, Ec, firstn_all. by rewrite <- app_assoc.
Qed.

(** A slot in plain use: not closing, no WebSocket, a socket underneath. *)
Record plain_socket (w : world) (c : comm_abstract) : Prop := {
  ps_comm : comm w = Some c;
  ps_fd : get_socket_fd (wbio c) = true;
  ps_out : chain_ok (outbound c);
  ps_tls : tls_pending w = false;
  ps_ws : C_WEBSOCKET_IS_READY (flags c) = false
}.

Lemma plain_enter n w c d :
  plain_socket w c → d = drain (outbound c) (opool w) (writes w) (sent w) →
  let w1 := with_writes (with_opool (with_comm w (Some (set_outbound c (dr_chain d))))
                           (dr_pool d)) (dr_writes d) (dr_sent d) in
  dr_failed d = false →
  comm_flush (S n) w = Some (flush_settle (emit w1 EFlush)).
Proof.
  intros [Hc Hd Ho Ht Hws] -> w1 Hf. cbn [comm_flush]. rewrite Hc, Ht.
  rewrite bool_decide_eq_false_2 by (intros E; by rewrite E in Hd). cbn [andb].
  unfold flush_queue. rewrite Hc. cbn zeta. rewrite Hf.
  cbn [emit with_writes with_opool with_comm comm set_outbound flags].
  assert ((C_WEBSOCKET_STATE (flags c) =? WS_TELNET_PENDING)%Z = false) as ->.
  { apply Z.eqb_neq. intros E. unfold C_WEBSOCKET_IS_READY in Hws. by rewrite E in Hws. }
  rewrite andb_false_r. unfold flush_barrier.
  cbn [emit with_writes with_opool with_comm comm set_outbound flags]. cbn zeta.
  rewrite Hws, andb_false_r. done.
Qed.

(** Output is delivered: when the transport accepts what it is offered, one
    flush of an open connection sends the whole queue, leaves it empty, clears
    the buffered-write and writable flags and stops watching for writability. *)
Theorem flush_complete w c :
  plain_socket w c → has_flag (flags c) C_CLOSING = false →
  willing (writes w) → length (outbound c) ≤ length (writes w) →
  ∃ w' c', comm_flush 1 w = Some w' ∧ comm w' = Some c' ∧ sent w' = sent w ++ content (outbound c)
    ∧ outbound c' = [] ∧ has_flag (flags c') C_BUFFERED_WRITE = false
    ∧ has_flag (flags c') C_SOCKET_WRITABLE = false
    ∧ log w' = log w ++ [EFlush]
               ++ (if has_flag (flags c) C_SOCKET_WRITABLE then [EModify false] else []).
Proof.
  intros Hp Hcl Hw Hl. destruct (ps_out _ _ Hp) as [_ Hok].
  destruct (flush_loop_willing (S (length (outbound c) + length (writes w))) (outbound c) (opool w)
              (writes w) (sent w) Hok Hw Hl ltac:(lia)) as (D1 & D2 & D3).
  rewrite (plain_enter 0 w c _ Hp eq_refl D2).
  fold (drain (outbound c) (opool w) (writes w) (sent w)) in D1, D2, D3.
  set (d := drain _ _ _ _) in *. rewrite D1, D3. destruct Hp as [Hc Hd _ _ Hws].
  unfold flush_settle, deref. cbn [emit with_writes with_opool with_comm comm set_outbound wbio outbound].
  rewrite Hd. cbn [negb]. cbn zeta.
  unfold lower, set_flags_w, flag, flags_of.
  cbn [emit with_writes with_opool with_comm comm set_outbound set_flags flags log sent].
  destruct (has_flag (flags c) C_SOCKET_WRITABLE) eqn:Ew;
    cbn [emit with_writes with_opool with_comm comm set_outbound set_flags flags log sent];
    flag_simpl; rewrite Hcl; cbn [andb]; eexists _, _; (split; [done|]); (split; [done|]);
    cbn [set_flags flags outbound set_outbound log sent with_comm emit with_writes with_opool];
    flag_simpl; rewrite ?Ew, <- ?app_assoc; done.
Qed.
End Progress.

(** ** Closing *)

Section Close.
Context `{Host}.

(** Answers to the disconnect notification other than "queue full": the hook has
    run, is with a worker, or could not be given to one; the close protocol does
    not dispatch it again. *)
Definition settles (e : effect) : bool :=
  match e with
  | EAnswer h r => bool_decide (hc_type h = HOOK_DISCONNECT)
                   && match r with DISPATCH_QUEUE_FULL => false | _ => true end
  | _ => false
  end.
Definition settled (w : world) : nat := length (List.filter settles (log w)).

Lemma settled_emit w e : settled (emit w e) = settled w + (if settles e then 1 else 0).
Proof.
  unfold settled. cbn [emit log]. rewrite List.filter_app, length_app.
  cbn [List.filter]. by destruct (settles e).
Qed.

(** The two flags of the close protocol. *)
Definition phase (w : world) : option (bool * bool) :=
  c ← comm w; Some (has_flag (flags c) C_CLOSING, has_flag (flags c) C_DISCONNECT_PENDING).

(** Once the notification is dispatched the slot stays, closing, until the hook
    has completed: a nested close waits for it. *)
Class CloseHost := law_close : ∀ w,
  phase w = Some (true, false) → flag w C_AWAITING_HOOK = true →
  let w' := (dispatch (slot_hook HOOK_DISCONNECT) w).1 in
  phase w' = Some (true, false) ∧ settled w' = settled w.

Context {laws : CloseHost}.

Lemma phase_flags f w :
  (∀ z, has_flag (f z) C_CLOSING = has_flag z C_CLOSING
        ∧ has_flag (f z) C_DISCONNECT_PENDING = has_flag z C_DISCONNECT_PENDING) →
  phase (set_flags_w f w) = phase w ∧ settled (set_flags_w f w) = settled w.
Proof.
  intros Hf. unfold phase, set_flags_w. destruct (comm w) as [c|] eqn:E; cbn.
  - by rewrite (proj1 (Hf _)), (proj2 (Hf _)).
  - by rewrite E.
Qed.

Lemma phase_lower bits w :
  Z.land bits (Z.lor C_CLOSING C_DISCONNECT_PENDING) = 0%Z →
  phase (lower bits w) = phase w ∧ settled (lower bits w) = settled w.
Proof.
  intros E. apply phase_flags. intros z. rewrite Z.land_lor_distr_r in E.
  apply Z.lor_eq_0_iff in E as [E1 E2]. by rewrite !has_flag_clear_other.
Qed.

Lemma write_raw_flag x buf b :
  Z.land (Z.lor C_BUFFERED_WRITE C_SOCKET_WRITABLE) b = 0%Z →
  has_flag (flags (cn (comm_buffered_write_raw_comm x buf))) b = has_flag (flags (cn x)) b.
Proof.
  intros E. rewrite Z.land_lor_distr_l in E. apply Z.lor_eq_0_iff in E as [E1 E2].
  unfold comm_buffered_write_raw_comm.
  destruct (bool_decide (wbio (cn x) = None) || (length buf =? 0)); [done|].
  destruct (_ <? length buf); [done|].
  destruct (raw_append _ _ _) as [[chain pool] queued].
  destruct queued; cbn zeta; cbn [negb]; [|done].
  destruct (negb _ && arm_write _); cbn; by rewrite ?has_flag_set_other.
Qed.

Lemma queue_close_flag x payload b :
  Z.land (Z.lor C_BUFFERED_WRITE C_SOCKET_WRITABLE) b = 0%Z → Z.land M_WEBSOCKET_STATE b = 0%Z →
  has_flag (flags (cn (comm_websocket_queue_close x payload).1)) b = has_flag (flags (cn x)) b.
Proof.
  intros E1 E2. unfold comm_websocket_queue_close. destruct (_ || _); [done|].
  destruct (comm_websocket_encode_frame _ _); [|done]. cbn [fst on_flags on_comm cn set_flags flags].
  by rewrite has_flag_set_state, write_raw_flag.
Qed.

Lemma phase_queue_close w payload :
  let w' := on_conn (fun x => (comm_websocket_queue_close x payload).1) w in
  phase w' = phase w ∧ settled w' = settled w.
Proof.
  unfold on_conn, phase. cbn zeta. destruct (comm w) as [c|] eqn:E; cbn; [|by rewrite E].
  by rewrite !queue_close_flag.
Qed.

Lemma phase_free_outbound w :
  phase (comm_free_outbound_buffers w) = phase w
  ∧ settled (comm_free_outbound_buffers w) = settled w.
Proof. unfold phase, comm_free_outbound_buffers. destruct (comm w) eqn:E; cbn; by rewrite ?E. Qed.

Lemma remove_slot_spec w :
  is_Some (phase w) → settled (remove_slot w) = settled w ∧ comm (remove_slot w) = None.
Proof.
  unfold phase, remove_slot. destruct (comm w) as [c|]; [intros _|by intros []].
  split; [|done]. unfold settled. cbn. rewrite List.filter_app, length_app. cbn. lia.
Qed.

(** The conditions under which the second half of a close gives the slot up: no
    hook under way; for the console, file input; for any other slot, no output
    flagged as buffered, except where a TLS handshake was never finished, and on
    a ready WebSocket the peer's Close frame.  Output held behind an upgrade that
    never finished is not waited for. *)
Definition closable (w : world) (c : comm_abstract) : Prop :=
  has_flag (flags c) C_AWAITING_HOOK = false
  ∧ if (host_slot =? COMM_SLOT_CONSOLE)%Z then file_inputs = true
    else (has_flag (flags c) C_BUFFERED_WRITE = true → tls_pending w = true)
      ∧ (C_WEBSOCKET_IS_READY (flags c) = true → C_WEBSOCKET_STATE (flags c) = WS_CLOSE_RECEIVED).

Lemma close_tail_spec b w c :
  comm w = Some c →
  settled (close_tail b w).1 = settled w
  ∧ (if (close_tail b w).2 then comm (close_tail b w).1 = None else phase (close_tail b w).1 = phase w)
  ∧ ((close_tail b w).2 = true → closable w c).
Proof.
  intros Hc. unfold close_tail, closable. rewrite Hc. cbn zeta.
  destruct (has_flag (flags c) C_AWAITING_HOOK) eqn:Ea; [done|].
  assert (Free : ∀ v, phase (lower C_BUFFERED_WRITE (comm_free_outbound_buffers v)) = phase v
    ∧ settled (lower C_BUFFERED_WRITE (comm_free_outbound_buffers v)) = settled v).
  { intros v. destruct (phase_lower C_BUFFERED_WRITE (comm_free_outbound_buffers v) eq_refl) as [-> ->].
    apply phase_free_outbound. }
  destruct (host_slot =? COMM_SLOT_CONSOLE)%Z eqn:Es.
  { destruct (Free w) as [F1 F2]. destruct file_inputs.
    - cbn [fst snd]. rewrite settled_emit, Nat.add_0_r.
      destruct (remove_slot_spec (lower C_BUFFERED_WRITE (comm_free_outbound_buffers w))) as [R1 R2].
      { rewrite F1. unfold phase. by rewrite Hc. }
      split_and!; [congruence|done|done].
    - destruct b; split_and!; try done; cbn [fst]. by rewrite settled_emit, F2. }
  destruct (has_flag (flags c) C_BUFFERED_WRITE && negb (tls_pending w)) eqn:Eb; [done|].
  set (w1 := if has_flag (flags c) C_BUFFERED_WRITE then _ else w).
  assert (P1 : phase w1 = phase w ∧ settled w1 = settled w)
    by (unfold w1; destruct (has_flag (flags c) C_BUFFERED_WRITE); [apply Free|done]).
  destruct P1 as [P1 S1].
  destruct (C_WEBSOCKET_IS_READY (flags c) && _ && _) eqn:E1; cbn [fst snd].
  { destruct (phase_queue_close w1 [0x03; 0xe8]%Z) as [Q1 Q2]. split_and!; [congruence..|done]. }
  clear E1. destruct (C_WEBSOCKET_IS_READY (flags c) && _) eqn:E2; cbn [fst snd];
    [by split_and!|].
  assert (Cl : (has_flag (flags c) C_BUFFERED_WRITE = true → tls_pending w = true)
    ∧ (C_WEBSOCKET_IS_READY (flags c) = true → C_WEBSOCKET_STATE (flags c) = WS_CLOSE_RECEIVED)).
  { split.
    - intros B. rewrite B in Eb. cbn [andb] in Eb. by apply negb_false_iff in Eb.
    - intros R. rewrite R in E2. cbn [andb] in E2. apply negb_false_iff in E2. by apply Z.eqb_eq. }
  set (w2 := if bool_decide _ && _ then emit w1 ESslShutdown else w1).
  assert (S2 : settled w2 = settled w ∧ comm w2 = comm w1).
  { unfold w2. destruct (bool_decide _ && _); split; try done. rewrite settled_emit. cbn [settles]. lia. }
  set (df := fun (v : world) (o : option nat) => match o with
             | Some n => if bio_has_fd n then emit v (ERemoveFd n) else v | None => v end).
  assert (Sd : ∀ v o, settled (df v o) = settled v ∧ comm (df v o) = comm v).
  { intros v o. unfold df. destruct o as [n|]; [|done].
    destruct (bio_has_fd n); split; try done. rewrite settled_emit. cbn [settles]. lia. }
  fold df. set (w3 := df (df w2 (rbio c)) (wbio c)).
  destruct (Sd (df w2 (rbio c)) (wbio c)) as [A1 A2]. destruct (Sd w2 (rbio c)) as [B1 B2].
  destruct S2 as [C1 C2]. fold w3 in A1, A2.
  destruct (remove_slot_spec w3) as [R1 R2].
  { unfold phase. rewrite A2, B2, C2. fold (phase w1). rewrite P1. unfold phase. by rewrite Hc. }
  split_and!; [etransitivity; [exact R1|congruence]|exact R2|done].
Qed.

(** *** The disconnect notification *)

(** The life of a slot: closes by the event loop, and steps of the rest of the
    program, which neither remove the slot nor touch the close protocol. *)
Inductive life_step : world → world → Prop :=
  | ls_close b w : life_step w (comm_close_impl b w).1
  | ls_other w w' : is_Some (comm w) → phase w' = phase w → settled w' = settled w → life_step w w'.

Definition life_inv (w : world) : Prop :=
  match phase w with
  | None => settled w = 1
  | Some (false, pending) => pending = false ∧ settled w = 0
  | Some (true, pending) => settled w = if pending then 0 else 1
  end.

Lemma closed_tail_inv b w :
  phase w = Some (true, false) → settled w = 1 → life_inv (close_tail b w).1.
Proof.
  intros Hp Hs. assert (∃ c, comm w = Some c) as [c Hc]
    by (unfold phase in Hp; destruct (comm w); by eauto).
  destruct (close_tail_spec b w c Hc) as (A & B & _). unfold life_inv.
  destruct (close_tail b w).2; [|by rewrite B, Hp, A].
  unfold phase at 1. by rewrite B, A.
Qed.

(** Dispatching the notification from a slot that is not settled yet. *)
Lemma dispatch_disconnect w :
  is_Some (comm w) →
  let w1 := raise C_AWAITING_HOOK (emit (lower C_DISCONNECT_PENDING (raise C_CLOSING w)) ECancelAwait) in
  let '(w2, r) := do_dispatch (slot_hook HOOK_DISCONNECT) disconnect_hook_complete w1 in
  phase w2 = Some (true, false)
  ∧ settled w2 = settled w + match r with DISPATCH_QUEUE_FULL => 0 | _ => 1 end.
Proof.
  intros [c Hc] w1.
  assert (E1 : phase w1 = Some (true, false) ∧ settled w1 = settled w
               ∧ flag w1 C_AWAITING_HOOK = true).
  { unfold w1, raise, lower, phase, flag, flags_of, set_flags_w, settled. rewrite Hc. cbn.
    rewrite List.filter_app, length_app. cbn. flag_simpl. split_and!; [done|lia|done]. }
  destruct E1 as (P1 & S1 & A1). unfold do_dispatch.
  destruct (law_close (emit w1 (EDispatch (slot_hook HOOK_DISCONNECT))) P1 A1) as [P2 S2].
  destruct (dispatch _ _) as [w2 r]. cbn [fst] in P2, S2. cbn [slot_hook hc_type].
  rewrite settled_emit in S2. cbn [settles] in S2.
  destruct (phase_lower C_AWAITING_HOOK w2 eq_refl) as [P3 S3].
  split.
  - unfold phase. cbn [emit comm]. destruct (hook_async _); [exact P2|].
    change (phase (lower C_AWAITING_HOOK w2) = Some (true, false)). congruence.
  - rewrite settled_emit. cbn [settles slot_hook hc_type bool_decide].
    assert (settled (if hook_async HOOK_DISCONNECT then w2 else disconnect_hook_complete w2)
            = settled w) as ->.
    { destruct (hook_async _); [lia|]. change (settled (lower C_AWAITING_HOOK w2) = settled w). lia. }
    by destruct r.
Qed.

(** What a close does: it goes on to its second half from a state in which the
    notification is settled, by an earlier close or by this one, or it stops
    with the slot closing: the notification is with a worker, or has to be
    dispatched again. *)
Lemma close_cases b w c :
  comm w = Some c →
  (∃ w1 c1, comm w1 = Some c1 ∧ phase w1 = Some (true, false)
     ∧ (if negb (has_flag (flags c) C_CLOSING) || has_flag (flags c) C_DISCONNECT_PENDING
        then settled w1 = S (settled w) else w1 = w)
     ∧ comm_close_impl b w = close_tail b w1)
  ∨ (comm_close_impl b w).2 = false
    ∧ negb (has_flag (flags c) C_CLOSING) || has_flag (flags c) C_DISCONNECT_PENDING = true
    ∧ ∃ p, phase (comm_close_impl b w).1 = Some (true, p)
         ∧ settled (comm_close_impl b w).1 = settled w + if p then 0 else 1.
Proof.
  intros Hc. unfold comm_close_impl. rewrite Hc.
  destruct (negb (has_flag (flags c) C_CLOSING) || has_flag (flags c) C_DISCONNECT_PENDING) eqn:E.
  2:{ left. apply orb_false_iff in E as [E1%negb_false_iff E2]. exists w, c.
      split_and!; [done| |done|done]. unfold phase. rewrite Hc. cbn. by rewrite E1, E2. }
  cbn zeta. pose proof (dispatch_disconnect w ltac:(by rewrite Hc)) as D. cbn zeta in D.
  destruct (do_dispatch _ _ _) as [w2 r]. destruct D as [P2 S2].
  assert (Has : ∀ u p, phase u = Some p → ∃ c', comm u = Some c')
    by (intros u p Hu; unfold phase in Hu; destruct (comm u); by eauto).
  destruct (Has _ _ P2) as [c2 Hc2]. unfold deref. rewrite Hc2.
  assert (L : ∀ u, phase (lower C_ENABLE_PROMPT u) = phase u ∧ settled (lower C_ENABLE_PROMPT u) = settled u)
    by (intros u; by apply phase_lower).
  assert (A : ∀ u, phase (lower C_AWAITING_HOOK u) = phase u ∧ settled (lower C_AWAITING_HOOK u) = settled u)
    by (intros u; by apply phase_lower).
  destruct r; cbn [fst snd]; cbn in S2.
  - left. destruct (L (lower C_AWAITING_HOOK w2)) as [L1 L2], (A w2) as [A1 A2].
    rewrite A1, P2 in L1. destruct (Has _ _ L1) as [c3 ?]. eexists _, c3. split_and!; [done|done|lia|done].
  - left. destruct (L w2) as [L1 L2]. rewrite P2 in L1. destruct (Has _ _ L1) as [c3 ?].
    eexists _, c3. split_and!; [done|done|lia|done].
  - right. split_and!; [done..|]. exists true. destruct (A (raise C_DISCONNECT_PENDING w2)) as [-> ->].
    unfold phase in P2 |- *. unfold raise, set_flags_w, settled in *. rewrite Hc2 in *. cbn in P2 |- *.
    injection P2 as P2 _. flag_simpl. by rewrite P2, S2.
  - right. split_and!; [done..|]. exists false. destruct (L w2) as [-> ->]. by rewrite P2, S2.
Qed.


Lemma life_step_inv w w' : life_inv w → life_step w w' → life_inv w'.
Proof.
  intros Hi Hst. revert Hi. destruct Hst as [b v|v v' Hv Hp Hs]; intros Hi;
    [|unfold life_inv; by rewrite Hp, Hs].
  destruct (comm v) as [c|] eqn:Hc; [|by unfold comm_close_impl; rewrite Hc].
  assert (S0 : negb (has_flag (flags c) C_CLOSING) || has_flag (flags c) C_DISCONNECT_PENDING = true → settled v = 0).
  { unfold life_inv, phase in Hi. rewrite Hc in Hi. revert Hi. cbn.
    destruct (has_flag (flags c) C_CLOSING), (has_flag (flags c) C_DISCONNECT_PENDING);
      cbn; intros Hi E; try done; by destruct Hi. }
  destruct (close_cases b v c Hc) as [(w1 & c1 & Hc1 & Hp & Hw & ->)|(_ & E & p & Ep & Es)].
  - apply closed_tail_inv; [done|]. destruct (negb _ || _); [by rewrite Hw, S0|].
    subst w1. unfold life_inv in Hi. by rewrite Hp in Hi.
  - unfold life_inv. rewrite Ep, Es, S0 by done. by destruct p.
Qed.

(** The disconnect notification is settled exactly once: however often a close
    is attempted, retried after a full queue, and interleaved with the rest of
    the program, at most one notification is accepted or answered, and exactly
    one has been when the slot is gone. *)
Theorem disconnect_once w0 w :
  phase w0 = Some (false, false) → settled w0 = 0 → rtc life_step w0 w →
  settled w ≤ 1 ∧ (comm w = None → settled w = 1).
Proof.
  intros Hp Hs Hr.
  assert (life_inv w) as Hi.
  { assert (life_inv w0) as H0 by (unfold life_inv; by rewrite Hp). clear Hp Hs.
    induction Hr as [|? ? ? Hst _ IH]; [done|]. apply IH. by eapply life_step_inv. }
  unfold life_inv, phase in Hi. destruct (comm w) as [c|]; cbn in Hi; [|split; [lia|done]].
  split; [|done]. destruct (has_flag (flags c) C_CLOSING); [|lia].
  destruct (has_flag (flags c) C_DISCONNECT_PENDING); lia.
Qed.
End Close.

(** ** Defects *)

Section Defects.
Context `{Host}.

(** The state in which the transport-ready hook of a TLS slot is called. *)
Definition tls_ready_state (w : world) (rest : list tls_answer) : world :=
  emit (raise C_TRANSPORT_READY
          (update_slot_event_interest (raise C_TLS_ESTABLISHED (with_tls w rest)) false))
    (EDispatch (slot_hook HOOK_TRANSPORT_READY)).

(** When a transport-ready hook that runs inline drops its slot (a close of a
    TLS connection with nothing buffered removes it at once), the flush that
    completed the handshake goes on to read the queue of the removed slot. *)
Theorem ready_hook_close_faults w c rest :
  comm w = Some c → wbio c ≠ None → tls_pending w = true →
  has_flag (flags c) (Z.lor C_CLOSING C_TRANSPORT_READY) = false →
  has_flag (flags c) C_CLOSING = false → upgrade_pending (flags c) = false →
  tls w = TlsDone :: rest → hook_async HOOK_TRANSPORT_READY = false →
  comm (dispatch (slot_hook HOOK_TRANSPORT_READY) (tls_ready_state w rest)).1 = None →
  ∃ w', comm_flush 1 w = Some w' ∧ fault w' = true.
Proof.
  intros Hc Hw Ht Hf Hcl Hu Hs Ha Hd. cbn [comm_flush].
  rewrite Hc, bool_decide_eq_false_2, Ht, Hcl by done. cbn [andb negb].
  unfold tls_pending in Ht. rewrite Hc in Ht. apply andb_true_iff in Ht as [Hssl He%negb_true_iff].
  apply bool_decide_eq_true in Hssl.
  unfold comm_tls_handshake_step. rewrite Hc, He, Hs.
  rewrite bool_decide_eq_false_2 by (intros E; rewrite E in Hssl; by destruct Hssl). cbn [orb].
  set (w1 := update_slot_event_interest _ _).
  assert (Hc1 : comm w1 = Some (set_flags c (set_flag (flags c) C_TLS_ESTABLISHED))).
  { unfold w1, update_slot_event_interest, raise, set_flags_w. cbn. rewrite Hc. cbn.
    by destruct (get_socket_fd _). }
  assert (E : comm (comm_invoke_transport_ready w1) = None).
  { unfold comm_invoke_transport_ready. rewrite Hc1. cbn [set_flags flags].
    rewrite has_flag_set_other, Hf by reflexivity.
    unfold tls_pending. rewrite Hc1. cbn [set_flags ssl flags]. rewrite has_flag_set_same by done.
    rewrite andb_false_r. unfold upgrade_pending, C_WEBSOCKET_IS_READY in *.
    rewrite has_flag_set_other, ws_state_set, Hu by reflexivity. cbn zeta.
    rewrite Ha. unfold do_dispatch. fold (tls_ready_state w rest) in *.
    change (emit (raise C_TRANSPORT_READY w1) (EDispatch (slot_hook HOOK_TRANSPORT_READY)))
      with (tls_ready_state w rest).
    destruct (dispatch _ _) as [v r]. cbn [fst] in Hd. cbn [slot_hook hc_type]. rewrite Ha.
    destruct (mudmux_dispatch_accepted r); [done|]. unfold deref. cbn [emit comm id].
    by rewrite Hd. }
  cbn [Z.ltb Z.eqb Z.compare]. unfold flush_queue. rewrite E. by eexists.
Qed.

(** A closing slot that only waits for its output, over a BIO without a
    descriptor. *)
Record stuck (w : world) (c : comm_abstract) (b : nat) : Prop := {
  st_comm : comm w = Some c;
  st_wbio : wbio c = Some b;
  st_fd : bio_has_fd b = false;
  st_ssl : ssl c = None;
  st_ws : C_WEBSOCKET_IS_READY (flags c) = false;
  st_phase : phase w = Some (true, false);
  st_await : has_flag (flags c) C_AWAITING_HOOK = false;
  st_buffered : has_flag (flags c) C_BUFFERED_WRITE = true
}.

Lemma stuck_enter n w c b :
  stuck w c b → no_failure (writes w) → chain_ok (outbound c) →
  let d := drain (outbound c) (opool w) (writes w) (sent w) in
  comm_flush (S n) w
  = Some (emit (with_writes (with_opool (with_comm w (Some (set_outbound c (dr_chain d))))
                              (dr_pool d)) (dr_writes d) (dr_sent d)) EFlush).
Proof.
  intros [Hc Hw Hd Hs Hws Hp Ha Hb] Hnf [_ Hok] d. cbn [comm_flush]. rewrite Hc.
  rewrite bool_decide_eq_false_2 by (by rewrite Hw).
  unfold tls_pending at 1. rewrite Hc, Hs. rewrite (bool_decide_eq_false_2 (is_Some None))
    by (by intros []). cbn [andb].
  unfold flush_queue. rewrite Hc. cbn zeta. fold d.
  destruct (flush_loop_spec (S (length (outbound c) + length (writes w))) (outbound c) (opool w)
              (writes w) (sent w) Hok) as (_ & _ & _ & D3).
  fold (drain (outbound c) (opool w) (writes w) (sent w)) in D3. fold d in D3.
  destruct (D3 Hnf) as [-> _].
  cbn [emit with_writes with_opool with_comm comm set_outbound flags].
  assert ((C_WEBSOCKET_STATE (flags c) =? WS_TELNET_PENDING)%Z = false) as ->.
  { apply Z.eqb_neq. intros E. unfold C_WEBSOCKET_IS_READY in Hws. by rewrite E in Hws. }
  rewrite andb_false_r. unfold flush_barrier.
  cbn [emit with_writes with_opool with_comm comm set_outbound flags]. cbn zeta.
  rewrite Hws, andb_false_r. cbn [andb]. unfold flush_settle, deref.
  cbn [emit with_writes with_opool with_comm comm set_outbound wbio]. rewrite Hw.
  cbn [get_socket_fd]. by rewrite Hd.
Qed.

(** A slot over a BIO without a descriptor never finishes closing once it has
    written: the flush returns before it clears the buffered-write flag, so
    however much of the output has been sent every later close waits for it. *)
Theorem no_descriptor_never_closes w c b :
  stuck w c b → no_failure (writes w) → chain_ok (outbound c) → host_slot ≠ COMM_SLOT_CONSOLE →
  ∃ w' c', comm_flush 1 w = Some w' ∧ comm_close w' = (w', false)
    ∧ stuck w' c' b ∧ no_failure (writes w') ∧ chain_ok (outbound c')
    ∧ sent w' ++ content (outbound c') = sent w ++ content (outbound c).
Proof.
  intros Hst Hnf Hok Hs. rewrite (stuck_enter 0 w c b Hst Hnf Hok).
  destruct (flush_loop_spec (S (length (outbound c) + length (writes w))) (outbound c) (opool w)
              (writes w) (sent w) (proj2 Hok)) as (D0 & D1 & D2 & D3).
  fold (drain (outbound c) (opool w) (writes w) (sent w)) in D0, D1, D2, D3.
  set (d := drain _ _ _ _) in *. destruct (D3 Hnf) as [_ D4].
  set (w' := emit _ _). exists w', (set_outbound c (dr_chain d)).
  destruct Hst as [Hc Hw Hd Hss Hws Hp Ha Hb].
  assert (Hp' : phase w' = Some (true, false)) by (unfold phase in *; by rewrite Hc in Hp).
  split_and!; try done.
  - unfold comm_close, comm_close_impl. cbn [w' emit with_writes with_opool with_comm comm set_outbound flags].
    unfold phase in Hp. rewrite Hc in Hp. cbn in Hp. injection Hp as -> ->. cbn [negb orb].
    unfold close_tail. cbn [w' emit with_writes with_opool with_comm comm set_outbound flags].
    cbn zeta. rewrite Ha, (proj2 (Z.eqb_neq _ _)), Hb by done. cbn [andb].
    unfold tls_pending. cbn [w' emit with_writes with_opool with_comm comm set_outbound ssl flags].
    rewrite Hss. by rewrite (bool_decide_eq_false_2 (is_Some None)) by (by intros []).
  - split; [|done]. destruct Hok. cbn [set_outbound outbound]. lia.
Qed.
End Defects.

(** ** Witnesses *)

(** A host whose hooks return at once; slot 5 over BIOs 1 and 2. *)
#[local] Instance quiet_host : Host := {|
  host_slot := 5;
  dispatch := fun _ w => (w, DISPATCH_OK);
  busy := fun _ => false;
  hook_async := fun _ => false;
  has_hook := fun _ => false;
  bio_has_fd := fun b => b <? 10;
  file_inputs := false;
  tty_ok := true;
  host_write := fun _ => true;
  host_slots := {| alloc_ok := fun _ => true; unix_path := fun _ => None |}
|}.

Lemma quiet_output : OutputHost.
Proof.
  intros h w c R. exists c. split; [done|]. split; [done|]. exists []. by rewrite app_nil_r.
Qed.
Lemma quiet_close : CloseHost.
Proof. by intros w. Qed.

Definition demo_comm (o b : list outbound_buffer) (f : Z) (s : option nat) : comm_abstract :=
  mk_comm (Some 1) (Some 2) s [] o b None 1 f no_capabilities.
Definition demo_world (o b : list outbound_buffer) (f : Z) (s : option nat)
    (ws : list write_answer) (ts : list tls_answer) : world :=
  mk_world (Some (demo_comm o b f s)) [] [] false [] ws ts [] [] false.

Definition bytes_buffer (l : list Z) : outbound_buffer := {| ob_data := l; ob_start := 0 |}.

Lemma small_chain_ok l : length l ≤ 100 → chain_ok [bytes_buffer l].
Proof.
  intros Hl. split; [apply Nat.leb_le; reflexivity|]. constructor; [|constructor].
  unfold buffer_ok. cbn [bytes_buffer ob_start].
  assert (100 ≤ kBufferSize) by (apply Nat.leb_le; vm_compute; reflexivity). unfold ob_end.
  cbn [bytes_buffer ob_data]. lia.
Qed.

(** An upgraded Telnet-over-WebSocket slot: the response in the queue, a greeting
    behind the upgrade, a transport that takes a few bytes at a time. *)
Definition telnet_upgrade_flags : Z :=
  Z.lor (Z.lor C_ENABLE_WEBSOCKET C_ENABLE_TELNET) WS_TELNET_PENDING.
Definition upgraded_world : world :=
  demo_world [bytes_buffer [1; 2; 3]%Z] [bytes_buffer [9; 9]%Z] telnet_upgrade_flags None
    [WrOk 2; WrOk 2; WrOk 7; WrRetry] [].

Lemma flush_order_witness :
  ∃ w' nego extra, comm_flush 3 upgraded_world = Some w' ∧ fault w' = false
    ∧ stream w' = [] ++ [1; 2; 3]%Z ++ nego ++ [9; 9]%Z ++ extra
    ∧ (nego = [] ∨ C_WEBSOCKET_STATE telnet_upgrade_flags = WS_TELNET_PENDING).
Proof.
  apply (flush_order (laws := quiet_output) upgraded_world
    (demo_comm [bytes_buffer [1; 2; 3]%Z] [bytes_buffer [9; 9]%Z] telnet_upgrade_flags None)).
  split; try done.
  - apply small_chain_ok. cbn. lia.
  - apply small_chain_ok. cbn. lia.
  - by repeat constructor.
Defined.

Lemma flush_complete_witness :
  ∃ w' c', comm_flush 1 (demo_world [bytes_buffer [1; 2; 3]%Z] []
             (Z.lor C_BUFFERED_WRITE C_SOCKET_WRITABLE) None [WrOk 5000; WrOk 5000] []) = Some w'
    ∧ comm w' = Some c' ∧ sent w' = [] ++ [1; 2; 3]%Z ∧ outbound c' = []
    ∧ has_flag (flags c') C_BUFFERED_WRITE = false
    ∧ has_flag (flags c') C_SOCKET_WRITABLE = false
    ∧ log w' = [] ++ [EFlush] ++ [EModify false].
Proof.
  apply (flush_complete (demo_world [bytes_buffer [1; 2; 3]%Z] []
    (Z.lor C_BUFFERED_WRITE C_SOCKET_WRITABLE) None [WrOk 5000; WrOk 5000] [])
    (demo_comm [bytes_buffer [1; 2; 3]%Z] [] (Z.lor C_BUFFERED_WRITE C_SOCKET_WRITABLE) None)).
  - split; try reflexivity. apply small_chain_ok. cbn. lia.
  - reflexivity.
  - repeat constructor; (eexists; split; [done|]; apply Nat.leb_le; vm_compute; reflexivity).
  - cbn. lia.
Defined.

Definition closing_world (f : Z) : world := demo_world [] [] (Z.lor C_CLOSING f) None [] [].


Lemma disconnect_once_witness :
  settled (comm_close (demo_world [] [] 0 None [] [])).1 ≤ 1
  ∧ (comm (comm_close (demo_world [] [] 0 None [] [])).1 = None →
     settled (comm_close (demo_world [] [] 0 None [] [])).1 = 1).
Proof.
  apply (disconnect_once (laws := quiet_close) (demo_world [] [] 0 None [] [])); try reflexivity.
  apply rtc_once. constructor.
Defined.

(** A hook that closes its own slot as soon as the transport is ready. *)
Definition refusing_host : Host := {|
  host_slot := 5;
  dispatch := fun h w => (if bool_decide (hc_type h = HOOK_TRANSPORT_READY)
                          then (comm_close (H := quiet_host) w).1 else w, DISPATCH_OK);
  busy := fun _ => false;
  hook_async := fun _ => false;
  has_hook := fun _ => true;
  bio_has_fd := fun b => b <? 10;
  file_inputs := false;
  tty_ok := true;
  host_write := fun _ => true;
  host_slots := {| alloc_ok := fun _ => true; unix_path := fun _ => None |}
|}.

Lemma ready_hook_close_faults_witness :
  ∃ w', comm_flush (H := refusing_host) 1 (demo_world [] [] 0 (Some 7) [] [TlsDone]) = Some w'
    ∧ fault w' = true.
Proof.
  apply (ready_hook_close_faults (H := refusing_host) (demo_world [] [] 0 (Some 7) [] [TlsDone])
    (demo_comm [] [] 0 (Some 7)) []);
    try reflexivity; done.
Defined.

Definition file_comm : comm_abstract :=
  mk_comm (Some 10) (Some 11) None [] [bytes_buffer [1; 2]%Z] [] None 1
    (Z.lor C_CLOSING C_BUFFERED_WRITE) no_capabilities.
Definition file_world : world :=
  mk_world (Some file_comm) [] [] false [] [WrOk 2] [] [] [] false.

Lemma no_descriptor_never_closes_witness :
  ∃ w' c', comm_flush 1 file_world = Some w' ∧ comm_close w' = (w', false)
    ∧ stuck w' c' 11 ∧ no_failure (writes w') ∧ chain_ok (outbound c')
    ∧ sent w' ++ content (outbound c') = [] ++ [1; 2]%Z.
Proof.
  apply (no_descriptor_never_closes file_world file_comm 11).
  - by split.
  - by repeat constructor.
  - apply small_chain_ok. cbn. lia.
  - done.
Defined.
