(* ===== verification/InputMode.v ===== *)
(** * Input modes (lib/comm/input_mode.cpp, the POSIX branch)

    Line and character input, local echo, and the telnet negotiation that goes
    with them.  The console's terminal settings are calls on stdin: the change
    of the canonical-mode bit, if any, and the echo bit. *)

From S2P Require Import Prelude InBuf OutBuf Abstract Execution Telnet WsFrame WsConn World Outbound.

Section InputMode.
Context `{Host}.

(** [_negotiate_telnet_line_input]. *)
Definition negotiate_telnet_line_input (enable : bool) (x : conn) : conn :=
  match ssl (cn x) with
  | Some _ => x
  | None =>
      if enable then
        if telnet_linemode (caps (cn x))
        then comm_telnet_send_subnegotiation x TELOPT_LINEMODE [1; 1]%Z else x
      else
        let x1 := if telnet_linemode (caps (cn x))
                  then comm_telnet_send_subnegotiation x TELOPT_LINEMODE [1; 0]%Z else x in
        if telnet_echo (caps (cn x1)) then x1 else comm_telnet_send_will x1 TELOPT_ECHO
  end.

(** The telnet part of [comm_set_echo]. *)
Definition negotiate_echo (echo : bool) (x : conn) : conn :=
  if has_flag (flags (cn x)) C_ENABLE_TELNET then
    match ssl (cn x) with
    | Some _ => x
    | None =>
        let k := telnet_echo (caps (cn x)) in
        if echo && k then comm_telnet_send_wont x TELOPT_ECHO
        else if negb echo && negb k then comm_telnet_send_will x TELOPT_ECHO
        else x
    end
  else x.

Definition set_client_echo (echo : bool) (w : world) : world :=
  if echo then raise C_CLIENT_ECHO w else lower C_CLIENT_ECHO w.

Definition is_console : bool := (host_slot =? COMM_SLOT_CONSOLE)%Z.

Definition comm_set_echo (echo : bool) (w : world) : world * bool :=
  match comm w with
  | None => (w, false)
  | Some _ =>
      if is_console then
        if tty_ok then (set_client_echo echo (emit w (EConsoleMode None echo)), true)
        else (w, false)
      else (set_client_echo echo (on_conn (negotiate_echo echo) w), true)
  end.

Definition comm_set_line_input (echo : bool) (w : world) : world * bool :=
  match comm w with
  | None => (w, false)
  | Some c =>
      if has_flag (flags c) C_LINE_INPUT then comm_set_echo echo w
      else if is_console then
        if tty_ok
        then comm_set_echo echo (raise C_LINE_INPUT (emit w (EConsoleMode (Some echo) echo)))
        else (w, false)
      else
        let w := if has_flag (flags c) C_ENABLE_TELNET
                 then on_conn (negotiate_telnet_line_input true) w else w in
        comm_set_echo echo (raise C_LINE_INPUT w)
  end.

Definition comm_set_char_input (w : world) : world * bool :=
  match comm w with
  | None => (w, false)
  | Some c =>
      if negb (has_flag (flags c) C_LINE_INPUT) then comm_set_echo false w
      else if is_console then
        if tty_ok
        then comm_set_echo false (lower C_LINE_INPUT (emit w (EConsoleMode (Some false) false)))
        else (w, false)
      else if has_flag (flags c) C_ENABLE_TELNET then
        (lower (Z.lor C_LINE_INPUT C_CLIENT_ECHO)
           (on_conn (negotiate_telnet_line_input false) w), true)
      else comm_set_echo false (lower C_LINE_INPUT w)
  end.

(** [comm_enable_prompt]. *)
Definition comm_enable_prompt (enable : bool) (w : world) : world :=
  if enable then raise C_ENABLE_PROMPT w else lower C_ENABLE_PROMPT w.

End InputMode.

(** ** Lemmas *)

(** What an input-mode change may touch besides the mode: queued output and the
    two flags of the write path. *)
Definition output_flags : Z := Z.lor C_BUFFERED_WRITE C_SOCKET_WRITABLE.

Section Modes.
Context `{Host}.

(** A connection operation that changes no flag outside the write path. *)
Definition keeps_flags (f : conn → conn) : Prop :=
  ∀ x b, Z.land output_flags b = 0%Z → has_flag (flags (cn (f x))) b = has_flag (flags (cn x)) b.

Lemma keeps_id : keeps_flags id.
Proof. done. Qed.

Lemma keeps_compose f g : keeps_flags f → keeps_flags g → keeps_flags (fun x => f (g x)).
Proof. intros Hf Hg x b Hb. by rewrite Hf, Hg. Qed.

Lemma write_impl_keeps buf n : keeps_flags (fun x => comm_buffered_write_comm_impl x buf n).
Proof.
  intros x b Hb. unfold comm_buffered_write_comm_impl. destruct (_ =? 0); [done|]. cbn zeta.
  destruct (_ && (_ =? _)%Z); [done|]. destruct (_ && negb _).
  { destruct (comm_websocket_encode_frame _ _); [|done]. unfold append_websocket_upgrade_barrier.
    by destruct (barrier_append _ _ _) as [[? ?] ?]. }
  destruct (C_WEBSOCKET_IS_READY _); [|by apply write_raw_flag].
  destruct (comm_websocket_encode_frame _ _); [by apply write_raw_flag|done].
Qed.

Lemma telnet_send_keeps verb option : keeps_flags (fun x => telnet_send verb x option).
Proof.
  intros x b Hb. unfold telnet_send. destruct (bool_decide _); [done|].
  by apply (write_impl_keeps [255; verb; u8 option]%Z false).
Qed.

Lemma subneg_keeps option data : keeps_flags (fun x => comm_telnet_send_subnegotiation x option data).
Proof.
  intros x b Hb. unfold comm_telnet_send_subnegotiation. destruct (_ || _); [done|]. cbn zeta.
  unfold comm_buffered_write_comm_no_telnet_normalize. by rewrite !write_impl_keeps.
Qed.

Lemma line_input_keeps enable : keeps_flags (negotiate_telnet_line_input enable).
Proof.
  intros x b Hb. unfold negotiate_telnet_line_input. destruct (ssl (cn x)); [done|].
  destruct enable.
  - destruct (telnet_linemode _); [by apply (subneg_keeps _ [1; 1]%Z)|done].
  - cbn zeta. set (x1 := if telnet_linemode _ then _ else x).
    assert (E : has_flag (flags (cn x1)) b = has_flag (flags (cn x)) b)
      by (unfold x1; destruct (telnet_linemode _); [by apply (subneg_keeps _ [1; 0]%Z)|done]).
    destruct (telnet_echo _); [done|]. etransitivity; [|exact E].
    by apply (telnet_send_keeps 251 TELOPT_ECHO).
Qed.

Lemma echo_keeps echo : keeps_flags (negotiate_echo echo).
Proof.
  intros x b Hb. unfold negotiate_echo. destruct (has_flag (flags (cn x)) C_ENABLE_TELNET); [|done].
  destruct (ssl (cn x)); [done|]. cbn zeta. destruct (_ && _).
  - by apply (telnet_send_keeps 252 TELOPT_ECHO).
  - destruct (_ && _); [by apply (telnet_send_keeps 251 TELOPT_ECHO)|done].
Qed.

Lemma flag_on_conn f w b :
  keeps_flags f → Z.land output_flags b = 0%Z → flag (on_conn f w) b = flag w b.
Proof.
  intros Hf Hb. unfold flag, flags_of, on_conn. destruct (comm w) eqn:E; [|by rewrite E].
  cbn. by rewrite Hf.
Qed.

Lemma flag_raise w a b : comm w ≠ None →
  flag (raise a w) b = has_flag (set_flag (flags_of w) a) b.
Proof. intros Hc. unfold flag, flags_of, raise, set_flags_w. by destruct (comm w). Qed.
Lemma flag_lower w a b : comm w ≠ None →
  flag (lower a w) b = has_flag (clear_flag (flags_of w) a) b.
Proof. intros Hc. unfold flag, flags_of, lower, set_flags_w. by destruct (comm w). Qed.

Lemma on_conn_live f w : comm w ≠ None → comm (on_conn f w) ≠ None.
Proof. unfold on_conn. by destruct (comm w). Qed.
Lemma raise_live a w : comm w ≠ None → comm (raise a w) ≠ None.
Proof. unfold raise, set_flags_w. by destruct (comm w). Qed.
Lemma lower_live a w : comm w ≠ None → comm (lower a w) ≠ None.
Proof. unfold lower, set_flags_w. by destruct (comm w). Qed.
#[local] Hint Resolve on_conn_live raise_live lower_live : mudmux.

(** The mode bits, and the bits no mode change touches. *)
Definition mode_bits : Z := Z.lor C_LINE_INPUT C_CLIENT_ECHO.
Definition other_bits (b : Z) : Prop := Z.land (Z.lor output_flags mode_bits) b = 0%Z.

Lemma other_bits_split b : other_bits b →
  Z.land output_flags b = 0%Z ∧ Z.land C_LINE_INPUT b = 0%Z ∧ Z.land C_CLIENT_ECHO b = 0%Z
  ∧ Z.land mode_bits b = 0%Z.
Proof.
  unfold other_bits, mode_bits. rewrite !Z.land_lor_distr_l.
  intros [? [??]%Z.lor_eq_0_iff]%Z.lor_eq_0_iff. split_and!; try done. by apply Z.lor_eq_0_iff.
Qed.

Lemma has_flag_clear_part f a b : Z.land b a = b → has_flag (clear_flag f a) b = false.
Proof.
  intros E. unfold has_flag, clear_flag. rewrite negb_false_iff, Z.eqb_eq, <- E.
  apply Z.bits_inj'. intros n Hn. rewrite !Z.land_spec, Z.ldiff_spec, Z.bits_0.
  by destruct (Z.testbit f n), (Z.testbit a n), (Z.testbit b n).
Qed.

Lemma flag_emit w e b : flag (emit w e) b = flag w b.
Proof. done. Qed.

Lemma set_client_echo_spec echo w : comm w ≠ None →
  flag (set_client_echo echo w) C_CLIENT_ECHO = echo
  ∧ flag (set_client_echo echo w) C_LINE_INPUT = flag w C_LINE_INPUT
  ∧ (∀ b, other_bits b → flag (set_client_echo echo w) b = flag w b)
  ∧ comm (set_client_echo echo w) ≠ None.
Proof.
  intros Hc. unfold set_client_echo. destruct echo.
  - split_and!; auto with mudmux; try intros b (_ & _ & Hb & _)%other_bits_split;
      rewrite flag_raise by done.
    + by apply has_flag_set_same.
    + by rewrite has_flag_set_other.
    + by rewrite has_flag_set_other.
  - split_and!; auto with mudmux; try intros b (_ & _ & Hb & _)%other_bits_split;
      rewrite flag_lower by done.
    + apply has_flag_clear_same.
    + by rewrite has_flag_clear_other.
    + by rewrite has_flag_clear_other.
Qed.

(** The outcome of a mode change: line input and echo as asked, the rest kept. *)
Definition mode_result (line echo : bool) (w : world) (r : world * bool) : Prop :=
  r.2 = true → flag r.1 C_LINE_INPUT = line ∧ flag r.1 C_CLIENT_ECHO = echo
    ∧ ∀ b, other_bits b → flag r.1 b = flag w b.

Lemma set_echo_spec echo w line w0 :
  comm w ≠ None → flag w C_LINE_INPUT = line → (∀ b, other_bits b → flag w b = flag w0 b) →
  mode_result line echo w0 (comm_set_echo echo w).
Proof.
  intros Hc Hl Ho. unfold comm_set_echo. destruct (comm w) eqn:E; [|done]. rewrite <- E in Hc.
  destruct is_console.
  - destruct tty_ok; [|done]. intros _. cbn [fst].
    destruct (set_client_echo_spec echo (emit w (EConsoleMode None echo)) Hc) as (A & B & C & _).
    split_and!; [by rewrite B|done|]. intros b Hb. rewrite C by done. by apply Ho.
  - intros _. cbn [fst].
    destruct (set_client_echo_spec echo (on_conn (negotiate_echo echo) w)) as (A & B & C & _);
      [auto with mudmux|].
    split_and!; [|done|].
    + rewrite B, flag_on_conn; [done|apply echo_keeps|reflexivity].
    + intros b Hb. rewrite C, flag_on_conn by (done || apply echo_keeps || by apply other_bits_split).
      by apply Ho.
Qed.

(** The input mode is what was asked for: after a successful call the line
    and echo flags have the requested values (character input turns both off)
    and every flag outside the mode and the write path is unchanged. *)
Theorem input_mode_flags w echo :
  comm w ≠ None →
  mode_result true echo w (comm_set_line_input echo w)
  ∧ mode_result false false w (comm_set_char_input w)
  ∧ mode_result (flag w C_LINE_INPUT) echo w (comm_set_echo echo w).
Proof.
  intros Hc. split_and!; [..|by apply set_echo_spec].
  - unfold comm_set_line_input. destruct (comm w) as [c|] eqn:E; [|done]. rewrite <- E in Hc.
    assert (Hf : ∀ b, flag w b = has_flag (flags c) b) by (intros b; unfold flag, flags_of; by rewrite E).
    destruct (has_flag (flags c) C_LINE_INPUT) eqn:El; [apply set_echo_spec; try done; by rewrite Hf|].
    destruct is_console.
    + destruct tty_ok; [|done]. apply set_echo_spec; [by auto with mudmux|..].
      * rewrite flag_raise by done. by apply has_flag_set_same.
      * intros b (_ & Hb & _)%other_bits_split. rewrite flag_raise by done. by apply has_flag_set_other.
    + set (w1 := if has_flag _ _ then _ else w).
      assert (C1 : comm w1 ≠ None) by (unfold w1; destruct (has_flag (flags c) C_ENABLE_TELNET); [by apply on_conn_live|done]).
      apply set_echo_spec; [by auto with mudmux|..].
      * rewrite flag_raise by done. by apply has_flag_set_same.
      * intros b (Ho & Hb & _)%other_bits_split. rewrite flag_raise, has_flag_set_other by done.
        change (flag w1 b = flag w b). unfold w1. destruct (has_flag (flags c) C_ENABLE_TELNET); [|done].
        apply flag_on_conn; [apply line_input_keeps|done].
  - unfold comm_set_char_input. destruct (comm w) as [c|] eqn:E; [|done]. rewrite <- E in Hc.
    assert (Hf : ∀ b, flag w b = has_flag (flags c) b) by (intros b; unfold flag, flags_of; by rewrite E).
    destruct (has_flag (flags c) C_LINE_INPUT) eqn:El; cbn [negb];
      [|apply set_echo_spec; try done; by rewrite Hf].
    destruct is_console; [|destruct (has_flag (flags c) C_ENABLE_TELNET)].
    + destruct tty_ok; [|done]. apply set_echo_spec; [by auto with mudmux|..].
      * rewrite flag_lower by done. apply has_flag_clear_same.
      * intros b (_ & Hb & _)%other_bits_split. rewrite flag_lower by done. by apply has_flag_clear_other.
    + intros _. cbn [fst]. rewrite !flag_lower by auto with mudmux. split_and!.
      * by apply has_flag_clear_part.
      * by apply has_flag_clear_part.
      * intros b (Ho & _ & _ & Hb)%other_bits_split.
        rewrite flag_lower, has_flag_clear_other by auto with mudmux.
        apply flag_on_conn; [apply line_input_keeps|done].
    + apply set_echo_spec; [by auto with mudmux|..].
      * rewrite flag_lower by done. apply has_flag_clear_same.
      * intros b (_ & Hb & _)%other_bits_split. rewrite flag_lower by done. by apply has_flag_clear_other.
Qed.

(** On the console, line input without echo switches the terminal's line
    discipline off: the canonical bit follows the echo argument, so the reader
    gets single keystrokes while the slot is in line mode. *)
Theorem console_hidden_line_is_raw w c :
  comm w = Some c → host_slot = COMM_SLOT_CONSOLE → tty_ok = true →
  has_flag (flags c) C_LINE_INPUT = false →
  let '(w', ok) := comm_set_line_input false w in
  ok = true ∧ flag w' C_LINE_INPUT = true
  ∧ log w' = log w ++ [EConsoleMode (Some false) false; EConsoleMode None false].
Proof.
  intros Hc Hs Ht Hl. unfold comm_set_line_input, is_console. rewrite Hc, Hl, Hs, Z.eqb_refl, Ht.
  unfold comm_set_echo, is_console, raise, set_flags_w. cbn [emit comm with_comm].
  rewrite Hc. cbn [with_comm comm]. rewrite Hs, Z.eqb_refl, Ht.
  unfold set_client_echo, lower, set_flags_w. cbn [emit comm with_comm log].
  split_and!; [done| |by rewrite <- app_assoc].
  unfold flag, flags_of. cbn [comm with_comm set_flags flags].
  rewrite has_flag_clear_other by reflexivity. by apply has_flag_set_same.
Qed.
End Modes.

(** ** Witnesses *)

Definition tty_host (slot : Z) : Host := {|
  host_slot := slot;
  dispatch := fun _ w => (w, DISPATCH_OK);
  busy := fun _ => false;
  hook_async := fun _ => false;
  has_hook := fun _ => false;
  bio_has_fd := fun _ => true;
  file_inputs := false;
  tty_ok := true;
  host_write := fun _ => true;
  host_slots := {| alloc_ok := fun _ => true; unix_path := fun _ => None |}
|}.

Definition mode_world (f : Z) : world :=
  mk_world (Some (mk_comm (Some 1) (Some 2) None [] [] [] None 1 f no_capabilities))
    [] [] false [] [] [] [] [] false.

Lemma input_mode_flags_witness :
  mode_result true false (mode_world C_ENABLE_TELNET)
    (comm_set_line_input (H := tty_host 3) false (mode_world C_ENABLE_TELNET))
  ∧ mode_result false false (mode_world C_ENABLE_TELNET)
      (comm_set_char_input (H := tty_host 3) (mode_world C_ENABLE_TELNET))
  ∧ mode_result (flag (mode_world C_ENABLE_TELNET) C_LINE_INPUT) false (mode_world C_ENABLE_TELNET)
      (comm_set_echo (H := tty_host 3) false (mode_world C_ENABLE_TELNET)).
Proof. by apply (input_mode_flags (H := tty_host 3) (mode_world C_ENABLE_TELNET) false). Defined.

Lemma console_hidden_line_is_raw_witness :
  let '(w', ok) := comm_set_line_input (H := tty_host 0) false (mode_world 0) in
  ok = true ∧ flag w' C_LINE_INPUT = true
  ∧ log w' = [] ++ [EConsoleMode (Some false) false; EConsoleMode None false].
Proof.
  apply (console_hidden_line_is_raw (H := tty_host 0) (mode_world 0)
    (mk_comm (Some 1) (Some 2) None [] [] [] None 1 0 no_capabilities)); reflexivity.
Defined.
