(* ===== verification/Inbound.v ===== *)
(** * Receiving and parsing input (lib/comm/inbound.cpp, lib/comm/websocket.cpp,
      lib/comm/telnet.cpp)

    The refill of a slot's input chain through TLS and telnet, the WebSocket
    upgrade, and the line, character and WebSocket input machines that deliver
    messages to hooks.  TLS reads from a socket BIO here; the feed of a memory
    BIO is in [MemTls]. *)

From S2P Require Import Prelude InBuf OutBuf Abstract Execution Telnet Utf8 WsFrame TextUtil.
From S2P Require Import HttpUpgrade WsConn World Outbound InputMode.

Inductive process_result := PROCESS_ERROR | PROCESS_OK | PROCESS_CLOSED | PROCESS_DEFERRED.

Section Inbound.
Context `{Host, MultiByte, WsCrypto}.

Definition with_inbound (w : world) (chain : list inbound_buffer) : world :=
  match comm w with Some c => with_comm w (Some (set_inbound c chain)) | None => w end.

Definition inbound_of (w : world) : list inbound_buffer :=
  match comm w with Some c => inbound c | None => [] end.

(** ** Hooks for input *)

Definition resume_input_after_inbound_hook (w : world) : world :=
  match comm w with Some _ => defer w | None => w end.

Definition comm_invoke_inbound_message (data : list Z) (w : world) : world * dispatch_result :=
  match comm w with
  | None => (w, DISPATCH_ERROR)
  | Some _ =>
      let await := hook_async HOOK_MESSAGE_INBOUND in
      let w := lower C_INVOKED_PROMPT w in
      let w := if await then defer w else w in
      do_dispatch {| hc_type := HOOK_MESSAGE_INBOUND; hc_msg := host_slot; hc_data := data |}
        (if await then resume_input_after_inbound_hook else id) w
  end.

(** [_invoke_char_input_message]. *)
Definition invoke_char_input_message (data : list Z) (w : world) : world * dispatch_result :=
  match comm w with
  | None => (w, DISPATCH_ERROR)
  | Some _ =>
      let '(w, r) := comm_invoke_inbound_message data (lower C_INVOKED_PROMPT w) in
      (if hook_async HOOK_MESSAGE_INBOUND then w else resume_input_after_inbound_hook w, r)
  end.

(** [comm_dispatch_telnet_subnegotiation]. *)
Definition comm_dispatch_telnet_subnegotiation (n : comm_telnet_negotiation) (w : world)
    : world * dispatch_result :=
  if sb_len n =? 0 then (w, DISPATCH_OK)
  else if negb (has_hook HOOK_TELNET_SUBNEG) then (w, DISPATCH_OK)
  else
    let option := nth 0 (subopt_buf n) 0%Z in
    let payload := take (sb_len n - 1) (drop 1 (subopt_buf n)) in
    let '(w, r) := do_dispatch {| hc_type := HOOK_TELNET_SUBNEG; hc_msg := option; hc_data := payload |}
                     id w in
    match r with
    | DISPATCH_QUEUE_FULL => (deref w (fun _ => defer w), r)
    | _ => (w, r)
    end.

(** [comm_invoke_connect] for an accepted connection with entry name [name], and
    its completion callback. *)
Definition resume_input_after_connect_hook (w : world) : world :=
  match comm w with
  | None => w
  | Some _ =>
      let w := if flag w C_CLOSING then w else lower C_AWAITING_HOOK w in
      let w := comm_invoke_transport_ready w in
      deref w (fun _ => defer w)
  end.

Definition comm_invoke_connect (name : list Z) (w : world) : world * dispatch_result :=
  let await := hook_async HOOK_CONNECT in
  let w := if await then raise C_AWAITING_HOOK w else w in
  let '(w, r) := do_dispatch {| hc_type := HOOK_CONNECT; hc_msg := host_slot; hc_data := name |}
                   (if await then resume_input_after_connect_hook else id) w in
  let w := if await && negb (mudmux_dispatch_accepted r) then lower C_AWAITING_HOOK w else w in
  (if await then w else comm_invoke_transport_ready w, r).

(** ** WebSocket upgrade *)

Definition WEBSOCKET_MAX_HANDSHAKE_BYTES : nat := 2 * kInboundSize.   (* 8192 *)

Definition send_websocket_rejection (status : Z) (w : world) : world :=
  let w := comm_free_inbound_buffers (comm_free_outbound_buffers w) in
  let w := lower C_ENABLE_WEBSOCKET w in
  let w := on_conn (fun x => comm_buffered_write_raw_comm x (rejection_response status)) w in
  (comm_close w).1.

Definition consume_inbound (w : world) (n : nat) : world :=
  let '(chain, pool) := comm_consume_inbound_data (inbound_of w) (ipool w) n in
  with_ipool (with_inbound w chain) pool.

Definition comm_try_upgrade_websocket (w : world) : world :=
  match comm w with
  | None => w
  | Some c =>
      if negb (upgrade_pending (flags c)) then w
      else
        let request := comm_copy_inbound_data_prefix (inbound c) WEBSOCKET_MAX_HANDSHAKE_BYTES in
        if length request =? 0 then w
        else
          match find_http_header_end request with
          | None => if WEBSOCKET_MAX_HANDSHAKE_BYTES <=? length request
                    then send_websocket_rejection 431 w else w
          | Some header_len =>
              let preferred := match websocket c with
                               | Some s => preferred_protocols s | None => [] end in
              match comm_websocket_build_upgrade_response (take header_len request) preferred with
              | Rejected status => send_websocket_rejection status w
              | Accepted response negotiated_telnet =>
                  let w := on_conn (fun x => comm_buffered_write_raw_comm x response) w in
                  let w := consume_inbound w header_len in
                  let w := set_flags_w (fun f => C_WEBSOCKET_SET_STATE f WS_READY) w in
                  if negotiated_telnet then
                    on_conn comm_enable_telnet_for_slot
                      (set_flags_w (fun f => C_WEBSOCKET_SET_STATE f WS_TELNET_PENDING) w)
                  else w
              end
          end
  end.

(** ** Refill *)

Definition store_telnet_state (state : Z) (f : Z) : Z :=
  Z.lor (clear_flag f M_TELNET_STATE) (Z.land state M_TELNET_STATE).

(** Data goes through the telnet decoder unless WebSocket framing is in the way
    or a refused subnegotiation paused it. *)
Definition decodes_telnet (f : Z) (paused : bool) : bool :=
  has_flag f C_ENABLE_TELNET && negb (upgrade_pending f) && negb (C_WEBSOCKET_IS_READY f)
  && negb paused.

(** [ibb->end += bytes_copied] after the bytes were written behind [end]. *)
Definition append_buffer (i : nat) (bytes : list Z) (w : world) : world :=
  deref w (fun c =>
    match inbound c !! i with
    | Some b => with_inbound w (<[i := {| ib_band := ib_band b; ib_start := ib_start b;
                                          ib_data := ib_data b ++ bytes |}]> (inbound c))
    | None => w
    end).

(** One call of the telnet decoder on [chunk]: the new state, the bytes decoded
    and consumed, and whether decoding pauses. *)
Definition telnet_chunk (chunk : list Z) (w : world) : world * list Z * nat * bool :=
  let o := comm_telnet_process_inbound chunk (Z.land (flags_of w) M_TELNET_STATE) zero_negotiation in
  let w := set_flags_w (store_telnet_state (po_state o)) w in
  let w := if length (po_data o) <? po_consumed o
           then on_conn (fun x => comm_process_telnet_options x (po_neg o)) w else w in
  if 0 <? sb_len (po_neg o) then
    let '(w, r) := comm_dispatch_telnet_subnegotiation (po_neg o) w in
    match r with
    | DISPATCH_QUEUE_FULL => (deref w (fun _ => defer w), po_data o, po_consumed o, true)
    | _ => (w, po_data o, po_consumed o, false)
    end
  else (w, po_data o, po_consumed o, false).

(** The fill loop from buffer [i]; every turn takes a byte of the source or moves
    to the next buffer. *)
Fixpoint fill_loop (fuel : nat) (i : nat) (src : list Z) (paused : bool) (w : world)
    : world * list Z :=
  match fuel with
  | 0 => (w, src)
  | S n =>
      if length src =? 0 then (w, src)
      else
        match comm w with
        | None => (fails w, src)
        | Some c =>
            match inbound c !! i with
            | None => (w, src)
            | Some b =>
                let b1 := compact_buffer b in
                let w := with_inbound w (<[i := b1]> (inbound c)) in
                if negb (is_data b1) then fill_loop n (S i) src paused w
                else
                  let m := Nat.min (length src) (kInboundSize - ib_end b1) in
                  if m =? 0 then (w, src)
                  else if decodes_telnet (flags c) paused then
                    let '(w, data, consumed, pause) := telnet_chunk (take m src) w in
                    fill_loop n i (drop consumed src) (paused || pause) (append_buffer i data w)
                  else fill_loop n i (drop m src) paused (append_buffer i (take m src) w)
            end
        end
  end.

(** [_refill_inbound_buffers_from_src]; [false] when bytes were discarded. *)
Definition refill_from_src (src : list Z) (w : world) : world * bool :=
  match comm w with
  | None => (w, false)
  | Some c =>
      let w := match inbound c with
               | [] => let '(fresh, pool) := allocate_inbound_buffer (ipool w) in
                       with_ipool (with_inbound w [fresh]) pool
               | _ => w
               end in
      let chain := inbound_of w in
      let '(w, remaining) := fill_loop (S (length src + length chain)) (refill_index chain) src false w in
      let w := deref w (fun c => if upgrade_pending (flags c) then comm_try_upgrade_websocket w else w) in
      (w, length remaining =? 0)
  end.

Definition comm_append_decoded_input : list Z → world → world * bool := refill_from_src.

(** The decrypted records already buffered in the TLS session. *)
Fixpoint read_tls (fuel : nat) (w : world) : world * bool :=
  match fuel with
  | 0 => (w, true)
  | S n =>
      match comm w with
      | None => (fails w, false)
      | Some _ =>
          match reads w with
          | [] => (w, true)
          | RdRetry :: rest => (with_reads w rest, true)
          | RdClosed :: rest => (with_reads w rest, false)
          | RdData bytes more :: rest =>
              let w := with_reads w rest in
              if length bytes =? 0 then (w, true)
              else
                let '(w, ok) := refill_from_src bytes w in
                if negb ok then (w, false)
                else if more then read_tls n w else (w, true)
          end
      end
  end.

(** [comm_refill_inbound_buffers] from the transport. *)
Definition comm_refill_inbound_buffers (w : world) : world * bool :=
  match comm w with
  | None => (w, false)
  | Some c =>
      match ssl c with
      | Some _ =>
          let go w := read_tls (S (length (reads w))) w in
          if has_flag (flags c) C_TLS_ESTABLISHED then go w
          else
            let '(w, hs) := comm_tls_handshake_step w in
            if (hs <? 0)%Z then (w, false)
            else if (hs =? 1)%Z then go w
            else (match wbio c with Some _ => emit w EFlush | None => w end, true)
      | None =>
          match reads w with
          | [] => (w, true)
          | RdRetry :: rest => (with_reads w rest, true)
          | RdClosed :: rest => (with_reads w rest, false)
          | RdData bytes _ :: rest =>
              if length bytes =? 0 then (with_reads w rest, true)
              else refill_from_src bytes (with_reads w rest)
          end
      end
  end.

(** ** Line and character input *)

Definition below_max (max : option nat) (n : nat) : bool :=
  match max with None => true | Some m => n <? m end.

Definition set_head_start (start : nat) (chain : list inbound_buffer) : list inbound_buffer :=
  match chain with
  | b :: rest => {| ib_band := ib_band b; ib_start := start; ib_data := ib_data b |} :: rest
  | [] => []
  end.

(** Filling the head buffer from the next one, when that holds data: [None] when
    it does not. *)
Definition pull_next (w : world) : option world :=
  match inbound_of w with
  | b :: next :: rest =>
      if length (ib_pending next) =? 0 then None
      else if is_data next then
        let space := kInboundSize - length (ib_pending b) in
        let n := Nat.min space (length (ib_pending next)) in
        let b' := {| ib_band := ib_band b; ib_start := 0;
                     ib_data := ib_pending b ++ take n (ib_pending next) |} in
        let next' := ib_advance next n in
        Some (with_inbound w (if ib_start next' =? ib_end next' then b' :: rest ++ [ib_reset]
                              else b' :: next' :: rest))
      else Some (with_ipool (with_inbound w (b :: rest)) (free_inbound_buffer next (ipool w)))
  | _ => None
  end.

(** The loop of the line mode; [n] counts the messages. *)
Fixpoint line_loop (fuel : nat) (max : option nat) (n : nat) (w : world) : world * nat :=
  match fuel, inbound_of w with
  | 0, _ | _, [] => (w, n)
  | S k, b :: rest =>
      if negb (below_max max n) then (w, n)
      else if ib_end b <=? ib_start b then (w, n)
      else
        match find_newline_and_strip b with
        | Some (next_line, len, b') =>
            let w := with_inbound w (b' :: rest) in
            let w := if flag w C_ENABLE_TELNET && negb (flag w C_CLOSING)
                     then on_conn (fun x => comm_buffered_write_comm x [13; 10]%Z) w else w in
            let '(w, r) := comm_invoke_inbound_message (take len (ib_pending b')) w in
            match r with
            | DISPATCH_QUEUE_FULL => (deref w (fun _ => defer w), n)
            | _ =>
                let w := with_inbound w (set_head_start next_line (inbound_of w)) in
                if bool_decide (comm w = None) || busy w then (w, S n)
                else if next_line <? ib_end b'
                then line_loop k max (S n) (default w (pull_next w))
                else
                  let '(chain, pool) := recycle_head (inbound_of w) (ipool w) in
                  line_loop k max (S n) (with_ipool (with_inbound w chain) pool)
            end
        | None =>
            if length (ib_pending b) =? kInboundSize then (w, n)
            else match pull_next w with
                 | Some w' => line_loop k max n w'
                 | None => (w, n)
                 end
        end
  end.

(** Each turn delivers a line, empties a buffer or moves bytes to the head. *)
Definition line_fuel (chain : list inbound_buffer) : nat :=
  S (2 * (length (in_content chain) + length chain)).

(** The result of a pass over the input. *)
Definition pass_result (w : world) : world * process_result :=
  match comm w with
  | None => (w, PROCESS_CLOSED)
  | Some c => (w, if has_flag (flags c) C_DEFERRED_INBOUND then PROCESS_DEFERRED else PROCESS_OK)
  end.

(** Character input: one key, after which the slot is back in line mode. *)
Definition char_pass (max : option nat) (w : world) : world * process_result :=
  match inbound_of w with
  | [] => pass_result w
  | b :: _ =>
      if negb (below_max max 0) then pass_result w
      else
        match find_char_input_sequence b (flag w C_ENABLE_ANSI) with
        | None => pass_result w
        | Some (next_char, len) =>
            let '(w, ok) := comm_set_line_input true w in
            if negb ok then (w, PROCESS_ERROR)
            else
              let key := take len (ib_pending b) in
              let '(w, r) :=
                if flag w C_ENABLE_TELNET && hook_async HOOK_MESSAGE_INBOUND
                then comm_invoke_inbound_message key w else invoke_char_input_message key w in
              match r with
              | DISPATCH_QUEUE_FULL => pass_result (deref w (fun _ => defer w))
              | _ => pass_result (with_inbound w (set_head_start next_char (inbound_of w)))
              end
        end
  end.

Definition input_pass (max : option nat) (w : world) : world * process_result :=
  if flag w C_LINE_INPUT
  then pass_result (line_loop (line_fuel (inbound_of w)) max 0 w).1
  else char_pass max w.

(** The start of [_comm_process_input]: [inr] is an early return. *)
Definition begin_pass (w : world) : world + world * process_result :=
  match comm w with
  | None => inr (w, PROCESS_ERROR)
  | Some c =>
      if has_flag (flags c) C_AWAITING_HOOK || busy w then inr (w, PROCESS_DEFERRED)
      else
        let w := lower C_DEFERRED_INBOUND w in
        let '(chain, pool) := skip_non_data (inbound_of w) (ipool w) in
        let w := with_ipool (with_inbound w chain) pool in
        if upgrade_pending (flags_of w) then
          let w := comm_try_upgrade_websocket w in
          match comm w with
          | None => inr (w, PROCESS_CLOSED)
          | Some c => if C_WEBSOCKET_IS_READY (flags c) then inl w else inr (w, PROCESS_OK)
          end
        else inl w
  end.

Definition comm_process_decoded_input (max : option nat) (w : world) : world * process_result :=
  match begin_pass w with inr r => r | inl w => input_pass max w end.

(** ** WebSocket input *)

Definition ws_state (w : world) : websocket_state :=
  match comm w with Some c => default new_websocket (websocket c) | None => new_websocket end.

Definition set_ws (f : websocket_state → websocket_state) (w : world) : world :=
  deref w (fun c => with_comm w (Some (set_websocket c (Some (f (ws_state w)))))).

Definition ws_pending (p : list Z) (s : websocket_state) : websocket_state :=
  {| fragmented_opcode := fragmented_opcode s; fragmented_payload := fragmented_payload s;
     preferred_protocols := preferred_protocols s; pending_wire := p;
     decoded_input := decoded_input s |}.
Definition ws_decoded (d : list Z) (s : websocket_state) : websocket_state :=
  {| fragmented_opcode := fragmented_opcode s; fragmented_payload := fragmented_payload s;
     preferred_protocols := preferred_protocols s; pending_wire := pending_wire s;
     decoded_input := d |}.

(** [SIZE_MAX] as a limit on the bytes of the chain: more than there are. *)
Definition unlimited (w : world) : nat := S (length (in_content (inbound_of w))).

(** All data of the chain taken out of it; the consumption without limit frees
    every buffer. *)
Definition take_all (w : world) : world * list Z :=
  (consume_inbound w (unlimited w), comm_copy_inbound_data_prefix (inbound_of w) (unlimited w)).

(** [_decode_websocket_telnet_payload]: decoded bytes are added to [decoded_input];
    the decoder takes at least one byte per turn. *)
Fixpoint decode_websocket_telnet_payload (fuel : nat) (payload : list Z) (w : world)
    : world * dispatch_result :=
  match fuel, payload with
  | 0, _ | _, [] => (w, DISPATCH_OK)
  | S n, _ =>
      match comm w with
      | None => (fails w, DISPATCH_ERROR)
      | Some c =>
          let o := comm_telnet_process_inbound payload (Z.land (flags c) M_TELNET_STATE)
                     zero_negotiation in
          if po_consumed o =? 0 then (w, DISPATCH_ERROR)
          else
            let w := set_flags_w (store_telnet_state (po_state o)) w in
            let w := if length (po_data o) <? po_consumed o
                     then on_conn (fun x => comm_process_telnet_options x (po_neg o)) w else w in
            let '(w, r) := comm_dispatch_telnet_subnegotiation (po_neg o) w in
            if mudmux_dispatch_accepted r then
              decode_websocket_telnet_payload n (drop (po_consumed o) payload)
                (set_ws (fun s => ws_decoded (decoded_input s ++ po_data o) s) w)
            else (w, r)
      end
  end.

(** [_process_websocket_decoded_input]. *)
Definition process_websocket_decoded_input (max : option nat) (w : world)
    : world * process_result :=
  let d := decoded_input (ws_state w) in
  if length d =? 0 then (w, PROCESS_OK)
  else
    let '(w, ok) := comm_append_decoded_input d w in
    if negb ok then (w, PROCESS_ERROR)
    else
      let '(w, r) := comm_process_decoded_input max (set_ws (ws_decoded []) w) in
      let '(w, rest) := take_all w in
      (set_ws (ws_decoded rest) w, r).

(** The loop over the frames received; every turn but the last takes bytes. *)
Fixpoint websocket_loop (fuel : nat) (max : option nat) (w : world) : world * process_result :=
  match fuel, pending_wire (ws_state w) with
  | 0, _ | _, [] => (w, PROCESS_OK)
  | S n, wire =>
      match comm w with
      | None => (fails w, PROCESS_ERROR)
      | Some c =>
          let '(x, res) := comm_websocket_process_inbound {| cn := c; cn_pool := opool w |} wire 1 in
          let w := with_opool (with_comm w (Some (cn x))) (cn_pool x) in
          match res with
          | WsFail code =>
              if (code =? 0)%Z then (w, PROCESS_CLOSED)
              else
                let w := on_conn (fun x => (comm_websocket_queue_close x (close_payload code)).1) w in
                ((comm_close w).1, PROCESS_CLOSED)
          | WsOk 0 _ => (w, PROCESS_OK)
          | WsOk consumed messages =>
              let w := set_ws (ws_pending (drop consumed wire)) w in
              match messages with
              | [] => websocket_loop n max w
              | message :: _ =>
                  let '(w, r) := if flag w C_ENABLE_TELNET
                                 then decode_websocket_telnet_payload (S (length message)) message w
                                 else (w, DISPATCH_OK) in
                  match r with
                  | DISPATCH_QUEUE_FULL => (deref w (fun _ => defer w), PROCESS_DEFERRED)
                  | DISPATCH_ERROR => (w, PROCESS_ERROR)
                  | _ =>
                      let w := if flag w C_ENABLE_TELNET then w
                               else set_ws (fun s => ws_decoded (decoded_input s ++ message) s) w in
                      let '(w, pr) := process_websocket_decoded_input max w in
                      match pr with
                      | PROCESS_OK =>
                          if bool_decide (comm w = None) then (w, PROCESS_CLOSED)
                          else if busy w then (w, PROCESS_DEFERRED)
                          else websocket_loop n max w
                      | _ => (w, pr)
                      end
                  end
              end
          end
      end
  end.

Definition comm_process_websocket_input (max : option nat) (w : world) : world * process_result :=
  let w := set_ws id w in
  let wire := comm_copy_inbound_data_prefix (inbound_of w) (unlimited w) in
  let w := consume_inbound w (length wire) in
  let w := set_ws (fun s => ws_pending (pending_wire s ++ wire) s) w in
  let '(w, r) := process_websocket_decoded_input max w in
  match r with
  | PROCESS_OK => websocket_loop (S (length (pending_wire (ws_state w)))) max w
  | _ => (w, r)
  end.

Definition comm_process_input (max : option nat) (w : world) : world * process_result :=
  match begin_pass w with
  | inr r => r
  | inl w => if C_WEBSOCKET_IS_READY (flags_of w) then comm_process_websocket_input max w
             else input_pass max w
  end.

(** ** Idle notifications *)

(** [_comm_has_pending_inbound]. *)
Definition comm_has_pending_inbound (w : world) : bool :=
  match comm w with
  | None => false
  | Some c => has_flag (flags c) C_DEFERRED_INBOUND
              || existsb (fun b => ib_start b <? ib_end b) (inbound c)
              || comm_websocket_has_pending_input {| cn := c; cn_pool := opool w |}
  end.

(** The body of [comm_invoke_prompt] for this slot. *)
Definition comm_invoke_prompt (w : world) : world :=
  match comm w with
  | None => w
  | Some c =>
      if negb (has_flag (flags c) C_ENABLE_PROMPT) || has_flag (flags c) C_INVOKED_PROMPT then w
      else if has_flag (flags c) (Z.lor C_BUFFERED_WRITE C_AWAITING_HOOK)
              || bool_decide (outbound c ≠ []) || bool_decide (websocket_upgrade_barrier c ≠ [])
              || comm_has_pending_inbound w || busy w then w
      else
        let '(w, r) := do_dispatch (slot_hook HOOK_PROMPT) id w in
        if mudmux_dispatch_accepted r then deref w (fun _ => raise C_INVOKED_PROMPT w) else w
  end.

(** The body of [comm_resume_deferred_input] for this slot: whether it stays
    deferred. *)
Definition comm_resume_deferred_input (w : world) : world * bool :=
  match comm w with
  | None => (w, false)
  | Some c =>
      if negb (has_flag (flags c) C_DEFERRED_INBOUND) then (w, false)
      else if busy w then (w, true)
      else
        let '(w, r) := comm_process_input None (lower C_DEFERRED_INBOUND w) in
        match r with
        | PROCESS_CLOSED | PROCESS_ERROR => ((comm_close w).1, false)
        | _ => (w, flag w C_DEFERRED_INBOUND)
        end
  end.

End Inbound.

(** ** Delivery of lines *)

(** The messages handed to the inbound hook, in order. *)
Definition messages (w : world) : list (list Z) :=
  omap (fun e => match e with
                 | EDispatch h => if bool_decide (hc_type h = HOOK_MESSAGE_INBOUND)
                                  then Some (hc_data h) else None
                 | _ => None
                 end) (log w).

Lemma messages_emit w e : messages (emit w e) = messages w ++
  match e with
  | EDispatch h => if bool_decide (hc_type h = HOOK_MESSAGE_INBOUND) then [hc_data h] else []
  | _ => []
  end.
Proof.
  unfold messages. cbn [emit log]. rewrite omap_app. f_equal.
  destruct e; try done. cbn. by destruct (bool_decide _).
Qed.

Section Delivery.
Context `{Host, MultiByte, WsCrypto}.

(** A hook that handles its message on the spot: it is not refused, keeps the
    slot and its received bytes, and leaves the slot free for the next one. *)
Class LineHost := law_line : ∀ h w c,
  hc_type h = HOOK_MESSAGE_INBOUND → comm w = Some c →
  let '(w', r) := dispatch h w in
  r ≠ DISPATCH_QUEUE_FULL ∧ messages w' = messages w
  ∧ (∀ e, busy (emit w' e) = false ∧ ∀ i, busy (with_inbound (emit w' e) i) = false)
  ∧ ∃ c', comm w' = Some c' ∧ inbound c' = inbound c.

Context {laws : LineHost}.

Lemma messages_flags f w : messages (set_flags_w f w) = messages w.
Proof. unfold set_flags_w. by destruct (comm w). Qed.
Lemma inbound_flags f w : inbound_of (set_flags_w f w) = inbound_of w.
Proof. unfold set_flags_w, inbound_of. destruct (comm w) eqn:E; cbn; by rewrite ?E. Qed.
Lemma live_flags f w : is_Some (comm w) → is_Some (comm (set_flags_w f w)).
Proof. unfold set_flags_w. destruct (comm w); [done|by intros []]. Qed.

(** Delivering one message. *)
Lemma invoke_inbound_spec data w c :
  comm w = Some c →
  let '(w', r) := comm_invoke_inbound_message data w in
  r ≠ DISPATCH_QUEUE_FULL ∧ messages w' = messages w ++ [data]
  ∧ (∀ i, busy (with_inbound w' i) = false) ∧ is_Some (comm w') ∧ inbound_of w' = inbound c.
Proof.
  intros Hc. unfold comm_invoke_inbound_message. rewrite Hc. cbn zeta.
  set (h := {| hc_type := HOOK_MESSAGE_INBOUND; hc_msg := host_slot; hc_data := data |}).
  set (w1 := lower C_INVOKED_PROMPT w).
  set (w2 := if hook_async HOOK_MESSAGE_INBOUND then defer w1 else w1).
  assert (H2 : ∃ c2, comm w2 = Some c2 ∧ inbound c2 = inbound c ∧ messages w2 = messages w).
  { assert (E1 : comm w1 = Some (set_flags c (clear_flag (flags c) C_INVOKED_PROMPT)))
      by (unfold w1, lower, set_flags_w; by rewrite Hc).
    assert (M1 : messages w1 = messages w) by apply messages_flags.
    unfold w2. destruct (hook_async _); [|by eauto].
    unfold defer, raise, set_flags_w. rewrite E1. by eexists. }
  destruct H2 as (c2 & E2 & I2 & M2). clearbody w2. unfold do_dispatch.
  pose proof (law_line h (emit w2 (EDispatch h)) c2 eq_refl E2) as L.
  destruct (dispatch h _) as [w3 r]. destruct L as (L1 & L2 & L3 & c3 & L4 & L5).
  rewrite messages_emit, M2 in L2. cbn [h hc_type hc_data] in L2.
  rewrite bool_decide_eq_true_2 in L2 by done.
  assert (G : ∀ w4, w4 = w3 → r ≠ DISPATCH_QUEUE_FULL
    ∧ messages (emit w4 (EAnswer h r)) = messages w ++ [data]
    ∧ (∀ i, busy (with_inbound (emit w4 (EAnswer h r)) i) = false)
    ∧ is_Some (comm (emit w4 (EAnswer h r))) ∧ inbound_of (emit w4 (EAnswer h r)) = inbound c).
  { intros w4 ->. split_and!; try done.
    - rewrite messages_emit, L2. by rewrite app_nil_r.
    - intros i. by apply L3.
    - unfold inbound_of. cbn [emit comm]. rewrite L4. congruence. }
  apply G. cbn [h hc_type]. by destruct (hook_async _).
Qed.

Lemma with_inbound_spec w l : is_Some (comm w) →
  is_Some (comm (with_inbound w l)) ∧ inbound_of (with_inbound w l) = l
  ∧ messages (with_inbound w l) = messages w ∧ flags_of (with_inbound w l) = flags_of w.
Proof. intros [c Hc]. unfold with_inbound, inbound_of, flags_of. rewrite Hc. by split_and!. Qed.

Lemma echo_spec w (b : bool) : is_Some (comm w) →
  let w' := if b then on_conn (fun x => comm_buffered_write_comm x [13; 10]%Z) w else w in
  is_Some (comm w') ∧ inbound_of w' = inbound_of w ∧ messages w' = messages w.
Proof.
  intros [c Hc]. destruct b; cbn zeta; [|split_and!; try done; by rewrite Hc]. unfold on_conn, inbound_of.
  rewrite Hc. split_and!; try done. cbn. unfold comm_buffered_write_comm, comm_buffered_write_comm_impl.
  cbn [length Nat.eqb]. cbn zeta.
  destruct (_ && (_ =? _)%Z); [done|]. destruct (_ && negb _).
  { destruct (comm_websocket_encode_frame _ _); [|done]. unfold append_websocket_upgrade_barrier.
    by destruct (barrier_append _ _ _) as [[? ?] ?]. }
  destruct (C_WEBSOCKET_IS_READY _).
  - destruct (comm_websocket_encode_frame _ _) as [f|]; [|done].
    by destruct (write_raw_frame {| cn := c; cn_pool := opool w |} f) as (_ & _ & _ & -> & _).
  - match goal with |- context [comm_buffered_write_raw_comm ?x ?d] =>
      by destruct (write_raw_frame x d) as (_ & _ & _ & -> & _) end.
Qed.

(** One line: echoed, handed to the hook and skipped. *)
Lemma line_turn ret len b' w :
  is_Some (comm w) →
  let w1 := with_inbound w [b'] in
  let w2 := if flag w1 C_ENABLE_TELNET && negb (flag w1 C_CLOSING)
            then on_conn (fun x => comm_buffered_write_comm x [13; 10]%Z) w1 else w1 in
  let '(w3, r) := comm_invoke_inbound_message (take len (ib_pending b')) w2 in
  let w4 := with_inbound w3 (set_head_start ret (inbound_of w3)) in
  r ≠ DISPATCH_QUEUE_FULL ∧ is_Some (comm w4) ∧ inbound_of w4 = [line_at ret b']
  ∧ messages w4 = messages w ++ [take len (ib_pending b')] ∧ busy w4 = false.
Proof.
  intros Hc. cbn zeta. destruct (with_inbound_spec w [b'] Hc) as (C1 & I1 & M1 & _).
  set (w1 := with_inbound w [b']) in *.
  set (e := flag w1 C_ENABLE_TELNET && negb (flag w1 C_CLOSING)).
  destruct (echo_spec w1 e C1) as (C2 & I2 & M2).
  set (w2 := if e then _ else w1) in *. destruct C2 as [c2 C2].
  pose proof (invoke_inbound_spec (take len (ib_pending b')) w2 c2 C2) as D.
  destruct (comm_invoke_inbound_message _ w2) as [w3 r]. destruct D as (D1 & D2 & D3 & D4 & D5).
  assert (I3 : inbound_of w3 = [b']).
  { rewrite D5. rewrite I1 in I2. unfold inbound_of in I2. by rewrite C2 in I2. }
  destruct (with_inbound_spec w3 (set_head_start ret (inbound_of w3)) D4) as (C4 & I4 & M4 & _).
  specialize (D3 (set_head_start ret (inbound_of w3))).
  rewrite I3 in I4 at 2. split_and!; try done. by rewrite M4, D2, M2, M1.
Qed.

(** The loop over one data buffer delivers the lines of its frame. *)
Lemma line_loop_framed fuel n w b ls tail :
  is_Some (comm w) → inbound_of w = [b] → is_data b = true → ib_ok b →
  framed (ib_pending b) ls tail → length ls < fuel →
  let '(w', n') := line_loop fuel None n w in
  messages w' = messages w ++ map trim_ascii ls ∧ n' = n + length ls ∧ is_Some (comm w')
  ∧ ∃ b', inbound_of w' = [b'] ∧ ib_pending b' = tail.
Proof.
  revert n w b ls. induction fuel as [|k IH]; intros n w b ls Hc Hi Hd Hb Hf Hl; [lia|].
  assert (Stop : ∀ l, ls = l → l = [] → ib_pending b = tail →
    messages w = messages w ++ map trim_ascii ls ∧ n = n + length ls ∧ is_Some (comm w)
    ∧ ∃ b', inbound_of w = [b'] ∧ ib_pending b' = tail).
  { intros l -> -> E. rewrite app_nil_r. split_and!; [done|cbn; lia|done|by eauto]. }
  cbn [line_loop]. rewrite Hi. cbn [below_max negb].
  pose proof (scan_framed b ls tail Hb Hf) as Sc.
  destruct ls as [|line ls'].
  { destruct Sc as [-> Et]. destruct (_ <=? _); [by eapply Stop|].
    destruct (_ =? kInboundSize); [by eapply Stop|].
    unfold pull_next. rewrite Hi. by eapply Stop. }
  destruct Sc as (ret & len & b' & -> & Hline & Hok & Hfr & He & Hband & Hne).
  rewrite (proj2 (Nat.leb_gt _ _)) by done. cbn zeta.
  pose proof (line_turn ret len b' w Hc) as T. cbn zeta in T.
  destruct (comm_invoke_inbound_message _ _) as [w3 r]. destruct T as (Hr & C4 & I4 & M & B4). rewrite Hline in M.
  set (w4 := with_inbound w3 _) in *.
  assert (Hd' : is_data (line_at ret b') = true) by (unfold is_data in *; cbn; by rewrite Hband).
  assert (Next : ∀ v bv, is_Some (comm v) → inbound_of v = [bv] → is_data bv = true → ib_ok bv →
      framed (ib_pending bv) ls' tail → messages v = messages w ++ [trim_ascii line] →
      let '(w', n') := line_loop k None (S n) v in
      messages w' = messages w ++ map trim_ascii (line :: ls') ∧ n' = n + length (line :: ls')
      ∧ is_Some (comm w') ∧ ∃ b', inbound_of w' = [b'] ∧ ib_pending b' = tail).
  { intros v bv V1 V2 V3 V4 V5 V6. cbn in Hl. specialize (IH (S n) v bv ls' V1 V2 V3 V4 V5 ltac:(lia)).
    destruct (line_loop k None (S n) v) as [w' n']. destruct IH as (-> & -> & ? & ?).
    rewrite V6, <- app_assoc. cbn [map app length]. split_and!; [done|lia|done..]. }
  rewrite bool_decide_eq_false_2 by (by destruct C4 as [? ->]). rewrite B4. cbn [orb].
  assert (Go : let '(w', n') := if ret <? ib_end b' then line_loop k None (S n) (default w4 (pull_next w4))
      else let '(chain, pool) := recycle_head (inbound_of w4) (ipool w4) in
           line_loop k None (S n) (with_ipool (with_inbound w4 chain) pool) in
      messages w' = messages w ++ map trim_ascii (line :: ls') ∧ n' = n + length (line :: ls')
      ∧ is_Some (comm w') ∧ ∃ b', inbound_of w' = [b'] ∧ ib_pending b' = tail); [|by destruct r].
  destruct (ret <? ib_end b') eqn:Er; breflect.
  - assert (pull_next w4 = None) as -> by (unfold pull_next; by rewrite I4). by eapply Next.
  - rewrite I4. cbn [recycle_head app skip_non_data is_data ib_reset ib_band].
    destruct (with_inbound_spec w4 [ib_reset] C4) as (C5 & I5 & M5 & _).
    assert (Hp : ib_pending (line_at ret b') = [])
      by (apply pending_nil; unfold ib_end, line_at in *; cbn [ib_data ib_start]; lia).
    rewrite Hp in Hfr. apply (Next (with_ipool (with_inbound w4 [ib_reset]) (ipool w4)) ib_reset); try done.
    + unfold ib_ok, ib_end. cbn. lia.
    + rewrite <- M5 in M. exact M.
Qed.

Lemma framed_length p ls tail : framed p ls tail → length ls ≤ length p.
Proof.
  induction 1 as [|line nl rest ls tail _ T _ _ IH]; cbn [length]; [lia|].
  destruct (terminator_hd _ T) as (c & n & -> & _). rewrite !length_app. cbn [length]. lia.
Qed.

(** A slot in plain line input that is free to parse. *)
Record line_slot (w : world) (c : comm_abstract) (b : inbound_buffer) : Prop := {
  ls_comm : comm w = Some c;
  ls_inbound : inbound c = [b];
  ls_data : is_data b = true;
  ls_ok : ib_ok b;
  ls_line : has_flag (flags c) C_LINE_INPUT = true;
  ls_await : has_flag (flags c) C_AWAITING_HOOK = false;
  ls_ws : has_flag (flags c) C_ENABLE_WEBSOCKET = false ∧ C_WEBSOCKET_IS_READY (flags c) = false;
  ls_busy : busy w = false
}.

(** One pass over the received bytes of a line slot. *)
Lemma process_framed w c b ls tail :
  line_slot w c b → framed (ib_pending b) ls tail →
  ∃ w' r, comm_process_input None w = (w', r) ∧ (r = PROCESS_OK ∨ r = PROCESS_DEFERRED)
    ∧ messages w' = messages w ++ map trim_ascii ls
    ∧ ∃ b', inbound_of w' = [b'] ∧ ib_pending b' = tail.
Proof.
  intros [Hc Hi Hd Hb Hl Ha [Hw1 Hw2] Hbusy] Hf. unfold comm_process_input, begin_pass.
  rewrite Hc, Ha, Hbusy. cbn [orb].
  set (w1 := lower C_DEFERRED_INBOUND w).
  assert (E1 : comm w1 = Some (set_flags c (clear_flag (flags c) C_DEFERRED_INBOUND)))
    by (unfold w1, lower, set_flags_w; by rewrite Hc).
  assert (I1 : inbound_of w1 = [b]) by (unfold inbound_of; rewrite E1; exact Hi).
  rewrite I1. cbn [skip_non_data]. rewrite Hd.
  destruct (with_inbound_spec w1 [b] ltac:(by rewrite E1)) as (C2 & I2 & M2 & F2).
  set (w2 := with_ipool (with_inbound w1 [b]) (ipool w1)).
  assert (Hfl : flags_of w2 = clear_flag (flags c) C_DEFERRED_INBOUND).
  { etransitivity; [exact F2|]. unfold flags_of. by rewrite E1. }
  assert (upgrade_pending (flags_of w2) = false) as ->.
  { rewrite Hfl. unfold upgrade_pending. by rewrite has_flag_clear_other, Hw1. }
  assert (C_WEBSOCKET_IS_READY (flags_of w2) = false) as ->.
  { rewrite Hfl. unfold C_WEBSOCKET_IS_READY in *. by rewrite ws_state_clear. }
  unfold input_pass, flag. rewrite Hfl, has_flag_clear_other, Hl by reflexivity.
  change (inbound_of w2) with (inbound_of (with_inbound w1 [b])). rewrite I2.
  pose proof (framed_length _ _ _ Hf) as Hlen.
  assert (Hfuel : length ls < line_fuel [b]).
  { unfold line_fuel, in_content. cbn [map concat length]. rewrite Hd, app_nil_r. lia. }
  pose proof (line_loop_framed (line_fuel [b]) 0 w2 b ls tail C2 I2 Hd Hb Hf Hfuel) as L.
  destruct (line_loop _ None 0 w2) as [w' n']. destruct L as (L1 & _ & [c' L2] & L3).
  cbn [fst]. unfold pass_result. rewrite L2. eexists _, _. split; [done|]. split_and!; [|..|done].
  - destruct (has_flag (flags c') C_DEFERRED_INBOUND); [by right|by left].
  - rewrite L1. f_equal. etransitivity; [exact M2|]. apply messages_flags.
Qed.

(** C5: line input reaches the application when the hook is called inline.  On a
    slot in line input without WebSocket, whose received bytes are in one buffer
    and which is free to parse, with an inbound hook that handles its message on
    the spot, is not refused and keeps the slot and its input: one pass calls the
    inbound hook once for every complete line, in the order received, with the
    line trimmed and without its terminator, and keeps the incomplete last line
    for the next pass; the pass ends without error. *)
Theorem lines_delivered w c b ls tail :
  line_slot w c b → framed (ib_pending b) ls tail →
  ∃ w' r, comm_process_input None w = (w', r) ∧ (r = PROCESS_OK ∨ r = PROCESS_DEFERRED)
    ∧ messages w' = messages w ++ map trim_ascii ls
    ∧ ∃ b', inbound_of w' = [b'] ∧ ib_pending b' = tail.
Proof. apply process_framed. Qed.
End Delivery.

(** ** The protocol switch *)

Section Upgrade.
Context `{Host, MultiByte, WsCrypto}.

Lemma on_conn_comm f w c : comm w = Some c →
  comm (on_conn f w) = Some (cn (f {| cn := c; cn_pool := opool w |}))
  ∧ log (on_conn f w) = log w.
Proof. intros Hc. unfold on_conn. by rewrite Hc. Qed.

Lemma set_flags_comm f w c : comm w = Some c →
  comm (set_flags_w f w) = Some (set_flags c (f (flags c))) ∧ log (set_flags_w f w) = log w.
Proof. intros Hc. unfold set_flags_w. by rewrite Hc. Qed.

Lemma consume_comm w c n : comm w = Some c →
  ∃ chain, comm (consume_inbound w n) = Some (set_inbound c chain)
    ∧ in_content chain = drop n (in_content (inbound c)) ∧ log (consume_inbound w n) = log w.
Proof.
  intros Hc. unfold consume_inbound, inbound_of, with_inbound. rewrite Hc.
  pose proof (consume_drop (inbound c) (ipool w) n) as E.
  destruct (comm_consume_inbound_data _ _ _) as [chain pool]. exists chain. by split_and!.
Qed.

(** Enabling telnet during the upgrade sends nothing yet. *)
Lemma enable_telnet_pending x :
  C_WEBSOCKET_STATE (flags (cn x)) = WS_TELNET_PENDING →
  let y := comm_enable_telnet_for_slot x in
  outbound (cn y) = outbound (cn x) ∧ inbound (cn y) = inbound (cn x)
  ∧ websocket_upgrade_barrier (cn y) = websocket_upgrade_barrier (cn x)
  ∧ C_WEBSOCKET_STATE (flags (cn y)) = WS_TELNET_PENDING.
Proof.
  intros E. unfold comm_enable_telnet_for_slot, C_WEBSOCKET_IS_READY. cbn zeta. rewrite E.
  cbn [Z.eqb WS_TELNET_PENDING WS_HANDSHAKE negb]. rewrite andb_false_r.
  destruct (has_flag _ _); [done|]. cbn [on_flags on_comm cn set_flags flags].
  rewrite ws_state_set, E by reflexivity. cbn [Z.eqb Pos.eqb WS_TELNET_PENDING].
  split_and!; try done. cbn [on_flags on_comm cn set_flags flags]. by rewrite ws_state_set.
Qed.

(** An accepted WebSocket handshake switches the protocol without a gap: the
    response is queued behind the output already there, exactly the header block
    is taken from the input so that frames sent right behind it are kept, the
    output held behind the upgrade stays where it is, and no hook is called. *)
Theorem upgrade_switches w c request rest response telnet :
  comm w = Some c → upgrade_pending (flags c) = true → wbio c ≠ None →
  chain_ok (outbound c) → length response ≤ room (outbound c) →
  length response ≤ kBufferSize * MAX_OUTBOUND_BUFFERS_PER_SLOT →
  in_content (inbound c) = request ++ rest →
  length (request ++ rest) ≤ WEBSOCKET_MAX_HANDSHAKE_BYTES →
  find_http_header_end (request ++ rest) = Some (length request) → request ≠ [] →
  comm_websocket_build_upgrade_response request
    (match websocket c with Some s => preferred_protocols s | None => [] end)
  = Accepted response telnet →
  ∃ c', comm (comm_try_upgrade_websocket w) = Some c'
    ∧ content (outbound c') = content (outbound c) ++ response
    ∧ in_content (inbound c') = rest
    ∧ websocket_upgrade_barrier c' = websocket_upgrade_barrier c
    ∧ C_WEBSOCKET_STATE (flags c') = (if telnet then WS_TELNET_PENDING else WS_READY)
    ∧ log (comm_try_upgrade_websocket w) = log w.
Proof.
  intros Hc Hu Hw Hok Hr Hl Hin Hlen Hend Hne Hresp.
  unfold comm_try_upgrade_websocket. rewrite Hc, Hu. cbn [negb]. cbn zeta.
  unfold comm_copy_inbound_data_prefix. rewrite copy_prefix_take, Nat.sub_0_r, Hin, take_ge by done.
  rewrite (proj2 (Nat.eqb_neq _ _)) by (destruct request; [done|cbn; lia]).
  rewrite Hend, take_app_length, Hresp.
  set (f := fun x => comm_buffered_write_raw_comm x response).
  destruct (on_conn_comm f w c Hc) as [E1 L1]. set (w1 := on_conn f w) in *.
  set (x := f {| cn := c; cn_pool := opool w |}) in *.
  assert (Hx : content (outbound (cn x)) = content (outbound c) ++ response) by (by apply write_raw_fits).
  destruct (write_raw_frame {| cn := c; cn_pool := opool w |} response)
    as (_ & _ & _ & Xi & Xb & _). fold (f {| cn := c; cn_pool := opool w |}) in Xi, Xb.
  fold x in Xi, Xb. cbn [cn] in Xi, Xb.
  destruct (consume_comm w1 (cn x) (length request) E1) as (chain & E2 & Hch & L2).
  set (w2 := consume_inbound w1 _) in *. rewrite Xi, Hin, drop_app_length in Hch.
  destruct (set_flags_comm (fun z => C_WEBSOCKET_SET_STATE z WS_READY) w2 _ E2) as [E3 L3].
  set (w3 := set_flags_w _ w2) in *. destruct telnet.
  - destruct (set_flags_comm (fun z => C_WEBSOCKET_SET_STATE z WS_TELNET_PENDING) w3 _ E3) as [E4 L4].
    set (w4 := set_flags_w _ w3) in *.
    destruct (on_conn_comm comm_enable_telnet_for_slot w4 _ E4) as [E5 L5].
    set (y := {| cn := _; cn_pool := opool w4 |}) in E5.
    destruct (enable_telnet_pending y) as (Y1 & Y2 & Y3 & Y4).
    { cbn [y cn set_flags flags]. rewrite ws_state_set_state. reflexivity. }
    eexists. split; [exact E5|]. rewrite Y1, Y2, Y3. split_and!; [done..|congruence].
  - eexists. split; [exact E3|]. split_and!; [done..| |congruence].
    cbn [set_flags flags]. rewrite ws_state_set_state. reflexivity.
Qed.
End Upgrade.

(** ** Defects *)

(** A host that answers hook [t] with [first] the first time and [later] after
    that; hooks run on workers. *)
Definition answered (t : hook_type) (w : world) : bool :=
  existsb (fun e => match e with
                    | EAnswer h _ => bool_decide (hc_type h = t)
                    | _ => false
                    end) (log w).

Definition worker_host (t : hook_type) (first later : dispatch_result) : Host := {|
  host_slot := 5;
  dispatch := fun h w => (w, if bool_decide (hc_type h = t)
                             then if answered t w then later else first else DISPATCH_OK);
  busy := fun _ => false;
  hook_async := fun _ => true;
  has_hook := fun _ => true;
  bio_has_fd := fun _ => true;
  file_inputs := false;
  tty_ok := true;
  host_write := fun _ => true;
  host_slots := {| alloc_ok := fun _ => true; unix_path := fun _ => None |}
|}.

Definition answers (w : world) : list dispatch_result :=
  omap (fun e => match e with EAnswer _ r => Some r | _ => None end) (log w).

#[local] Instance demo_mbrlen : MultiByte := fun s => match s with [] => MbIncomplete | _ => MbLen 1 end.
#[local] Instance demo_crypto : WsCrypto :=
  {| SHA1 := fun l => Some (take 20 (l ++ replicate 20 0%Z)); EVP_EncodeBlock := fun l => l |}.

Definition input_world (f : Z) (i : list inbound_buffer) : world :=
  mk_world (Some (mk_comm (Some 1) (Some 2) None i [] [] None 1 f no_capabilities))
    [] [] false [] [] [] [] [] false.

Definition data_buffer (l : list Z) : inbound_buffer :=
  {| ib_band := INBOUND_BAND_DATA; ib_start := 0; ib_data := l |}.

(** Telnet commands reach the application as text: when a client sends two
    subnegotiations in one packet and its hook runs on a worker, the second is
    refused because the slot is busy; the refused one is dropped and the rest of
    the packet, here IAC WILL ECHO and "hi", is stored undecoded. *)
Theorem refused_subnegotiation_leaks :
  let H := worker_host HOOK_TELNET_SUBNEG DISPATCH_QUEUED DISPATCH_QUEUE_FULL in
  let '(w', stored) :=
    refill_from_src (H := H)
      ([255; 250; 31; 0; 80; 0; 24; 255; 240] ++ [255; 250; 24; 0; 120; 255; 240]
       ++ [255; 251; 1; 104; 105])%Z
      (input_world (Z.lor C_ENABLE_TELNET C_LINE_INPUT) []) in
  stored = true ∧ answers w' = [DISPATCH_QUEUED; DISPATCH_QUEUE_FULL]
  ∧ in_content (inbound_of w') = [255; 251; 1; 104; 105]%Z.
Proof. vm_compute. done. Qed.

(** A line whose hook is refused once is delivered again followed by an empty
    line: the scanner has already overwritten the terminator CR LF with two
    NULs, which the next pass reads as two line ends. *)
Theorem refused_line_grows :
  let H := worker_host HOOK_MESSAGE_INBOUND DISPATCH_QUEUE_FULL DISPATCH_QUEUED in
  let w0 := input_world C_LINE_INPUT [data_buffer [97; 98; 99; 13; 10]%Z] in
  let '(w1, r1) := comm_process_input (H := H) None w0 in
  let '(w2, _) := comm_resume_deferred_input (H := H) w1 in
  r1 = PROCESS_DEFERRED
  ∧ answers w2 = [DISPATCH_QUEUE_FULL; DISPATCH_QUEUED; DISPATCH_QUEUED]
  ∧ messages w2 = [[97; 98; 99]; [97; 98; 99]; []]%Z.
Proof. vm_compute. done. Qed.

(** A hook of type [t] that closes its own slot, run inline. *)
Definition inline_close_host (t : hook_type) : Host := {|
  host_slot := 5;
  dispatch := fun h w => (if bool_decide (hc_type h = t)
                          then (comm_close (H := tty_host 5) w).1 else w, DISPATCH_OK);
  busy := fun _ => false;
  hook_async := fun _ => false;
  has_hook := fun _ => true;
  bio_has_fd := fun _ => true;
  file_inputs := false;
  tty_ok := true;
  host_write := fun _ => true;
  host_slots := {| alloc_ok := fun _ => true; unix_path := fun _ => None |}
|}.

(** A prompt hook that closes its connection crashes the server: the idle pass
    records the prompt in the flags of the slot the hook has just removed. *)
Theorem prompt_hook_close_faults :
  let w := comm_invoke_prompt (H := inline_close_host HOOK_PROMPT) (input_world C_ENABLE_PROMPT []) in
  comm w = None ∧ fault w = true.
Proof. vm_compute. done. Qed.

(** ** Witnesses *)

Definition recording_host : Host := {|
  host_slot := 5;
  dispatch := fun _ w => (w, DISPATCH_OK);
  busy := fun _ => false;
  hook_async := fun _ => false;
  has_hook := fun _ => true;
  bio_has_fd := fun _ => true;
  file_inputs := false;
  tty_ok := true;
  host_write := fun _ => true;
  host_slots := {| alloc_ok := fun _ => true; unix_path := fun _ => None |}
|}.

Lemma recording_laws : LineHost (H := recording_host).
Proof. intros h w c _ Hc. cbn. split_and!; try done. by exists c. Qed.

(** "look", an empty line, and an unfinished "s". *)
Definition typed : inbound_buffer := data_buffer [32; 108; 111; 111; 107; 13; 10; 10; 115]%Z.

Lemma lines_delivered_witness :
  ∃ w' r, comm_process_input (H := recording_host) None (input_world C_LINE_INPUT [typed]) = (w', r)
    ∧ (r = PROCESS_OK ∨ r = PROCESS_DEFERRED)
    ∧ messages w' = [] ++ map trim_ascii [[32; 108; 111; 111; 107]; []]%Z
    ∧ ∃ b', inbound_of w' = [b'] ∧ ib_pending b' = [115]%Z.
Proof.
  apply (lines_delivered (laws := recording_laws) (input_world C_LINE_INPUT [typed])
    (mk_comm (Some 1) (Some 2) None [typed] [] [] None 1 C_LINE_INPUT no_capabilities) typed).
  - split; try reflexivity; [|by split].
    split; apply Nat.leb_le; vm_compute; reflexivity.
  - change (ib_pending typed) with
      ([32; 108; 111; 111; 107]%Z ++ [13; 10]%Z ++ [] ++ [10]%Z ++ [115]%Z).
    apply framed_line; [by repeat constructor|right; by left|done|].
    apply framed_line; [constructor|left; by exists 10%Z|done|].
    apply framed_tail. by repeat constructor.
Defined.

Definition upgrade_request : list Z :=
  bytes_of_string "GET /chat HTTP/1.1" ++ crlf ++ bytes_of_string "Host: mud" ++ crlf
  ++ bytes_of_string "Upgrade: websocket" ++ crlf ++ bytes_of_string "Connection: Upgrade" ++ crlf
  ++ bytes_of_string "Sec-WebSocket-Version: 13" ++ crlf
  ++ bytes_of_string "Sec-WebSocket-Key: dGhlIHNhbXBsZSBub25jZQ==" ++ crlf ++ crlf.

Definition upgrade_response : list Z :=
  match comm_websocket_build_upgrade_response upgrade_request [] with
  | Accepted r _ => r | Rejected _ => [] end.

Definition upgrade_comm : comm_abstract :=
  mk_comm (Some 1) (Some 2) None [data_buffer (upgrade_request ++ [129; 128; 0; 0; 0; 0]%Z)] [] []
    None 1 C_ENABLE_WEBSOCKET no_capabilities.

Lemma upgrade_switches_witness :
  let w := mk_world (Some upgrade_comm) [] [] false [] [] [] [] [] false in
  ∃ c', comm (comm_try_upgrade_websocket (H := recording_host) w) = Some c'
    ∧ content (outbound c') = [] ++ upgrade_response
    ∧ in_content (inbound c') = [129; 128; 0; 0; 0; 0]%Z
    ∧ websocket_upgrade_barrier c' = []
    ∧ C_WEBSOCKET_STATE (flags c') = WS_READY
    ∧ log (comm_try_upgrade_websocket (H := recording_host) w) = [].
Proof.
  apply (upgrade_switches (H := recording_host)
           (mk_world (Some upgrade_comm) [] [] false [] [] [] [] [] false) upgrade_comm
           upgrade_request [129; 128; 0; 0; 0; 0]%Z upgrade_response false);
    try reflexivity; try done; try (apply Nat.leb_le; vm_compute; reflexivity).
  split; [apply Nat.leb_le; reflexivity|constructor].
Defined.
