(* ===== verification/EventLoop.v ===== *)
(** * The event loop's work on one slot (src/mudmux.cpp)

    What [mudmux_run] does with an I/O event of a connected slot, and the passes
    it makes over every slot at the end of a turn.  Listening slots, the console and
    file input have files of their own (Accept.v, Console.v, FileInput.v). *)

From S2P Require Import Prelude InBuf OutBuf Abstract Execution WsFrame HttpUpgrade WsConn World.
From S2P Require Import Outbound InputMode Inbound.

(** An [io_event_t]: [EVENT_READ], [EVENT_WRITE], and [EVENT_CLOSE] or [EVENT_ERROR]. *)
Record io_event := { ev_read : bool; ev_write : bool; ev_close : bool }.

Section EventLoop.
Context `{Host, MultiByte, WsCrypto}.

(** A close after which no Close frame of the peer can be expected any more. *)
Definition close_without_reply (w : world) (final : bool) : world :=
  let '(w, closed) := comm_close w in
  if negb closed && final && flag w C_CLOSING && C_WEBSOCKET_IS_READY (flags_of w)
  then (comm_close (set_flags_w (fun f => C_WEBSOCKET_SET_STATE f WS_CLOSE_RECEIVED) w)).1
  else w.

(** The part of the event after reading; [None] when a flush runs out of fuel. *)
Definition finish_event (ev : io_event) (w : world) : option world :=
  w ← (if ev_write ev then comm_flush 3 w else Some w);
  if ev_close ev then Some (close_without_reply w true)
  else Some (deref w (fun c => if has_flag (flags c) C_CLOSING then (comm_close w).1 else w)).

Definition handle_event (ev : io_event) (w : world) : option world :=
  match comm w with
  | None => Some w
  | Some c =>
      if ev_read ev then
        if has_flag (flags c) C_AWAITING_HOOK || busy w then Some w
        else
          let '(w, refilled) := comm_refill_inbound_buffers w in
          let '(w, r) := comm_process_input None w in
          match comm w with
          | None => Some w
          | Some _ =>
              let failed := match r with PROCESS_ERROR | PROCESS_CLOSED => true | _ => false end in
              if negb refilled || failed then Some (close_without_reply w (negb refilled))
              else finish_event ev w
          end
      else finish_event ev w
  end.

(** The end of a turn for this slot: deferred input, flush, progress of a close,
    prompt ([comm_resume_deferred_input], [comm_flush_all], [comm_invoke_prompt]). *)
Definition end_of_turn (w : world) : option world :=
  let w := if deferred w
           then let '(w, still) := comm_resume_deferred_input w in with_deferred w still else w in
  w ← comm_flush 3 w;
  let w := if flag w C_CLOSING && negb (flag w C_AWAITING_HOOK) then (comm_close w).1 else w in
  Some (comm_invoke_prompt w).

Definition loop_turn (ev : io_event) (w : world) : option world :=
  w ← handle_event ev w; end_of_turn w.

(** The slot is released, or it is being closed. *)
Definition going (w : world) : Prop :=
  match phase w with Some (closing, _) => closing = true | None => True end.

(** The event says that the peer is gone: a read that finds the end of the stream or
    an error, at a moment when no hook of the slot is under way, or a close or
    error event without data. *)
Definition dropped (ev : io_event) (w : world) : Prop :=
  ev_read ev = true ∧ flag w C_AWAITING_HOOK = false ∧ busy w = false ∧ (comm_refill_inbound_buffers w).2 = false
  ∨ ev_read ev = false ∧ ev_write ev = false ∧ ev_close ev = true.

Context {laws : CloseHost}.

Lemma close_going w : going (comm_close w).1.
Proof.
  unfold comm_close, going. destruct (comm w) as [c|] eqn:Hc; [|unfold comm_close_impl, phase; rewrite Hc; cbn; by rewrite Hc].
  destruct (close_cases true w c Hc) as [(w1 & d & Hd & Hp & _ & ->)|(_ & _ & p & -> & _)]; [|done].
  destruct (close_tail_spec true w1 d Hd) as (_ & B & _).
  destruct (close_tail true w1).2; [unfold phase; by rewrite B|by rewrite B, Hp].
Qed.

Lemma close_without_reply_going w final : going (close_without_reply w final).
Proof.
  unfold close_without_reply. pose proof (close_going w) as G. destruct (comm_close w) as [w1 closed].
  destruct (negb closed && _ && _ && _); [apply close_going|exact G].
Qed.

(** C37: a connection whose peer is gone is given up.  When a read event finds the
    end of the stream or an error while no hook of the slot is under way, or the
    transport reports a close or an error, then after the event the slot is
    released or being closed, whatever was buffered, in every input mode, with
    TLS or a WebSocket, and however hooks are dispatched and answered, as long as
    the disconnect hook leaves the close to the server. *)
Theorem dropped_connection_closes ev w :
  dropped ev w → ∃ w', handle_event ev w = Some w' ∧ going w'.
Proof using laws.
  intros D. unfold handle_event. destruct (comm w) as [c|] eqn:Hc; [|exists w; split; [done|]; unfold going, phase; by rewrite Hc].
  destruct D as [(-> & Ha & Hb & Hr)|(-> & Hw & Hcl)].
  - unfold flag, flags_of in Ha. rewrite Hc in Ha. cbn in Ha. rewrite Ha, Hb. cbn [orb].
    destruct (comm_refill_inbound_buffers w) as [w1 refilled]. cbn in Hr. subst refilled.
    destruct (comm_process_input None w1) as [w2 r]. cbn [negb orb].
    destruct (comm w2) eqn:Hc2; eexists; (split; [done|]); [apply close_without_reply_going|].
    unfold going, phase. by rewrite Hc2.
  - unfold finish_event. rewrite Hw, Hcl. cbn. eexists. split; [done|]. apply close_without_reply_going.
Qed.

End EventLoop.

(** ** A connection the peer drops *)

Definition bit (b : bool) (f : Z) : Z := if b then f else 0%Z.

(** An idle connection in any input mode, plain or an open WebSocket, at the end of
    the peer's stream; the transport may still take bytes or fail. *)
Definition eof_world (line echo ansi prompt websocket alive : bool) (g : Z) : world :=
  let f := Z.lor (Z.lor (bit line C_LINE_INPUT) (bit echo C_CLIENT_ECHO))
             (Z.lor (Z.lor (bit ansi C_ENABLE_ANSI) (bit prompt C_ENABLE_PROMPT))
                (Z.lor C_TRANSPORT_READY
                   (bit websocket (Z.lor C_ENABLE_WEBSOCKET WS_READY)))) in
  mk_world (Some (mk_comm (Some 1) (Some 1) None [] [] [] None g f no_capabilities))
    [] [] false [RdClosed] [if alive then WrOk 4096 else WrFail] [] [] [] false.

Definition read_event : io_event := {| ev_read := true; ev_write := false; ev_close := false |}.

(** An idle connection with hooks run inline, in every input mode, with or without a
    WebSocket (whose closing handshake the peer can no longer answer) and
    whether or not the transport still accepts the Close frame, is released within
    one turn of the loop: the disconnect hook is called once, the runtime stops
    watching the socket and nothing of the removed slot is accessed. *)
Theorem eof_releases_slot `{MultiByte, WsCrypto} (line echo ansi prompt websocket alive : bool) (g : Z) :
  let w := eof_world line echo ansi prompt websocket alive g in
  ∃ w', loop_turn (H := tty_host 5) read_event w = Some w'
    ∧ comm w' = None ∧ fault w' = false ∧ settled w' = 1
    ∧ ERemoveFd 1 ∈ log w'
    ∧ sent w' = if websocket && alive then [136; 2; 3; 232]%Z else [].
Proof.
  destruct line, echo, ansi, prompt, websocket, alive; (eexists; split; [vm_compute; reflexivity|]);
    vm_compute; (split_and!; try done); repeat first [apply list_elem_of_here | apply list_elem_of_further].
Qed.

Lemma tty_close n : CloseHost (H := tty_host n).
Proof. by intros w. Qed.

(** A WebSocket with input modes set, whose peer is gone and whose transport fails. *)
Lemma dropped_connection_closes_witness :
  let w := eof_world true true false true true false 1 in
  dropped (H := tty_host 5) (H1 := sample_crypto) read_event w
  ∧ ∃ w', handle_event (H := tty_host 5) (H0 := ascii_mbrlen) (H1 := sample_crypto) read_event w = Some w' ∧ going w'.
Proof.
  intros w.
  assert (D : dropped (H := tty_host 5) (H1 := sample_crypto) read_event w) by (left; vm_compute; done).
  split; [exact D|].
  exact (dropped_connection_closes (H := tty_host 5) (H0 := ascii_mbrlen) (H1 := sample_crypto) (laws := tty_close 5) read_event w D).
Defined.
