(* ===== verification/ThreadPool.v ===== *)
(** * The worker pool (lib/async/thread_pool.cpp)

    The state [mutex_] protects, the critical sections of [start], [submit],
    [stop] and [worker_loop], and their interleavings.  A task is identified by
    a number; a worker thread by its index in the list of all threads ever
    created.  The condition variable is the enabling condition of a worker's
    step: [notify_one] follows every push and [notify_all] every change of
    [stopping_], so a worker whose condition holds is never left waiting. *)

From stdpp Require Import sets.
From S2P Require Import Prelude.

(** ** State *)

Record pool := {
  tasks : list nat;        (* [tasks_] *)
  workers : list nat;      (* [workers_] *)
  stopping : bool          (* [stopping_] *)
}.

Definition empty_pool : pool := {| tasks := []; workers := []; stopping := false |}.

(** ** Critical sections *)

(** [start]; [ids] are the threads created before [emplace_back] threw, or all
    of them.  The boolean says whether [start] continues to [stop()]. *)
Definition start_section (p : pool) (worker_count : nat) (ids : list nat) : option (pool * bool) :=
  if (worker_count =? 0) || negb (bool_decide (workers p = [])) then None
  else
    let failed := length ids <? worker_count in
    Some ({| tasks := tasks p; workers := ids; stopping := failed |}, failed).

Definition submit_section (p : pool) (task : nat) : option pool :=
  if stopping p || bool_decide (workers p = []) then None
  else Some {| tasks := tasks p ++ [task]; workers := workers p; stopping := stopping p |}.

(** The first section of [stop]: the threads to join, if any. *)
Definition stop_section (p : pool) : pool * list nat :=
  ({| tasks := tasks p; workers := []; stopping := true |}, workers p).

(** Its last section. *)
Definition clear_section (p : pool) : pool :=
  {| tasks := []; workers := workers p; stopping := stopping p |}.

Definition pool_size (p : pool) : nat := length (workers p).

(** What a worker does next: wait, leave, or run a task. *)
Inductive worker_next := WorkerWaits | WorkerLeaves | WorkerRuns (task : nat).

Definition worker_section (p : pool) : worker_next * pool :=
  match tasks p with
  | [] => (if stopping p then WorkerLeaves else WorkerWaits, p)
  | t :: rest => (WorkerRuns t, {| tasks := rest; workers := workers p; stopping := stopping p |})
  end.

(** ** Threads *)

Inductive worker_state := WIdle | WBusy (task : nat) | WExited.

#[export] Instance worker_state_eq_dec : EqDecision worker_state.
Proof. solve_decision. Defined.

(** A call of [stop] in progress. *)
Inductive stop_call := SEnter | SJoin (ids : list nat).

#[export] Instance stop_call_eq_dec : EqDecision stop_call.
Proof. solve_decision. Defined.

Record psys := {
  ps_pool : pool;
  ps_threads : list worker_state;
  ps_stops : list stop_call;
  ps_accepted : list nat;     (* history: submissions that returned true *)
  ps_started : list nat       (* history: tasks taken by a worker *)
}.

Definition psys_init : psys :=
  {| ps_pool := empty_pool; ps_threads := []; ps_stops := []; ps_accepted := []; ps_started := [] |}.

Inductive plabel :=
  | PStart (worker_count created : nat)
  | PSubmit (task : nat)
  | PStop                     (* a thread calls [stop] *)
  | PStopStep (i : nat)       (* call [i] of [stop] takes its next step *)
  | PWorker (i : nat).        (* thread [i] takes its next step *)

Definition exited (s : psys) (i : nat) : bool := bool_decide (ps_threads s !! i = Some WExited).

Definition worker_step (s : psys) (i : nat) : option psys :=
  match ps_threads s !! i with
  | Some WIdle =>
      match worker_section (ps_pool s) with
      | (WorkerWaits, _) => None
      | (WorkerLeaves, p) =>
          Some {| ps_pool := p; ps_threads := <[i := WExited]> (ps_threads s);
                  ps_stops := ps_stops s; ps_accepted := ps_accepted s; ps_started := ps_started s |}
      | (WorkerRuns t, p) =>
          Some {| ps_pool := p; ps_threads := <[i := WBusy t]> (ps_threads s);
                  ps_stops := ps_stops s; ps_accepted := ps_accepted s;
                  ps_started := ps_started s ++ [t] |}
      end
  | Some (WBusy t) =>         (* the task returned or threw *)
      Some {| ps_pool := ps_pool s; ps_threads := <[i := WIdle]> (ps_threads s);
              ps_stops := ps_stops s; ps_accepted := ps_accepted s; ps_started := ps_started s |}
  | _ => None
  end.

Definition pool_step (s : psys) (l : plabel) : option psys :=
  match l with
  | PStart n created =>
      let ids := seq (length (ps_threads s)) (Nat.min created n) in
      match start_section (ps_pool s) n ids with
      | None => Some s
      | Some (p, failed) =>
          Some {| ps_pool := p; ps_threads := ps_threads s ++ replicate (length ids) WIdle;
                  ps_stops := ps_stops s ++ (if failed then [SEnter] else []);
                  ps_accepted := ps_accepted s; ps_started := ps_started s |}
      end
  | PSubmit t =>
      match submit_section (ps_pool s) t with
      | None => Some s
      | Some p => Some {| ps_pool := p; ps_threads := ps_threads s; ps_stops := ps_stops s;
                          ps_accepted := ps_accepted s ++ [t]; ps_started := ps_started s |}
      end
  | PStop => Some {| ps_pool := ps_pool s; ps_threads := ps_threads s;
                     ps_stops := ps_stops s ++ [SEnter];
                     ps_accepted := ps_accepted s; ps_started := ps_started s |}
  | PStopStep i =>
      match ps_stops s !! i with
      | None => None
      | Some SEnter =>
          let '(p, ids) := stop_section (ps_pool s) in
          let stops := if bool_decide (ids = []) then delete i (ps_stops s)
                       else <[i := SJoin ids]> (ps_stops s) in
          Some {| ps_pool := p; ps_threads := ps_threads s; ps_stops := stops;
                  ps_accepted := ps_accepted s; ps_started := ps_started s |}
      | Some (SJoin ids) =>
          if forallb (exited s) ids then
            Some {| ps_pool := clear_section (ps_pool s); ps_threads := ps_threads s;
                    ps_stops := delete i (ps_stops s);
                    ps_accepted := ps_accepted s; ps_started := ps_started s |}
          else None
      end
  | PWorker i => worker_step s i
  end.

(** A pool is not started again while a [stop] still joins its old workers. *)
Definition start_alone (s : psys) (l : plabel) : Prop :=
  match l with PStart _ _ => ∀ ids, SJoin ids ∉ ps_stops s | _ => True end.

Inductive pool_reachable : psys → Prop :=
  | pool_reach_init : pool_reachable psys_init
  | pool_reach_step s l s' :
      pool_reachable s → start_alone s l → pool_step s l = Some s' → pool_reachable s'.

Fixpoint pool_run (s : psys) (ls : list plabel) : option psys :=
  match ls with
  | [] => Some s
  | l :: rest => match pool_step s l with Some s' => pool_run s' rest | None => None end
  end.

Lemma pool_run_app s ls ls' s' :
  pool_run s ls = Some s' → pool_run s (ls ++ ls') = pool_run s' ls'.
Proof.
  revert s. induction ls as [|l ls IH]; intros s; cbn; [by intros [= ->]|].
  destruct (pool_step s l); [apply IH|done].
Qed.

(** ** Invariant *)

(** Threads that belong to the pool or to a [stop] that is joining them. *)
Definition owned (s : psys) (i : nat) : Prop :=
  i ∈ workers (ps_pool s) ∨ ∃ ids, SJoin ids ∈ ps_stops s ∧ i ∈ ids.

Record pool_inv (s : psys) : Prop := {
  pi_history : ps_accepted s = ps_started s ++ tasks (ps_pool s);
  pi_known : ∀ i, owned s i → i < length (ps_threads s);
  pi_live : ∀ i st, ps_threads s !! i = Some st → st ≠ WExited → owned s i;
  pi_exited : ∀ i, ps_threads s !! i = Some WExited → owned s i →
    tasks (ps_pool s) = [] ∧ stopping (ps_pool s) = true;
  pi_join : ∀ ids, SJoin ids ∈ ps_stops s →
    ids ≠ [] ∧ stopping (ps_pool s) = true ∧ workers (ps_pool s) = [];
  pi_same : ∀ ids jds, SJoin ids ∈ ps_stops s → SJoin jds ∈ ps_stops s → ids = jds;
  pi_idle : workers (ps_pool s) = [] → (∀ ids, SJoin ids ∉ ps_stops s) → tasks (ps_pool s) = []
}.

Lemma elem_of_delete_ne {A} (l : list A) i x y :
  x ∈ l → l !! i = Some y → x ≠ y → x ∈ delete i l.
Proof.
  intros Hx Hi Hn. rewrite <- (take_drop_middle l i y Hi) in Hx.
  rewrite delete_take_drop. set_solver.
Qed.

(** Replacing or removing a call of [stop] that joins nobody. *)
Lemma owned_enter s i p threads acc st ids :
  ps_stops s !! i = Some SEnter → ids = workers (ps_pool s) → workers p = [] →
  ∀ k, owned {| ps_pool := p; ps_threads := threads;
                ps_stops := if bool_decide (ids = []) then delete i (ps_stops s)
                            else <[i := SJoin ids]> (ps_stops s);
                ps_accepted := acc; ps_started := st |} k ↔ owned s k.
Proof.
  intros Hi -> Hw k. unfold owned. cbn. rewrite Hw.
  assert (Hlt : i < length (ps_stops s)) by (by eapply lookup_lt_Some).
  split.
  - intros [[]%not_elem_of_nil|(ids & H1 & H2)]. case_bool_decide as E.
    + right. exists ids. split; [by eapply list_elem_of_delete_inv|done].
    + apply list_elem_of_lookup in H1 as [j Hj].
      destruct (decide (j = i)) as [->|Hn].
      * rewrite list_lookup_insert_eq in Hj by done. simplify_eq. by left.
      * rewrite list_lookup_insert_ne in Hj by done. right. exists ids.
        split; [by eapply list_elem_of_lookup_2|done].
  - intros [H|(ids & H1 & H2)]; right.
    + case_bool_decide as E; [rewrite E in H; by apply not_elem_of_nil in H|].
      exists (workers (ps_pool s)). split; [|done].
      by apply list_elem_of_insert.
    + exists ids. split; [|done]. case_bool_decide as E.
      * by eapply elem_of_delete_ne.
      * apply list_elem_of_lookup in H1 as [j Hj]. apply list_elem_of_lookup. exists j.
        rewrite list_lookup_insert_ne; [done|]. intros ->. congruence.
Qed.

Lemma pool_inv_start s n created s' :
  pool_inv s → (∀ ids, SJoin ids ∉ ps_stops s) → pool_step s (PStart n created) = Some s' →
  pool_inv s'.
Proof.
  intros [H K L X J U I] Hj E. cbn [pool_step] in E. unfold start_section in E.
  destruct ((n =? 0) || _) eqn:G; [by injection E as <-|]. apply orb_false_iff in G as [_ G].
  apply negb_false_iff, bool_decide_eq_true in G. specialize (I G Hj).
  rewrite length_seq in E. set (failed := _ <? n) in E. injection E as <-.
  assert (Hj' : ∀ ids, SJoin ids ∉ ps_stops s ++ (if failed then [SEnter] else [])).
  { intros ids [Hi|Hi]%elem_of_app; [by eapply Hj|destruct failed; set_solver]. }
  constructor; cbn; try done.
  - intros i [Hi|(ids & Hi & _)]; [|by apply Hj' in Hi]. cbn in Hi. apply elem_of_seq in Hi.
    rewrite length_app, length_replicate. lia.
  - intros i st Hi Hs. left. cbn. apply lookup_app_Some in Hi as [Hi|[Hi1 Hi2]].
    + destruct (L i st Hi Hs) as [Hw|(ids & Hw & _)]; [rewrite G in Hw; set_solver|by apply Hj in Hw].
    + apply lookup_replicate in Hi2 as [_ Hi2]. apply elem_of_seq. lia.
  - intros i Hi [Hw|(ids & Hw & _)]; [|by apply Hj' in Hw]. cbn in Hw. apply elem_of_seq in Hw.
    rewrite lookup_app_r in Hi by lia. by apply lookup_replicate in Hi as [? _].
  - intros ids Hi. by apply Hj' in Hi.
  - intros ids jds Hi. by apply Hj' in Hi.
Qed.

Lemma pool_inv_submit s t s' :
  pool_inv s → pool_step s (PSubmit t) = Some s' → pool_inv s'.
Proof.
  intros [H K L X J U I] E. cbn [pool_step] in E. unfold submit_section in E.
  destruct (stopping (ps_pool s) || _) eqn:G; [by injection E as <-|].
  apply orb_false_iff in G as [Gs Gw]. apply bool_decide_eq_false in Gw.
  injection E as <-. constructor; cbn; try done.
  - by rewrite H, app_assoc.
  - intros i Hi Ho. destruct (X i Hi Ho) as [_ X2]. congruence.
Qed.

Lemma pool_inv_enter s i s' :
  pool_inv s → ps_stops s !! i = Some SEnter → pool_step s (PStopStep i) = Some s' → pool_inv s'.
Proof.
  intros [H K L X J U I] Hi E. cbn [pool_step] in E. rewrite Hi in E. cbn [stop_section] in E.
  injection E as <-.
  pose proof (owned_enter s i {| tasks := tasks (ps_pool s); workers := []; stopping := true |}
    (ps_threads s) (ps_accepted s) (ps_started s) _ Hi eq_refl eq_refl) as Ho.
  constructor; cbn; try done.
  - intros k Hk%Ho. auto.
  - intros k st Hk Hs. apply Ho. eauto.
  - intros k Hk Hk2%Ho. by destruct (X k Hk Hk2).
  - intros ids Hj. split; [|done]. case_bool_decide as Ew.
    + apply list_elem_of_delete_inv in Hj. by destruct (J ids Hj).
    + apply list_elem_of_lookup in Hj as [j Hj]. destruct (decide (j = i)) as [->|Hn].
      * rewrite list_lookup_insert_eq in Hj by (by eapply lookup_lt_Some). by simplify_eq.
      * rewrite list_lookup_insert_ne in Hj by done. apply list_elem_of_lookup_2 in Hj.
        by destruct (J ids Hj).
  - case_bool_decide as Ew; [intros ids jds ?%list_elem_of_delete_inv ?%list_elem_of_delete_inv; auto|].
    enough (∀ ids, SJoin ids ∈ <[i := SJoin (workers (ps_pool s))]> (ps_stops s) →
      ids = workers (ps_pool s)) as Hs by (intros ids jds ->%Hs ->%Hs; done).
    intros ids [j Hj]%list_elem_of_lookup.
    apply list_lookup_insert_Some in Hj as [(_ & [= <-] & _)|[_ Hj]]; [done|].
    apply list_elem_of_lookup_2 in Hj. by destruct (J ids Hj) as (_ & _ & ?).
  - intros _ Hj. case_bool_decide as Ew.
    + apply I; [done|]. intros ids Hx. eapply (Hj ids), elem_of_delete_ne; done.
    + destruct (Hj (workers (ps_pool s))). apply list_elem_of_insert. by eapply lookup_lt_Some.
Qed.

Lemma pool_inv_join s i ids s' :
  pool_inv s → ps_stops s !! i = Some (SJoin ids) → pool_step s (PStopStep i) = Some s' →
  pool_inv s' ∧ tasks (ps_pool s) = [].
Proof.
  intros [H K L X J U I] Hi E. cbn [pool_step] in E. rewrite Hi in E.
  destruct (forallb (exited s) ids) eqn:F; [|done]. injection E as <-.
  rewrite forallb_forall in F.
  assert (Hx : ∀ k, k ∈ ids → ps_threads s !! k = Some WExited).
  { intros k Hk. apply list_elem_of_In, F in Hk. by apply bool_decide_eq_true in Hk. }
  apply list_elem_of_lookup_2 in Hi as Hin. destruct (J ids Hin) as (J1 & J2 & J3).
  assert (T : tasks (ps_pool s) = []).
  { destruct ids as [|k ids]; [done|]. eapply (X k); [apply Hx; left|].
    right. exists (k :: ids). split; [done|left]. }
  split; [|done]. constructor; cbn; try done.
  - rewrite H, T. done.
  - intros k [Hk|(jds & Hk1 & Hk2)]; [cbn in Hk; rewrite J3 in Hk; set_solver|].
    apply K. right. exists jds. split; [by eapply list_elem_of_delete_inv|done].
  - intros k st Hk Hs. destruct (L k st Hk Hs) as [Hw|(jds & Hk1 & Hk2)]; [by left|].
    right. exists jds. split; [|done]. eapply elem_of_delete_ne; [done..|].
    intros [= ->]. rewrite (Hx k Hk2) in Hk. congruence.
  - intros jds Hj%list_elem_of_delete_inv. auto.
  - intros jds kds Hj%list_elem_of_delete_inv Hk%list_elem_of_delete_inv. auto.
Qed.

Lemma pool_inv_worker s i s' :
  pool_inv s → worker_step s i = Some s' → pool_inv s'.
Proof.
  intros [H K L X J U I] E. unfold worker_step, worker_section in E.
  destruct (ps_threads s !! i) as [[|t|]|] eqn:Hi; [..|done|done].
  - destruct (tasks (ps_pool s)) as [|t rest] eqn:T; [destruct (stopping (ps_pool s)) eqn:S; [|done]|];
      injection E as <-; constructor; cbn; rewrite ?length_insert, ?T, ?S; try done.
    + intros k st Hk Hs. apply list_lookup_insert_Some in Hk as [(-> & <- & _)|(_ & Hk)]; [done|eauto].
    + by rewrite H, <- app_assoc.
    + intros k st Hk Hs. apply list_lookup_insert_Some in Hk as [(-> & <- & _)|(_ & Hk)]; eauto.
    + intros k Hk Ho. apply list_lookup_insert_Some in Hk as [(-> & ? & _)|(_ & Hk)]; [done|].
      by destruct (X k Hk Ho).
    + intros Hw Hj. by specialize (I Hw Hj).
  - injection E as <-. constructor; cbn; rewrite ?length_insert; try done.
    + intros k st Hk Hs. apply list_lookup_insert_Some in Hk as [(-> & <- & _)|(_ & Hk)]; eauto.
    + intros k Hk Ho. apply list_lookup_insert_Some in Hk as [(-> & ? & _)|(_ & Hk)]; [done|].
      by apply (X k).
Qed.

Lemma pool_inv_step s l s' :
  pool_inv s → start_alone s l → pool_step s l = Some s' → pool_inv s'.
Proof.
  intros HI Ha E. destruct l as [n created|t| |i|i].
  - by eapply pool_inv_start.
  - by eapply pool_inv_submit.
  - injection E as <-. destruct HI as [H K L X J U I].
    assert (Hj : ∀ ids, SJoin ids ∈ ps_stops s ++ [SEnter] ↔ SJoin ids ∈ ps_stops s) by set_solver.
    assert (Ho : ∀ k, owned {| ps_pool := ps_pool s; ps_threads := ps_threads s;
      ps_stops := ps_stops s ++ [SEnter]; ps_accepted := ps_accepted s;
      ps_started := ps_started s |} k ↔ owned s k)
      by (intros k; unfold owned; cbn; by setoid_rewrite Hj).
    constructor; cbn; try done; [by setoid_rewrite Ho|by setoid_rewrite Ho|by setoid_rewrite Ho
      |by setoid_rewrite Hj|by setoid_rewrite Hj|by setoid_rewrite Hj].
  - destruct (ps_stops s !! i) as [[|ids]|] eqn:Hi; [by eapply pool_inv_enter|by eapply pool_inv_join|].
    cbn in E. by rewrite Hi in E.
  - by eapply pool_inv_worker.
Qed.

Lemma pool_reachable_inv s : pool_reachable s → pool_inv s.
Proof.
  induction 1 as [|s l s' _ IH Ha E]; [|by eapply pool_inv_step].
  constructor; cbn; try done; unfold owned; cbn; set_solver.
Qed.

(** ** Termination of [stop] *)

Definition thread_weight (st : worker_state) : nat :=
  match st with WIdle => 1 | WBusy _ => 2 | WExited => 0 end.

(** The steps the workers can still take once nothing is submitted. *)
Definition pool_weight (s : psys) : nat :=
  2 * length (tasks (ps_pool s)) + sum_list_with thread_weight (ps_threads s).

Lemma sum_list_insert {A} (f : A → nat) (l : list A) i x y :
  l !! i = Some x → sum_list_with f (<[i := y]> l) + f x = sum_list_with f l + f y.
Proof.
  revert i. induction l as [|a l IH]; intros [|i] H; [done|done|..].
  - injection H as ->. cbn. lia.
  - change (<[S i := y]> (a :: l)) with (a :: <[i := y]> l). cbn [sum_list_with].
    specialize (IH i H). lia.
Qed.

Lemma worker_step_weight s i s' : worker_step s i = Some s' → pool_weight s' < pool_weight s.
Proof.
  unfold worker_step, worker_section, pool_weight. intros E.
  destruct (ps_threads s !! i) as [[|t|]|] eqn:Hi; [..|done|done].
  - destruct (tasks (ps_pool s)) as [|t rest] eqn:T; [destruct (stopping _); [|done]|];
      injection E as <-; cbn [ps_pool ps_threads tasks length]; rewrite ?T; cbn [length].
    + pose proof (sum_list_insert thread_weight _ _ _ WExited Hi) as W. cbn [thread_weight] in W. lia.
    + pose proof (sum_list_insert thread_weight _ _ _ (WBusy t) Hi) as W. cbn [thread_weight] in W. lia.
  - injection E as <-. cbn [ps_pool ps_threads].
    pose proof (sum_list_insert thread_weight _ _ _ WIdle Hi) as W. cbn [thread_weight] in W. lia.
Qed.

Lemma worker_step_stops s i s' :
  worker_step s i = Some s' →
  ps_stops s' = ps_stops s ∧ stopping (ps_pool s') = stopping (ps_pool s).
Proof.
  unfold worker_step, worker_section. intros E.
  destruct (ps_threads s !! i) as [[|t|]|]; [..|done|done]; [|by injection E as <-].
  destruct (tasks (ps_pool s)); [destruct (stopping (ps_pool s)) eqn:S; [|done]|];
    by injection E as <-.
Qed.

Lemma worker_run s ks s' :
  pool_run s (map PWorker ks) = Some s' →
  length ks + pool_weight s' ≤ pool_weight s ∧ ps_stops s' = ps_stops s
  ∧ (pool_reachable s → pool_reachable s').
Proof.
  revert s. induction ks as [|i ks IH]; intros s;
    cbn [map pool_run pool_step length]; [intros [= ->]; by split_and!|].
  destruct (worker_step s i) as [s1|] eqn:E; [|done]. intros R.
  destruct (IH s1 R) as (H1 & H2 & H3). pose proof (worker_step_weight _ _ _ E).
  destruct (worker_step_stops _ _ _ E) as [H4 _]. split_and!; [lia|congruence|].
  intros Hr. apply H3. eapply (pool_reach_step s (PWorker i)); [done..|exact E].
Qed.

(** A thread of the pool that has not left can take a step while it stops. *)
Lemma worker_enabled s i :
  pool_reachable s → stopping (ps_pool s) = true → i < length (ps_threads s) →
  worker_step s i = None → ps_threads s !! i = Some WExited.
Proof.
  intros Hr S Hi E. destruct (lookup_lt_is_Some_2 _ _ Hi) as [st Hst]. rewrite Hst.
  unfold worker_step, worker_section in E. rewrite Hst in E. rewrite S in E.
  destruct st; [destruct (tasks _)|..]; done.
Qed.

(** ** Theorems *)

(** The pool takes tasks in the order they were accepted, each exactly
    once, and none is lost: in every interleaving of starts, stops, submissions
    and workers, the accepted tasks are the ones taken followed by the ones
    that wait. *)
Theorem pool_fifo s : pool_reachable s → ps_accepted s = ps_started s ++ tasks (ps_pool s).
Proof. intros Hr. apply (pi_history _ (pool_reachable_inv _ Hr)). Qed.

(** C13: when [stop] returns after joining workers, every task ever accepted has
    been taken and no worker is still running one: the loop that empties the
    queue afterwards drops nothing. *)
Theorem pool_stop_drains s i ids s' :
  pool_reachable s → ps_stops s !! i = Some (SJoin ids) → pool_step s (PStopStep i) = Some s' →
  ps_started s' = ps_accepted s' ∧ tasks (ps_pool s) = []
  ∧ ∀ k t, ps_threads s' !! k ≠ Some (WBusy t).
Proof.
  intros Hr Hi E. pose proof (pool_reachable_inv _ Hr) as HI.
  destruct (pool_inv_join _ _ _ _ HI Hi E) as [_ T].
  pose proof (pi_history _ HI) as H. rewrite T, app_nil_r in H.
  cbn [pool_step] in E. rewrite Hi in E. destruct (forallb (exited s) ids) eqn:F; [|done].
  injection E as <-. cbn. split_and!; [done..|]. intros k t Hk.
  assert (owned s k) as [Hw|(jds & Hj & Hk2)] by (eapply (pi_live _ HI); done).
  - apply list_elem_of_lookup_2 in Hi. destruct (pi_join _ HI ids Hi) as (_ & _ & Hn).
    rewrite Hn in Hw. set_solver.
  - apply list_elem_of_lookup_2 in Hi. rewrite (pi_same _ HI jds ids Hj Hi) in Hk2.
    rewrite forallb_forall in F.
    apply list_elem_of_In, F, bool_decide_eq_true in Hk2. congruence.
Qed.

(** C14: [stop] returns: whatever the workers do once it waits for them, they
    take at most [pool_weight] more steps, and when none of them can take a
    step, every thread it joins has left, so the join succeeds. *)
Theorem pool_stop_terminates s i ids ks s' :
  pool_reachable s → ps_stops s !! i = Some (SJoin ids) →
  pool_run s (map PWorker ks) = Some s' →
  length ks ≤ pool_weight s
  ∧ ((∀ k, worker_step s' k = None) → ∃ s'', pool_step s' (PStopStep i) = Some s'').
Proof.
  intros Hr Hi R. destruct (worker_run _ _ _ R) as (H1 & H2 & H3). split; [lia|]. intros Hq.
  specialize (H3 Hr). pose proof (pool_reachable_inv _ H3) as HI. rewrite <- H2 in Hi.
  apply list_elem_of_lookup_2 in Hi as Hin. destruct (pi_join _ HI ids Hin) as (_ & S & _).
  cbn [pool_step]. rewrite Hi. replace (forallb (exited s') ids) with true; [by eexists|].
  symmetry. apply forallb_forall. intros k Hk%list_elem_of_In. apply bool_decide_eq_true.
  apply worker_enabled; [done..| |apply Hq]. apply (pi_known _ HI). right. by exists ids.
Qed.

(** ** Witnesses *)

(** Two workers, three tasks, a stop while one task runs. *)
Definition demo_labels : list plabel :=
  [PStart 2 2; PSubmit 7; PSubmit 8; PWorker 0; PSubmit 9; PStop; PStopStep 0; PSubmit 10;
   PWorker 1; PWorker 0; PWorker 1; PWorker 0; PWorker 0; PWorker 0; PWorker 1].

Definition demo_state : psys := default psys_init (pool_run psys_init demo_labels).

#[local] Instance start_alone_dec s l : Decision (start_alone s l).
Proof.
  destruct l; cbn; try (left; exact I).
  destruct (decide (Forall (fun c => c = SEnter) (ps_stops s))) as [H|H].
  - left. intros ids Hi. rewrite Forall_forall in H. by specialize (H _ Hi).
  - right. intros Hn. apply H. apply Forall_forall. intros [|ids] Hc; [done|by apply Hn in Hc].
Defined.

(** A run whose starts are all made alone leads to a reachable state. *)
Fixpoint alone_run (s : psys) (ls : list plabel) : bool :=
  match ls with
  | [] => true
  | l :: rest => bool_decide (start_alone s l)
                 && match pool_step s l with Some s' => alone_run s' rest | None => false end
  end.

Lemma alone_run_reachable s ls :
  pool_reachable s → alone_run s ls = true → pool_reachable (default psys_init (pool_run s ls)).
Proof.
  revert s. induction ls as [|l ls IH]; intros s Hr; cbn [alone_run pool_run]; [done|].
  intros [Ha E]%andb_true_iff. apply bool_decide_eq_true in Ha.
  destruct (pool_step s l) as [s1|] eqn:Es; [|done]. apply IH; [by eapply pool_reach_step|done].
Qed.

Lemma demo_reachable k :
  alone_run psys_init (take k demo_labels) = true →
  pool_reachable (default psys_init (pool_run psys_init (take k demo_labels))).
Proof. apply alone_run_reachable, pool_reach_init. Qed.

Lemma pool_fifo_witness :
  ps_accepted demo_state = [7; 8; 9] ∧ ps_accepted demo_state = ps_started demo_state ++ tasks (ps_pool demo_state).
Proof. split; [vm_compute; reflexivity|]. apply pool_fifo. apply (demo_reachable 15). vm_compute. reflexivity. Defined.

Lemma pool_stop_drains_witness :
  ∃ s', pool_step demo_state (PStopStep 0) = Some s' ∧ ps_started s' = [7; 8; 9]
        ∧ ps_started s' = ps_accepted s'.
Proof.
  eexists. split; [vm_compute; reflexivity|]. split; [reflexivity|].
  eapply (pool_stop_drains demo_state 0 [0; 1]); [apply (demo_reachable 15); vm_compute; reflexivity|vm_compute; reflexivity..].
Defined.

Lemma pool_stop_terminates_witness :
  let s := default psys_init (pool_run psys_init (take 8 demo_labels)) in
  length [1; 0; 1; 0; 0; 0; 1] ≤ pool_weight s
  ∧ ∃ s'', pool_step demo_state (PStopStep 0) = Some s''.
Proof.
  destruct (pool_stop_terminates (default psys_init (pool_run psys_init (take 8 demo_labels)))
    0 [0; 1] [1; 0; 1; 0; 0; 0; 1] demo_state) as [H1 H2];
    [apply (demo_reachable 8); vm_compute; reflexivity|vm_compute; reflexivity..|].
  split; [exact H1|]. apply H2. intros k. do 2 (destruct k as [|k]; [reflexivity|]). reflexivity.
Defined.
