(* ===== verification/Detached.v ===== *)
(** * Closures and detached work (src/include/mudmux/async.h, src/execution.cpp)

    [async_closure_t] with its one-shot operations, and the lane on which the
    completions of [mudmux_workers_submit] run one after the other: the
    critical sections of [schedule_detached_completion] and
    [run_detached_completion] and their interleavings by the workers. *)

From stdpp Require Import sets.
From S2P Require Import Prelude ThreadPool.

(** ** Closures *)

Definition ASYNC_CLOSURE_SCHEDULER_OK : Z := 0.
Definition ASYNC_CLOSURE_SCHEDULER_FAILED : Z := -1.

(** Callbacks and contexts are identified by numbers; 0 is the null pointer. *)
Record async_closure := { cl_invoke : nat; cl_destroy : nat; cl_context : nat }.

Definition null_closure : async_closure := {| cl_invoke := 0; cl_destroy := 0; cl_context := 0 |}.

Definition async_closure_is_valid (c : async_closure) : bool := negb (cl_invoke c =? 0).

(** The calls an operation makes on the application. *)
Inductive closure_call := CallInvoke (f context : nat) (message : Z) | CallDestroy (f context : nat).

Section Closure.
(** Which callbacks throw. *)
Context (throws : closure_call → bool).

Definition call (f : nat) (e : closure_call) : list closure_call * bool :=
  if f =? 0 then ([], true) else ([e], negb (throws e)).

(** The cleared closure, the calls made, and the result. *)
Definition async_closure_invoke (c : async_closure) (message : Z)
    : async_closure * list closure_call * bool :=
  let '(calls1, invoked) := call (cl_invoke c) (CallInvoke (cl_invoke c) (cl_context c) message) in
  let '(calls2, destroyed) := call (cl_destroy c) (CallDestroy (cl_destroy c) (cl_context c)) in
  (null_closure, calls1 ++ calls2, invoked && destroyed).

Definition async_closure_destroy (c : async_closure) : async_closure * list closure_call * bool :=
  let '(calls, destroyed) := call (cl_destroy c) (CallDestroy (cl_destroy c) (cl_context c)) in
  (null_closure, calls, destroyed).

(** A use of a closure handle: an invocation with a message, or a destruction. *)
Definition closure_use (c : async_closure) (use : option Z) : async_closure * list closure_call * bool :=
  match use with Some m => async_closure_invoke c m | None => async_closure_destroy c end.

Fixpoint closure_uses (c : async_closure) (uses : list (option Z)) : list closure_call :=
  match uses with
  | [] => []
  | u :: rest => let '(c', calls, _) := closure_use c u in calls ++ closure_uses c' rest
  end.

Lemma null_closure_silent uses : closure_uses null_closure uses = [].
Proof. induction uses as [|[m|] uses IH]; cbn; auto. Qed.

(** Whatever sequence of invocations and destructions is made on one closure
    handle, the application sees what the first one does and nothing more:
    the callback runs at most once, with the first message, and the context is
    released exactly once, after it, even when a callback throws. *)
Theorem closure_once c u uses :
  cl_destroy c ≠ 0 →
  closure_uses c (u :: uses) =
    match u with
    | Some m => if cl_invoke c =? 0 then [] else [CallInvoke (cl_invoke c) (cl_context c) m]
    | None => []
    end ++ [CallDestroy (cl_destroy c) (cl_context c)].
Proof.
  intros Hd. assert (E : (cl_destroy c =? 0) = false) by (by apply Nat.eqb_neq).
  destruct u as [m|]; cbn [closure_uses closure_use];
    unfold async_closure_invoke, async_closure_destroy, call; rewrite E.
  - destruct (cl_invoke c =? 0); cbn; by rewrite null_closure_silent.
  - by rewrite null_closure_silent.
Qed.
End Closure.

Lemma closure_once_witness :
  closure_uses (fun _ => true) {| cl_invoke := 3; cl_destroy := 4; cl_context := 5 |}
    [Some 0%Z; Some 1%Z; None] = [CallInvoke 3 5 0; CallDestroy 4 5].
Proof. apply closure_once. discriminate. Defined.

(** ** The completion lane *)

(** A completion: which one, and the message it gets. *)
Record detached_completion := { dc_id : nat; dc_message : Z }.

Record lane := { completion_active : bool; pending_completions : list detached_completion }.

Definition idle_lane : lane := {| completion_active := false; pending_completions := [] |}.

(** The section of [schedule_detached_completion]: [true] when the caller is to
    submit the completion itself. *)
Definition schedule_section (l : lane) (c : detached_completion) : lane * bool :=
  if completion_active l
  then ({| completion_active := true; pending_completions := pending_completions l ++ [c] |}, false)
  else ({| completion_active := true; pending_completions := pending_completions l |}, true).

(** The section of [run_detached_completion]: the next completion, or none. *)
Definition next_section (l : lane) : lane * option detached_completion :=
  match pending_completions l with
  | [] => ({| completion_active := false; pending_completions := [] |}, None)
  | c :: rest => ({| completion_active := completion_active l; pending_completions := rest |}, Some c)
  end.

(** The section of [mudmux_workers_stop]: the completions it destroys. *)
Definition lane_stop_section (l : lane) : lane * list detached_completion :=
  (idle_lane, pending_completions l).

(** [run_detached_work]: the message of the completion. *)
Definition completion_message (work_ok : bool) : Z :=
  if work_ok then ASYNC_CLOSURE_SCHEDULER_OK else ASYNC_CLOSURE_SCHEDULER_FAILED.

(** Calls in progress.  [DRun] stands for a submitted [run_detached_completion]
    and for one that runs inline because the pool refused it. *)
Inductive dactivity :=
  | DWork (id : nat)                      (* [run_detached_work]: the work closure *)
  | DSchedule (c : detached_completion)   (* [schedule_detached_completion]: lock next *)
  | DRun (c : detached_completion)        (* about to invoke the completion *)
  | DInvoke (c : detached_completion)     (* the completion is running *)
  | DNext.                                (* completion returned, lock next *)

Record dsys := {
  ds_lane : lane;
  ds_acts : list dactivity;
  ds_scheduled : list detached_completion;  (* history: order of the schedule sections *)
  ds_run : list detached_completion         (* history: completions invoked *)
}.

Definition dsys_init : dsys :=
  {| ds_lane := idle_lane; ds_acts := []; ds_scheduled := []; ds_run := [] |}.

(** The next step of an activity: new lane, successor, additions to the histories. *)
Definition dact_step (l : lane) (a : dactivity) (ok : bool)
    : lane * list dactivity * list detached_completion * list detached_completion :=
  match a with
  | DWork id => (l, [DSchedule {| dc_id := id; dc_message := completion_message ok |}], [], [])
  | DSchedule c =>
      let '(l', submit) := schedule_section l c in (l', if submit then [DRun c] else [], [c], [])
  | DRun c => (l, [DInvoke c], [], [c])
  | DInvoke c => (l, [DNext], [], [])
  | DNext =>
      match next_section l with
      | (l', None) => (l', [], [], [])
      | (l', Some c) => (l', [DRun c], [], [])
      end
  end.

Inductive dlabel :=
  | DSubmit (id : nat)              (* [mudmux_workers_submit] accepted *)
  | DAct (i : nat) (ok : bool)      (* activity [i] steps; [ok]: the work did not fail *)
  | DStop.                          (* [mudmux_workers_stop] after its join *)

Definition dsys_step (s : dsys) (l : dlabel) : option dsys :=
  match l with
  | DSubmit id => Some {| ds_lane := ds_lane s; ds_acts := ds_acts s ++ [DWork id];
                          ds_scheduled := ds_scheduled s; ds_run := ds_run s |}
  | DAct i ok =>
      match ds_acts s !! i with
      | None => None
      | Some a =>
          let '(l', new, sch, run) := dact_step (ds_lane s) a ok in
          Some {| ds_lane := l'; ds_acts := take i (ds_acts s) ++ new ++ drop (S i) (ds_acts s);
                  ds_scheduled := ds_scheduled s ++ sch; ds_run := ds_run s ++ run |}
      end
  | DStop =>
      (* the pool joined its workers, so none of the calls above is in progress *)
      if bool_decide (ds_acts s = []) then
        Some {| ds_lane := (lane_stop_section (ds_lane s)).1; ds_acts := [];
                ds_scheduled := ds_scheduled s; ds_run := ds_run s |}
      else None
  end.

Inductive lane_reachable : dsys → Prop :=
  | lane_reach_init : lane_reachable dsys_init
  | lane_reach_step s l s' : lane_reachable s → dsys_step s l = Some s' → lane_reachable s'.

(** ** Accounting *)

(** The activity that owns the lane. *)
Definition lane_token (a : dactivity) : nat :=
  match a with DRun _ | DInvoke _ | DNext => 1 | _ => 0 end.

Definition completing (a : dactivity) : nat := match a with DInvoke _ => 1 | _ => 0 end.

Definition waiting (a : dactivity) : list detached_completion :=
  match a with DRun c => [c] | _ => [] end.

Definition count (f : dactivity → nat) (acts : list dactivity) : nat := sum_list_with f acts.
Definition in_transit (acts : list dactivity) : list detached_completion := concat (map waiting acts).

Record lane_inv (s : dsys) : Prop := {
  li_token : count lane_token (ds_acts s) = if completion_active (ds_lane s) then 1 else 0;
  li_pending : completion_active (ds_lane s) = false → pending_completions (ds_lane s) = [];
  li_history : ds_scheduled s = ds_run s ++ in_transit (ds_acts s) ++ pending_completions (ds_lane s)
}.

Lemma count_app f l r : count f (l ++ r) = count f l + count f r.
Proof. apply sum_list_with_app. Qed.

Lemma in_transit_app l r : in_transit (l ++ r) = in_transit l ++ in_transit r.
Proof. unfold in_transit. by rewrite map_app, concat_app. Qed.

Lemma no_token_no_transit acts : count lane_token acts = 0 → in_transit acts = [].
Proof.
  induction acts as [|a acts IH]; [done|]. unfold count, in_transit in *. cbn.
  destruct a; cbn; intros H; (lia || (apply IH; lia)).
Qed.

Lemma lane_act_inv s i ok s' : lane_inv s → dsys_step s (DAct i ok) = Some s' → lane_inv s'.
Proof.
  intros [T P H] E. cbn [dsys_step] in E. destruct (ds_acts s !! i) as [a|] eqn:Ha; [|done].
  destruct (dact_step (ds_lane s) a ok) as [[[l' new] sch] run] eqn:D. injection E as <-.
  rewrite <- (take_drop_middle _ _ _ Ha), count_app in T.
  rewrite <- (take_drop_middle _ _ _ Ha), in_transit_app in H.
  set (l := take i (ds_acts s)) in *. set (r := drop (S i) (ds_acts s)) in *.
  change (count lane_token (a :: r)) with (lane_token a + count lane_token r) in T.
  change (in_transit (a :: r)) with (waiting a ++ in_transit r) in H.
  assert (Z : (lane_token a = 1 ∨ completion_active (ds_lane s) = false) →
    in_transit l = [] ∧ in_transit r = [])
    by (intros Z; split; apply no_token_no_transit; destruct (completion_active (ds_lane s)), Z; lia || done).
  destruct a as [id|c|c|c|]; cbn in D.
  - simplify_eq. constructor; cbn [ds_lane ds_acts ds_scheduled ds_run];
      rewrite ?count_app, ?in_transit_app, ?app_nil_r; try done.
  - unfold schedule_section in D. destruct (completion_active (ds_lane s)) eqn:A; simplify_eq;
      constructor; cbn [ds_lane ds_acts ds_scheduled ds_run completion_active pending_completions];
      rewrite ?count_app, ?in_transit_app, ?app_nil_r; cbn [lane_token waiting app] in *; try done.
    + rewrite H, <- !app_assoc. done.
    + cbn. lia.
    + destruct (Z (or_intror eq_refl)) as [Z1 Z2]. rewrite H, Z1, Z2, (P eq_refl). cbn.
      by rewrite !app_nil_r.
  - destruct (Z (or_introl eq_refl)) as [Z1 Z2]. simplify_eq.
    constructor; cbn [ds_lane ds_acts ds_scheduled ds_run];
      rewrite ?count_app, ?in_transit_app, ?app_nil_r; try done.
    rewrite H, Z1, Z2. cbn. by rewrite <- app_assoc.
  - simplify_eq. constructor; cbn [ds_lane ds_acts ds_scheduled ds_run];
      rewrite ?count_app, ?in_transit_app, ?app_nil_r; try done.
  - destruct (Z (or_introl eq_refl)) as [Z1 Z2]. unfold next_section in D.
    destruct (pending_completions (ds_lane s)) as [|c rest] eqn:Q; simplify_eq;
      constructor; cbn [ds_lane ds_acts ds_scheduled ds_run completion_active pending_completions];
      rewrite ?count_app, ?in_transit_app, ?app_nil_r; cbn [lane_token] in T; try done.
    + cbn. destruct (completion_active (ds_lane s)); lia.
    + rewrite H, Z1, Z2. done.
    + intros A. rewrite A in T. lia.
    + rewrite H, Z1, Z2. done.
Qed.

Lemma lane_reachable_inv s : lane_reachable s → lane_inv s.
Proof.
  induction 1 as [|s l s' _ IH E]; [by constructor|].
  destruct l as [id|i ok|]; [|by eapply lane_act_inv|].
  - destruct IH as [T P H]. injection E as <-.
    constructor; cbn [ds_lane ds_acts ds_scheduled ds_run]; rewrite ?count_app, ?in_transit_app;
      cbn; rewrite ?app_nil_r, ?Nat.add_0_r; auto.
  - cbn [dsys_step] in E. case_bool_decide as Ea; [|done]. injection E as <-.
    destruct IH as [T P H]. rewrite Ea in T, H. constructor; cbn; try done.
    destruct (completion_active (ds_lane s)); [done|]. by rewrite H, (P eq_refl).
Qed.

(** ** Theorems *)

(** C19: completions of detached work run one at a time and in the order in which
    their work finished, none skipped or repeated, in every interleaving and
    whether the pool accepts their submissions or not. *)
Theorem completions_serialized s :
  lane_reachable s →
  count completing (ds_acts s) ≤ 1
  ∧ ∃ rest, ds_scheduled s = ds_run s ++ rest.
Proof.
  intros [T P H]%lane_reachable_inv. split; [|by eexists].
  enough (count completing (ds_acts s) ≤ count lane_token (ds_acts s)) by (case_bool; lia).
  clear. unfold count. induction (ds_acts s) as [|a acts IH]; [done|].
  cbn. destruct a; cbn; lia.
Qed.

(** When no call is left in progress every scheduled completion has run, so
    [mudmux_workers_stop], which destroys the completions it finds waiting
    after its join, finds none. *)
Theorem completions_not_lost s :
  lane_reachable s → ds_acts s = [] →
  ds_run s = ds_scheduled s ∧ (lane_stop_section (ds_lane s)).2 = []
  ∧ completion_active (ds_lane s) = false.
Proof.
  intros [T P H]%lane_reachable_inv Ha. rewrite Ha in T, H.
  destruct (completion_active (ds_lane s)) eqn:A; [done|]. cbn.
  rewrite (P eq_refl) in *. by rewrite H, !app_nil_r.
Qed.

(** ** Witnesses *)

Fixpoint dsys_run (s : dsys) (ls : list dlabel) : option dsys :=
  match ls with
  | [] => Some s
  | l :: rest => match dsys_step s l with Some s' => dsys_run s' rest | None => None end
  end.

Lemma lane_run_reachable s ls s' :
  lane_reachable s → dsys_run s ls = Some s' → lane_reachable s'.
Proof.
  revert s. induction ls as [|l ls IH]; intros s Hr; cbn; [by intros [= <-]|].
  destruct (dsys_step s l) as [s1|] eqn:E; [|done]. apply IH. by eapply lane_reach_step.
Qed.

(** Two pieces of work: the second finishes, and fails, before the first. *)
Definition lane_demo : list dlabel :=
  [DSubmit 1; DSubmit 2; DAct 1 false; DAct 1 true; DAct 1 true; DAct 0 true; DAct 0 true].

Definition lane_demo_end : list dlabel := lane_demo ++ [DAct 0 true; DAct 0 true; DAct 0 true; DAct 0 true; DAct 0 true].

Lemma completions_serialized_witness :
  ∃ s, dsys_run dsys_init lane_demo = Some s ∧ count completing (ds_acts s) = 1
       ∧ (count completing (ds_acts s) ≤ 1 ∧ ∃ rest, ds_scheduled s = ds_run s ++ rest).
Proof.
  eexists. split; [vm_compute; reflexivity|]. split; [reflexivity|].
  apply completions_serialized. eapply lane_run_reachable; [apply lane_reach_init|].
  instantiate (1 := lane_demo). vm_compute. reflexivity.
Defined.

Lemma completions_not_lost_witness :
  ∃ s, dsys_run dsys_init lane_demo_end = Some s
       ∧ ds_run s = [{| dc_id := 2; dc_message := -1 |}; {| dc_id := 1; dc_message := 0 |}]
       ∧ ds_run s = ds_scheduled s.
Proof.
  eexists. split; [vm_compute; reflexivity|]. split; [reflexivity|].
  apply completions_not_lost; [|reflexivity]. eapply lane_run_reachable; [apply lane_reach_init|].
  instantiate (1 := lane_demo_end). vm_compute. reflexivity.
Defined.
