(* ===== verification/EventExec.v ===== *)
(** * Scheduling of direct event callbacks (src/execution.cpp)

    Callbacks that are not bound to a slot: the admission of event
    registrations, the serialized lane of ordinary events, timely events that
    are scheduled per registration, and the release of a registration when its
    execution and completion are over.  Each section under [event_mutex] is a
    function on [event_state]; calls in progress interleave at those sections.
    Registrations and callbacks are identified by numbers. *)

From stdpp Require Import gmap.
From S2P Require Import Prelude.

(** ** State *)

(** The part of a [mudmux_execution] the scheduler uses. *)
Record event_task := { et_id : nat; et_reg : option nat }.

Record event_state := {
  event_active : bool;
  pending_events : list event_task;
  event_in_flight : gmap nat nat
}.

Definition idle_events : event_state :=
  {| event_active := false; pending_events := []; event_in_flight := ∅ |}.

(** [release_event_registration_locked]; the counts in the map are positive. *)
Definition release_event_registration (m : gmap nat nat) (registration : option nat) : gmap nat nat :=
  match registration with
  | None => m
  | Some k =>
      match m !! k with
      | None => m
      | Some n => if n - 1 =? 0 then delete k m else <[k := n - 1]> m
      end
  end.

(** [discard_pending_events_locked]. *)
Definition discard_pending_events (st : event_state) : event_state :=
  {| event_active := event_active st; pending_events := [];
     event_in_flight := foldl (fun m t => release_event_registration m (et_reg t))
                          (event_in_flight st) (pending_events st) |}.

Definition set_event_active (st : event_state) (b : bool) : event_state :=
  {| event_active := b; pending_events := pending_events st; event_in_flight := event_in_flight st |}.

(** [mudmux_execution_event_busy]. *)
Definition mudmux_execution_event_busy (st : event_state) (registration : option nat) : bool :=
  match registration with
  | None => false
  | Some k => bool_decide (is_Some (event_in_flight st !! k))
  end.

(** ** Critical sections *)

Definition release_section (st : event_state) (registration : option nat) : event_state :=
  {| event_active := event_active st; pending_events := pending_events st;
     event_in_flight := release_event_registration (event_in_flight st) registration |}.

(** The admission of [mudmux_execution_dispatch]; [None] when a timely event is
    refused. *)
Definition admit_section (running : bool) (st : event_state) (registration : option nat) (timely : bool)
    : option event_state :=
  if timely && negb running then None
  else if timely && mudmux_execution_event_busy st registration then None
  else match registration with
       | None => Some st
       | Some k => Some {| event_active := event_active st; pending_events := pending_events st;
                           event_in_flight :=
                             <[k := default 0 (event_in_flight st !! k) + 1]> (event_in_flight st) |}
       end.

(** The section of [enqueue_event_execution] for an ordinary event; [true] when
    the caller submits it. *)
Definition enqueue_event_section (st : event_state) (t : event_task) : event_state * bool :=
  if event_active st
  then ({| event_active := true; pending_events := pending_events st ++ [t];
           event_in_flight := event_in_flight st |}, false)
  else (set_event_active st true, true).

(** Its section after a failed submission. *)
Definition enqueue_failed_section (st : event_state) : event_state :=
  set_event_active (discard_pending_events st) false.

(** The sections of [finish_event_execution]. *)
Definition finish_event_section (st : event_state) : event_state * option event_task :=
  match pending_events st with
  | [] => (set_event_active st false, None)
  | t :: rest => ({| event_active := event_active st; pending_events := rest;
                     event_in_flight := event_in_flight st |}, Some t)
  end.

Definition finish_event_failed_section (st : event_state) (t : event_task) : event_state :=
  set_event_active (discard_pending_events (release_section st (et_reg t))) false.

(** The section of [mudmux_workers_stop]. *)
Definition stop_events_section (st : event_state) : event_state :=
  set_event_active (discard_pending_events st) false.

(** ** Threads *)

Inductive event_activity :=
  | VDispatch (t : event_task) (timely : bool)  (* [mudmux_execution_dispatch] entered *)
  | VAdmit (t : event_task) (timely : bool)     (* lock for admission next *)
  | VRoute (t : event_task) (timely : bool)     (* admitted *)
  | VInline (t : event_task)                    (* strict mode: the callback is running *)
  | VInlineComplete (t : event_task)            (* its completion is running *)
  | VEnqueue (t : event_task) (timely : bool)   (* [enqueue_event_execution] *)
  | VSubmit (t : event_task)                    (* the lane is ours, submission next *)
  | VSubmitFailed (t : event_task)
  | VRelease (t : event_task)                   (* end of [dispatch], scope destructor next *)
  | VRun (t : event_task) (timely : bool)       (* [run_event_execution] accepted by the pool *)
  | VInvoke (t : event_task) (timely : bool)    (* the callback is running *)
  | VComplete (t : event_task) (timely : bool)  (* its completion is running *)
  | VLeave (t : event_task) (timely : bool)     (* scope destructor next *)
  | VFinish                                     (* [finish_event_execution] next *)
  | VNext (t : event_task)                      (* its submission of [t] *)
  | VNextFailed (t : event_task).

Inductive event_choice := EStep | ESubmitFails | EThrow.

(** What happened to an event the lane took over. *)
Inductive event_fate := EInvoked | EDropped.

#[export] Instance event_fate_eq_dec : EqDecision event_fate.
Proof. solve_decision. Defined.

(** One step: the new state, the successor, the additions to the two histories. *)
Definition event_act_step (strict running : bool) (st : event_state) (a : event_activity)
    (c : event_choice)
    : event_state * list event_activity * list event_task * list (event_task * event_fate) :=
  match a with
  | VDispatch t timely =>
      if timely && negb running then (st, [], [], []) else (st, [VAdmit t timely], [], [])
  | VAdmit t timely =>
      if timely && bool_decide (et_reg t = None) then (st, [], [], [])
      else match admit_section running st (et_reg t) timely with
           | None => (st, [], [], [])
           | Some st' => (st', [VRoute t timely], [], [])
           end
  | VRoute t timely => (st, [if strict then VInline t else VEnqueue t timely], [], [])
  | VInline t => (st, [match c with EThrow => VRelease t | _ => VInlineComplete t end], [], [])
  | VInlineComplete t => (st, [VRelease t], [], [])
  | VEnqueue t timely =>
      if negb running then (st, [VRelease t], [], [])
      else if timely then
        (st, [match c with ESubmitFails => VRelease t | _ => VRun t true end], [], [])
      else
        let '(st', submit) := enqueue_event_section st t in
        (st', if submit then [VSubmit t] else [], [t], [])
  | VSubmit t => (st, [match c with ESubmitFails => VSubmitFailed t | _ => VRun t false end], [], [])
  | VSubmitFailed t =>
      (enqueue_failed_section st, [VRelease t], [],
       (t, EDropped) :: map (fun u => (u, EDropped)) (pending_events st))
  | VRelease t => (release_section st (et_reg t), [], [], [])
  | VRun t timely => (st, [VInvoke t timely], [], if timely then [] else [(t, EInvoked)])
  | VInvoke t timely => (st, [match c with EThrow => VLeave t timely | _ => VComplete t timely end], [], [])
  | VComplete t timely => (st, [VLeave t timely], [], [])
  | VLeave t timely => (release_section st (et_reg t), if timely then [] else [VFinish], [], [])
  | VFinish =>
      match finish_event_section st with
      | (st', None) => (st', [], [], [])
      | (st', Some t) => (st', [VNext t], [], [])
      end
  | VNext t => (st, [match c with ESubmitFails => VNextFailed t | _ => VRun t false end], [], [])
  | VNextFailed t =>
      (finish_event_failed_section st t, [], [],
       (t, EDropped) :: map (fun u => (u, EDropped)) (pending_events st))
  end.

Record event_sys := {
  es_state : event_state;
  es_acts : list event_activity;
  es_running : bool;                           (* [execution_state.running] *)
  es_ordered : list event_task;                (* history: ordinary events taken by the lane *)
  es_left : list (event_task * event_fate)     (* history: ordinary events invoked or dropped *)
}.

Definition event_init (running : bool) : event_sys :=
  {| es_state := idle_events; es_acts := []; es_running := running; es_ordered := []; es_left := [] |}.

Inductive event_label :=
  | EDispatch (t : event_task) (timely : bool)
  | EAct (i : nat) (c : event_choice)
  | ERunning (b : bool)                        (* [running.store] *)
  | EStopSection.                              (* [mudmux_workers_stop] after its join *)

Definition event_token (a : event_activity) : nat :=
  match a with
  | VSubmit _ | VSubmitFailed _ | VFinish | VNext _ | VNextFailed _ => 1
  | VRun _ timely | VInvoke _ timely | VComplete _ timely | VLeave _ timely => if timely then 0 else 1
  | _ => 0
  end.

Definition cnt (f : event_activity → nat) (acts : list event_activity) : nat := sum_list_with f acts.

Definition event_step (strict : bool) (s : event_sys) (l : event_label) : option event_sys :=
  match l with
  | EDispatch t timely =>
      Some {| es_state := es_state s; es_acts := es_acts s ++ [VDispatch t timely];
              es_running := es_running s; es_ordered := es_ordered s; es_left := es_left s |}
  | EAct i c =>
      match es_acts s !! i with
      | None => None
      | Some a =>
          let '(st', new, ord, out) := event_act_step strict (es_running s) (es_state s) a c in
          Some {| es_state := st'; es_acts := take i (es_acts s) ++ new ++ drop (S i) (es_acts s);
                  es_running := es_running s; es_ordered := es_ordered s ++ ord;
                  es_left := es_left s ++ out |}
      end
  | ERunning b =>
      Some {| es_state := es_state s; es_acts := es_acts s; es_running := b;
              es_ordered := es_ordered s; es_left := es_left s |}
  | EStopSection =>
      (* workers are joined, and the thread that stops them dispatches nothing meanwhile *)
      if cnt event_token (es_acts s) =? 0 then
        Some {| es_state := stop_events_section (es_state s); es_acts := es_acts s;
                es_running := es_running s; es_ordered := es_ordered s;
                es_left := es_left s ++ map (fun u => (u, EDropped)) (pending_events (es_state s)) |}
      else None
  end.

(** Reachable states when the registrations in [T] are dispatched as timely
    events only, as [dispatch_registered_event] does. *)
Inductive event_reachable (strict : bool) (T : nat → bool) : event_sys → Prop :=
  | event_reach_init running : event_reachable strict T (event_init running)
  | event_reach_step s l s' :
      event_reachable strict T s →
      (∀ t timely k, l = EDispatch t timely → et_reg t = Some k → T k = true → timely = true) →
      event_step strict s l = Some s' → event_reachable strict T s'.

(** ** Accounting *)

(** The registration an activity holds between admission and release. *)
Definition held (a : event_activity) : option nat :=
  match a with
  | VRoute t _ | VInline t | VInlineComplete t | VEnqueue t _ | VSubmit t | VSubmitFailed t
  | VRelease t | VRun t _ | VInvoke t _ | VComplete t _ | VLeave t _ | VNext t | VNextFailed t => et_reg t
  | _ => None
  end.

Definition one (r : option nat) (k : nat) : nat :=
  match r with Some j => if decide (j = k) then 1 else 0 | None => 0 end.
Definition hold (k : nat) (a : event_activity) : nat := one (held a) k.
Definition pend (k : nat) (ts : list event_task) : nat := sum_list_with (fun t => one (et_reg t) k) ts.

(** Ordinary events that were taken by the lane and wait in a submission. *)
Definition transit1 (a : event_activity) : list event_task :=
  match a with
  | VSubmit t | VSubmitFailed t | VNext t | VNextFailed t | VRun t false => [t]
  | _ => []
  end.
Definition transit (acts : list event_activity) : list event_task := concat (map transit1 acts).

(** A callback of the application or its completion is running. *)
Definition in_callback (k : nat) (a : event_activity) : nat :=
  match a with
  | VInline t | VInlineComplete t | VInvoke t _ | VComplete t _ => one (et_reg t) k
  | _ => 0
  end.
Definition in_ordinary (a : event_activity) : nat :=
  match a with VInvoke _ false | VComplete _ false => 1 | _ => 0 end.

(** Requests about a timely registration are timely. *)
Definition request_ok (T : nat → bool) (a : event_activity) : Prop :=
  match a with
  | VDispatch t timely | VAdmit t timely => ∀ k, et_reg t = Some k → T k = true → timely = true
  | _ => True
  end.

Record flight_inv (st : event_state) (total : nat → nat) : Prop := {
  fi_count : ∀ k, default 0 (event_in_flight st !! k) = total k + pend k (pending_events st);
  fi_pos : ∀ k, event_in_flight st !! k ≠ Some 0
}.

Record lane_inv (st : event_state) (token : nat) (mid : list event_task)
    (ordered : list event_task) (out : list (event_task * event_fate)) : Prop := {
  ln_token : token = if event_active st then 1 else 0;
  ln_pending : event_active st = false → pending_events st = [];
  ln_history : ordered = map fst out ++ mid ++ pending_events st
}.

Record event_inv (T : nat → bool) (s : event_sys) : Prop := {
  ei_flight : flight_inv (es_state s) (fun k => cnt (hold k) (es_acts s));
  ei_lane : lane_inv (es_state s) (cnt event_token (es_acts s)) (transit (es_acts s))
              (es_ordered s) (es_left s);
  ei_timely : ∀ k, T k = true → default 0 (event_in_flight (es_state s) !! k) ≤ 1;
  ei_requests : Forall (request_ok T) (es_acts s)
}.

(** ** Lemmas *)

Lemma cnt_app f l r : cnt f (l ++ r) = cnt f l + cnt f r.
Proof. apply sum_list_with_app. Qed.

Lemma transit_app l r : transit (l ++ r) = transit l ++ transit r.
Proof. unfold transit. by rewrite map_app, concat_app. Qed.

Lemma no_token_no_event acts : cnt event_token acts = 0 → transit acts = [].
Proof.
  induction acts as [|a acts IH]; [done|]. intros H.
  assert (event_token a = 0 ∧ cnt event_token acts = 0) as [Ha Hr]
    by (unfold cnt in *; cbn in H; lia).
  change (transit (a :: acts)) with (transit1 a ++ transit acts). rewrite (IH Hr), app_nil_r.
  destruct a as [| | | | | | | | |t [|]| | | | | |]; done.
Qed.

Lemma release_count m r k :
  (∀ j, m !! j ≠ Some 0) →
  default 0 (release_event_registration m r !! k) = default 0 (m !! k) - one r k.
Proof.
  intros Hp. unfold release_event_registration, one. destruct r as [j|]; [|by rewrite Nat.sub_0_r].
  destruct (m !! j) as [n|] eqn:E.
  - specialize (Hp j). rewrite E in Hp. destruct (decide (j = k)) as [->|Hn].
    + rewrite E. cbn [default]. destruct (n - 1 =? 0) eqn:F; breflect.
      * rewrite lookup_delete_eq. cbn. unfold id. lia.
      * by rewrite lookup_insert_eq.
    + rewrite Nat.sub_0_r. destruct (n - 1 =? 0); [rewrite lookup_delete_ne|rewrite lookup_insert_ne]; done.
  - destruct (decide (j = k)) as [->|Hn]; [by rewrite E|by rewrite Nat.sub_0_r].
Qed.

Lemma release_pos m r :
  (∀ j, m !! j ≠ Some 0) → ∀ j, release_event_registration m r !! j ≠ Some 0.
Proof.
  intros Hp j. unfold release_event_registration. destruct r as [i|]; [|done].
  destruct (m !! i) as [n|] eqn:E; [|done]. destruct (n - 1 =? 0) eqn:F; breflect.
  - rewrite lookup_delete_Some. intros [_ ?]. by eapply Hp.
  - rewrite lookup_insert_Some. intros [[_ ?]|[_ ?]]; [lia|by eapply Hp].
Qed.

Lemma discard_count ts m k :
  (∀ j, m !! j ≠ Some 0) →
  let m' := foldl (fun m t => release_event_registration m (et_reg t)) m ts in
  default 0 (m' !! k) = default 0 (m !! k) - pend k ts ∧ ∀ j, m' !! j ≠ Some 0.
Proof.
  revert m. induction ts as [|t ts IH]; intros m Hp; cbn [foldl];
    [split; [by rewrite Nat.sub_0_r|done]|].
  change (pend k (t :: ts)) with (one (et_reg t) k + pend k ts).
  destruct (IH (release_event_registration m (et_reg t))) as [H1 H2]; [by apply release_pos|].
  split; [|done]. rewrite H1, release_count by done. lia.
Qed.

(** The registrations after a release or after the pending events are dropped. *)
Lemma flight_release st r f g :
  flight_inv st f → (∀ k, f k = g k + one r k) → flight_inv (release_section st r) g.
Proof.
  intros [C P] H. constructor; cbn [release_section event_in_flight pending_events].
  - intros k. rewrite release_count, C, H by done. lia.
  - by apply release_pos.
Qed.

Lemma flight_discard st f b :
  flight_inv st f → flight_inv (set_event_active (discard_pending_events st) b) f.
Proof.
  intros [C P]. constructor; cbn [discard_pending_events set_event_active event_in_flight pending_events].
  - intros k. destruct (discard_count (pending_events st) (event_in_flight st) k P) as [H _].
    rewrite H, C. cbn. lia.
  - intros k. by destruct (discard_count (pending_events st) (event_in_flight st) k P).
Qed.

Lemma flight_ext st f g : flight_inv st f → (∀ k, f k = g k) → flight_inv st g.
Proof. intros [C P] H. constructor; [|done]. intros k. by rewrite C, H. Qed.

(** A state whose in-flight map is the same and whose pending events moved. *)
Lemma flight_move st st' f g :
  flight_inv st f → event_in_flight st' = event_in_flight st →
  (∀ k, f k + pend k (pending_events st) = g k + pend k (pending_events st')) → flight_inv st' g.
Proof. intros [C P] E H. constructor; rewrite E; [|done]. intros k. by rewrite C, H. Qed.

Lemma pend_app k l r : pend k (l ++ r) = pend k l + pend k r.
Proof. apply sum_list_with_app. Qed.

Lemma one_None k : one None k = 0.
Proof. done. Qed.

Lemma flight_admit running st r timely st' f :
  admit_section running st r timely = Some st' → flight_inv st f →
  flight_inv st' (fun k => f k + one r k).
Proof.
  unfold admit_section. intros E [C P]. destruct (timely && negb running); [done|].
  destruct (timely && _); [done|]. destruct r as [j|]; simplify_eq;
    [|constructor; [intros k; rewrite C, one_None; lia|done]].
  constructor; cbn [event_in_flight pending_events].
  - intros k. specialize (C k). unfold one. destruct (decide (j = k)) as [->|Hn].
    + rewrite lookup_insert_eq. cbn [from_option]. unfold id at 1. lia.
    + rewrite lookup_insert_ne, C by done. lia.
  - intros k. rewrite lookup_insert_Some. intros [[_ ?]|[_ ?]]; [lia|by eapply P].
Qed.

(** Case analysis on what a step does. *)
Ltac step_cases D :=
  cbn [event_act_step] in D; unfold enqueue_event_section, finish_event_section in D;
  repeat match type of D with
  | context [match ?x with _ => _ end] => destruct x eqn:?
  end; simplify_eq;
  repeat match goal with
  | H : match ?x with _ => _ end = (_, _) |- _ => destruct x eqn:?; simplify_eq
  end.

(** Every step keeps the in-flight counts equal to the executions that hold
    them; [base] counts the other activities. *)
Lemma flight_act strict running st a c st' new ord out base :
  flight_inv st (fun k => base k + hold k a) →
  event_act_step strict running st a c = (st', new, ord, out) →
  flight_inv st' (fun k => base k + cnt (hold k) new).
Proof.
  intros HI D.
  assert (R : ∀ r, (∀ k, hold k a = one r k) → flight_inv (release_section st r) (fun k => base k + 0))
    by (intros r Hr; eapply flight_release; [exact HI|]; intros k; cbn; rewrite Hr; lia).
  destruct a; step_cases D;
    try (eapply flight_ext; [eassumption || exact (R _ (fun k => eq_refl))|];
         intros k; unfold hold, cnt; cbn [held sum_list_with one]; lia).
  - eapply flight_ext; [by eapply flight_admit|]. intros k. unfold hold, cnt. cbn. lia.
  - eapply flight_move; [exact HI|done|]. intros k. unfold hold, cnt, pend. cbn. lia.
  - eapply flight_move; [exact HI|done|]. intros k. cbn [pending_events]. rewrite pend_app.
    unfold hold, cnt, pend. cbn. lia.
  - eapply flight_ext; [apply flight_discard, HI|]. intros k. unfold hold, cnt. cbn. lia.
  - eapply flight_move; [exact HI|done|]. intros k. cbn [pending_events].
    match goal with H : pending_events st = _ |- _ => rewrite H end.
    unfold hold, cnt, pend. cbn. lia.
  - eapply flight_move; [exact HI|done|]. intros k. unfold hold, cnt, pend. cbn. lia.
  - apply flight_discard. eapply flight_ext; [apply (R _ (fun k => eq_refl))|].
    intros k. unfold cnt. cbn. lia.
Qed.

Lemma admit_same running st r timely st' :
  admit_section running st r timely = Some st' →
  event_active st' = event_active st ∧ pending_events st' = pending_events st.
Proof.
  unfold admit_section. destruct (timely && negb running); [done|].
  destruct (timely && _); [done|]. by destruct r; intros [= <-].
Qed.

Lemma fst_dropped (ts : list event_task) : map fst (map (fun u => (u, EDropped)) ts) = ts.
Proof. rewrite map_map. apply map_id. Qed.

(** Every step keeps the lane's accounting; [b] counts the other owners, and
    [l], [r] are the events in transit around this activity. *)
Lemma lane_act strict running st a c st' new ord out b l r ordered done_ :
  lane_inv st (b + event_token a) (l ++ transit1 a ++ r) ordered done_ →
  (b = 0 → l = [] ∧ r = []) →
  event_act_step strict running st a c = (st', new, ord, out) →
  lane_inv st' (b + cnt event_token new) (l ++ transit new ++ r) (ordered ++ ord) (done_ ++ out).
Proof.
  intros [Tk P H] Z D. unfold cnt, transit.
  assert (Zt : event_token a = 1 → b = 0 ∧ event_active st = true)
    by (intros Ha; rewrite Ha in Tk; destruct (event_active st); split; lia || done).
  destruct a; step_cases D; rewrite ?app_nil_r in *;
    cbn [event_token transit1 sum_list_with map concat app] in *; rewrite ?Nat.add_0_r in *;
    try (constructor; done).
  - match goal with E : admit_section _ _ _ _ = Some _ |- _ =>
      destruct (admit_same _ _ _ _ _ E) as [E1 E2] end.
    constructor; rewrite ?E1, ?E2; done.
      - destruct (Z Tk) as [-> ->]. constructor; cbn; [lia|done|]. by rewrite (P eq_refl), !app_nil_r.
  - constructor; cbn; [done..|].
    by rewrite <- !app_assoc.
  - destruct (Zt eq_refl) as [-> _]. destruct (Z eq_refl) as [-> ->].
    constructor; cbn; [done..|]. rewrite map_app. cbn. by rewrite fst_dropped, app_nil_r.
  - destruct (Zt eq_refl) as [-> _]. destruct (Z eq_refl) as [-> ->].
    constructor; [done..|]. rewrite map_app. cbn. by rewrite <- app_assoc.
  - destruct (Zt eq_refl) as [-> Ha]. destruct (Z eq_refl) as [-> ->].
    constructor; cbn; rewrite ?Ha; done.
  - destruct (Zt eq_refl) as [-> _]. destruct (Z eq_refl) as [-> ->].
    match goal with E : pending_events st = [] |- _ => constructor; cbn; rewrite ?E; done end.
  - destruct (Zt eq_refl) as [-> _]. destruct (Z eq_refl) as [-> ->].
    constructor; cbn; [done..|]. rewrite map_app. cbn. by rewrite fst_dropped, app_nil_r.
Qed.

(** Only a timely admission of an idle registration raises the count of a timely
    registration. *)
Lemma timely_act strict running st a c st' new ord out k T f :
  event_act_step strict running st a c = (st', new, ord, out) → flight_inv st f →
  request_ok T a → T k = true → default 0 (event_in_flight st !! k) ≤ 1 →
  default 0 (event_in_flight st' !! k) ≤ 1.
Proof.
  intros D [C P] Hq Hk H.
  assert (Rl : ∀ r, default 0 (release_event_registration (event_in_flight st) r !! k) ≤ 1)
    by (intros r; rewrite release_count by done; lia).
  assert (Dc : ∀ m, (∀ j, m !! j ≠ Some 0) → default 0 (m !! k) ≤ 1 →
    default 0 (foldl (fun m t => release_event_registration m (et_reg t)) m (pending_events st) !! k) ≤ 1)
    by (intros m Hm ?; destruct (discard_count (pending_events st) m k Hm) as [-> _]; lia).
  destruct a; step_cases D; try done; try apply Rl; try (apply Dc; done).
  - match goal with X : admit_section _ _ _ _ = Some _ |- _ => rename X into E end.
    unfold admit_section in E. destruct (timely && negb running); [done|].
    destruct (timely && mudmux_execution_event_busy st (et_reg t)) eqn:B; [done|].
    destruct (et_reg t) as [j|] eqn:Er; simplify_eq; [|done]. cbn [event_in_flight].
    destruct (decide (j = k)) as [->|Hn]; [|by rewrite lookup_insert_ne].
    rewrite (Hq k Er Hk) in B. cbn [andb mudmux_execution_event_busy] in B.
    apply bool_decide_eq_false in B. rewrite lookup_insert_eq. cbn [from_option]. unfold id.
    destruct (event_in_flight st !! k); [by destruct B|]. cbn. lia.
  - apply Dc; [by apply release_pos|apply Rl].
Qed.

Lemma requests_act strict running st a c st' new ord out T :
  event_act_step strict running st a c = (st', new, ord, out) →
  request_ok T a → Forall (request_ok T) new.
Proof. intros D H. destruct a; step_cases D; repeat constructor; done. Qed.

Lemma event_act_inv strict T s i c s' :
  event_inv T s → event_step strict s (EAct i c) = Some s' → event_inv T s'.
Proof.
  intros [F L Q R] E. cbn [event_step] in E. destruct (es_acts s !! i) as [a|] eqn:Ha; [|done].
  destruct (event_act_step strict (es_running s) (es_state s) a c) as [[[st' new] ord] out] eqn:D.
  injection E as <-. rewrite <- (take_drop_middle _ _ _ Ha) in F, L, R.
  set (l := take i (es_acts s)) in *. set (r := drop (S i) (es_acts s)) in *.
  apply Forall_app in R as [Rl [Ra Rr]%Forall_cons].
  constructor; cbn [es_state es_acts es_ordered es_left].
  - eapply flight_ext; [eapply (flight_act _ _ _ _ _ _ _ _ _ (fun k => cnt (hold k) l + cnt (hold k) r));
      [|exact D]|].
    + eapply flight_ext; [exact F|]. intros k. cbn beta. rewrite cnt_app. unfold cnt. cbn. lia.
    + intros k. cbn beta. rewrite !cnt_app. lia.
  - rewrite cnt_app, transit_app in L.
    change (cnt event_token (a :: r)) with (event_token a + cnt event_token r) in L.
    change (transit (a :: r)) with (transit1 a ++ transit r) in L.
    rewrite !cnt_app, !transit_app.
    replace (cnt event_token l + (cnt event_token new + cnt event_token r))
      with (cnt event_token l + cnt event_token r + cnt event_token new) by lia.
    eapply lane_act; [|intros Z; split; apply no_token_no_event; lia|exact D].
    by replace (cnt event_token l + cnt event_token r + event_token a)
      with (cnt event_token l + (event_token a + cnt event_token r)) by lia.
  - intros k Hk. eapply timely_act; [exact D|exact F|exact Ra|done|by apply Q].
  - rewrite !Forall_app. split_and!; [done| |done]. by eapply requests_act.
Qed.

Lemma event_reachable_inv strict T s : event_reachable strict T s → event_inv T s.
Proof.
  induction 1 as [running|s l s' _ IH Hl E].
  { constructor; [constructor|constructor|..]; cbn; try done; intros k; rewrite lookup_empty; cbn; lia || done. }
  destruct l as [t timely|i c|b|]; [|by eapply event_act_inv|by injection E as <-; destruct IH|].
  - injection E as <-. destruct IH as [F L Q R]. constructor; cbn [es_state es_acts es_ordered es_left].
    + eapply flight_ext; [exact F|]. intros k. cbn beta. rewrite cnt_app. unfold cnt. cbn. lia.
    + rewrite cnt_app, transit_app. change (transit [VDispatch t timely]) with (@nil event_task).
      change (cnt event_token [VDispatch t timely]) with 0. by rewrite Nat.add_0_r, app_nil_r.
    + done.
    + rewrite Forall_app. split; [done|]. constructor; [|done]. intros k Hk HT. by eapply Hl.
  - cbn [event_step] in E. destruct (cnt event_token (es_acts s) =? 0) eqn:Z; breflect; [|done].
    injection E as <-. destruct IH as [F L Q R]. constructor; cbn [es_state es_acts es_ordered es_left].
    + apply flight_discard, F.
    + destruct L as [Tk P H]. rewrite Z in Tk.
      assert (A : event_active (es_state s) = false) by (destruct (event_active (es_state s)); done).
      constructor; cbn; [done..|]. rewrite H, (P A). cbn. by rewrite !app_nil_r.
    + intros k Hk. cbn. destruct F as [C P].
      destruct (discard_count (pending_events (es_state s)) (event_in_flight (es_state s)) k P) as [-> _].
      specialize (Q k Hk). lia.
    + done.
Qed.

Lemma cnt_le f g acts : (∀ a, f a ≤ g a) → cnt f acts ≤ cnt g acts.
Proof. intros H. induction acts as [|a acts IH]; [done|]. unfold cnt in *. cbn. specialize (H a). lia. Qed.

(** ** Theorems *)

(** C21: a registration that is dispatched as a timely event never has two
    callbacks, or a callback and a completion, in progress at once: at most one
    execution holds it from admission to release, in every interleaving of
    dispatches, workers, refused submissions and exceptions. *)
Theorem timely_event_exclusive strict T s k :
  event_reachable strict T s → T k = true →
  cnt (in_callback k) (es_acts s) ≤ 1 ∧ cnt (hold k) (es_acts s) ≤ 1.
Proof.
  intros [F L Q R]%event_reachable_inv Hk. specialize (Q k Hk). rewrite (fi_count _ _ F k) in Q.
  assert (cnt (in_callback k) (es_acts s) ≤ cnt (hold k) (es_acts s))
    by (apply cnt_le; intros []; unfold hold; cbn; lia).
  lia.
Qed.

(** C17: [mudmux_execution_event_busy] is exact: it answers true just when some
    execution of the registration has been admitted and not yet released,
    whether it runs, waits in the pool or waits behind another event.  In
    particular no failure path leaves a registration busy for ever. *)
Theorem event_busy_exact strict T s k :
  event_reachable strict T s →
  mudmux_execution_event_busy (es_state s) (Some k) = true
  ↔ 1 ≤ cnt (hold k) (es_acts s) + pend k (pending_events (es_state s)).
Proof.
  intros [[C P] L Q R]%event_reachable_inv. cbn [mudmux_execution_event_busy].
  rewrite bool_decide_eq_true, <- C. specialize (P k).
  destruct (event_in_flight (es_state s) !! k) as [n|] eqn:E; cbn; split; try done.
  - intros _. unfold id. destruct n; [done|lia].
  - intros H. lia.
Qed.

(** Ordinary events run on the workers one at a time, and leave the lane in
    the order in which they entered it; nothing that entered is forgotten. *)
Theorem ordinary_events_serialized strict T s :
  event_reachable strict T s →
  cnt in_ordinary (es_acts s) ≤ 1
  ∧ es_ordered s = map fst (es_left s) ++ transit (es_acts s) ++ pending_events (es_state s)
  ∧ length (transit (es_acts s)) ≤ 1.
Proof.
  intros [F [Tk P H] Q R]%event_reachable_inv.
  assert (cnt event_token (es_acts s) ≤ 1) by (rewrite Tk; case_bool; lia).
  split_and!; [|done|].
  - transitivity (cnt event_token (es_acts s)); [|done]. apply cnt_le. intros [| | | | | | | | | |? []|? []| | | |]; cbn; lia.
  - transitivity (cnt event_token (es_acts s)); [|done]. clear.
    induction (es_acts s) as [|a acts IH]; [done|]. unfold transit, cnt in *. cbn.
    rewrite length_app. destruct a as [| | | | | | | | |? []| | | | | |]; cbn in *; lia.
Qed.

(** When no call is in progress the scheduler is idle: no registration is
    busy, no event waits, and every ordinary event that entered the lane was
    invoked or dropped because the pool refused a submission. *)
Theorem events_quiescent strict T s :
  event_reachable strict T s → es_acts s = [] →
  event_active (es_state s) = false ∧ pending_events (es_state s) = []
  ∧ event_in_flight (es_state s) = ∅ ∧ es_ordered s = map fst (es_left s).
Proof.
  intros [[C Ps] [Tk P H] Q R]%event_reachable_inv Ha. rewrite Ha in *.
  assert (A : event_active (es_state s) = false) by (destruct (event_active (es_state s)); done).
  specialize (P A). split_and!; [done..| |by rewrite H, P, !app_nil_r].
  apply map_eq. intros k. rewrite lookup_empty. specialize (C k). specialize (Ps k).
  rewrite P in C. destruct (event_in_flight (es_state s) !! k) as [n|]; [|done].
  cbn in C. unfold id in C. by subst.
Qed.

(** ** Witnesses *)

Definition label_ok (T : nat → bool) (l : event_label) : bool :=
  match l with
  | EDispatch t timely => timely || negb (from_option T false (et_reg t))
  | _ => true
  end.

Fixpoint event_run (strict : bool) (s : event_sys) (ls : list event_label) : option event_sys :=
  match ls with
  | [] => Some s
  | l :: rest => match event_step strict s l with Some s' => event_run strict s' rest | None => None end
  end.

Lemma event_run_reachable strict T s ls s' :
  event_reachable strict T s → forallb (label_ok T) ls = true →
  event_run strict s ls = Some s' → event_reachable strict T s'.
Proof.
  revert s. induction ls as [|l ls IH]; intros s Hr; cbn [forallb event_run]; [by intros _ [= <-]|].
  intros [Hl Hls]%andb_true_iff. destruct (event_step strict s l) as [s1|] eqn:E; [|done].
  apply IH; [|done]. eapply event_reach_step; [done| |done]. intros t timely k -> Hk HT.
  cbn in Hl. rewrite Hk in Hl. cbn in Hl. rewrite HT in Hl. by destruct timely.
Qed.

(** A timely event 5 that runs, a second request for it that is refused, an
    ordinary event 6 that runs and one that waits behind it. *)
Definition events_demo : list event_label :=
  let a i := EAct i EStep in
  [EDispatch {| et_id := 1; et_reg := Some 5 |} true; a 0; a 0; a 0; a 0; a 0;
   EDispatch {| et_id := 2; et_reg := Some 5 |} true; a 1; a 1;
   EDispatch {| et_id := 3; et_reg := Some 6 |} false; a 1; a 1; a 1; a 1; a 1; a 1;
   EDispatch {| et_id := 4; et_reg := None |} false; a 2; a 2; a 2; a 2].

Definition events_demo_end : list event_label :=
  let a i := EAct i EStep in
  events_demo ++ [EAct 0 EThrow; a 0; EAct 0 EStep; a 0; a 0; a 0; a 0; a 0; a 0; a 0; a 0; a 0].

Definition demo_timely (k : nat) : bool := k =? 5.

Lemma demo_event_reachable ls s' :
  forallb (label_ok demo_timely) ls = true → event_run false (event_init true) ls = Some s' →
  event_reachable false demo_timely s'.
Proof. apply event_run_reachable. apply event_reach_init. Qed.

Definition events_demo_state : event_sys :=
  default (event_init true) (event_run false (event_init true) events_demo).

Lemma timely_event_exclusive_witness :
  cnt (in_callback 5) (es_acts events_demo_state) = 1
  ∧ (cnt (in_callback 5) (es_acts events_demo_state) ≤ 1
     ∧ cnt (hold 5) (es_acts events_demo_state) ≤ 1).
Proof.
  split; [vm_compute; reflexivity|]. apply (timely_event_exclusive false demo_timely).
  - apply (demo_event_reachable events_demo); vm_compute; reflexivity.
  - reflexivity.
Defined.

Lemma event_busy_exact_witness :
  mudmux_execution_event_busy (es_state events_demo_state) (Some 6) = true.
Proof.
  apply (event_busy_exact false demo_timely).
  - apply (demo_event_reachable events_demo); vm_compute; reflexivity.
  - vm_compute. lia.
Defined.

Lemma ordinary_events_serialized_witness :
  cnt in_ordinary (es_acts events_demo_state) = 1
  ∧ length (pending_events (es_state events_demo_state)) = 1
  ∧ cnt in_ordinary (es_acts events_demo_state) ≤ 1.
Proof.
  split; [vm_compute; reflexivity|]. split; [vm_compute; reflexivity|].
  refine (proj1 (ordinary_events_serialized false demo_timely events_demo_state _)).
  apply (demo_event_reachable events_demo); vm_compute; reflexivity.
Defined.

Lemma events_quiescent_witness :
  ∃ s, event_run false (event_init true) events_demo_end = Some s
       ∧ es_ordered s = [{| et_id := 3; et_reg := Some 6 |}; {| et_id := 4; et_reg := None |}]
       ∧ event_in_flight (es_state s) = ∅.
Proof.
  destruct (event_run false (event_init true) events_demo_end) as [s|] eqn:E; [|by vm_compute in E].
  exists s. split; [done|]. pose proof E as E2. vm_compute in E2. split; [by injection E2 as <-|].
  refine (proj1 (proj2 (proj2 (events_quiescent false demo_timely s _ _)))).
  - apply (demo_event_reachable events_demo_end); [vm_compute; reflexivity|exact E].
  - by injection E2 as <-.
Defined.
