(* ===== verification/AsyncEvent.v ===== *)
(** * The event primitive (lib/async/async_event.cpp, the POSIX branches)

    An event is a flag under a mutex and a kernel object that polling sees: an
    eventfd on Linux, a pipe elsewhere.  The kernel object is an interface
    ([Signal]) with the documented laws of both; the theorems relate the flag,
    the descriptor and the specification of a manual or auto-reset event. *)

From S2P Require Import Prelude.

(** ** The kernel object *)

(** A readable descriptor and the calls made on it.  [sig_write] may fail (a
    full pipe, an interrupted call); reads never block. *)
Class Signal := {
  sig : Type;
  sig_new : sig;
  sig_level : sig → nat;                    (* 0 when [poll] finds nothing to read *)
  sig_write : sig → sig * bool;             (* [write_signal_once] *)
  sig_read : sig → sig * bool;              (* [read_signal_once] *)
  sig_level_new : sig_level sig_new = 0;
  sig_write_ok : ∀ x, (sig_write x).2 = true → sig_level (sig_write x).1 = S (sig_level x);
  sig_write_fail : ∀ x, (sig_write x).2 = false → sig_level (sig_write x).1 = sig_level x;
  sig_read_empty : ∀ x, sig_level x = 0 → (sig_read x).2 = false ∧ sig_level (sig_read x).1 = 0;
  sig_read_ready : ∀ x, 0 < sig_level x →
    (sig_read x).2 = true ∧ sig_level (sig_read x).1 < sig_level x
}.

(** ** The event *)

Section AsyncEvent.
Context `{Signal}.

(** [EventImpl]. *)
Record event_impl := { fd : sig; signaled : bool; manual_reset : bool }.

Definition async_event_init (manual initial_state : bool) : option event_impl :=
  if initial_state then
    let '(x, ok) := sig_write sig_new in
    if ok then Some {| fd := x; signaled := true; manual_reset := manual |} else None
  else Some {| fd := sig_new; signaled := false; manual_reset := manual |}.

Definition async_event_set (e : event_impl) : event_impl :=
  if signaled e then e
  else
    let '(x, ok) := sig_write (fd e) in
    {| fd := x; signaled := ok; manual_reset := manual_reset e |}.

(** [while (read_signal_once(impl, &value));] *)
Fixpoint drain_signal (fuel : nat) (x : sig) : sig :=
  match fuel with
  | 0 => x
  | S n => let '(y, ok) := sig_read x in if ok then drain_signal n y else y
  end.

Definition async_event_reset (e : event_impl) : event_impl :=
  if signaled e
  then {| fd := drain_signal (S (sig_level (fd e))) (fd e); signaled := false;
          manual_reset := manual_reset e |}
  else e.

Definition consume_event_signal (e : event_impl) : event_impl * bool :=
  if negb (signaled e) then (e, false)
  else
    let '(x, ok) := sig_read (fd e) in
    if ok then ({| fd := x; signaled := false; manual_reset := manual_reset e |}, true)
    else ({| fd := x; signaled := signaled e; manual_reset := manual_reset e |}, false).

(** The locked part of [async_event_wait]: [Some] result when it returns there. *)
Definition wait_section (e : event_impl) (timeout_zero : bool) : event_impl * option bool :=
  if signaled e then
    if manual_reset e then (e, Some true)
    else let '(e', r) := consume_event_signal e in (e', Some r)
  else if timeout_zero then (e, Some false) else (e, None).

(** What happens while the caller is in [poll]: other threads' calls on the
    event, and whether [poll] then reports the descriptor ready or gives up. *)
Inductive event_op := OpSet | OpReset | OpTryWait.

Definition apply_op (e : event_impl) (op : event_op) : event_impl :=
  match op with
  | OpSet => async_event_set e
  | OpReset => async_event_reset e
  | OpTryWait => (wait_section e true).1
  end.

(** [async_event_wait]; the list holds one entry per turn of its loop, and the
    result is [None] when the caller is still waiting at its end. *)
Fixpoint async_event_wait (e : event_impl) (timeout_zero : bool) (turns : list (list event_op * bool))
    : event_impl * option bool :=
  match wait_section e timeout_zero with
  | (e', Some r) => (e', Some r)
  | (e', None) =>
      match turns with
      | [] => (e', None)
      | (ops, ready) :: rest =>
          let e'' := foldl apply_op e' ops in
          if ready then async_event_wait e'' timeout_zero rest else (e'', Some false)
      end
  end.

(** ** Invariant: the descriptor is readable just when the flag is set *)

Definition event_ok (e : event_impl) : Prop := sig_level (fd e) = if signaled e then 1 else 0.

Lemma event_init_ok manual initial e : async_event_init manual initial = Some e →
  event_ok e ∧ signaled e = initial ∧ manual_reset e = manual.
Proof.
  unfold async_event_init, event_ok. destruct initial; [|intros [= <-]; cbn; by rewrite sig_level_new].
  pose proof (sig_write_ok sig_new) as W. destruct (sig_write sig_new) as [x []]; [|done].
  intros [= <-]. cbn in *. by rewrite (W eq_refl), sig_level_new.
Qed.

Lemma event_set_ok e : event_ok e →
  event_ok (async_event_set e) ∧ manual_reset (async_event_set e) = manual_reset e.
Proof.
  unfold async_event_set, event_ok. intros Ho. destruct (signaled e) eqn:S; [by rewrite S|].
  pose proof (sig_write_ok (fd e)) as W. pose proof (sig_write_fail (fd e)) as F.
  destruct (sig_write (fd e)) as [x []]; cbn in *; split; try done;
    [rewrite (W eq_refl)|rewrite (F eq_refl)]; by rewrite Ho.
Qed.

Lemma drain_level fuel x : sig_level x < fuel → sig_level (drain_signal fuel x) = 0.
Proof.
  revert x. induction fuel as [|n IH]; intros x Hx; [lia|]. cbn [drain_signal].
  destruct (decide (sig_level x = 0)) as [E|E].
  - destruct (sig_read_empty x E) as [R L]. destruct (sig_read x) as [y ok]. cbn in *. by subst.
  - destruct (sig_read_ready x) as [R L]; [lia|]. destruct (sig_read x) as [y ok]. cbn in *.
    subst. apply IH. lia.
Qed.

Lemma event_reset_ok e : event_ok e →
  event_ok (async_event_reset e) ∧ signaled (async_event_reset e) = false
  ∧ manual_reset (async_event_reset e) = manual_reset e.
Proof.
  unfold async_event_reset, event_ok. intros Ho. destruct (signaled e) eqn:S; [|by rewrite S].
  cbn [fd signaled manual_reset]. split_and!; [|done..]. apply drain_level. lia.
Qed.

Lemma wait_section_ok e z : event_ok e →
  let '(e', r) := wait_section e z in
  event_ok e' ∧ manual_reset e' = manual_reset e
  ∧ signaled e' = (signaled e && manual_reset e)
  ∧ r = if signaled e then Some true else if z then Some false else None.
Proof.
  unfold wait_section, consume_event_signal. intros Ho.
  destruct (signaled e) eqn:S; [|destruct z; by rewrite S].
  destruct (manual_reset e) eqn:M; [by rewrite M, S|]. cbn [negb].
  unfold event_ok in *. rewrite S in Ho. destruct (sig_read_ready (fd e)) as [R L]; [lia|].
  destruct (sig_read (fd e)) as [x ok]. cbn in *. subst. split_and!; try done. cbn. lia.
Qed.

(** ** Specification *)

(** What an event promises: a flag.  [None] is an operation that can fail. *)
Inductive event_call := CallSet (ok : bool) | CallReset | CallWait.

Definition spec_event (manual flag : bool) (c : event_call) : bool * option bool :=
  match c with
  | CallSet ok => (flag || ok, None)
  | CallReset => (false, None)
  | CallWait => (flag && manual, Some flag)
  end.

(** The same calls on the implementation; [ok] records whether a needed write
    succeeds. *)
Definition impl_event (e : event_impl) (c : event_call) : event_impl * option bool :=
  match c with
  | CallSet _ => (async_event_set e, None)
  | CallReset => (async_event_reset e, None)
  | CallWait => wait_section e true
  end.

Fixpoint spec_events (manual flag : bool) (cs : list event_call) : bool * list (option bool) :=
  match cs with
  | [] => (flag, [])
  | c :: rest =>
      let '(flag', r) := spec_event manual flag c in
      let '(flag'', rs) := spec_events manual flag' rest in (flag'', r :: rs)
  end.

Fixpoint impl_events (e : event_impl) (cs : list event_call) : event_impl * list (option bool) :=
  match cs with
  | [] => (e, [])
  | c :: rest =>
      let '(e', r) := impl_event e c in
      let '(e'', rs) := impl_events e' rest in (e'', r :: rs)
  end.

(** [ok] tells the truth about the writes the calls make. *)
Fixpoint writes_as_said (e : event_impl) (cs : list event_call) : Prop :=
  match cs with
  | [] => True
  | c :: rest =>
      match c with CallSet ok => signaled e = false → (sig_write (fd e)).2 = ok | _ => True end
      ∧ writes_as_said (impl_event e c).1 rest
  end.

Lemma impl_event_refines e c :
  event_ok e → writes_as_said e [c] →
  let '(e', r) := impl_event e c in
  event_ok e' ∧ manual_reset e' = manual_reset e
  ∧ (signaled e', r) = spec_event (manual_reset e) (signaled e) c.
Proof.
  intros Ho [Hw _]. destruct c as [ok| |]; cbn [impl_event spec_event].
  - destruct (event_set_ok e Ho) as [O M]. split_and!; [done..|].
    unfold async_event_set in *. destruct (signaled e) eqn:S; [by rewrite S|].
    specialize (Hw eq_refl). destruct (sig_write (fd e)) as [x b]. cbn in *. by subst.
  - destruct (event_reset_ok e Ho) as (O & S & M). by rewrite S.
  - pose proof (wait_section_ok e true Ho) as W. destruct (wait_section e true) as [e' r].
    destruct W as (O & M & S & ->). split_and!; [done..|]. rewrite S. by destruct (signaled e).
Qed.

(** C25: an event behaves as a flag: for every sequence of set, reset and
    non-blocking wait calls, each wait answers what the flag says, an auto-reset
    event is cleared by the wait it satisfies and a manual-reset event is not,
    and after every call the descriptor is readable exactly when the flag is
    set, so a poller and a waiter always agree. *)
Theorem async_event_refines_flag e cs :
  event_ok e → writes_as_said e cs →
  let '(e', rs) := impl_events e cs in
  (signaled e', rs) = spec_events (manual_reset e) (signaled e) cs ∧ event_ok e'.
Proof.
  revert e. induction cs as [|c cs IH]; intros e Ho Hw; [done|].
  destruct Hw as [Hc Hw]. pose proof (impl_event_refines e c Ho (conj Hc I)) as R.
  cbn [impl_events spec_events]. destruct (impl_event e c) as [e1 r]. destruct R as (O & M & R).
  cbn in Hw. specialize (IH e1 O Hw). rewrite <- R, <- M.
  destruct (impl_events e1 cs) as [e2 rs]. destruct (spec_events _ _ cs) as [f2 qs].
  destruct IH as [[= -> ->] Ok]. done.
Qed.

Lemma apply_ops_ok e ops : event_ok e →
  event_ok (foldl apply_op e ops) ∧ manual_reset (foldl apply_op e ops) = manual_reset e.
Proof.
  revert e. induction ops as [|op ops IH]; intros e Ho; [done|]. cbn [foldl].
  assert (event_ok (apply_op e op) ∧ manual_reset (apply_op e op) = manual_reset e) as [O M].
  { destruct op; cbn; [by apply event_set_ok|by destruct (event_reset_ok e Ho) as (? & _ & ?)|].
    pose proof (wait_section_ok e true Ho) as W. destruct (wait_section e true). by destruct W as (? & ? & _). }
  destruct (IH _ O) as [O2 M2]. split; [done|congruence].
Qed.

(** A blocking wait that reports success saw the event signalled at that
    moment, whatever other threads did meanwhile: it returns with a manual-reset
    event still signalled and with an auto-reset event cleared, and one that
    has not returned or that timed out consumed nothing of its own. *)
Theorem async_event_wait_sound e turns e' r :
  event_ok e → async_event_wait e false turns = (e', r) →
  event_ok e' ∧ (r = Some true → signaled e' = manual_reset e)
  ∧ (r = None → signaled e' = false).
Proof.
  revert e. induction turns as [|[ops ready] turns IH]; intros e Ho E; cbn [async_event_wait] in E;
    pose proof (wait_section_ok e false Ho) as W; destruct (wait_section e false) as [e1 q];
    destruct W as (O & M & S & ->); destruct (signaled e); cbn [andb] in S.
  - injection E as <- <-. by rewrite S.
  - by injection E as <- <-.
  - injection E as <- <-. by rewrite S.
  - destruct (apply_ops_ok e1 ops O) as [O2 M2]. destruct ready.
    + destruct (IH _ O2 E) as (H1 & H2 & H3). split_and!; [done| |done].
      intros Hr. rewrite H2 by done. congruence.
    + by injection E as <- <-.
Qed.
End AsyncEvent.

(** ** Instances: eventfd and pipe *)

(** An eventfd: a write adds one to the counter, a read takes all of it. *)
#[export] Instance eventfd_signal : Signal.
Proof.
  refine {| sig := nat; sig_new := 0; sig_level := fun n => n; sig_write := fun n => (S n, true);
            sig_read := fun n => (0, negb (n =? 0)) |}; try done; cbn.
  - by intros x ->.
  - intros [|x] Hx; [lia|]. cbn. split; [done|lia].
Defined.

(** A pipe of [cap] bytes: a write adds a byte if there is room, a read takes one. *)
Definition pipe_signal (cap : nat) : Signal.
Proof.
  refine {| sig := nat; sig_new := 0; sig_level := fun n => n;
            sig_write := fun n => if n <? cap then (S n, true) else (n, false);
            sig_read := fun n => (pred n, negb (n =? 0)) |}; try done.
  - intros x. cbn beta. by destruct (x <? cap).
  - intros x. cbn beta. by destruct (x <? cap).
  - by intros x ->.
  - intros [|x] Hx; [lia|]. cbn. split; [done|lia].
Defined.

Lemma async_event_refines_flag_witness :
  let e := {| fd := (0 : @sig eventfd_signal); signaled := false; manual_reset := false |} in
  let cs := [CallWait; CallSet true; CallSet true; CallWait; CallWait] in
  (impl_events e cs).2 = [Some false; None; None; Some true; Some false]
  ∧ (let '(e', rs) := impl_events e cs in
     (signaled e', rs) = spec_events (manual_reset e) (signaled e) cs ∧ event_ok e').
Proof.
  intros e cs. split; [reflexivity|]. apply async_event_refines_flag; [reflexivity|].
  repeat split; intros; reflexivity.
Defined.

Lemma async_event_wait_sound_witness :
  let e := {| fd := (0 : @sig eventfd_signal); signaled := false; manual_reset := false |} in
  let e' := (async_event_wait e false [([OpSet; OpTryWait], true); ([OpSet], true)]).1 in
  event_ok e' ∧ signaled e' = false.
Proof.
  intros e e'.
  destruct (async_event_wait_sound e [([OpSet; OpTryWait], true); ([OpSet], true)] e' (Some true))
    as (H1 & H2 & _); [reflexivity..|]. split; [exact H1|]. apply H2. reflexivity.
Defined.
