(* ===== verification/EventReg.v ===== *)
(** * Registered events and the timer (src/mudmux.cpp)

    The table of event registrations, [mudmux_trigger_timer] with its mask of
    pending flags, and [dispatch_registered_event] as the event loop runs it for
    the timer: readiness, acknowledgement, consumption of the mask, admission by
    the scheduler (EventExec.v) and retry.  Producers, the loop and the workers
    interleave between atomic operations; the native event is the flag of
    AsyncEvent.v, a manual-reset one. *)

From stdpp Require Import gmap.
From S2P Require Import Prelude AsyncEvent EventExec.

(** ** Registrations *)

Record event_registration := { er_event : nat; er_hook : nat }.  (* hook 0: [HOOK_TIMER] *)

(** [mudmux_register_event]; [None] is [return false]. *)
Definition mudmux_register_event (is_running : bool) (regs : list event_registration)
    (event hook_func : nat) : option (list event_registration) :=
  if (event =? 0) || (hook_func =? 0) || is_running then None
  else if existsb (fun r => er_event r =? event) regs then None
  else Some (regs ++ [{| er_event := event; er_hook := hook_func |}]).

Lemma register_event_nodup running regs event hook regs' :
  NoDup (map er_event regs) → mudmux_register_event running regs event hook = Some regs' →
  NoDup (map er_event regs').
Proof.
  unfold mudmux_register_event. intros Hn. destruct (_ || _); [done|].
  destruct (existsb _ regs) eqn:E; [done|]. intros [= <-]. rewrite map_app. cbn.
  apply NoDup_app. split_and!; [done| |apply NoDup_singleton].
  intros x Hx ->%list_elem_of_singleton. apply list_elem_of_In, in_map_iff in Hx as (r & Hr & Hin).
  rewrite <- not_true_iff_false, existsb_exists in E. apply E. exists r.
  split; [done|]. by apply Nat.eqb_eq.
Qed.

(** ** The timer *)

(** [std::numeric_limits<int>::max()]. *)
Definition INT_MAX : Z := 2147483647.

Definition timer_flags_ok (flags : Z) : bool := negb (flags =? 0)%Z && (flags <=? INT_MAX)%Z.

(** Where the event loop is. *)
Inductive loop_pc :=
  | LWaiting                              (* in [async_runtime_wait] *)
  | LReported                             (* the timer event was reported *)
  | LCheck (last : bool)                  (* [dispatch_registered_event]; [last]: end-of-turn pass *)
  | LReset (last : bool)                  (* notification taken, [async_event_reset] next *)
  | LTake (last : bool)                   (* [timer_pending_flags.exchange(0)] next *)
  | LDispatch (last : bool) (flags : Z)   (* [mudmux_execution_dispatch] next *)
  | LInline (last : bool)                 (* strict mode: the callback is running *)
  | LInlineWake (last : bool)             (* registration released, wake-up next *)
  | LRestore (last : bool) (flags : Z).   (* queue full: [fetch_or] of the rejected batch next *)

(** An execution of the timer hook on a worker. *)
Inductive timer_worker := THold | TWake.

Record timer_sys := {
  tm_mask : Z;                            (* [timer_pending_flags] *)
  tm_signaled : bool;                     (* the native event *)
  tm_pending : bool;                      (* [registration.pending] *)
  tm_wake : bool;                         (* the runtime has an unread wake-up *)
  tm_events : event_state;                (* the scheduler's admissions *)
  tm_loop : loop_pc;
  tm_producers : nat;                     (* triggers between [fetch_or] and [async_event_set] *)
  tm_workers : list timer_worker;
  tm_owed : Z;                            (* history: bits triggered since their last delivery *)
  tm_delivered : list Z                   (* history: messages of the hook *)
}.

Definition timer_init : timer_sys :=
  {| tm_mask := 0; tm_signaled := false; tm_pending := false; tm_wake := false;
     tm_events := idle_events; tm_loop := LWaiting; tm_producers := 0; tm_workers := [];
     tm_owed := 0; tm_delivered := [] |}.

(** Record updates. *)
Definition at_pc (s : timer_sys) (pc : loop_pc) : timer_sys :=
  {| tm_mask := tm_mask s; tm_signaled := tm_signaled s; tm_pending := tm_pending s;
     tm_wake := tm_wake s; tm_events := tm_events s; tm_loop := pc; tm_producers := tm_producers s;
     tm_workers := tm_workers s; tm_owed := tm_owed s; tm_delivered := tm_delivered s |}.
Definition with_mask (s : timer_sys) (m : Z) : timer_sys :=
  {| tm_mask := m; tm_signaled := tm_signaled s; tm_pending := tm_pending s;
     tm_wake := tm_wake s; tm_events := tm_events s; tm_loop := tm_loop s;
     tm_producers := tm_producers s; tm_workers := tm_workers s; tm_owed := tm_owed s;
     tm_delivered := tm_delivered s |}.
Definition with_signal (s : timer_sys) (signaled pending : bool) : timer_sys :=
  {| tm_mask := tm_mask s; tm_signaled := signaled; tm_pending := pending;
     tm_wake := tm_wake s; tm_events := tm_events s; tm_loop := tm_loop s;
     tm_producers := tm_producers s; tm_workers := tm_workers s; tm_owed := tm_owed s;
     tm_delivered := tm_delivered s |}.
Definition with_wake (s : timer_sys) (wake : bool) : timer_sys :=
  {| tm_mask := tm_mask s; tm_signaled := tm_signaled s; tm_pending := tm_pending s;
     tm_wake := wake; tm_events := tm_events s; tm_loop := tm_loop s;
     tm_producers := tm_producers s; tm_workers := tm_workers s; tm_owed := tm_owed s;
     tm_delivered := tm_delivered s |}.
Definition with_events (s : timer_sys) (e : event_state) (ws : list timer_worker) : timer_sys :=
  {| tm_mask := tm_mask s; tm_signaled := tm_signaled s; tm_pending := tm_pending s;
     tm_wake := tm_wake s; tm_events := e; tm_loop := tm_loop s;
     tm_producers := tm_producers s; tm_workers := ws; tm_owed := tm_owed s;
     tm_delivered := tm_delivered s |}.
Definition deliver (s : timer_sys) (flags : Z) : timer_sys :=
  {| tm_mask := tm_mask s; tm_signaled := tm_signaled s; tm_pending := tm_pending s;
     tm_wake := tm_wake s; tm_events := tm_events s; tm_loop := tm_loop s;
     tm_producers := tm_producers s; tm_workers := tm_workers s;
     tm_owed := Z.ldiff (tm_owed s) flags; tm_delivered := tm_delivered s ++ [flags] |}.

(** The timer's registration identity. *)
Definition timer_reg : option nat := Some 0.

(** What follows a call of [dispatch_registered_event]. *)
Definition after (last : bool) : loop_pc := if last then LWaiting else LCheck true.

(** The outcome of the loop's wait: whether it reports the timer event and
    whether it reads the wake-up. *)
Inductive loop_choice := LoopStep | LoopSees (event wake : bool) | LoopFails.

(** One step of the event loop; [hook]: [HOOK_TIMER] is registered. *)
Definition loop_step (strict hook : bool) (s : timer_sys) (c : loop_choice) : option timer_sys :=
  match tm_loop s with
  | LWaiting =>
      match c with
      | LoopSees event wake =>
          if (event && negb (tm_signaled s)) then None
          else Some (at_pc (with_wake s (tm_wake s && negb wake)) (if event then LReported else LCheck true))
      | _ => None
      end
  | LReported => Some (at_pc (with_signal s false true) (LCheck false))
  | LCheck last =>
      if negb (tm_pending s) || mudmux_execution_event_busy (tm_events s) timer_reg
      then Some (at_pc s (after last))
      else if negb hook then Some (at_pc (with_signal s (tm_signaled s) false) (after last))
      else Some (at_pc (with_signal s (tm_signaled s) false) (LReset last))
  | LReset last => Some (at_pc (with_signal s false (tm_pending s)) (LTake last))
  | LTake last =>
      Some (at_pc (with_mask s 0)
             (if (tm_mask s =? 0)%Z then after last else LDispatch last (tm_mask s)))
  | LDispatch last flags =>
      match c with
      | LoopFails => Some (at_pc s (after last))      (* [MUDMUX_DISPATCH_ERROR] *)
      | _ =>
          match admit_section true (tm_events s) timer_reg true with
          | None => Some (at_pc (with_signal s (tm_signaled s) true) (LRestore last flags))
          | Some e =>
              if strict then Some (at_pc (deliver (with_events s e (tm_workers s)) flags) (LInline last))
              else Some (at_pc (deliver (with_events s e (tm_workers s ++ [THold])) flags) (after last))
          end
      end
  | LInline last =>
      Some (at_pc (with_events s (release_section (tm_events s) timer_reg) (tm_workers s)) (LInlineWake last))
  | LInlineWake last => Some (at_pc (with_wake s true) (after last))
  | LRestore last flags => Some (at_pc (with_mask s (Z.lor (tm_mask s) flags)) (after last))
  end.

Inductive timer_label :=
  | TTrigger (flags : Z)          (* [mudmux_trigger_timer]: [fetch_or] *)
  | TSet                          (* its [async_event_set] *)
  | TLoop (c : loop_choice)
  | TWorker (i : nat).            (* worker [i]: callback and completion over, or wake-up *)

Definition timer_step (strict hook : bool) (s : timer_sys) (l : timer_label) : option timer_sys :=
  match l with
  | TTrigger flags =>
      if timer_flags_ok flags && (0 <=? flags)%Z then
        Some {| tm_mask := Z.lor (tm_mask s) flags; tm_signaled := tm_signaled s;
                tm_pending := tm_pending s; tm_wake := tm_wake s; tm_events := tm_events s;
                tm_loop := tm_loop s; tm_producers := S (tm_producers s);
                tm_workers := tm_workers s; tm_owed := Z.lor (tm_owed s) flags;
                tm_delivered := tm_delivered s |}
      else Some s
  | TSet =>
      match tm_producers s with
      | 0 => None
      | S n =>
          Some {| tm_mask := tm_mask s; tm_signaled := true; tm_pending := tm_pending s;
                  tm_wake := tm_wake s; tm_events := tm_events s; tm_loop := tm_loop s;
                  tm_producers := n; tm_workers := tm_workers s; tm_owed := tm_owed s;
                  tm_delivered := tm_delivered s |}
      end
  | TLoop c => loop_step strict hook s c
  | TWorker i =>
      match tm_workers s !! i with
      | None => None
      | Some THold =>
          Some (with_events s (release_section (tm_events s) timer_reg) (<[i := TWake]> (tm_workers s)))
      | Some TWake => Some (with_events (with_wake s true) (tm_events s) (delete i (tm_workers s)))
      end
  end.

(** Reachable states while the timer hook is registered and the workers accept
    submissions. *)
Inductive timer_reachable (strict : bool) : timer_sys → Prop :=
  | timer_reach_init : timer_reachable strict timer_init
  | timer_reach_step s l s' :
      timer_reachable strict s → l ≠ TLoop LoopFails → timer_step strict true s l = Some s' →
      timer_reachable strict s'.

(** ** Invariant *)

Definition in_hand (pc : loop_pc) : Z :=
  match pc with LDispatch _ f | LRestore _ f => f | _ => 0 end.

Definition is_hold (w : timer_worker) : nat := match w with THold => 1 | TWake => 0 end.

(** Executions of the timer hook that hold its registration. *)
Definition holders (s : timer_sys) : nat :=
  sum_list_with is_hold (tm_workers s) + match tm_loop s with LInline _ => 1 | _ => 0 end.

Definition holder_count (s : timer_sys) (k : nat) : nat := if decide (k = 0) then holders s else 0.

(** The notification has been taken and is being turned into a dispatch. *)
Definition dispatching (pc : loop_pc) : bool :=
  match pc with LReset _ | LTake _ | LDispatch _ _ => true | _ => false end.

(** The mask is about to be consumed. *)
Definition consuming (pc : loop_pc) : bool :=
  match pc with LReset _ | LTake _ => true | _ => false end.

Definition positive_int (z : Z) : Prop := (0 < z ≤ INT_MAX)%Z.

(** Somebody will make the loop's wait return. *)
Definition wakes (s : timer_sys) : Prop := tm_workers s ≠ [] ∨ tm_wake s = true.

Record timer_inv (s : timer_sys) : Prop := {
  ti_flight : flight_inv (tm_events s) (holder_count s) ∧ pending_events (tm_events s) = [];
  ti_range : (0 ≤ tm_mask s ≤ INT_MAX)%Z ∧ (0 ≤ in_hand (tm_loop s) ≤ INT_MAX)%Z
    ∧ (∀ b f, tm_loop s = LDispatch b f → f ≠ 0%Z);
  ti_kept : ∀ i, Z.testbit (tm_owed s) i = true →
    Z.testbit (Z.lor (tm_mask s) (in_hand (tm_loop s))) i = true;
  ti_idle : dispatching (tm_loop s) = true → holders s = 0 ∧ tm_pending s = false;
  ti_inline : (∃ b, tm_loop s = LInline b ∨ tm_loop s = LInlineWake b) → tm_pending s = false;
  ti_restore : ∀ b f, tm_loop s ≠ LRestore b f;
  ti_signal : consuming (tm_loop s) = false → tm_mask s ≠ 0%Z →
    tm_signaled s = true ∨ tm_producers s ≠ 0 ∨ tm_pending s = true;
  ti_retry : tm_loop s = LWaiting → tm_pending s = true → wakes s;
  ti_delivered : Forall positive_int (tm_delivered s)
}.

(** ** Bits *)

Lemma lor_range a b : (0 ≤ a ≤ INT_MAX → 0 ≤ b ≤ INT_MAX → 0 ≤ Z.lor a b ≤ INT_MAX)%Z.
Proof.
  unfold INT_MAX. intros Ha Hb.
  assert (H : ∀ z, (0 ≤ z)%Z → (z < 2 ^ 31 ↔ Z.log2 z < 31 ∨ z = 0)%Z).
  { intros z Hz. split; intros Hl.
    - destruct (decide (z = 0)%Z); [by right|left]. apply Z.log2_lt_pow2; lia.
    - destruct Hl as [Hl| ->]; [|lia]. destruct (decide (z = 0)%Z) as [->|]; [lia|].
      apply Z.log2_lt_pow2; lia. }
  assert (L : (0 ≤ Z.lor a b)%Z) by (apply Z.lor_nonneg; lia). split; [done|].
  enough (Z.lor a b < 2 ^ 31)%Z by lia. apply H; [done|]. left.
  rewrite Z.log2_lor by lia. apply Z.max_lub_lt.
  - destruct (proj1 (H a ltac:(lia))) as [?| ->]; [lia|done|done].
  - destruct (proj1 (H b ltac:(lia))) as [?| ->]; [lia|done|done].
Qed.

Lemma lor_nonzero a b : (a ≠ 0 ∨ b ≠ 0 → Z.lor a b ≠ 0)%Z.
Proof. intros Hn [-> ->]%Z.lor_eq_0_iff. by destruct Hn. Qed.

(** ** Preservation *)

Lemma busy_holders s : timer_inv s →
  mudmux_execution_event_busy (tm_events s) timer_reg = true ↔ holders s ≠ 0.
Proof.
  intros [[[C P] E] _ _ _ _ _ _ _ _]. cbn [mudmux_execution_event_busy timer_reg].
  specialize (C 0). specialize (P 0). rewrite E in C. unfold holder_count in C.
  rewrite decide_True in C by done. change (pend 0 []) with 0 in C.
  rewrite Nat.add_0_r in C. rewrite bool_decide_eq_true, <- C.
  destruct (event_in_flight (tm_events s) !! 0) as [n|]; cbn; split; try done.
  - intros _ Hn. unfold id in Hn. by subst.
Qed.

(** A step that leaves the admissions and their holders alone. *)
Lemma flight_same s s' :
  flight_inv (tm_events s) (holder_count s) ∧ pending_events (tm_events s) = [] →
  tm_events s' = tm_events s → holders s' = holders s →
  flight_inv (tm_events s') (holder_count s') ∧ pending_events (tm_events s') = [].
Proof.
  intros [F E] -> Hh. split; [|done]. eapply flight_ext; [exact F|].
  intros k. unfold holder_count. by rewrite Hh.
Qed.

Lemma flight_released s s' :
  flight_inv (tm_events s) (holder_count s) ∧ pending_events (tm_events s) = [] →
  tm_events s' = release_section (tm_events s) timer_reg → holders s = S (holders s') →
  flight_inv (tm_events s') (holder_count s') ∧ pending_events (tm_events s') = [].
Proof.
  intros [F E] -> Hh. split; [|done]. eapply flight_release; [exact F|].
  intros k. unfold holder_count, one, timer_reg. rewrite Hh.
  destruct (decide (k = 0)) as [->|Hn]; [rewrite decide_True by done|rewrite decide_False by done]; lia.
Qed.

Lemma timer_trigger_inv strict hook s f s' :
  timer_inv s → timer_step strict hook s (TTrigger f) = Some s' → timer_inv s'.
Proof.
  intros [F R K I L X S W D] E. cbn [timer_step] in E.
  destruct (timer_flags_ok f && (0 <=? f)%Z) eqn:Hf; [|injection E as <-; by constructor].
  apply andb_true_iff in Hf as [Hf Hp]. unfold timer_flags_ok in Hf. breflect.
  injection E as <-. constructor; cbn [tm_mask tm_signaled tm_pending tm_wake tm_events tm_loop
    tm_producers tm_workers tm_owed tm_delivered]; try done.
  - destruct R as [R1 R2]. split; [apply lor_range; lia|done].
  - intros i. rewrite !Z.lor_spec. intros [Hb|Hb]%orb_true_iff.
    + apply K in Hb. rewrite Z.lor_spec in Hb. destruct (Z.testbit (tm_mask s) i); [done|].
      cbn [orb] in Hb. rewrite Hb. apply orb_true_r.
    + rewrite Hb. by rewrite orb_true_r.
  - intros _ _. right. left. done.
Qed.

Lemma timer_set_inv strict hook s s' :
  timer_inv s → timer_step strict hook s TSet = Some s' → timer_inv s'.
Proof.
  intros [F R K I L X S W D] E. cbn [timer_step] in E. destruct (tm_producers s) as [|n]; [done|].
  injection E as <-. constructor; cbn [tm_mask tm_signaled tm_pending tm_wake tm_events tm_loop
    tm_producers tm_workers tm_owed tm_delivered]; try done. by left.
Qed.

Lemma timer_worker_inv strict hook s i s' :
  timer_inv s → timer_step strict hook s (TWorker i) = Some s' → timer_inv s'.
Proof.
  intros [F R K I L X S W D] E. cbn [timer_step] in E.
  destruct (tm_workers s !! i) as [[]|] eqn:Hi; [..|done]; injection E as <-.
  - assert (Hh : holders s = Datatypes.S (holders (with_events s
        (release_section (tm_events s) timer_reg) (<[i:=TWake]> (tm_workers s))))).
    { unfold holders. cbn [with_events tm_workers tm_loop].
      rewrite <- (take_drop_middle _ _ _ Hi) at 1. rewrite insert_take_drop by (by eapply lookup_lt_Some).
      rewrite !sum_list_with_app. cbn. lia. }
    constructor; cbn [with_events tm_mask tm_signaled tm_pending tm_wake tm_events tm_loop
      tm_producers tm_workers tm_owed tm_delivered]; try done.
    + refine (flight_released s (with_events s _ _) F eq_refl Hh).
    + intros Hd. destruct (I Hd) as [Hz ?]. rewrite Hz in Hh. done.
    + intros Hw Hp. left. cbn. intros Hn. apply (f_equal length) in Hn. rewrite length_insert in Hn.
      apply lookup_lt_Some in Hi. cbn in Hn. lia.
  - constructor; cbn [with_events with_wake tm_mask tm_signaled tm_pending tm_wake tm_events tm_loop
      tm_producers tm_workers tm_owed tm_delivered]; try done.
    + refine (flight_same s (with_events (with_wake s true) (tm_events s) (delete i (tm_workers s))) F eq_refl _).
      unfold holders. cbn [with_events with_wake tm_workers tm_loop].
      rewrite <- (take_drop_middle _ _ _ Hi) at 2. rewrite delete_take_drop, !sum_list_with_app. cbn. lia.
    + intros Hd. destruct (I Hd) as [Hz ?]. split; [|done]. unfold holders in *.
      cbn [with_events with_wake tm_workers tm_loop].
      rewrite <- (take_drop_middle _ _ _ Hi) in Hz. rewrite delete_take_drop.
      rewrite !sum_list_with_app in *. cbn in Hz. lia.
    + by right.
Qed.

Ltac timer_fields :=
  cbn [at_pc with_mask with_signal with_wake with_events deliver tm_mask tm_signaled tm_pending
       tm_wake tm_events tm_loop tm_producers tm_workers tm_owed tm_delivered in_hand dispatching
       consuming after] in *.

(** A step of the loop that changes neither the admissions nor their holders. *)
Lemma holders_pc s s' :
  tm_workers s' = tm_workers s →
  (∀ b, tm_loop s ≠ LInline b) → (∀ b, tm_loop s' ≠ LInline b) → holders s' = holders s.
Proof.
  intros Hw H1 H2. unfold holders. rewrite Hw.
  assert (G : ∀ pc, (∀ b, pc ≠ LInline b) → match pc with LInline _ => 1 | _ => 0 end = 0)
    by (intros [| | | | | |b| |] Hp; try done; by destruct (Hp b)).
  by rewrite !G.
Qed.

Lemma after_plain last : (∀ b, after last ≠ LInline b) ∧ in_hand (after last) = 0%Z
  ∧ dispatching (after last) = false ∧ consuming (after last) = false
  ∧ (∀ b f, after last ≠ LRestore b f) ∧ (∀ b f, after last ≠ LDispatch b f)
  ∧ (∀ b, after last ≠ LInlineWake b).
Proof. by destruct last. Qed.

(** The end of a call of [dispatch_registered_event]: the loop waits only when
    nothing is retained or somebody will wake it. *)
Lemma at_after s last :
  timer_inv s → (∀ b, tm_loop s ≠ LInline b) →
  (∀ i, Z.testbit (tm_owed s) i = true → Z.testbit (tm_mask s) i = true) →
  (tm_mask s ≠ 0%Z → tm_signaled s = true ∨ tm_producers s ≠ 0 ∨ tm_pending s = true) →
  (tm_pending s = true → wakes s) → timer_inv (at_pc s (after last)).
Proof.
  intros [F R K I L X S W D] Hi Hk Hs Hw.
  destruct (after_plain last) as (A1 & A2 & A3 & A4 & A5 & A6 & A7).
  assert (Hh : holders (at_pc s (after last)) = holders s) by (by apply holders_pc).
  constructor; timer_fields; rewrite ?A2, ?A3, ?A4, ?Z.lor_0_r; try done.
  - exact (flight_same s (at_pc s _) F eq_refl Hh).
  - destruct R as [R _]. split; [done|]. split; [unfold INT_MAX; lia|]. intros b f E. by apply A6 in E.
  - intros (b & [E|E]); [by apply A1 in E|by apply A7 in E].
Qed.

Lemma loop_wait_inv s event wake :
  timer_inv s → tm_loop s = LWaiting → (event = true → tm_signaled s = true) →
  timer_inv (at_pc (with_wake s (tm_wake s && negb wake)) (if event then LReported else LCheck true)).
Proof.
  intros [F R K I L X S W D] E He. destruct R as (R1 & R2 & R3).
  assert (Hh : holders (at_pc (with_wake s (tm_wake s && negb wake))
    (if event then LReported else LCheck true)) = holders s).
  { apply holders_pc; [done|by rewrite E|by destruct event]. }
  rewrite E in *. timer_fields. rewrite Z.lor_0_r in K.
  constructor; timer_fields; destruct event; timer_fields; rewrite ?Z.lor_0_r; try done;
    try (exact (flight_same s (at_pc (with_wake s _) _) F eq_refl Hh));
    try (intros (b & [Eb|Eb]); done); try by apply S.
Qed.

Lemma loop_reported_inv s :
  timer_inv s → tm_loop s = LReported → timer_inv (at_pc (with_signal s false true) (LCheck false)).
Proof.
  intros [F R K I L X S W D] E. destruct R as (R1 & R2 & R3).
  assert (Hh : holders (at_pc (with_signal s false true) (LCheck false)) = holders s)
    by (apply holders_pc; [done|by rewrite E|done]).
  rewrite E in *. timer_fields.
  constructor; timer_fields; try done.
  - exact (flight_same s (at_pc (with_signal s _ _) _) F eq_refl Hh).
  - intros (b & [Eb|Eb]); done.
  - intros _ _. by do 2 right.
Qed.

Lemma loop_check_inv s last s' c strict :
  timer_inv s → tm_loop s = LCheck last → loop_step strict true s c = Some s' → timer_inv s'.
Proof.
  intros HI E Es. unfold loop_step in Es. rewrite E in Es. cbn [negb] in Es.
  pose proof (busy_holders s HI) as B.
  destruct (negb (tm_pending s) || mudmux_execution_event_busy (tm_events s) timer_reg) eqn:G;
    injection Es as <-.
  - pose proof HI as [F R K I L X S W D]. apply at_after; [done|by rewrite E|..].
    + intros i Hi. apply K in Hi. rewrite E in Hi. cbn [in_hand] in Hi. by rewrite Z.lor_0_r in Hi.
    + apply S. by rewrite E.
    + intros Hp. rewrite Hp in G. cbn in G. left. intros Hn. apply B in G. unfold holders in G.
      by rewrite Hn, E in G.
  - apply orb_false_iff in G as [Gp Gb]. destruct HI as [F R K I L X S W D].
    assert (Hz : holders s = 0) by (destruct (holders s); [done|by rewrite (proj2 B) in Gb]).
    destruct R as (R1 & R2 & R3).
    assert (Hh : holders (at_pc (with_signal s (tm_signaled s) false) (LReset last)) = holders s)
      by (apply holders_pc; [done|by rewrite E|done]).
    rewrite E in *. timer_fields. constructor; timer_fields; try done.
    + exact (flight_same s (at_pc (with_signal s _ _) _) F eq_refl Hh).
    + intros _. split; [congruence|done].
Qed.

Lemma loop_take_inv s last :
  timer_inv s → tm_loop s = LTake last →
  timer_inv (at_pc (with_mask s 0) (if (tm_mask s =? 0)%Z then after last else LDispatch last (tm_mask s))).
Proof.
  intros HI E. pose proof HI as [F R K I L X S W D]. rewrite E in I. destruct (I eq_refl) as [Hz Hp].
  destruct (tm_mask s =? 0)%Z eqn:M; breflect.
  - replace (with_mask s 0) with s by (destruct s; cbn in *; by subst).
    apply at_after; [done|by rewrite E|..].
    + intros i Hi. apply K in Hi. rewrite E in Hi. cbn [in_hand] in Hi. by rewrite Z.lor_0_r in Hi.
    + done.
    + by rewrite Hp.
  - destruct R as (R1 & R2 & R3).
    assert (Hh : holders (at_pc (with_mask s 0) (LDispatch last (tm_mask s))) = holders s)
      by (apply holders_pc; [done|by rewrite E|done]).
    rewrite E in *. timer_fields. rewrite Z.lor_0_r in K. constructor; timer_fields; try done.
    + exact (flight_same s (at_pc (with_mask s _) _) F eq_refl Hh).
    + split; [unfold INT_MAX; lia|]. split; [done|]. by intros b f [= <- <-].
    + intros _. split; [congruence|done].
Qed.

Lemma loop_dispatch_inv s last flags s' c strict :
  timer_inv s → tm_loop s = LDispatch last flags → c ≠ LoopFails →
  loop_step strict true s c = Some s' → timer_inv s'.
Proof.
  intros HI E Hc Es. pose proof (busy_holders s HI) as B. pose proof HI as [F R K I L X S W D].
  rewrite E in I. destruct (I eq_refl) as [Hz Hp].
  assert (Hb : mudmux_execution_event_busy (tm_events s) timer_reg = false)
    by (destruct (mudmux_execution_event_busy _ _); [by apply B in Hz|done]).
  destruct (admit_section true (tm_events s) timer_reg true) as [e|] eqn:A;
    [|unfold admit_section in A; by rewrite Hb in A].
  assert (s' = if strict then at_pc (deliver (with_events s e (tm_workers s)) flags) (LInline last)
               else at_pc (deliver (with_events s e (tm_workers s ++ [THold])) flags) (after last))
    as -> by (unfold loop_step in Es; rewrite E, A in Es; destruct c, strict; by simplify_eq).
  clear Es. destruct R as (R1 & R2 & R3). destruct F as [F Fp].
  pose proof (flight_admit _ _ _ _ _ _ A F) as F2. destruct (admit_same _ _ _ _ _ A) as [_ Ep].
  set (s' := if strict then _ else _).
  assert (Hh : holders s' = 1).
  { unfold holders in Hz. rewrite E in Hz. unfold holders, s'.
    destruct strict; timer_fields; [lia|]. rewrite sum_list_with_app. cbn. destruct last; cbn; lia. }
  assert (F' : flight_inv e (holder_count s') ∧ pending_events e = []).
  { rewrite Ep. split; [|done]. eapply flight_ext; [exact F2|]. intros k. cbn beta.
    unfold holder_count. rewrite Hz, Hh. unfold one, timer_reg.
    destruct (decide (k = 0)) as [->|Hn]; [by rewrite decide_True|by rewrite decide_False]. }
  assert (K' : ∀ i, Z.testbit (Z.ldiff (tm_owed s) flags) i = true → Z.testbit (tm_mask s) i = true).
  { intros i. rewrite Z.ldiff_spec. intros [Hi Hf]%andb_true_iff. apply negb_true_iff in Hf.
    apply K in Hi. rewrite E in Hi. cbn [in_hand] in Hi. by rewrite Z.lor_spec, Hf, orb_false_r in Hi. }
  assert (D' : Forall positive_int (tm_delivered s ++ [flags])).
  { apply Forall_app. split; [done|]. apply Forall_singleton. rewrite E in R2, R3. cbn [in_hand] in R2.
    specialize (R3 last flags eq_refl). split; lia. }
  assert (S' : tm_mask s ≠ 0%Z → tm_signaled s = true ∨ tm_producers s ≠ 0 ∨ tm_pending s = true)
    by (apply S; by rewrite E).
  destruct (after_plain last) as (A1 & A2 & A3 & A4 & A5 & A6 & A7).
  unfold s' in *. destruct strict; constructor; timer_fields; rewrite ?A2, ?A3, ?A4, ?Z.lor_0_r; try done;
    try (split; [done|]; split; [unfold INT_MAX; lia|]; intros b f Ef; by apply A6 in Ef).
  rewrite Hp. done.
Qed.

Lemma loop_inline_inv s last :
  timer_inv s → tm_loop s = LInline last →
  timer_inv (at_pc (with_events s (release_section (tm_events s) timer_reg) (tm_workers s)) (LInlineWake last)).
Proof.
  intros [F R K I L X S W D] E. destruct R as (R1 & R2 & R3).
  assert (Hh : holders s = Datatypes.S (holders (at_pc (with_events s
    (release_section (tm_events s) timer_reg) (tm_workers s)) (LInlineWake last))))
    by (unfold holders; rewrite E; timer_fields; lia).
  assert (Hp : tm_pending s = false) by (apply L; exists last; by left).
  rewrite E in *. timer_fields. constructor; timer_fields; try done.
  exact (flight_released s (at_pc (with_events s _ _) _) F eq_refl Hh).
Qed.

Lemma loop_step_inv strict s c s' :
  timer_inv s → c ≠ LoopFails → loop_step strict true s c = Some s' → timer_inv s'.
Proof.
  intros HI Hc Es. destruct (tm_loop s) as [| |b|b|b|b f|b|b|b f] eqn:E; [..|by destruct (ti_restore _ HI b f)].
  - unfold loop_step in Es. rewrite E in Es. destruct c as [|event wake|]; [done| |done].
    destruct (event && negb (tm_signaled s)) eqn:G; [done|]. injection Es as <-.
    apply loop_wait_inv; [done..|]. intros ->. cbn in G. by apply negb_false_iff in G.
  - unfold loop_step in Es. rewrite E in Es. injection Es as <-. by apply loop_reported_inv.
  - by eapply loop_check_inv.
  - unfold loop_step in Es. rewrite E in Es. injection Es as <-.
    destruct HI as [F R K I L X S W D]. destruct R as (R1 & R2 & R3).
    assert (Hh : holders (at_pc (with_signal s false (tm_pending s)) (LTake b)) = holders s)
      by (apply holders_pc; [done|by rewrite E|done]).
    rewrite E in *. timer_fields. constructor; timer_fields; try done.
    + exact (flight_same s (at_pc (with_signal s _ _) _) F eq_refl Hh).
    + intros H. destruct (I H). split; [congruence|done].
    + by intros (b0 & [?|?]).
  - unfold loop_step in Es. rewrite E in Es. injection Es as <-. by apply loop_take_inv.
  - by eapply loop_dispatch_inv.
  - unfold loop_step in Es. rewrite E in Es. injection Es as <-. by apply loop_inline_inv.
  - unfold loop_step in Es. rewrite E in Es. injection Es as <-.
    assert (Hp : tm_pending s = false) by (apply (ti_inline _ HI); exists b; by right).
    assert (HI2 : timer_inv (with_wake s true)).
    { destruct HI as [F R K I L X S W D]. constructor; timer_fields; try done. by right. }
    destruct HI as [F R K I L X S W D]. apply at_after; timer_fields; [done|by rewrite E|..].
    + intros i Hi. apply K in Hi. rewrite E in Hi. cbn [in_hand] in Hi. by rewrite Z.lor_0_r in Hi.
    + apply S. by rewrite E.
    + by rewrite Hp.
Qed.

Lemma timer_reachable_inv strict s : timer_reachable strict s → timer_inv s.
Proof.
  induction 1 as [|s l s' _ IH Hl E].
  - constructor; try done.
    split; [|done]. constructor; intros k; change (event_in_flight (tm_events timer_init)) with (∅ : gmap nat nat);
      rewrite lookup_empty; [|done]. unfold holder_count. by destruct (decide (k = 0)).
  - destruct l; [by eapply timer_trigger_inv|by eapply timer_set_inv| |by eapply timer_worker_inv].
    eapply loop_step_inv; [done| |exact E]. congruence.
Qed.

(** ** Theorems *)

(** C23: no timer flag is lost while the timer hook is registered and no dispatch
    fails.  Whatever producers, the loop and the workers do between atomic steps,
    every bit that was triggered and has not been handed to the timer hook since
    is in the pending mask, or in the batch the loop is dispatching. *)
Theorem timer_flags_kept strict s i :
  timer_reachable strict s → Z.testbit (tm_owed s) i = true →
  Z.testbit (tm_mask s) i = true ∨ Z.testbit (in_hand (tm_loop s)) i = true.
Proof.
  intros Hr%timer_reachable_inv Hi. apply (ti_kept _ Hr) in Hi.
  rewrite Z.lor_spec in Hi. by apply orb_true_iff.
Qed.

(** C24: no wake-up is lost while the timer hook is registered and no dispatch
    fails (the two theorems at the end of this file show what happens
    otherwise).  When the loop sleeps with no signal, no wake-up, no
    producer about to signal and no execution about to end, every flag that was
    ever triggered has been delivered and no notification is retained: the
    loop never sleeps on undelivered work. *)
Theorem timer_no_lost_wakeup strict s :
  timer_reachable strict s → tm_loop s = LWaiting →
  tm_signaled s = false → tm_wake s = false → tm_producers s = 0 → tm_workers s = [] →
  tm_owed s = 0%Z ∧ tm_pending s = false.
Proof.
  intros [F R K I L X S W D]%timer_reachable_inv E Es Ew Ep Eworkers.
  assert (P : tm_pending s = false).
  { destruct (tm_pending s); [|done]. destruct (W E eq_refl) as [?|?]; congruence. }
  split; [|done]. rewrite E in *. cbn [in_hand consuming] in *.
  assert (M : tm_mask s = 0%Z).
  { destruct (decide (tm_mask s = 0%Z)) as [|Hm]; [done|].
    destruct (S eq_refl Hm) as [?|[?|?]]; congruence. }
  apply Z.bits_inj'. intros i _. rewrite Z.bits_0. destruct (Z.testbit (tm_owed s) i) eqn:Hi; [|done].
  apply K in Hi. by rewrite M, Z.lor_0_r, Z.bits_0 in Hi.
Qed.

(** Every message the running timer hook gets from a trigger is a positive
    [int], so it is never taken for the start (0) or stop (-1) notification, and
    a dispatch the loop attempts is never refused as busy: the branch that
    restores a rejected batch is dead as long as the loop alone dispatches. *)
Theorem timer_messages_positive strict s :
  timer_reachable strict s →
  Forall positive_int (tm_delivered s) ∧ ∀ b f, tm_loop s ≠ LRestore b f.
Proof. intros H%timer_reachable_inv. split; apply H. Qed.

(** ** Witnesses *)

Fixpoint timer_run (strict hook : bool) (s : timer_sys) (ls : list timer_label) : option timer_sys :=
  match ls with
  | [] => Some s
  | l :: rest => match timer_step strict hook s l with Some s' => timer_run strict hook s' rest | None => None end
  end.

Definition no_fail (l : timer_label) : bool := match l with TLoop LoopFails => false | _ => true end.

Lemma timer_run_reachable strict s ls s' :
  timer_reachable strict s → forallb no_fail ls = true → timer_run strict true s ls = Some s' →
  timer_reachable strict s'.
Proof.
  revert s. induction ls as [|l ls IH]; intros s Hr; cbn [forallb timer_run]; [by intros _ [= <-]|].
  intros [Hl Hls]%andb_true_iff. destruct (timer_step strict true s l) as [s1|] eqn:E; [|done].
  apply IH; [|done]. eapply timer_reach_step; [done| |done]. by intros ->.
Qed.

(** A trigger, a dispatch to a worker, and a second trigger while it runs. *)
Definition timer_demo : list timer_label :=
  [TTrigger 5; TSet; TLoop (LoopSees true false); TLoop LoopStep; TLoop LoopStep; TLoop LoopStep;
   TLoop LoopStep; TLoop LoopStep; TTrigger 2; TSet; TLoop LoopStep; TLoop (LoopSees true false);
   TLoop LoopStep; TLoop LoopStep; TLoop LoopStep].

(** The worker finishes and wakes the loop, which retries. *)
Definition timer_demo_end : list timer_label :=
  timer_demo ++ [TWorker 0; TWorker 0; TLoop (LoopSees false true); TLoop LoopStep; TLoop LoopStep;
    TLoop LoopStep; TLoop LoopStep; TWorker 0; TWorker 0; TLoop (LoopSees false true); TLoop LoopStep].

Definition timer_demo_state : timer_sys := default timer_init (timer_run false true timer_init timer_demo).
Definition timer_end_state : timer_sys := default timer_init (timer_run false true timer_init timer_demo_end).

Lemma timer_flags_kept_witness :
  Z.testbit (tm_mask timer_demo_state) 1 = true ∨ Z.testbit (in_hand (tm_loop timer_demo_state)) 1 = true.
Proof.
  apply (timer_flags_kept false); [|vm_compute; reflexivity].
  apply (timer_run_reachable false timer_init timer_demo); [apply timer_reach_init|vm_compute; reflexivity..].
Defined.

Lemma timer_no_lost_wakeup_witness :
  tm_delivered timer_end_state = [5; 2]%Z ∧ tm_owed timer_end_state = 0%Z.
Proof.
  split; [vm_compute; reflexivity|].
  refine (proj1 (timer_no_lost_wakeup false timer_end_state _ _ _ _ _ _)); try (vm_compute; reflexivity).
  apply (timer_run_reachable false timer_init timer_demo_end); [apply timer_reach_init|vm_compute; reflexivity..].
Defined.

Lemma timer_messages_positive_witness : Forall positive_int (tm_delivered timer_end_state).
Proof.
  refine (proj1 (timer_messages_positive false timer_end_state _)).
  apply (timer_run_reachable false timer_init timer_demo_end); [apply timer_reach_init|vm_compute; reflexivity..].
Defined.

(** When the pool refuses the dispatch of a timer batch, its flags are gone:
    they are neither delivered nor pending. *)
Theorem refused_timer_batch_lost :
  ∃ s, timer_run false true timer_init
         [TTrigger 5; TSet; TLoop (LoopSees true false); TLoop LoopStep; TLoop LoopStep;
          TLoop LoopStep; TLoop LoopStep; TLoop LoopFails; TLoop LoopStep] = Some s
       ∧ tm_loop s = LWaiting ∧ tm_owed s = 5%Z ∧ tm_mask s = 0%Z ∧ tm_delivered s = []
       ∧ tm_pending s = false ∧ tm_signaled s = false.
Proof. eexists. split; [vm_compute; reflexivity|]. by vm_compute. Qed.

(** Without a timer hook the loop drops the notification and keeps the flags: it
    sleeps with them pending and nothing to wake it. *)
Theorem unhooked_timer_flags_wait :
  ∃ s, timer_run false false timer_init
         [TTrigger 5; TSet; TLoop (LoopSees true false); TLoop LoopStep; TLoop LoopStep; TLoop LoopStep] = Some s
       ∧ tm_loop s = LWaiting ∧ tm_owed s = 5%Z ∧ tm_mask s = 5%Z ∧ tm_pending s = false
       ∧ tm_signaled s = false ∧ tm_wake s = false ∧ tm_producers s = 0 ∧ tm_workers s = [].
Proof. eexists. split; [vm_compute; reflexivity|]. by vm_compute. Qed.
