(* ===== verification/PollRuntime.v ===== *)
(** * The poll() runtime (lib/async/async_runtime_poll.cpp)

    The table of registered descriptors with its growth, lookup and removal by
    moving the last entry, and the conversion of [poll]'s answer into I/O
    events.  [FdMap] is what the table promises: a map from descriptors to their
    registration.  Storing outside an array is the result [None]. *)

From stdpp Require Import gmap.
From S2P Require Import Prelude.

(** ** Events (lib/async/async_runtime.h) *)

Definition EVENT_READ : Z := 1.
Definition EVENT_WRITE : Z := 2.
Definition EVENT_ERROR : Z := 4.
Definition EVENT_CLOSE : Z := 8.
Definition ASYNC_IO_ERROR_KEY : Z := 0xC0000001.
Definition has_event (events e : Z) : bool := negb (Z.land events e =? 0)%Z.

(** The bits of [struct pollfd] the code uses. *)
Record poll_bits := { POLLIN : bool; POLLOUT : bool; POLLERR : bool; POLLHUP : bool; POLLNVAL : bool }.

Definition no_bits : poll_bits :=
  {| POLLIN := false; POLLOUT := false; POLLERR := false; POLLHUP := false; POLLNVAL := false |}.

Definition events_to_poll (events : Z) : poll_bits :=
  {| POLLIN := has_event events EVENT_READ; POLLOUT := has_event events EVENT_WRITE;
     POLLERR := false; POLLHUP := false; POLLNVAL := false |}.

Definition poll_to_events (revents : poll_bits) : Z :=
  Z.lor (Z.lor (Z.lor (if POLLIN revents then EVENT_READ else 0)
                      (if POLLOUT revents then EVENT_WRITE else 0))
               (if POLLERR revents then EVENT_ERROR else 0))
        (if POLLHUP revents || POLLNVAL revents then EVENT_CLOSE else 0).

(** ** The table *)

Record pollfd := { pf_fd : Z; pf_events : poll_bits }.
Record fd_mapping := { fm_fd : Z; fm_context : nat; fm_events : Z; fm_event : option nat }.

Definition no_pollfd : pollfd := {| pf_fd := -1; pf_events := no_bits |}.
Definition no_mapping : fd_mapping := {| fm_fd := -1; fm_context := 0; fm_events := 0; fm_event := None |}.

Record poll_runtime := {
  pollfds : list pollfd;
  mappings : list fd_mapping;
  capacity : nat;
  pcount : nat
}.

Definition INITIAL_CAPACITY : nat := 64.
Definition MAX_FD_COUNT : nat := 4096.

(** [async_runtime_init]: the notification pipe takes the first entry. *)
Definition async_runtime_init (notify_fd : Z) : poll_runtime :=
  {| pollfds := <[0 := {| pf_fd := notify_fd; pf_events := events_to_poll EVENT_READ |}]>
                  (replicate INITIAL_CAPACITY no_pollfd);
     mappings := <[0 := {| fm_fd := notify_fd; fm_context := 0; fm_events := EVENT_READ; fm_event := None |}]>
                   (replicate INITIAL_CAPACITY no_mapping);
     capacity := INITIAL_CAPACITY; pcount := 1 |}.

(** [find_fd_index]: the loop over [pollfds[i .. count)]. *)
Fixpoint find_from (l : list pollfd) (i n : nat) (fd : Z) : option nat :=
  match n, l with
  | S k, p :: rest => if (pf_fd p =? fd)%Z then Some i else find_from rest (S i) k fd
  | _, _ => None
  end.

Definition find_fd_index (r : poll_runtime) (fd : Z) : option nat :=
  find_from (pollfds r) 0 (pcount r) fd.

(** [realloc] of an array to [n] entries whose new ones are then initialised. *)
Definition grow_array {A} (n : nat) (d : A) (l : list A) : list A := take n l ++ replicate (n - length l) d.

(** [expand_capacity]; the booleans are the answers of the two [realloc] calls.
    The result is the new runtime and whether the call succeeded. *)
Definition expand_capacity (ok1 ok2 : bool) (r : poll_runtime) : poll_runtime * bool :=
  let new_capacity := Nat.min (capacity r * 2) MAX_FD_COUNT in
  if negb ok1 then (r, false)
  else
    let fds := grow_array new_capacity no_pollfd (pollfds r) in
    if negb ok2
    then ({| pollfds := fds; mappings := mappings r; capacity := capacity r; pcount := pcount r |}, false)
    else ({| pollfds := fds; mappings := grow_array new_capacity no_mapping (mappings r);
             capacity := new_capacity; pcount := pcount r |}, true).

(** [a[i] = x] in memory; [None] outside the array. *)
Definition store {A} (l : list A) (i : nat) (x : A) : option (list A) :=
  if i <? length l then Some (<[i := x]> l) else None.

(** The calls below return the runtime and 0 or -1. *)
Definition async_runtime_add (ok1 ok2 : bool) (r : poll_runtime) (fd events : Z) (context : nat)
    : option (poll_runtime * Z) :=
  if (fd <? 0)%Z then Some (r, -1)%Z
  else match find_fd_index r fd with
  | Some _ => Some (r, -1)%Z
  | None =>
      let '(r1, ok) := if capacity r <=? pcount r then expand_capacity ok1 ok2 r else (r, true) in
      if negb ok then Some (r1, -1)%Z
      else
        let idx := pcount r1 in
        fds ← store (pollfds r1) idx {| pf_fd := fd; pf_events := events_to_poll events |};
        maps ← store (mappings r1) idx
                 {| fm_fd := fd; fm_context := context; fm_events := events; fm_event := None |};
        Some ({| pollfds := fds; mappings := maps; capacity := capacity r1; pcount := S idx |}, 0%Z)
  end.

Definition async_runtime_modify (r : poll_runtime) (fd events : Z) (context : nat)
    : option (poll_runtime * Z) :=
  if (fd <? 0)%Z then Some (r, -1)%Z
  else match find_fd_index r fd with
  | None => Some (r, -1)%Z
  | Some idx =>
      m ← mappings r !! idx;
      fds ← store (pollfds r) idx {| pf_fd := fd; pf_events := events_to_poll events |};
      maps ← store (mappings r) idx
               {| fm_fd := fm_fd m; fm_context := if context =? 0 then fm_context m else context;
                  fm_events := events; fm_event := fm_event m |};
      Some ({| pollfds := fds; mappings := maps; capacity := capacity r; pcount := pcount r |}, 0%Z)
  end.

Definition async_runtime_remove (r : poll_runtime) (fd : Z) : option (poll_runtime * Z) :=
  if (fd <? 0)%Z then Some (r, -1)%Z
  else match find_fd_index r fd with
  | None => Some (r, -1)%Z
  | Some idx =>
      let last := pcount r - 1 in
      p ← pollfds r !! last; m ← mappings r !! last;
      fds ← (if idx <? last then store (pollfds r) idx p else Some (pollfds r));
      maps ← (if idx <? last then store (mappings r) idx m else Some (mappings r));
      fds' ← store fds last {| pf_fd := -1; pf_events := pf_events p |};
      maps' ← store maps last {| fm_fd := -1; fm_context := fm_context m; fm_events := fm_events m;
                                  fm_event := None |};
      Some ({| pollfds := fds'; mappings := maps'; capacity := capacity r; pcount := last |}, 0%Z)
  end.

(** [async_runtime_add_event]; [handle] is the event's descriptor. *)
Definition async_runtime_add_event (ok1 ok2 : bool) (r : poll_runtime) (event : nat) (handle : Z)
    (context : nat) : option (poll_runtime * Z) :=
  if (handle =? -1)%Z then Some (r, -1)%Z
  else
    x ← async_runtime_add ok1 ok2 r handle EVENT_READ context;
    if (x.2 <? 0)%Z then Some (x.1, -1)%Z
    else
      i ← find_fd_index x.1 handle;
      m ← mappings x.1 !! i;
      maps ← store (mappings x.1) i {| fm_fd := fm_fd m; fm_context := fm_context m;
                                       fm_events := fm_events m; fm_event := Some event |};
      Some ({| pollfds := pollfds x.1; mappings := maps; capacity := capacity x.1;
               pcount := pcount x.1 |}, 0%Z).

(** ** Specification: a map from descriptors to registrations *)

Record reg := { rg_events : Z; rg_context : nat; rg_event : option nat }.

Inductive poll_op :=
  | PAdd (fd events : Z) (context : nat)
  | PModify (fd events : Z) (context : nat)
  | PRemove (fd : Z)
  | PAddEvent (event : nat) (handle : Z) (context : nat).

Definition spec_add (m : gmap Z reg) (fd : Z) (x : reg) : gmap Z reg * Z :=
  if (fd <? 0)%Z then (m, -1)%Z
  else match m !! fd with Some _ => (m, -1)%Z | None => (<[fd := x]> m, 0%Z) end.

Definition spec_op (m : gmap Z reg) (op : poll_op) : gmap Z reg * Z :=
  match op with
  | PAdd fd events context => spec_add m fd {| rg_events := events; rg_context := context; rg_event := None |}
  | PModify fd events context =>
      if (fd <? 0)%Z then (m, -1)%Z
      else match m !! fd with
      | None => (m, -1)%Z
      | Some x => (<[fd := {| rg_events := events;
                               rg_context := if context =? 0 then rg_context x else context;
                               rg_event := rg_event x |}]> m, 0%Z)
      end
  | PRemove fd =>
      if (fd <? 0)%Z then (m, -1)%Z
      else match m !! fd with None => (m, -1)%Z | Some _ => (delete fd m, 0%Z) end
  | PAddEvent event handle context =>
      spec_add m handle {| rg_events := EVENT_READ; rg_context := context; rg_event := Some event |}
  end.

(** The call, with successful allocations. *)
Definition poll_call (r : poll_runtime) (op : poll_op) : option (poll_runtime * Z) :=
  match op with
  | PAdd fd events context => async_runtime_add true true r fd events context
  | PModify fd events context => async_runtime_modify r fd events context
  | PRemove fd => async_runtime_remove r fd
  | PAddEvent event handle context => async_runtime_add_event true true r event handle context
  end.

Fixpoint poll_calls (r : poll_runtime) (ops : list poll_op) : option (poll_runtime * list Z) :=
  match ops with
  | [] => Some (r, [])
  | op :: rest => x ← poll_call r op; y ← poll_calls x.1 rest; Some (y.1, x.2 :: y.2)
  end.

Fixpoint spec_ops (m : gmap Z reg) (ops : list poll_op) : gmap Z reg * list Z :=
  match ops with
  | [] => (m, [])
  | op :: rest =>
      let '(m1, x) := spec_op m op in let '(m2, xs) := spec_ops m1 rest in (m2, x :: xs)
  end.

(** Fewer than [MAX_FD_COUNT] descriptors are registered before each addition. *)
Fixpoint fits (m : gmap Z reg) (ops : list poll_op) : Prop :=
  match ops with
  | [] => True
  | op :: rest =>
      match op with PAdd _ _ _ | PAddEvent _ _ _ => size m < MAX_FD_COUNT | _ => True end
      ∧ fits (spec_op m op).1 rest
  end.

(** ** Invariant *)

Definition entries (r : poll_runtime) : list (pollfd * fd_mapping) :=
  take (pcount r) (zip (pollfds r) (mappings r)).

Definition entry_fd (e : pollfd * fd_mapping) : Z := pf_fd e.1.
Definition entry_reg (e : pollfd * fd_mapping) : reg :=
  {| rg_events := fm_events e.2; rg_context := fm_context e.2; rg_event := fm_event e.2 |}.
Definition entry_ok (e : pollfd * fd_mapping) : Prop :=
  fm_fd e.2 = pf_fd e.1 ∧ pf_events e.1 = events_to_poll (fm_events e.2).

Definition fd_map (es : list (pollfd * fd_mapping)) : gmap Z reg :=
  list_to_map (map (fun e => (entry_fd e, entry_reg e)) es).

Record table_ok (r : poll_runtime) : Prop := {
  tb_room : pcount r ≤ capacity r ∧ 0 < capacity r ≤ MAX_FD_COUNT;
  tb_fds : capacity r ≤ length (pollfds r);
  tb_maps : capacity r ≤ length (mappings r);
  tb_entries : Forall entry_ok (entries r);
  tb_nodup : NoDup (map entry_fd (entries r))
}.

(** ** Lemmas on the arrays *)

Lemma length_entries r : table_ok r → length (entries r) = pcount r.
Proof.
  intros [[H1 H2] H3 H4 _ _]. unfold entries. rewrite length_take, length_zip_with. lia.
Qed.

Lemma entries_lookup r i : table_ok r → i < pcount r →
  ∃ p m, pollfds r !! i = Some p ∧ mappings r !! i = Some m ∧ entries r !! i = Some (p, m).
Proof.
  intros [[H1 H2] H3 H4 _ _] Hi.
  destruct (lookup_lt_is_Some_2 (pollfds r) i) as [p Hp]; [lia|].
  destruct (lookup_lt_is_Some_2 (mappings r) i) as [m Hm]; [lia|].
  exists p, m. split_and!; [done..|]. unfold entries. rewrite lookup_take_lt by done.
  apply lookup_zip_with_Some. by exists p, m.
Qed.

Lemma entries_store r i p m cap :
  i < pcount r → entries {| pollfds := <[i := p]> (pollfds r); mappings := <[i := m]> (mappings r);
                            capacity := cap; pcount := pcount r |} = <[i := (p, m)]> (entries r).
Proof.
  intros Hi. unfold entries. cbn [pollfds mappings pcount].
  rewrite <- insert_zip_with. by rewrite take_insert_lt.
Qed.

Lemma entries_snoc r p m cap :
  pcount r < length (pollfds r) → pcount r < length (mappings r) →
  entries {| pollfds := <[pcount r := p]> (pollfds r); mappings := <[pcount r := m]> (mappings r);
             capacity := cap; pcount := S (pcount r) |} = entries r ++ [(p, m)].
Proof.
  intros H1 H2. unfold entries. cbn [pollfds mappings pcount].
  erewrite take_S_r; [|apply lookup_zip_with_Some; exists p, m; split_and!; [done|..];
    apply list_lookup_insert_eq; done].
  f_equal. rewrite <- insert_zip_with. by rewrite take_insert_ge.
Qed.

Lemma find_from_Some l s n fd i :
  find_from l s n fd = Some i → ∃ k p, i = s + k ∧ k < n ∧ l !! k = Some p ∧ pf_fd p = fd.
Proof.
  revert s n. induction l as [|p l IH]; intros s [|n]; cbn; try done.
  destruct (pf_fd p =? fd)%Z eqn:E; breflect.
  - intros [= <-]. exists 0, p. split_and!; [lia..|done|done].
  - intros (k & q & -> & Hk & Hl & Hq)%IH. exists (S k), q. split_and!; [lia..|done|done].
Qed.

Lemma find_from_None l s n fd k p :
  find_from l s n fd = None → k < n → l !! k = Some p → pf_fd p ≠ fd.
Proof.
  revert s n k. induction l as [|q l IH]; intros s [|n] [|k]; cbn; try done; try lia.
  - destruct (pf_fd q =? fd)%Z eqn:E; [done|]. intros _ _ [= <-]. by apply Z.eqb_neq.
  - destruct (pf_fd q =? fd)%Z; [done|]. intros H1 H2 H3. eapply IH; [exact H1| |exact H3]. lia.
Qed.

(** Where a descriptor is found, the map has its registration. *)
Lemma fd_map_lookup r i p m : table_ok r → i < pcount r →
  entries r !! i = Some (p, m) → fd_map (entries r) !! pf_fd p = Some (entry_reg (p, m)).
Proof.
  intros [_ _ _ _ Hn] Hi He. apply elem_of_list_to_map_1.
  - rewrite map_map. exact Hn.
  - apply list_elem_of_lookup. exists i. by rewrite list_lookup_fmap, He.
Qed.

Lemma fd_map_find r fd : table_ok r →
  match find_fd_index r fd with
  | Some i => ∃ p m, i < pcount r ∧ pollfds r !! i = Some p ∧ mappings r !! i = Some m
                ∧ entries r !! i = Some (p, m) ∧ pf_fd p = fd
                ∧ fd_map (entries r) !! fd = Some (entry_reg (p, m))
  | None => fd_map (entries r) !! fd = None
  end.
Proof.
  intros HT. unfold find_fd_index. destruct (find_from (pollfds r) 0 (pcount r) fd) as [i|] eqn:F.
  - apply find_from_Some in F as (k & p & -> & Hk & Hl & Hp). cbn.
    destruct (entries_lookup r k HT Hk) as (q & m & Hq & Hm & He). simplify_eq.
    exists p, m. split_and!; try done. by eapply fd_map_lookup.
  - apply not_elem_of_list_to_map_1. rewrite map_map. intros (e & Hfd & He)%list_elem_of_fmap.
    apply list_elem_of_lookup in He as [k He].
    assert (Hk : k < pcount r) by (rewrite <- (length_entries r HT); by eapply lookup_lt_Some).
    destruct (entries_lookup r k HT Hk) as (p & m & Hp & _ & He'). simplify_eq.
    by apply (find_from_None _ _ _ _ _ _ F Hk Hp).
Qed.

(** ** Lemmas on the map *)

Lemma insert_delete_perm {A} (l : list A) i x y :
  l !! i = Some x → <[i := y]> l ≡ₚ y :: delete i l.
Proof.
  intros Hi. rewrite (insert_take_drop l i y) by (by eapply lookup_lt_Some).
  rewrite delete_take_drop. by rewrite Permutation_middle.
Qed.

Lemma fd_map_perm es es' : NoDup (map entry_fd es) → es ≡ₚ es' → fd_map es = fd_map es'.
Proof.
  intros Hn Hp. unfold fd_map. apply list_to_map_proper; [by rewrite map_map|].
  by apply Permutation_map.
Qed.

Lemma fd_map_cons e es : fd_map (e :: es) = <[entry_fd e := entry_reg e]> (fd_map es).
Proof. done. Qed.

Lemma fd_map_not_in es fd : fd ∉ map entry_fd es → fd_map es !! fd = None.
Proof. intros H. apply not_elem_of_list_to_map_1. by rewrite map_map. Qed.

(** Replacing the entry of a descriptor. *)
Lemma fd_map_replace es i e e' :
  NoDup (map entry_fd es) → es !! i = Some e → entry_fd e' = entry_fd e →
  fd_map (<[i := e']> es) = <[entry_fd e := entry_reg e']> (fd_map es)
  ∧ NoDup (map entry_fd (<[i := e']> es)).
Proof.
  intros Hn Hi Hf. pose proof (delete_Permutation _ _ _ Hi) as P.
  pose proof (insert_delete_perm _ _ _ e' Hi) as Q.
  assert (Hn' : NoDup (map entry_fd (e' :: delete i es)))
    by (cbn; rewrite Hf; change (NoDup (map entry_fd (e :: delete i es))); by rewrite <- P).
  split; [|by rewrite Q]. rewrite (fd_map_perm _ _ Hn P), (fd_map_perm _ (e' :: delete i es));
    [|by rewrite Q|done].
  by rewrite !fd_map_cons, Hf, insert_insert_eq.
Qed.

(** Removing the entry of a descriptor. *)
Lemma fd_map_delete es es' e :
  NoDup (map entry_fd es) → es ≡ₚ e :: es' → fd_map es' = delete (entry_fd e) (fd_map es)
  ∧ NoDup (map entry_fd es').
Proof.
  intros Hn P. rewrite (fd_map_perm _ _ Hn P), fd_map_cons. rewrite P in Hn. cbn in Hn.
  apply NoDup_cons in Hn as [Hin Hn]. split; [|done]. symmetry.
  apply delete_insert_id. by apply fd_map_not_in.
Qed.

(** What remains when the last entry is moved over entry [i]. *)
Lemma swap_remove_perm {A} (l : list A) i n e elast :
  length l = S n → l !! i = Some e → l !! n = Some elast →
  l ≡ₚ e :: take n (if i <? n then <[i := elast]> l else l).
Proof.
  intros Hl Hi Hn.
  assert (El : l = take n l ++ [elast]) by (rewrite <- (take_S_r l n elast Hn), <- Hl; by rewrite firstn_all).
  destruct (i <? n) eqn:Hlt; breflect.
  - rewrite take_insert_lt by done.
    assert (Hi' : take n l !! i = Some e) by (by rewrite lookup_take_lt).
    rewrite (insert_delete_perm _ _ _ elast Hi'). rewrite El at 1.
    rewrite (delete_Permutation _ _ _ Hi') at 1. cbn.
    apply perm_skip. by rewrite Permutation_app_comm.
  - assert (i = n) as -> by (apply lookup_lt_Some in Hi; lia). simplify_eq.
    rewrite El at 1. by rewrite Permutation_app_comm.
Qed.

(** ** The calls refine the map *)

(** What a call promises about the runtime [r] and its map. *)
Definition refines (r : poll_runtime) (result : option (poll_runtime * Z)) (spec : gmap Z reg * Z) : Prop :=
  ∃ r', result = Some (r', spec.2) ∧ table_ok r' ∧ fd_map (entries r') = spec.1.

Lemma add_entry r fd events context event :
  table_ok r → pcount r < capacity r → fd_map (entries r) !! fd = None →
  let p := {| pf_fd := fd; pf_events := events_to_poll events |} in
  let m := {| fm_fd := fd; fm_context := context; fm_events := events; fm_event := event |} in
  let r' := {| pollfds := <[pcount r := p]> (pollfds r); mappings := <[pcount r := m]> (mappings r);
               capacity := capacity r; pcount := S (pcount r) |} in
  table_ok r' ∧ entries r' = entries r ++ [(p, m)]
  ∧ fd_map (entries r') = <[fd := entry_reg (p, m)]> (fd_map (entries r)).
Proof.
  intros HT Hc Hfd p m r'. pose proof HT as [[H1 H2] H3 H4 H5 H6].
  assert (Es : entries r' = entries r ++ [(p, m)]) by (apply entries_snoc; lia).
  assert (Hin : fd ∉ map entry_fd (entries r)).
  { intros Hin. apply not_elem_of_list_to_map_2 in Hfd. rewrite map_map in Hfd. by apply Hfd. }
  split_and!; [|done|].
  - constructor; rewrite ?Es; cbn [r' pollfds mappings capacity pcount]; rewrite ?length_insert; try lia.
    + apply Forall_app. split; [done|]. by apply Forall_singleton.
    + rewrite map_app. cbn. apply NoDup_app. split_and!; [done| |apply NoDup_singleton].
      intros x Hx ->%list_elem_of_singleton. done.
  - rewrite Es. unfold fd_map. rewrite map_app. cbn. rewrite list_to_map_snoc; [done|].
    by rewrite map_map.
Qed.

(** Growing keeps the entries. *)
Lemma expand_ok r : table_ok r →
  capacity r ≤ pcount r → pcount r < MAX_FD_COUNT →
  ∃ r', expand_capacity true true r = (r', true) ∧ table_ok r' ∧ entries r' = entries r
        ∧ pcount r' = pcount r ∧ pcount r' < capacity r'.
Proof.
  intros HT Hc Hm. pose proof HT as [[H1 H2] H3 H4 H5 H6]. unfold expand_capacity. cbn [negb].
  set (n := Nat.min (capacity r * 2) MAX_FD_COUNT). eexists. split; [done|].
  assert (Hn : capacity r < n) by (unfold n; lia).
  assert (L1 : n ≤ length (grow_array n no_pollfd (pollfds r)))
    by (unfold grow_array; rewrite length_app, length_take, length_replicate; lia).
  assert (L2 : n ≤ length (grow_array n no_mapping (mappings r)))
    by (unfold grow_array; rewrite length_app, length_take, length_replicate; lia).
  assert (Es : entries {| pollfds := grow_array n no_pollfd (pollfds r);
    mappings := grow_array n no_mapping (mappings r); capacity := n; pcount := pcount r |} = entries r).
  { unfold entries. cbn [pollfds mappings pcount]. rewrite !zip_with_take. unfold grow_array.
    rewrite !take_app_le, !take_take, !(Nat.min_l (pcount r) n); [done|lia|rewrite ?length_take; lia..]. }
  split_and!; [constructor; rewrite ?Es; cbn; try done; lia|done|done|cbn; lia].
Qed.

Lemma add_refines r fd events context :
  table_ok r → pcount r < MAX_FD_COUNT →
  refines r (async_runtime_add true true r fd events context)
    (spec_add (fd_map (entries r)) fd {| rg_events := events; rg_context := context; rg_event := None |}).
Proof.
  intros HT Hm. unfold refines, async_runtime_add, spec_add. destruct (fd <? 0)%Z; [by exists r|].
  pose proof (fd_map_find r fd HT) as F. destruct (find_fd_index r fd) as [i|].
  { destruct F as (p & m & _ & _ & _ & _ & _ & ->). by exists r. }
  rewrite F.
  assert (∃ r1, (if capacity r <=? pcount r then expand_capacity true true r else (r, true)) = (r1, true)
    ∧ table_ok r1 ∧ entries r1 = entries r ∧ pcount r1 < capacity r1) as (r1 & -> & HT1 & Es & Hc).
  { destruct (capacity r <=? pcount r) eqn:E; breflect.
    - destruct (expand_ok r HT E Hm) as (r1 & ? & ? & ? & _ & ?). by exists r1.
    - by exists r. }
  cbn [negb]. pose proof HT1 as [[H1 H2] H3 H4 _ _]. rewrite <- Es in F.
  destruct (add_entry r1 fd events context None HT1 Hc F) as (A1 & A2 & A3).
  unfold store. rewrite (proj2 (Nat.ltb_lt _ _)) by lia. cbn [mbind option_bind].
  rewrite (proj2 (Nat.ltb_lt _ _)) by lia. cbn [mbind option_bind].
  eexists. split; [done|]. split; [exact A1|]. rewrite A3, Es. done.
Qed.

(** Storing a new entry for the descriptor at index [i]. *)
Lemma replace_entry r i p m p' m' :
  table_ok r → i < pcount r → entries r !! i = Some (p, m) → pf_fd p' = pf_fd p → entry_ok (p', m') →
  let r' := {| pollfds := <[i := p']> (pollfds r); mappings := <[i := m']> (mappings r);
               capacity := capacity r; pcount := pcount r |} in
  table_ok r' ∧ fd_map (entries r') = <[pf_fd p := entry_reg (p', m')]> (fd_map (entries r)).
Proof.
  intros HT Hi He Hp Hok r'. pose proof HT as [[H1 H2] H3 H4 H5 H6].
  assert (Es : entries r' = <[i := (p', m')]> (entries r)) by (by apply entries_store).
  destruct (fd_map_replace (entries r) i (p, m) (p', m') H6 He Hp) as [F1 F2].
  split; [|by rewrite Es].
  constructor; rewrite ?Es; cbn [r' pollfds mappings capacity pcount]; rewrite ?length_insert; try done.
  by apply Forall_insert.
Qed.

Lemma store_eq {A} (l : list A) i x : i < length l → store l i x = Some (<[i := x]> l).
Proof. intros Hi. unfold store. by rewrite (proj2 (Nat.ltb_lt _ _) Hi). Qed.

Lemma store_outside {A} (l : list A) i x : length l ≤ i → store l i x = None.
Proof. intros Hi. unfold store. by rewrite (proj2 (Nat.ltb_ge _ _) Hi). Qed.

Lemma modify_refines r fd events context :
  table_ok r → refines r (async_runtime_modify r fd events context)
                 (spec_op (fd_map (entries r)) (PModify fd events context)).
Proof.
  intros HT. unfold refines, async_runtime_modify. cbn [spec_op]. destruct (fd <? 0)%Z; [by exists r|].
  pose proof (fd_map_find r fd HT) as F. destruct (find_fd_index r fd) as [i|]; [|rewrite F; by exists r].
  destruct F as (p & m & Hi & Hp & Hm & He & Hfd & ->). pose proof HT as [[H1 H2] H3 H4 H5 H6].
  rewrite Hm. cbn [mbind option_bind]. rewrite !store_eq by lia. cbn [mbind option_bind].
  eexists. split; [done|].
  destruct (replace_entry r i p m {| pf_fd := fd; pf_events := events_to_poll events |}
    {| fm_fd := fm_fd m; fm_context := if context =? 0 then fm_context m else context;
       fm_events := events; fm_event := fm_event m |} HT Hi He) as [A1 A2]; [done| |].
  { rewrite Forall_lookup in H5. destruct (H5 _ _ He) as [E1 _]. split; cbn; [|done]. cbn in E1. congruence. }
  split; [exact A1|]. rewrite A2, Hfd. done.
Qed.

Lemma remove_refines r fd :
  table_ok r → refines r (async_runtime_remove r fd) (spec_op (fd_map (entries r)) (PRemove fd)).
Proof.
  intros HT. unfold refines, async_runtime_remove. cbn [spec_op]. destruct (fd <? 0)%Z; [by exists r|].
  pose proof (fd_map_find r fd HT) as F. destruct (find_fd_index r fd) as [i|]; [|rewrite F; by exists r].
  destruct F as (p & m & Hi & Hp & Hm & He & Hfd & ->). pose proof HT as [[H1 H2] H3 H4 H5 H6].
  pose proof (length_entries r HT) as Hlen. set (n := pcount r - 1).
  destruct (entries_lookup r n HT) as (pl & ml & Hpl & Hml & Hel); [unfold n; lia|].
  rewrite Hpl, Hml. cbn [mbind option_bind].
  assert (X : ∀ {A} (l : list A) x, capacity r ≤ length l →
    (if i <? n then store l i x else Some l) = Some (if i <? n then <[i := x]> l else l))
    by (intros A l x Hl; destruct (i <? n); [apply store_eq; lia|done]).
  rewrite !X by done. cbn [mbind option_bind].
  assert (L : ∀ {A} (l : list A) x, length (if i <? n then <[i := x]> l else l) = length l)
    by (intros A l x; destruct (i <? n); [apply length_insert|done]).
  rewrite !store_eq by (rewrite L; unfold n; lia). cbn [mbind option_bind].
  eexists. split; [done|]. set (r' := {| pcount := n |}).
  assert (Es : entries r' = take n (if i <? n then <[i := (pl, ml)]> (entries r) else entries r)).
  { unfold entries, r'. cbn [pollfds mappings pcount].
    rewrite <- insert_zip_with, take_insert_ge by done.
    destruct (i <? n) eqn:Hlt; breflect.
    - rewrite <- insert_zip_with. rewrite <- (take_insert_lt (zip _ _) (pcount r) i) by done.
      rewrite take_take. f_equal. unfold n. lia.
    - rewrite take_take. f_equal. unfold n. lia. }
  pose proof (swap_remove_perm (entries r) i n (p, m) (pl, ml) ltac:(unfold n; lia) He Hel) as P.
  rewrite <- Es in P. destruct (fd_map_delete _ _ _ H6 P) as [D1 D2].
  split; [|rewrite D1; change (entry_fd (p, m)) with (pf_fd p); by rewrite Hfd].
  constructor; cbn [r' pollfds mappings capacity pcount]; rewrite ?length_insert, ?L; try done; [unfold n; lia|].
  apply (Forall_Permutation entry_ok entry_ok) in P; [|done]. cbn beta in P.
  apply P in H5. by apply Forall_cons in H5 as [_ H5].
Qed.

Lemma add_event_refines r event handle context :
  table_ok r → pcount r < MAX_FD_COUNT →
  refines r (async_runtime_add_event true true r event handle context)
    (spec_op (fd_map (entries r)) (PAddEvent event handle context)).
Proof.
  intros HT Hm. unfold async_runtime_add_event. cbn [spec_op].
  destruct (handle =? -1)%Z eqn:E; breflect; [subst; by exists r|].
  destruct (add_refines r handle EVENT_READ context HT Hm) as (r1 & -> & HT1 & F1).
  cbn [mbind option_bind fst snd]. unfold spec_add in *.
  destruct (handle <? 0)%Z eqn:Hneg; [by exists r1|].
  destruct (fd_map (entries r) !! handle) as [x|] eqn:Hx; [by exists r1|]. cbn [fst snd] in *.
  change (0 <? 0)%Z with false. cbv iota.
  pose proof (fd_map_find r1 handle HT1) as F. destruct (find_fd_index r1 handle) as [i|];
    [|by rewrite F1, lookup_insert_eq in F].
  destruct F as (p & m & Hi & Hp & Hmm & He & Hfd & Fx). cbn [mbind option_bind]. rewrite Hmm.
  cbn [mbind option_bind]. pose proof HT1 as [[H1 H2] H3 H4 H5 H6].
  rewrite store_eq by lia. cbn [mbind option_bind]. eexists. split; [done|].
  rewrite Forall_lookup in H5. pose proof (H5 _ _ He) as Hok.
  destruct (replace_entry r1 i p m p {| fm_fd := fm_fd m; fm_context := fm_context m;
    fm_events := fm_events m; fm_event := Some event |} HT1 Hi He) as [A1 A2]; [done|exact Hok|].
  rewrite (list_insert_id (pollfds r1)) in A1, A2 by done. split; [exact A1|].
  rewrite A2, F1, Hfd, insert_insert_eq. rewrite F1, lookup_insert_eq in Fx.
  unfold entry_reg in *. cbn in *. injection Fx as -> -> _. done.
Qed.

Lemma size_entries r : table_ok r → size (fd_map (entries r)) = pcount r.
Proof.
  intros HT. unfold fd_map. rewrite map_size_list_to_map; [|rewrite map_map; apply HT].
  by rewrite length_map, length_entries.
Qed.

Lemma poll_call_refines r op :
  table_ok r → fits (fd_map (entries r)) [op] → refines r (poll_call r op) (spec_op (fd_map (entries r)) op).
Proof.
  intros HT [Hf _]. destruct op; cbn [poll_call].
  - apply add_refines; [done|by rewrite <- size_entries].
  - by apply modify_refines.
  - by apply remove_refines.
  - apply add_event_refines; [done|by rewrite <- size_entries].
Qed.

(** ** Theorems *)

(** C26: the descriptor table of the poll() runtime is a map.  For every sequence
    of registrations, changes and removals the calls answer as a map from
    descriptors to registrations does, growth and the move of the last entry on
    removal included, and no call stores outside the arrays, as long as fewer
    than 4096 descriptors are registered before each addition. *)
Theorem poll_table_refines_map r ops :
  table_ok r → fits (fd_map (entries r)) ops →
  ∃ r', poll_calls r ops = Some (r', (spec_ops (fd_map (entries r)) ops).2)
        ∧ table_ok r' ∧ fd_map (entries r') = (spec_ops (fd_map (entries r)) ops).1.
Proof.
  revert r. induction ops as [|op ops IH]; intros r HT Hf; [by exists r|]. destruct Hf as [Hf Hr].
  destruct (poll_call_refines r op HT (conj Hf I)) as (r1 & E1 & HT1 & F1).
  cbn [poll_calls spec_ops]. rewrite E1. cbn [mbind option_bind fst snd].
  rewrite <- F1 in Hr. destruct (IH r1 HT1 Hr) as (r2 & E2 & HT2 & F2). rewrite E2.
  cbn [mbind option_bind fst snd]. destruct (spec_op (fd_map (entries r)) op) as [m1 x1]. cbn in *. subst m1.
  destruct (spec_ops (fd_map (entries r1)) ops) as [m2 xs]. by exists r2.
Qed.

Lemma init_ok fd : table_ok (async_runtime_init fd) ∧ entries (async_runtime_init fd) =
  [({| pf_fd := fd; pf_events := events_to_poll EVENT_READ |},
    {| fm_fd := fd; fm_context := 0; fm_events := EVENT_READ; fm_event := None |})].
Proof.
  assert (Es : entries (async_runtime_init fd) =
    [({| pf_fd := fd; pf_events := events_to_poll EVENT_READ |},
      {| fm_fd := fd; fm_context := 0; fm_events := EVENT_READ; fm_event := None |})]) by reflexivity.
  split; [|done]. constructor; rewrite ?Es; try (by apply Forall_singleton); try apply NoDup_singleton;
    unfold MAX_FD_COUNT; cbn [async_runtime_init pcount capacity pollfds mappings];
    rewrite ?length_insert, ?length_replicate; unfold INITIAL_CAPACITY; lia.
Qed.

(** The limit of 4096 descriptors is not enforced.  A full table of that size
    is "expanded" to the same size, the expansion counts as a success, and the
    next registration stores one entry past the end of both arrays. *)
Theorem poll_table_overflow r fd events context :
  table_ok r → pcount r = MAX_FD_COUNT → length (pollfds r) = MAX_FD_COUNT →
  length (mappings r) = MAX_FD_COUNT → (0 ≤ fd)%Z → find_fd_index r fd = None →
  (expand_capacity true true r).2 = true ∧ async_runtime_add true true r fd events context = None.
Proof.
  intros [[H1 H2] _ _ _ _] Hc L1 L2 Hfd Hf. split; [done|]. unfold async_runtime_add.
  rewrite (proj2 (Z.ltb_ge _ _) Hfd), Hf, (proj2 (Nat.leb_le _ _)) by lia.
  unfold expand_capacity. cbn [negb]. cbn [pcount pollfds]. rewrite Hc.
  assert (capacity r = MAX_FD_COUNT) as -> by lia. change (Nat.min (MAX_FD_COUNT * 2) MAX_FD_COUNT) with MAX_FD_COUNT.
  cbn [mappings]. assert (G : length (grow_array MAX_FD_COUNT no_pollfd (pollfds r)) = MAX_FD_COUNT)
    by (unfold grow_array; rewrite length_app, length_take, length_replicate; lia).
  by rewrite (store_outside (grow_array MAX_FD_COUNT no_pollfd (pollfds r))) by lia.
Qed.

(** ** Completions *)

Record io_event := {
  io_fd : Z; io_completion_key : Z; io_event_type : Z; io_context : Z; io_bytes : Z
}.

(** [((uint64_t)completion_key << 32) | (data & 0xFFFFFFFF)]. *)
Definition encode_completion (completion_key data : Z) : Z :=
  Z.lor (u64 (Z.shiftl completion_key 32)) (Z.land data 0xFFFFFFFF).

Definition decode_completion (val : Z) : io_event :=
  let completion_key := Z.shiftr val 32 in
  let completion_data := Z.land val 0xFFFFFFFF in
  {| io_fd := -1; io_completion_key := completion_key;
     io_context := if (completion_key =? ASYNC_IO_ERROR_KEY)%Z then completion_data else 0%Z;
     io_event_type := if (completion_key =? ASYNC_IO_ERROR_KEY)%Z then EVENT_ERROR else EVENT_READ;
     io_bytes := completion_data |}.

(** Bytes of a 64-bit word as the host stores them, least significant first. *)
Definition word_bytes (val : Z) : list Z := rev (be_split 8 val).
Definition bytes_word (bs : list Z) : Z := be_combine (rev bs).

(** What [async_runtime_wakeup] and [async_runtime_post_completion] write. *)
Definition wakeup_bytes : list Z := [1%Z].
Definition completion_bytes (completion_key data : Z) : list Z :=
  word_bytes (encode_completion completion_key data).

(** The loop that drains the pipe in units of eight bytes; the events of units
    read after [room] is used up are dropped. *)
Fixpoint drain_pipe (fuel room : nat) (pipe : list Z) : list io_event :=
  match fuel with
  | 0 => []
  | S n =>
      if length pipe <? 8 then []
      else
        let e := decode_completion (bytes_word (take 8 pipe)) in
        match room with
        | 0 => drain_pipe n 0 (drop 8 pipe)
        | S k => e :: drain_pipe n k (drop 8 pipe)
        end
  end.

(** A table entry as [poll] left it: its returned bits, and the answer of
    [async_event_wait(event, 0)] for an auto-reset event. *)
Record polled := { po_entry : pollfd * fd_mapping; po_revents : option poll_bits; po_consumed : bool }.

Definition report (x : polled) : list io_event :=
  match po_revents x with
  | None => []
  | Some bits =>
      if bool_decide (is_Some (fm_event (po_entry x).2)) && negb (po_consumed x) then []
      else [{| io_fd := pf_fd (po_entry x).1; io_completion_key := 0;
               io_event_type := poll_to_events bits;
               io_context := Z.of_nat (fm_context (po_entry x).2); io_bytes := 0 |}]
  end.

(** The loop of [async_runtime_wait] over the table. *)
Fixpoint collect (notify_fd : Z) (pipe : list Z) (room : nat) (xs : list polled) : list io_event :=
  match xs with
  | [] => []
  | x :: rest =>
      match room with
      | 0 => []
      | S _ =>
          let new :=
            match po_revents x with
            | Some _ => if (pf_fd (po_entry x).1 =? notify_fd)%Z
                        then drain_pipe (S (length pipe)) room pipe else report x
            | None => []
            end in
          new ++ collect notify_fd pipe (room - length new) rest
      end
  end.

(** [async_runtime_wait]; the answer of [poll] is the table as it left it, or its
    failure with whether [errno] is [EINTR].  The result is the events and the
    returned number. *)
Definition async_runtime_wait (notify_fd : Z) (pipe : list Z) (max_events : nat) (answer : bool + list polled)
    : list io_event * Z :=
  if max_events =? 0 then ([], -1)%Z
  else
    match answer with
    | inl eintr => ([], if eintr then 0%Z else (-1)%Z)
    | inr xs => let es := collect notify_fd pipe max_events xs in (es, Z.of_nat (length es))
    end.

(** ** Lemmas *)

Lemma encode_range key data :
  (0 ≤ key < 2 ^ 32 → encode_completion key data = key * 2 ^ 32 + data mod 2 ^ 32)%Z.
Proof.
  intros Hk. unfold encode_completion, u64. change 0xFFFFFFFF%Z with (Z.ones 32).
  rewrite Z.land_ones by lia. rewrite Z.mod_small.
  - apply shiftl_lor_add; [lia|]. apply Z.mod_pos_bound. lia.
  - rewrite Z.shiftl_mul_pow2 by lia. lia.
Qed.

Lemma word_roundtrip v : (0 ≤ v < 2 ^ 64)%Z → bytes_word (word_bytes v) = v.
Proof. intros Hv. unfold bytes_word, word_bytes. rewrite rev_involutive. by apply be_combine_split. Qed.

Lemma length_word v : length (word_bytes v) = 8.
Proof. unfold word_bytes. by rewrite length_rev, length_be_split. Qed.

(** What the loop should see for a posted completion. *)
Definition completion_event (key data : Z) : io_event :=
  {| io_fd := -1; io_completion_key := key;
     io_context := if (key =? ASYNC_IO_ERROR_KEY)%Z then data else 0%Z;
     io_event_type := if (key =? ASYNC_IO_ERROR_KEY)%Z then EVENT_ERROR else EVENT_READ;
     io_bytes := data |}.

Lemma decode_encode key data :
  (0 ≤ key < 2 ^ 32 → 0 ≤ data < 2 ^ 32 →
   decode_completion (encode_completion key data) = completion_event key data)%Z.
Proof.
  intros Hk Hd. rewrite encode_range, Z.mod_small by lia. unfold decode_completion, completion_event.
  change 0xFFFFFFFF%Z with (Z.ones 32). rewrite Z.land_ones, Z.shiftr_div_pow2 by lia.
  rewrite Z.add_comm, Z.div_add, Z.mod_add, (Z.div_small data), (Z.mod_small data) by lia. done.
Qed.

Definition post_ok (x : Z * Z) : Prop := (0 ≤ x.1 < 2 ^ 32 ∧ 0 ≤ x.2 < 2 ^ 32)%Z.

Lemma drain_completions fuel room posts :
  Forall post_ok posts → length posts < fuel → length posts ≤ room →
  drain_pipe fuel room (concat (map (fun x => completion_bytes x.1 x.2) posts))
  = map (fun x => completion_event x.1 x.2) posts.
Proof.
  intros Hp. revert fuel room. induction Hp as [|[key data] posts [Hk Hd] _ IH]; intros [|fuel] room Hf Hr;
    cbn [length] in *; try lia; [done|].
  cbn [map concat fst snd]. set (c := completion_bytes key data). cbn [drain_pipe].
  assert (Hc : length c = 8) by apply length_word.
  rewrite length_app, Hc. rewrite (proj2 (Nat.ltb_ge _ 8)) by lia.
  rewrite take_app_length', drop_app_length' by done.
  destruct room as [|room]; [lia|]. rewrite IH by lia. f_equal.
  unfold c, completion_bytes. rewrite word_roundtrip; [by apply decode_encode|].
  cbn in *. rewrite encode_range by lia. pose proof (Z.mod_pos_bound data (2 ^ 32)). lia.
Qed.

(** What a wait should report for an entry: the completions for the pipe, one
    event for any other ready entry. *)
Definition expected (notify_fd : Z) (posts : list (Z * Z)) (x : polled) : list io_event :=
  match po_revents x with
  | None => []
  | Some _ =>
      if (pf_fd (po_entry x).1 =? notify_fd)%Z
      then map (fun p => completion_event p.1 p.2) posts else report x
  end.

Lemma length_concat_app {A} (x : list A) xs : length (concat (x :: xs)) = length x + length (concat xs).
Proof. cbn. apply length_app. Qed.

Lemma completions_fit posts :
  length posts < S (length (concat (map (fun x => completion_bytes x.1 x.2) posts))).
Proof.
  induction posts as [|p posts IH]; [cbn; lia|]. cbn [map]. rewrite length_concat_app.
  unfold completion_bytes. rewrite length_word. cbn [length]. unfold completion_bytes in IH. lia.
Qed.

Lemma collect_complete notify_fd posts max_events xs :
  Forall post_ok posts →
  length (concat (map (expected notify_fd posts) xs)) ≤ max_events →
  collect notify_fd (concat (map (fun x => completion_bytes x.1 x.2) posts)) max_events xs
  = concat (map (expected notify_fd posts) xs).
Proof.
  intros Hp. revert max_events.
  induction xs as [|x xs IH]; intros room Hl; [done|].
  cbn [map] in Hl |- *. rewrite length_concat_app in Hl.
  change (concat (expected notify_fd posts x :: map (expected notify_fd posts) xs))
    with (expected notify_fd posts x ++ concat (map (expected notify_fd posts) xs)).
  cbn [collect]. destruct room as [|room].
  { destruct (expected notify_fd posts x); [|cbn in Hl; lia].
    destruct (concat (map (expected notify_fd posts) xs)); [done|cbn in Hl; lia]. }
  set (new := match po_revents x with Some _ => _ | None => _ end).
  assert (E : new = expected notify_fd posts x).
  { unfold new, expected in *. destruct (po_revents x); [|done].
    destruct (pf_fd (po_entry x).1 =? notify_fd)%Z; [|done].
    rewrite length_map in Hl. apply drain_completions; [done|apply completions_fit|lia]. }
  rewrite E. f_equal. apply IH. lia.
Qed.

(** One wait reports everything that is ready, once and in table order, with
    the context of its registration: every ready descriptor and every
    completion posted before the wait, as long as they fit the caller's array
    and no wake-up was written between the completions. *)
Theorem poll_wait_complete notify_fd posts max_events xs :
  (0 < max_events)%nat → Forall post_ok posts →
  length (concat (map (expected notify_fd posts) xs)) ≤ max_events →
  let es := concat (map (expected notify_fd posts) xs) in
  async_runtime_wait notify_fd (concat (map (fun x => completion_bytes x.1 x.2) posts)) max_events (inr xs)
  = (es, Z.of_nat (length es)).
Proof.
  intros Hm Hp Hl es. unfold async_runtime_wait. rewrite (proj2 (Nat.eqb_neq _ _)) by lia.
  by rewrite collect_complete.
Qed.

(** A wake-up written before a completion shifts the framing of the pipe: the
    completion is never delivered, and an event with a key and data nobody
    posted arrives in its place. *)
Theorem poll_wakeup_misframes :
  let key := 0xF0000001%Z in
  drain_pipe 10 64 (wakeup_bytes ++ completion_bytes key 5)
  = [completion_event 0x100 0x501] ∧ key ≠ 0x100%Z.
Proof. vm_compute. split; [reflexivity|discriminate]. Qed.

(** ** Destroying a runtime *)

(** The runtimes that are allocated, and [current_runtime]; 0 is the null pointer. *)
Record runtime_heap := { live : gset nat; current : nat }.

(** [compare_exchange_strong(expected, desired)]: the new value of the atomic and
    of [expected], which receives the value found when they differ. *)
Definition compare_exchange (value expected desired : nat) : nat * nat :=
  if value =? expected then (desired, expected) else (value, value).

Definition async_runtime_deinit (h : runtime_heap) (runtime : nat) : runtime_heap :=
  if runtime =? 0 then h
  else
    let '(cur, runtime') := compare_exchange (current h) runtime 0 in
    {| live := live h ∖ {[runtime']}; current := cur |}.

(** Destroying the current runtime frees it and clears the global pointer, but
    destroying another one frees the current one instead: the failed exchange
    overwrites the pointer that is freed next.  The runtime that was to go
    stays allocated, and the global pointer names freed memory. *)
Theorem poll_deinit_frees_current h r :
  r ≠ 0 → r ∈ live h →
  (current h = r → async_runtime_deinit h r = {| live := live h ∖ {[r]}; current := 0 |})
  ∧ (current h ≠ r → r ∈ live (async_runtime_deinit h r)
       ∧ current h ∉ live (async_runtime_deinit h r) ∧ current (async_runtime_deinit h r) = current h).
Proof.
  intros H0 Hr. unfold async_runtime_deinit, compare_exchange. rewrite (proj2 (Nat.eqb_neq _ _) H0).
  split; intros Hc.
  - by rewrite Hc, Nat.eqb_refl.
  - rewrite (proj2 (Nat.eqb_neq _ _) Hc). cbn. set_solver.
Qed.

(** ** Witnesses *)

Lemma poll_table_refines_map_witness :
  let r := async_runtime_init 3 in
  let ops := [PAdd 7 EVENT_READ 1; PAdd 9 EVENT_READ 2; PAdd 7 EVENT_WRITE 4; PRemove 7;
              PModify 9 EVENT_WRITE 0; PModify 7 EVENT_READ 1; PAddEvent 5 11 6] in
  ∃ r', poll_calls r ops = Some (r', [0; 0; -1; 0; 0; -1; 0]%Z)
        ∧ fd_map (entries r') !! 9%Z = Some {| rg_events := EVENT_WRITE; rg_context := 2; rg_event := None |}.
Proof.
  intros r ops. destruct (poll_table_refines_map r ops) as (r' & E & _ & F).
  - apply init_ok.
  - repeat split; vm_compute; lia.
  - exists r'. split; [etransitivity; [exact E|]; f_equal; f_equal; vm_compute; reflexivity|].
    rewrite F. vm_compute. reflexivity.
Defined.

(** A full table. *)
Definition full_runtime : poll_runtime :=
  {| pollfds := map (fun i => {| pf_fd := Z.of_nat i; pf_events := events_to_poll EVENT_READ |}) (seq 0 MAX_FD_COUNT);
     mappings := map (fun i => {| fm_fd := Z.of_nat i; fm_context := 0; fm_events := EVENT_READ; fm_event := None |})
                   (seq 0 MAX_FD_COUNT);
     capacity := MAX_FD_COUNT; pcount := MAX_FD_COUNT |}.

Lemma full_entries : entries full_runtime =
  map (fun i => ({| pf_fd := Z.of_nat i; pf_events := events_to_poll EVENT_READ |},
    {| fm_fd := Z.of_nat i; fm_context := 0; fm_events := EVENT_READ; fm_event := None |})) (seq 0 MAX_FD_COUNT).
Proof.
  unfold entries, full_runtime. cbn [pollfds mappings pcount].
  rewrite take_ge by (rewrite length_zip_with, !length_map, length_seq; lia).
  generalize (seq 0 MAX_FD_COUNT). intros l. induction l as [|i l IH]; [done|]. cbn. by rewrite IH.
Qed.

Lemma full_ok : table_ok full_runtime.
Proof.
  constructor; rewrite ?full_entries; cbn [full_runtime pcount capacity pollfds mappings];
    rewrite ?length_map, ?length_seq; try (unfold MAX_FD_COUNT; lia).
  - apply Forall_map, Forall_true. intros i. by split.
  - rewrite map_map. apply (NoDup_fmap_2 Z.of_nat), NoDup_seq.
Qed.

Lemma poll_table_overflow_witness :
  async_runtime_add true true full_runtime 5000 EVENT_READ 1 = None.
Proof.
  apply (poll_table_overflow full_runtime 5000 EVENT_READ 1); [apply full_ok|reflexivity| | |lia|].
  - unfold full_runtime. cbn [pollfds]. by rewrite length_map, length_seq.
  - unfold full_runtime. cbn [mappings]. by rewrite length_map, length_seq.
  - vm_compute. reflexivity.
Defined.

Lemma poll_wait_complete_witness :
  let p fd ctx := ({| pf_fd := fd; pf_events := events_to_poll EVENT_READ |},
                   {| fm_fd := fd; fm_context := ctx; fm_events := EVENT_READ; fm_event := None |}) in
  let xs := [{| po_entry := p 3%Z 0; po_revents := Some (events_to_poll EVENT_READ); po_consumed := false |};
             {| po_entry := p 7%Z 1; po_revents := None; po_consumed := false |};
             {| po_entry := p 9%Z 2; po_revents := Some (events_to_poll EVENT_READ); po_consumed := false |}] in
  map (fun e => (io_fd e, io_completion_key e, io_bytes e))
    (async_runtime_wait 3 (concat (map (fun x => completion_bytes x.1 x.2) [(0xF0000001, 5)]%Z)) 64 (inr xs)).1
  = [(-1, 0xF0000001, 5); (9, 0, 0)]%Z.
Proof.
  intros p xs. rewrite (poll_wait_complete 3 [(0xF0000001, 5)%Z] 64 xs).
  - vm_compute. reflexivity.
  - lia.
  - apply Forall_singleton. split; cbn; lia.
  - vm_compute. lia.
Defined.

Lemma poll_deinit_frees_current_witness :
  let h := {| live := {[1; 2]}; current := 2 |} in 2 ∉ live (async_runtime_deinit h 1).
Proof.
  refine (proj1 (proj2 (proj2 (poll_deinit_frees_current {| live := {[1; 2]}; current := 2 |} 1 _ _) _)));
    [done|set_solver|done].
Defined.
