(* ===== verification/EpollRuntime.v ===== *)
(** * The epoll runtime (lib/async/async_runtime_epoll.cpp)

    The vectors that map descriptors to contexts and events, the registration
    calls around [epoll_ctl], and the conversion of [epoll_wait]'s answer with
    the eventfd that carries completions and wake-ups.  The kernel's interest
    set is an interface ([Epoll]) with the documented laws of [epoll_ctl]. *)

From stdpp Require Import gmap.
From S2P Require Import Prelude PollRuntime.

(** ** The kernel *)

(** An epoll instance: its interest set and the three operations, each of which
    may be refused.  A descriptor is added only once, and changed or removed
    only when it is there. *)
Class Epoll := {
  ep : Type;
  ep_interest : ep → gmap Z Z;
  ep_add : ep → Z → Z → ep * bool;
  ep_mod : ep → Z → Z → ep * bool;
  ep_del : ep → Z → ep * bool;
  ep_add_law : ∀ e fd ev, let '(e', ok) := ep_add e fd ev in
    ep_interest e' = (if ok then <[fd := ev]> (ep_interest e) else ep_interest e)
    ∧ (ok = true → ep_interest e !! fd = None);
  ep_mod_law : ∀ e fd ev, let '(e', ok) := ep_mod e fd ev in
    ep_interest e' = (if ok then <[fd := ev]> (ep_interest e) else ep_interest e)
    ∧ (ok = true → is_Some (ep_interest e !! fd));
  ep_del_law : ∀ e fd, let '(e', ok) := ep_del e fd in
    ep_interest e' = (if ok then delete fd (ep_interest e) else ep_interest e)
    ∧ (ok = true → is_Some (ep_interest e !! fd))
}.

Section EpollRuntime.
Context `{Epoll}.

(** ** The registration calls *)

(** Contexts are numbers, 0 the null pointer. *)
Record epoll_runtime := {
  epoll_fd : ep;
  fd_contexts : list nat;
  fd_events : list (option nat)
}.

(** [if (v.size() <= fd) v.resize(fd + 1, nullptr);] *)
Definition cover {A} (d : A) (v : list A) (fd : nat) : list A :=
  if length v <=? fd then v ++ replicate (fd + 1 - length v) d else v.

Definition EPOLLIN : Z := 1.
Definition EPOLLOUT : Z := 4.
Definition EPOLLERR : Z := 8.
Definition EPOLLHUP : Z := 16.

Definition events_to_epoll (events : Z) : Z :=
  Z.lor (if has_event events EVENT_READ then EPOLLIN else 0)
        (if has_event events EVENT_WRITE then EPOLLOUT else 0).

Definition epoll_to_events (epoll_events : Z) : Z :=
  Z.lor (Z.lor (Z.lor (if has_event epoll_events EPOLLIN then EVENT_READ else 0)
                      (if has_event epoll_events EPOLLOUT then EVENT_WRITE else 0))
               (if has_event epoll_events EPOLLERR then EVENT_ERROR else 0))
        (if has_event epoll_events EPOLLHUP then EVENT_CLOSE else 0).

Definition epoll_runtime_add (r : epoll_runtime) (fd events : Z) (context : nat) : epoll_runtime * Z :=
  if (fd <? 0)%Z then (r, -1)%Z
  else
    let i := Z.to_nat fd in
    let '(k, ok) := ep_add (epoll_fd r) fd (events_to_epoll events) in
    ({| epoll_fd := k; fd_contexts := <[i := context]> (cover 0 (fd_contexts r) i);
        fd_events := <[i := None]> (cover None (fd_events r) i) |},
     if ok then 0%Z else (-1)%Z).

Definition epoll_runtime_modify (r : epoll_runtime) (fd events : Z) (context : nat) : epoll_runtime * Z :=
  if (fd <? 0)%Z then (r, -1)%Z
  else
    let i := Z.to_nat fd in
    let '(k, ok) := ep_mod (epoll_fd r) fd (events_to_epoll events) in
    let contexts := cover 0 (fd_contexts r) i in
    ({| epoll_fd := k; fd_contexts := if context =? 0 then contexts else <[i := context]> contexts;
        fd_events := cover None (fd_events r) i |},
     if ok then 0%Z else (-1)%Z).

Definition epoll_runtime_remove (r : epoll_runtime) (fd : Z) : epoll_runtime * Z :=
  if (fd <? 0)%Z then (r, -1)%Z
  else
    let i := Z.to_nat fd in
    let '(k, ok) := ep_del (epoll_fd r) fd in
    ({| epoll_fd := k;
        fd_contexts := if i <? length (fd_contexts r) then <[i := 0]> (fd_contexts r) else fd_contexts r;
        fd_events := if i <? length (fd_events r) then <[i := None]> (fd_events r) else fd_events r |},
     if ok then 0%Z else (-1)%Z).

Definition epoll_runtime_add_event (r : epoll_runtime) (event : nat) (handle : Z) (context : nat)
    : epoll_runtime * Z :=
  if (handle =? -1)%Z then (r, -1)%Z
  else
    let '(r1, x) := epoll_runtime_add r handle EVENT_READ context in
    if (x <? 0)%Z then (r1, -1)%Z
    else ({| epoll_fd := epoll_fd r1; fd_contexts := fd_contexts r1;
             fd_events := <[Z.to_nat handle := Some event]> (fd_events r1) |}, 0%Z).

Definition epoll_call (r : epoll_runtime) (op : poll_op) : epoll_runtime * Z :=
  match op with
  | PAdd fd events context => epoll_runtime_add r fd events context
  | PModify fd events context => epoll_runtime_modify r fd events context
  | PRemove fd => epoll_runtime_remove r fd
  | PAddEvent event handle context => epoll_runtime_add_event r event handle context
  end.

(** ** The context an event of a descriptor is reported with *)

Definition context_of (r : epoll_runtime) (fd : Z) : nat :=
  if (0 <=? fd)%Z then default 0 (fd_contexts r !! Z.to_nat fd) else 0.
Definition event_of (r : epoll_runtime) (fd : Z) : option nat :=
  if (0 <=? fd)%Z then mjoin (fd_events r !! Z.to_nat fd) else None.

Lemma cover_lookup {A} (d : A) v i k : default d (cover d v i !! k) = default d (v !! k).
Proof.
  unfold cover. destruct (length v <=? i) eqn:E; [|done]. destruct (decide (k < length v)) as [Hk|Hk].
  - by rewrite lookup_app_l.
  - rewrite lookup_app_r by lia. rewrite (lookup_ge_None_2 v k) by lia.
    destruct (replicate _ _ !! _) eqn:L; [|done]. apply lookup_replicate in L as [-> _]. done.
Qed.

Lemma cover_length {A} (d : A) v i : length v ≤ length (cover d v i) ∧ i < length (cover d v i).
Proof.
  unfold cover. destruct (length v <=? i) eqn:E; breflect; [|lia].
  rewrite length_app, length_replicate. lia.
Qed.

Lemma mjoin_cover v i k : mjoin (cover (A := option nat) None v i !! k) = mjoin (v !! k).
Proof. pose proof (cover_lookup None v i k) as E. by destruct (cover None v i !! k), (v !! k). Qed.

Lemma context_store (v : list nat) i c k : i < length v →
  default 0 (<[i := c]> v !! k) = if decide (k = i) then c else default 0 (v !! k).
Proof.
  intros Hi. destruct (decide (k = i)) as [->|Hn]; [by rewrite list_lookup_insert_eq|].
  by rewrite list_lookup_insert_ne by congruence.
Qed.

Lemma event_store (v : list (option nat)) i c k : i < length v →
  mjoin (<[i := c]> v !! k) = if decide (k = i) then c else mjoin (v !! k).
Proof.
  intros Hi. destruct (decide (k = i)) as [->|Hn]; [by rewrite list_lookup_insert_eq|].
  by rewrite list_lookup_insert_ne by congruence.
Qed.

(** ** Refinement *)

(** The runtime and the map of registrations agree: the kernel watches the
    registered descriptors for the events asked for, and the vectors hold their
    contexts and events. *)
Definition agrees (r : epoll_runtime) (m : gmap Z reg) : Prop :=
  ep_interest (epoll_fd r) = (fun x => events_to_epoll (rg_events x)) <$> m
  ∧ ∀ fd x, m !! fd = Some x → context_of r fd = rg_context x ∧ event_of r fd = rg_event x.

(** The descriptor an operation names. *)
Definition op_fd (op : poll_op) : Z :=
  match op with PAdd fd _ _ | PModify fd _ _ | PRemove fd | PAddEvent _ fd _ => fd end.

Lemma context_of_store r fd (v : list nat) k es fd' : (0 ≤ fd)%Z → Z.to_nat fd < length v →
  (∀ i, default 0 (v !! i) = default 0 (fd_contexts r !! i)) →
  ∀ c, context_of {| epoll_fd := k; fd_contexts := <[Z.to_nat fd := c]> v; fd_events := es |} fd'
       = if decide (fd' = fd) then c else context_of r fd'.
Proof.
  intros Hfd Hl Hv c. unfold context_of. cbn [fd_contexts]. destruct (0 <=? fd')%Z eqn:E; breflect.
  - rewrite context_store by done. rewrite Hv. repeat case_decide; try done; lia.
  - case_decide; [lia|done].
Qed.

Lemma event_of_store r fd (v : list (option nat)) k cs fd' : (0 ≤ fd)%Z → Z.to_nat fd < length v →
  (∀ i, mjoin (v !! i) = mjoin (fd_events r !! i)) →
  ∀ c, event_of {| epoll_fd := k; fd_contexts := cs; fd_events := <[Z.to_nat fd := c]> v |} fd'
       = if decide (fd' = fd) then c else event_of r fd'.
Proof.
  intros Hfd Hl Hv c. unfold event_of. cbn [fd_events]. destruct (0 <=? fd')%Z eqn:E; breflect.
  - rewrite event_store by done. rewrite Hv. repeat case_decide; try done; lia.
  - case_decide; [lia|done].
Qed.

(** *** Each call: its effect on the vectors and on the interest set *)

Lemma add_effect r fd events context : (0 ≤ fd)%Z →
  let '(r', x) := epoll_runtime_add r fd events context in
  (∀ fd', context_of r' fd' = if decide (fd' = fd) then context else context_of r fd')
  ∧ (∀ fd', event_of r' fd' = if decide (fd' = fd) then None else event_of r fd')
  ∧ Z.to_nat fd < length (fd_events r')
  ∧ ep_interest (epoll_fd r')
    = (if (x =? 0)%Z then <[fd := events_to_epoll events]> (ep_interest (epoll_fd r))
       else ep_interest (epoll_fd r))
  ∧ (x = 0%Z ∧ ep_interest (epoll_fd r) !! fd = None ∨ x = (-1)%Z).
Proof.
  intros Hfd. unfold epoll_runtime_add. rewrite (proj2 (Z.ltb_ge _ _) Hfd).
  pose proof (ep_add_law (epoll_fd r) fd (events_to_epoll events)) as L.
  destruct (ep_add _ _ _) as [k ok]. destruct L as [L1 L2].
  split_and!; [intros fd'..| | |].
  - apply context_of_store; [done|apply cover_length|]. intros i. apply cover_lookup.
  - apply event_of_store; [done|apply cover_length|]. intros i. apply mjoin_cover.
  - cbn [fd_events]. rewrite length_insert. apply cover_length.
  - cbn [epoll_fd]. rewrite L1. by destruct ok.
  - destruct ok; auto.
Qed.

Lemma modify_effect r fd events context : (0 ≤ fd)%Z →
  let '(r', x) := epoll_runtime_modify r fd events context in
  (∀ fd', context_of r' fd' = if decide (fd' = fd ∧ context ≠ 0) then context else context_of r fd')
  ∧ (∀ fd', event_of r' fd' = event_of r fd')
  ∧ ep_interest (epoll_fd r')
    = (if (x =? 0)%Z then <[fd := events_to_epoll events]> (ep_interest (epoll_fd r))
       else ep_interest (epoll_fd r))
  ∧ (x = 0%Z ∧ is_Some (ep_interest (epoll_fd r) !! fd) ∨ x = (-1)%Z).
Proof.
  intros Hfd. unfold epoll_runtime_modify. rewrite (proj2 (Z.ltb_ge _ _) Hfd).
  pose proof (ep_mod_law (epoll_fd r) fd (events_to_epoll events)) as L.
  destruct (ep_mod _ _ _) as [k ok]. destruct L as [L1 L2].
  split_and!; [intros fd'..| |].
  - destruct (context =? 0) eqn:E; breflect.
    + rewrite decide_False by tauto. unfold context_of. cbn [fd_contexts].
      destruct (0 <=? fd')%Z; [|done]. apply cover_lookup.
    + erewrite (context_of_store r fd); [|done|apply cover_length|intros i; apply cover_lookup].
      repeat case_decide; try done; tauto.
  - unfold event_of. cbn [fd_events]. destruct (0 <=? fd')%Z; [|done]. apply mjoin_cover.
  - cbn [epoll_fd]. rewrite L1. by destruct ok.
  - destruct ok; auto.
Qed.

Lemma remove_effect r fd : (0 ≤ fd)%Z →
  let '(r', x) := epoll_runtime_remove r fd in
  (∀ fd', context_of r' fd' = if decide (fd' = fd) then 0 else context_of r fd')
  ∧ (∀ fd', event_of r' fd' = if decide (fd' = fd) then None else event_of r fd')
  ∧ ep_interest (epoll_fd r')
    = (if (x =? 0)%Z then delete fd (ep_interest (epoll_fd r)) else ep_interest (epoll_fd r))
  ∧ (x = 0%Z ∧ is_Some (ep_interest (epoll_fd r) !! fd) ∨ x = (-1)%Z).
Proof.
  intros Hfd. unfold epoll_runtime_remove. rewrite (proj2 (Z.ltb_ge _ _) Hfd).
  pose proof (ep_del_law (epoll_fd r) fd) as L.
  destruct (ep_del _ _) as [k ok]. destruct L as [L1 L2].
  split_and!; [intros fd'..| |].
  - destruct (Z.to_nat fd <? length (fd_contexts r)) eqn:E; breflect.
    + by apply context_of_store.
    + case_decide as D; [subst|done]. unfold context_of. cbn [fd_contexts].
      rewrite lookup_ge_None_2 by done. by destruct (0 <=? fd)%Z.
  - destruct (Z.to_nat fd <? length (fd_events r)) eqn:E; breflect.
    + by apply event_of_store.
    + case_decide as D; [subst|done]. unfold event_of. cbn [fd_events].
      rewrite lookup_ge_None_2 by done. by destruct (0 <=? fd)%Z.
  - cbn [epoll_fd]. rewrite L1. by destruct ok.
  - destruct ok; auto.
Qed.

(** The registration of one descriptor is replaced on both sides. *)
Lemma agrees_insert r r' m fd x :
  agrees r m → ep_interest (epoll_fd r') = <[fd := events_to_epoll (rg_events x)]> (ep_interest (epoll_fd r)) →
  (∀ fd', fd' ≠ fd → context_of r' fd' = context_of r fd' ∧ event_of r' fd' = event_of r fd') →
  context_of r' fd = rg_context x → event_of r' fd = rg_event x → agrees r' (<[fd := x]> m).
Proof.
  intros [A1 A2] Hi Ho Hc He. split; [by rewrite Hi, A1, fmap_insert|].
  intros fd' y. destruct (decide (fd' = fd)) as [->|Hn].
  - rewrite lookup_insert_eq. by intros [= <-].
  - rewrite lookup_insert_ne by done. intros Hy. destruct (Ho fd' Hn) as [-> ->]. by apply A2.
Qed.

(** The interest set answers which descriptors are registered. *)
Lemma agrees_lookup r m fd : agrees r m →
  ep_interest (epoll_fd r) !! fd = events_to_epoll <$> (rg_events <$> m !! fd).
Proof. intros [-> _]. rewrite lookup_fmap. by destruct (m !! fd). Qed.

(** A call the kernel accepts. *)
Lemma epoll_call_accepted r m op r' :
  agrees r m → epoll_call r op = (r', 0%Z) → (spec_op m op).2 = 0%Z ∧ agrees r' (spec_op m op).1.
Proof.
  intros HA. destruct op as [fd ev c|fd ev c|fd|e fd c]; cbn [epoll_call].
  - intros E. unfold spec_op, spec_add. destruct (fd <? 0)%Z eqn:N; breflect.
    { unfold epoll_runtime_add in E. rewrite (proj2 (Z.ltb_lt _ _) N) in E. done. }
    pose proof (add_effect r fd ev c N) as L. rewrite E in L. cbn in L.
    destruct L as (C & V & _ & I & [[_ Hn]|?]); [|done].
    rewrite (agrees_lookup _ _ _ HA) in Hn. destruct (m !! fd) eqn:M; [done|]. split; [done|].
    eapply agrees_insert; [exact HA|exact I| |by rewrite C, decide_True|by rewrite V, decide_True].
    intros fd' Hd. by rewrite C, V, !decide_False.
  - intros E. unfold spec_op. destruct (fd <? 0)%Z eqn:N; breflect.
    { unfold epoll_runtime_modify in E. rewrite (proj2 (Z.ltb_lt _ _) N) in E. done. }
    pose proof (modify_effect r fd ev c N) as L. rewrite E in L. cbn in L.
    destruct L as (C & V & I & [[_ [y Hn]]|?]); [|done].
    rewrite (agrees_lookup _ _ _ HA) in Hn. destruct (m !! fd) as [x|] eqn:M; [|done]. split; [done|].
    destruct (proj2 HA _ _ M) as [Hc Hv].
    eapply agrees_insert; [exact HA|exact I| | |].
    + intros fd' Hd. rewrite C, V, decide_False by tauto. done.
    + rewrite C, Hc. cbn [rg_context]. destruct (c =? 0) eqn:Z0; breflect.
      * by rewrite decide_False by tauto.
      * by rewrite decide_True.
    + by rewrite V.
  - intros E. unfold spec_op. destruct (fd <? 0)%Z eqn:N; breflect.
    { unfold epoll_runtime_remove in E. rewrite (proj2 (Z.ltb_lt _ _) N) in E. done. }
    pose proof (remove_effect r fd N) as L. rewrite E in L. cbn in L.
    destruct L as (C & V & I & [[_ [y Hn]]|?]); [|done].
    rewrite (agrees_lookup _ _ _ HA) in Hn. destruct (m !! fd) as [x|] eqn:M; [|done]. split; [done|].
    split; [rewrite I, (proj1 HA); cbn; by rewrite fmap_delete|]. cbn [fst]. intros fd' y' Hy.
    apply lookup_delete_Some in Hy as [Hne Hy]. rewrite C, V, !decide_False by done. by apply (proj2 HA).
  - unfold epoll_runtime_add_event. intros E. destruct (fd =? -1)%Z eqn:N1; [done|]. breflect.
    unfold spec_op, spec_add. destruct (fd <? 0)%Z eqn:N; breflect.
    { unfold epoll_runtime_add in E. rewrite (proj2 (Z.ltb_lt _ _) N) in E. done. }
    pose proof (add_effect r fd EVENT_READ c N) as L.
    destruct (epoll_runtime_add r fd EVENT_READ c) as [r1 x].
    destruct L as (C & V & Hl & I & [[-> Hn]| -> ]); [|done]. change (0 <? 0)%Z with false in E. injection E as <-.
    rewrite (agrees_lookup _ _ _ HA) in Hn. destruct (m !! fd) eqn:M; [done|]. split; [done|].
    assert (V' : ∀ fd', event_of {| epoll_fd := epoll_fd r1; fd_contexts := fd_contexts r1;
      fd_events := <[Z.to_nat fd := Some e]> (fd_events r1) |} fd'
      = if decide (fd' = fd) then Some e else event_of r1 fd') by (intros; by apply event_of_store).
    eapply agrees_insert; [exact HA|exact I| | |].
    + intros fd' Hd. rewrite V', decide_False, V, decide_False by done. split; [|done].
      transitivity (context_of r1 fd'); [done|]. by rewrite C, decide_False.
    + transitivity (context_of r1 fd); [done|]. by rewrite C, decide_True.
    + by rewrite V', decide_True.
Qed.

(** A call the kernel refuses. *)
Lemma epoll_call_refused r op r' x :
  epoll_call r op = (r', x) → x ≠ 0%Z →
  x = (-1)%Z ∧ ep_interest (epoll_fd r') = ep_interest (epoll_fd r)
  ∧ ∀ fd, fd ≠ op_fd op → context_of r' fd = context_of r fd ∧ event_of r' fd = event_of r fd.
Proof.
  destruct op as [fd ev c|fd ev c|fd|e fd c]; cbn [epoll_call op_fd]; intros E Hx.
  - destruct (decide (fd < 0)%Z) as [N|N].
    { unfold epoll_runtime_add in E. rewrite (proj2 (Z.ltb_lt _ _) N) in E. by simplify_eq. }
    pose proof (add_effect r fd ev c ltac:(lia)) as L. rewrite E in L.
    destruct L as (C & V & _ & I & [[-> _]| -> ]); [done|]. split_and!; [done..|].
    intros fd' Hd. by rewrite C, V, !decide_False.
  - destruct (decide (fd < 0)%Z) as [N|N].
    { unfold epoll_runtime_modify in E. rewrite (proj2 (Z.ltb_lt _ _) N) in E. by simplify_eq. }
    pose proof (modify_effect r fd ev c ltac:(lia)) as L. rewrite E in L.
    destruct L as (C & V & I & [[-> _]| -> ]); [done|]. split; [done|]. split; [exact I|].
    intros fd' Hd. rewrite C, V, decide_False by tauto. done.
  - destruct (decide (fd < 0)%Z) as [N|N].
    { unfold epoll_runtime_remove in E. rewrite (proj2 (Z.ltb_lt _ _) N) in E. by simplify_eq. }
    pose proof (remove_effect r fd ltac:(lia)) as L. rewrite E in L.
    destruct L as (C & V & I & [[-> _]| -> ]); [done|]. split; [done|]. split; [exact I|].
    intros fd' Hd. by rewrite C, V, !decide_False.
  - unfold epoll_runtime_add_event in E. destruct (fd =? -1)%Z eqn:N1; [by simplify_eq|]. breflect.
    destruct (decide (fd < 0)%Z) as [N|N].
    { unfold epoll_runtime_add in E. rewrite (proj2 (Z.ltb_lt _ _) N) in E. cbv beta iota zeta in E. change (-1 <? 0)%Z with true in E. cbv iota in E. by simplify_eq. }
    pose proof (add_effect r fd EVENT_READ c ltac:(lia)) as L.
    destruct (epoll_runtime_add r fd EVENT_READ c) as [r1 y].
    destruct L as (C & V & _ & I & [[-> _]| -> ]).
    { change (0 <? 0)%Z with false in E. cbv iota in E. by simplify_eq. }
    change (-1 <? 0)%Z with true in E. cbv iota in E. simplify_eq. split_and!; [done..|].
    intros fd' Hd. by rewrite C, V, !decide_False.
Qed.

(** ** The eventfd: completions and wake-ups *)

(** The counter of a nonblocking eventfd (documented in eventfd(2)): a write adds
    to it and is refused when the sum would exceed 2^64 - 2; a read takes all of
    it and fails when it is 0. *)
Definition eventfd_write (counter val : Z) : Z * bool :=
  if (counter + val <=? 0xFFFFFFFFFFFFFFFE)%Z && negb (val =? 0xFFFFFFFFFFFFFFFF)%Z
  then (counter + val, true)%Z else (counter, false).
Definition eventfd_read (counter : Z) : Z * option Z :=
  if (counter =? 0)%Z then (0%Z, None) else (0%Z, Some counter).

Definition epoll_runtime_wakeup (counter : Z) : Z * Z :=
  let '(c, ok) := eventfd_write counter 1 in (c, if ok then 0%Z else (-1)%Z).

Definition epoll_post_completion (counter completion_key data : Z) : Z * Z :=
  let '(c, ok) := eventfd_write counter (encode_completion completion_key data) in
  (c, if ok then 0%Z else (-1)%Z).

(** [while (read(...) == sizeof(val))]: one event per value read, dropped when the
    caller's array is full. *)
Fixpoint drain_eventfd (fuel room : nat) (counter : Z) : Z * list io_event :=
  match fuel with
  | 0 => (counter, [])
  | S n =>
      match eventfd_read counter with
      | (c, None) => (c, [])
      | (c, Some val) =>
          match room with
          | 0 => drain_eventfd n 0 c
          | S k => let '(c', es) := drain_eventfd n k c in (c', decode_completion val :: es)
          end
      end
  end.

(** ** Waiting *)

Definition MAX_EVENTS : nat := 64.

(** An entry of [epoll_wait]'s answer, with what [async_event_wait(event, 0)]
    answers if the descriptor belongs to an auto-reset event. *)
Record ready := { rd_fd : Z; rd_events : Z; rd_auto_reset : bool; rd_consumed : bool }.

Definition epoll_report (r : epoll_runtime) (x : ready) : list io_event :=
  match event_of r (rd_fd x) with
  | Some _ => if rd_auto_reset x && negb (rd_consumed x) then []
              else [{| io_fd := rd_fd x; io_completion_key := 0; io_context := Z.of_nat (context_of r (rd_fd x));
                       io_event_type := epoll_to_events (rd_events x); io_bytes := 0 |}]
  | None => [{| io_fd := rd_fd x; io_completion_key := 0; io_context := Z.of_nat (context_of r (rd_fd x));
                io_event_type := epoll_to_events (rd_events x); io_bytes := 0 |}]
  end.

Fixpoint epoll_collect (r : epoll_runtime) (event_fd : Z) (room : nat) (counter : Z) (xs : list ready)
    : Z * list io_event :=
  match xs with
  | [] => (counter, [])
  | x :: rest =>
      match room with
      | 0 => (counter, [])
      | S _ =>
          let '(c, new) := if (rd_fd x =? event_fd)%Z then drain_eventfd 2 room counter
                           else (counter, epoll_report r x) in
          let '(c', es) := epoll_collect r event_fd (room - length new) c rest in (c', new ++ es)
      end
  end.

(** [async_runtime_wait]; [xs] is what the kernel has ready, of which [epoll_wait]
    answers at most [max_epoll_events], and [None] its failure with whether
    [errno] is [EINTR].  The result is the counter, the events and the returned
    number. *)
Definition epoll_runtime_wait (r : epoll_runtime) (event_fd counter : Z) (max_events : nat)
    (answer : bool + list ready) : Z * list io_event * Z :=
  if max_events =? 0 then (counter, [], -1)%Z
  else
    match answer with
    | inl eintr => (counter, [], if eintr then 0%Z else (-1)%Z)
    | inr xs =>
        let '(c, es) := epoll_collect r event_fd max_events counter (take (Nat.min max_events MAX_EVENTS) xs) in
        (c, es, Z.of_nat (length es))
    end.

(** ** Lemmas *)

(** Two reads are enough: the first takes the whole counter. *)
Lemma drain_eventfd_two fuel room counter :
  2 ≤ fuel → drain_eventfd fuel room counter = drain_eventfd 2 room counter.
Proof.
  destruct fuel as [|[|fuel]]; [lia..|]. intros _. cbn [drain_eventfd]. unfold eventfd_read.
  destruct (counter =? 0)%Z; [done|]. by destruct room.
Qed.

Lemma drain_eventfd_value room counter : counter ≠ 0%Z →
  drain_eventfd 2 (S room) counter = (0%Z, [decode_completion counter]).
Proof. intros H0. cbn [drain_eventfd]. unfold eventfd_read. by rewrite (proj2 (Z.eqb_neq _ _) H0). Qed.

Lemma drain_eventfd_empty room : drain_eventfd 2 room 0 = (0%Z, []).
Proof. done. Qed.

(** What a wait reports for an entry when the counter holds [counter]. *)
Definition epoll_expected (r : epoll_runtime) (event_fd counter : Z) (x : ready) : list io_event :=
  if (rd_fd x =? event_fd)%Z then (if (counter =? 0)%Z then [] else [decode_completion counter])
  else epoll_report r x.

(** Entries that are not the eventfd. *)
Lemma epoll_collect_plain r event_fd room counter c' xs :
  event_fd ∉ map rd_fd xs → length (concat (map (epoll_expected r event_fd c') xs)) ≤ room →
  epoll_collect r event_fd room counter xs = (counter, concat (map (epoll_expected r event_fd c') xs)).
Proof.
  revert room. induction xs as [|x xs IH]; intros room Hin Hl; [done|].
  cbn [map] in *. apply not_elem_of_cons in Hin as [Hx Hin]. rewrite length_concat_app in Hl.
  assert (E : epoll_expected r event_fd c' x = epoll_report r x)
    by (unfold epoll_expected; by rewrite (proj2 (Z.eqb_neq _ _))).
  rewrite E in *. change (concat (epoll_report r x :: ?l)) with (epoll_report r x ++ concat l).
  cbn [epoll_collect]. destruct room as [|room].
  { destruct (epoll_report r x); [|cbn in Hl; lia].
    by destruct (concat (map (epoll_expected r event_fd c') xs)); [|cbn in Hl; lia]. }
  rewrite (proj2 (Z.eqb_neq _ _)) by done. rewrite IH by (done || lia). done.
Qed.

(** With no room left nothing more is expected, so the eventfd is not readable. *)
Lemma epoll_collect_full r event_fd counter xs :
  concat (map (epoll_expected r event_fd counter) xs) = [] →
  epoll_collect r event_fd 0 counter xs
  = (if bool_decide (event_fd ∈ map rd_fd xs) then 0%Z else counter, []).
Proof.
  intros He. transitivity (counter, @nil io_event); [by destruct xs|]. f_equal.
  case_bool_decide as Hin; [|done]. apply list_elem_of_fmap in Hin as (x & -> & Hx).
  destruct (decide (counter = 0%Z)) as [->|H0]; [done|].
  apply list_elem_of_lookup in Hx as [i Hi]. apply concat_nil_Forall in He.
  rewrite Forall_lookup in He. specialize (He i (epoll_expected r (rd_fd x) counter x)).
  rewrite list_lookup_fmap, Hi in He. specialize (He eq_refl). unfold epoll_expected in He.
  by rewrite Z.eqb_refl, (proj2 (Z.eqb_neq _ _) H0) in He.
Qed.

Lemma epoll_collect_all r event_fd room counter xs :
  NoDup (map rd_fd xs) → length (concat (map (epoll_expected r event_fd counter) xs)) ≤ room →
  epoll_collect r event_fd room counter xs
  = (if bool_decide (event_fd ∈ map rd_fd xs) then 0%Z else counter,
     concat (map (epoll_expected r event_fd counter) xs)).
Proof.
  revert room. induction xs as [|x xs IH]; intros room Hn Hl; [done|]. destruct room as [|room].
  { assert (E : concat (map (epoll_expected r event_fd counter) (x :: xs)) = [])
      by (apply nil_length_inv; lia). rewrite E. by apply epoll_collect_full. }
  cbn [map] in *. apply NoDup_cons in Hn as [Hx Hn]. rewrite length_concat_app in Hl.
  change (concat (epoll_expected r event_fd counter x :: ?l)) with (epoll_expected r event_fd counter x ++ concat l).
  cbn [epoll_collect]. destruct (decide (rd_fd x = event_fd)) as [Ex|Ex].
  - rewrite <- Ex in *. rewrite bool_decide_true by left. rewrite Z.eqb_refl. unfold epoll_expected at 1.
    unfold epoll_expected at 1 in Hl. rewrite Z.eqb_refl in *.
    destruct (counter =? 0)%Z eqn:E0; breflect.
    + subst counter. rewrite drain_eventfd_empty. cbn [length] in *. rewrite Nat.sub_0_r.
      by rewrite (epoll_collect_plain _ _ _ _ 0%Z) by (done || lia).
    + rewrite drain_eventfd_value by done. cbn [length] in *.
      by rewrite (epoll_collect_plain _ _ _ _ counter) by (done || lia).
  - assert (E : epoll_expected r event_fd counter x = epoll_report r x)
      by (unfold epoll_expected; by rewrite (proj2 (Z.eqb_neq _ _))).
    rewrite E in *. rewrite (proj2 (Z.eqb_neq _ _)) by done.
    rewrite IH by (done || lia). f_equal.
    repeat case_bool_decide; try done; rewrite elem_of_cons in *; naive_solver.
Qed.

(** ** Theorems *)

(** The epoll runtime's registrations are the same map the poll() runtime
    keeps.  A call the kernel accepts is a call the map accepts, and afterwards
    the kernel watches exactly the map's descriptors for the events asked for,
    with the map's contexts and events in the vectors.  A call that fails
    answers -1, leaves the interest set as it was, and touches the context and
    event of no descriptor but its own. *)
Theorem epoll_registration_refines_map r m op r' x :
  agrees r m → epoll_call r op = (r', x) →
  (x = 0%Z → (spec_op m op).2 = 0%Z ∧ agrees r' (spec_op m op).1)
  ∧ (x ≠ 0%Z → x = (-1)%Z ∧ ep_interest (epoll_fd r') = ep_interest (epoll_fd r)
       ∧ ∀ fd, fd ≠ op_fd op → context_of r' fd = context_of r fd ∧ event_of r' fd = event_of r fd).
Proof.
  intros HA HE. split; [intros ->; by apply (epoll_call_accepted r m)|]. by apply epoll_call_refused.
Qed.

(** A refused registration of a descriptor that is registered already is not
    without effect.  The answer is -1, the descriptor is still watched, but its
    context is the refused call's and its event is forgotten, so the events
    that follow are reported with the wrong context. *)
Theorem epoll_add_twice_clobbers r fd events context ev :
  (0 ≤ fd)%Z → ep_interest (epoll_fd r) !! fd = Some ev →
  let '(r', x) := epoll_runtime_add r fd events context in
  x = (-1)%Z ∧ ep_interest (epoll_fd r') !! fd = Some ev
  ∧ context_of r' fd = context ∧ event_of r' fd = None.
Proof.
  intros Hfd Hev. pose proof (add_effect r fd events context Hfd) as L.
  destruct (epoll_runtime_add r fd events context) as [r' x].
  destruct L as (C & V & _ & I & [[_ Hn]| -> ]); [congruence|].
  change (-1 =? 0)%Z with false in I. rewrite I, C, V, !decide_True by done. done.
Qed.

(** One wait reports everything that is ready, once, in the kernel's order and
    with the registered context, and empties the eventfd: a completion posted
    to an empty eventfd is delivered with its key and its data, as long as the
    events fit the caller's array and the limit of 64. *)
Theorem epoll_wait_complete r event_fd key data max_events xs :
  (0 < max_events)%nat → NoDup (map rd_fd xs) → length xs ≤ Nat.min max_events MAX_EVENTS →
  (0 < key < 2 ^ 31)%Z → (0 ≤ data < 2 ^ 32)%Z → event_fd ∈ map rd_fd xs →
  let counter := (epoll_post_completion 0 key data).1 in
  let es := concat (map (fun x => if (rd_fd x =? event_fd)%Z then [completion_event key data]
                                  else epoll_report r x) xs) in
  epoll_runtime_wait r event_fd counter max_events (inr xs) = (0%Z, es, Z.of_nat (length es)).
Proof.
  intros Hm Hn Hl Hk Hd Hin counter es.
  assert (Ec : counter = encode_completion key data).
  { unfold counter, epoll_post_completion, eventfd_write. rewrite encode_range by lia.
    rewrite Z.mod_small by lia. rewrite (proj2 (Z.leb_le _ _)), (proj2 (Z.eqb_neq _ _)) by lia. done. }
  assert (C0 : counter ≠ 0%Z) by (rewrite Ec, encode_range, Z.mod_small by lia; lia).
  assert (Ee : ∀ x, epoll_expected r event_fd counter x
    = if (rd_fd x =? event_fd)%Z then [completion_event key data] else epoll_report r x).
  { intros x. unfold epoll_expected. rewrite (proj2 (Z.eqb_neq _ _) C0), Ec.
    by rewrite decode_encode by lia. }
  assert (Es : concat (map (epoll_expected r event_fd counter) xs) = es)
    by (unfold es; f_equal; by apply map_ext).
  assert (L : length es ≤ length xs).
  { rewrite <- Es. clear. induction xs as [|x xs IH]; [done|]. cbn [map]. rewrite length_concat_app. cbn [length].
    assert (length (epoll_expected r event_fd counter x) ≤ 1); [|lia].
    unfold epoll_expected, epoll_report. repeat case_match; cbn; lia. }
  unfold epoll_runtime_wait. rewrite (proj2 (Nat.eqb_neq _ _)) by lia. rewrite firstn_all2 by lia.
  rewrite epoll_collect_all, Es, bool_decide_true by (done || (rewrite ?Es; lia)). done.
Qed.

(** Completions that wait in the eventfd together are lost.  Two posts before
    a wait are added up by the kernel: the wait delivers a single event, whose
    key and data are the sums of the posted ones. *)
Theorem epoll_completions_merge key1 data1 key2 data2 room :
  (0 < key1 < 2 ^ 31)%Z → (0 < key2)%Z → (key1 + key2 < 2 ^ 31)%Z →
  (0 ≤ data1)%Z → (0 ≤ data2)%Z → (data1 + data2 < 2 ^ 32)%Z →
  let '(c1, x1) := epoll_post_completion 0 key1 data1 in
  let '(c2, x2) := epoll_post_completion c1 key2 data2 in
  x1 = 0%Z ∧ x2 = 0%Z
  ∧ drain_eventfd 2 (S room) c2 = (0%Z, [completion_event (key1 + key2) (data1 + data2)]).
Proof.
  intros Hk1 Hk2 Hk Hd1 Hd2 Hd. unfold epoll_post_completion, eventfd_write.
  rewrite !encode_range by lia. rewrite !Z.mod_small by lia.
  rewrite (proj2 (Z.leb_le _ _)), (proj2 (Z.eqb_neq _ _)) by lia. cbn [andb negb].
  rewrite (proj2 (Z.leb_le _ _)), (proj2 (Z.eqb_neq _ _)) by lia. cbn [andb negb].
  split_and!; [done..|]. rewrite drain_eventfd_value by lia. do 2 f_equal.
  rewrite <- decode_encode by lia. f_equal. rewrite encode_range, Z.mod_small by lia. lia.
Qed.
End EpollRuntime.

(** ** Witnesses *)

(** A kernel that accepts what epoll_ctl(2) documents as valid. *)
#[export] Instance plain_epoll : Epoll.
Proof.
  refine {| ep := gmap Z Z; ep_interest := fun e => e;
    ep_add := fun e fd ev => match e !! fd with None => (<[fd := ev]> e, true) | Some _ => (e, false) end;
    ep_mod := fun e fd ev => match e !! fd with Some _ => (<[fd := ev]> e, true) | None => (e, false) end;
    ep_del := fun e fd => match e !! fd with Some _ => (delete fd e, true) | None => (e, false) end |};
  intros; destruct (e !! fd) eqn:E; split; (reflexivity || done || by eexists).
Defined.

(** The runtime after [async_runtime_init], its eventfd being descriptor 4. *)
Definition epoll_init : epoll_runtime :=
  {| epoll_fd := ({[4%Z := EPOLLIN]} : @ep plain_epoll); fd_contexts := []; fd_events := [] |}.

Definition epoll_init_map : gmap Z reg := {[4%Z := {| rg_events := EVENT_READ; rg_context := 0; rg_event := None |}]}.

Lemma epoll_init_agrees : agrees epoll_init epoll_init_map.
Proof.
  split; [reflexivity|]. intros fd x. unfold epoll_init_map. rewrite lookup_singleton_Some. by intros [<- <-].
Qed.

Lemma epoll_registration_refines_map_witness :
  let r := (epoll_call epoll_init (PAdd 7 EVENT_READ 5)).1 in
  agrees r (spec_op epoll_init_map (PAdd 7 EVENT_READ 5)).1.
Proof.
  refine (proj2 (proj1 (epoll_registration_refines_map epoll_init epoll_init_map (PAdd 7 EVENT_READ 5) _ 0%Z
    epoll_init_agrees eq_refl) eq_refl)).
Defined.

Lemma epoll_add_twice_clobbers_witness :
  let r := (epoll_call epoll_init (PAddEvent 9 7 5)).1 in
  let '(r', x) := epoll_runtime_add r 7 EVENT_READ 6 in
  x = (-1)%Z ∧ context_of r 7 = 5 ∧ context_of r' 7 = 6 ∧ event_of r 7 = Some 9 ∧ event_of r' 7 = None.
Proof.
  pose proof (epoll_add_twice_clobbers (epoll_call epoll_init (PAddEvent 9 7 5)).1 7 EVENT_READ 6 EPOLLIN
    ltac:(lia) eq_refl) as (A & _ & B & C). exact (conj A (conj eq_refl (conj B (conj eq_refl C)))).
Defined.

Lemma epoll_wait_complete_witness :
  let r := (epoll_call epoll_init (PAdd 7 EVENT_READ 5)).1 in
  epoll_runtime_wait r 4 (epoll_post_completion 0 0x10 3).1 8
    (inr [{| rd_fd := 7; rd_events := EPOLLIN; rd_auto_reset := false; rd_consumed := false |};
          {| rd_fd := 4; rd_events := EPOLLIN; rd_auto_reset := false; rd_consumed := false |}])
  = (0%Z, [{| io_fd := 7; io_completion_key := 0; io_event_type := EVENT_READ; io_context := 5; io_bytes := 0 |};
           completion_event 0x10 3], 2%Z).
Proof.
  cbn zeta.
  refine (epoll_wait_complete (epoll_call epoll_init (PAdd 7 EVENT_READ 5)).1 4 0x10 3 8 _ _ _ _ _ _ _);
    [lia| |cbn; unfold MAX_EVENTS; lia|lia|lia|].
  - cbn. apply NoDup_cons. split; [by rewrite list_elem_of_singleton|apply NoDup_singleton].
  - cbn. right. left.
Defined.

Lemma epoll_completions_merge_witness :
  drain_eventfd 2 64 (epoll_post_completion (epoll_post_completion 0 0x10 3).1 0x20 4).1
  = (0%Z, [completion_event 0x30 7]).
Proof.
  refine (proj2 (proj2 (epoll_completions_merge 0x10 3 0x20 4 63 _ _ _ _ _ _))); lia.
Defined.
