(* ===== verification/FileInput.v ===== *)
(** * Queued input: the file reader (lib/comm/file_input.cpp)

    A reader thread moves a file into the bounded queue in chunks; every turn of
    the event loop empties the queue into the slot's input buffer, parses it,
    and shuts the server down once the reader has seen the end of the file.
    [feed_loop] and [comm_process_file_input] are the sequential pass over the
    queue and the slot; [file_step] interleaves the reader and the loop with the
    two mutexes they take. *)

From stdpp Require Import relations.
From S2P Require Import Prelude AsyncQueue TextUtil InBuf OutBuf Abstract Execution WsFrame WsConn HttpUpgrade World Outbound Inbound.

(** ** The pass over the queue *)

Section Feed.
Context `{Host, MultiByte, WsCrypto}.

(** [if (len > 0 && buffer[len - 1] == 0) --len;] *)
Definition strip_nul (m : list Z) : list Z :=
  match last m with Some 0%Z => removelast m | _ => m end.

(** [comm_refill_inbound_buffers(comm, src, size)]; a slot with TLS over a socket
    BIO reads its own transport. *)
Definition comm_refill_inbound_data (src : list Z) (w : world) : world * bool :=
  match comm w with
  | None => (w, false)
  | Some c => match ssl c with
              | Some _ => comm_refill_inbound_buffers w
              | None => refill_from_src src w
              end
  end.

(** The dequeue loop; the boolean is [false] when a refill failed.  [fuel] bounds
    the number of queued messages. *)
Fixpoint feed_loop (fuel : nat) (q : AsyncQueue.async_queue) (w : world)
    : AsyncQueue.async_queue * world * bool :=
  match fuel with
  | 0 => (q, w, true)
  | S n =>
      match AsyncQueue.async_queue_dequeue q 4096 with
      | (q', None) => (q', w, true)
      | (q', Some m) =>
          let '(w', ok) := comm_refill_inbound_data (strip_nul m) w in
          if ok then feed_loop n q' w' else (q', w', false)
      end
  end.

(** [comm_process_file_input] with a queue, and [file_input_eof]. *)
Definition comm_process_file_input (q : AsyncQueue.async_queue) (eof : bool) (w : world)
    : AsyncQueue.async_queue * world * Z :=
  let '(q, w, _) := feed_loop (S (AsyncQueue.count q)) q w in
  let '(w, _) := comm_process_input None w in
  if eof then (q, emit w EServerShutdown, 0%Z) else (q, w, 1%Z).

(** ** Refilling a plain slot *)

(** A line slot without telnet, WebSocket or TLS in the way of its bytes. *)
Record plain_slot (w : world) (c : comm_abstract) (b : inbound_buffer) : Prop := {
  pl_line : line_slot w c b;
  pl_ssl : ssl c = None;
  pl_telnet : has_flag (flags c) C_ENABLE_TELNET = false
}.

Lemma with_inbound_id w c b : comm w = Some c → inbound c = [b] → with_inbound w [b] = w.
Proof.
  destruct w, c. cbn. intros [= ->]. unfold with_inbound. cbn. intros ->. reflexivity.
Qed.

Lemma with_inbound_twice w c i j : comm w = Some c → with_inbound (with_inbound w i) j = with_inbound w j.
Proof. intros E. unfold with_inbound. rewrite E. cbn. by destruct w. Qed.

(** Without a telnet decoder the fill loop is the raw one. *)
Lemma fill_loop_raw fuel src w c b :
  comm w = Some c → inbound c = [b] → is_data b = true → ib_ok b →
  has_flag (flags c) C_ENABLE_TELNET = false →
  fill_loop fuel 0 src false w
  = (with_inbound w (fill_raw fuel [b] src).1, (fill_raw fuel [b] src).2).
Proof.
  revert src w c b. induction fuel as [|n IH]; intros src w c b Hc Hi Hd Hb Ht.
  { cbn. by rewrite (with_inbound_id w c b). }
  cbn [fill_loop fill_raw]. destruct src as [|x src0]; [cbn; by rewrite (with_inbound_id w c b)|].
  set (src := x :: src0). change (length src =? 0) with false. cbv iota. rewrite Hc, Hi. cbn [lookup list_lookup].
  destruct (compact_buffer_spec b Hb) as (R1 & R2 & R3 & R4 & R5). change (<[0:=compact_buffer b]> [b])
    with [compact_buffer b]. set (b1 := compact_buffer b) in *.
  assert (D1 : is_data b1 = true) by (by rewrite R3). rewrite D1. cbn [negb].
  set (m := Nat.min (length src) (kInboundSize - ib_end b1)).
  destruct (m =? 0) eqn:Em; [done|]. unfold decodes_telnet. rewrite Ht. cbn [andb].
  set (w1 := with_inbound w [b1]).
  assert (C1 : comm w1 = Some (set_inbound c [b1])) by (unfold w1, with_inbound; by rewrite Hc).
  set (b2 := {| ib_band := ib_band b1; ib_start := ib_start b1; ib_data := ib_data b1 ++ take m src |}).
  assert (E2 : append_buffer 0 (take m src) w1 = with_inbound w [b2]).
  { unfold append_buffer, deref. rewrite C1. cbn [set_inbound inbound lookup list_lookup].
    change (with_inbound w1 [b2] = with_inbound w [b2]). by apply (with_inbound_twice w c). }
  rewrite E2. erewrite (IH (drop m src) (with_inbound w [b2]) (set_inbound c [b2]) b2); try done.
  - by rewrite (with_inbound_twice w c).
  - unfold with_inbound. by rewrite Hc.
  - unfold ib_ok, ib_end, b2 in *. cbn [ib_start ib_data]. rewrite length_app, length_take. unfold ib_ok, ib_end in R1. lia.
Qed.

Lemma refill_plain src w c b :
  plain_slot w c b →
  ∃ b', refill_from_src src w = (with_inbound w [b'], length src <=? ib_free b)
    ∧ ib_ok b' ∧ is_data b' = true ∧ ib_pending b' = ib_pending b ++ take (ib_free b) src.
Proof.
  intros [[Hc Hi Hd Hb _ _ [Hw1 Hw2] _] Hs Ht]. unfold refill_from_src. rewrite Hc, Hi. cbn zeta.
  assert (Io : inbound_of w = [b]) by (unfold inbound_of; by rewrite Hc). rewrite Io. cbn [refill_index length].
  destruct (fill_raw_single (S (length src + 1)) b src Hb Hd) as (b' & E & Hb' & Hd' & Hp).
  { unfold fill_turns. destruct (ib_end b =? kInboundSize), (ib_start b =? 0); lia. }
  rewrite (fill_loop_raw _ _ _ c b) by done. rewrite E. cbn [fst snd].
  exists b'. split_and!; try done. f_equal.
  - unfold deref, with_inbound. rewrite Hc. cbn [comm with_comm]. unfold upgrade_pending.
    change (flags (set_inbound c [b'])) with (flags c). by rewrite Hw1.
  - rewrite length_drop. apply eq_true_iff_eq. rewrite Nat.eqb_eq, Nat.leb_le. lia.
Qed.

(** ** Feeding a plain slot *)

(** Whether the scheduler holds the slot does not depend on its received bytes. *)
Class BusyScheduler := busy_scheduler : ∀ w i, busy (with_inbound w i) = busy w.

Context {sched : BusyScheduler}.

(** The chunks [ms] as the reader queues them, each with a final NUL. *)
Definition queued (q : AsyncQueue.async_queue) (ms : list (list Z)) : Prop :=
  AsyncQueue.wf q ∧ AsyncQueue.contents q = map (fun m => m ++ [0%Z]) ms.

Definition chunk (m : list Z) : Prop := 0 < length m < 4096.

Lemma strip_nul_snoc m : strip_nul (m ++ [0%Z]) = m.
Proof. unfold strip_nul. rewrite last_snoc. apply removelast_last. Qed.

Lemma dequeue_queued q m ms : queued q (m :: ms) → chunk m →
  ∃ q', AsyncQueue.async_queue_dequeue q 4096 = (q', Some (m ++ [0%Z])) ∧ queued q' ms.
Proof.
  intros [W C] Hm. pose proof (represents_dequeue q _ 4096 (conj W eq_refl)) as [[W' R] E].
  rewrite C in R, E. unfold FifoSpec.dequeue in R, E. cbn [FifoSpec.msgs map] in R, E.
  assert (L : (4096 <? length (m ++ [0%Z])) = false)
    by (rewrite length_app; apply Nat.ltb_ge; destruct Hm; cbn [length]; lia).
  rewrite L in R, E. cbn [fst snd] in R, E. destruct (AsyncQueue.async_queue_dequeue q 4096) as [q' x].
  cbn [fst snd] in *. subst x. exists q'. split; [done|]. split; [done|]. injection R. by intros.
Qed.

Lemma dequeue_none q : queued q [] → (AsyncQueue.async_queue_dequeue q 4096).2 = None
  ∧ queued (AsyncQueue.async_queue_dequeue q 4096).1 [].
Proof.
  intros [W C]. pose proof (represents_dequeue q _ 4096 (conj W eq_refl)) as [[W' R] E].
  rewrite C in R, E. cbn in R, E. split; [done|]. split; [done|]. injection R. by intros.
Qed.

Lemma plain_with_inbound w c b b' :
  plain_slot w c b → ib_ok b' → is_data b' = true →
  plain_slot (with_inbound w [b']) (set_inbound c [b']) b'.
Proof.
  intros [[Hc Hi Hd Hb Hl Ha Hw Hbu] Hs Ht] Hb' Hd'. split; [|done|done].
  split; try done; [unfold with_inbound; by rewrite Hc|by rewrite busy_scheduler].
Qed.

(** Chunks that fit are appended one after the other. *)
Lemma feed_fits ms n q w c b rest :
  plain_slot w c b → queued q (ms ++ rest) → Forall chunk ms →
  length (concat ms) ≤ ib_free b →
  ∃ q' b', feed_loop (length ms + n) q w = feed_loop n q' (with_inbound w [b'])
    ∧ queued q' rest ∧ plain_slot (with_inbound w [b']) (set_inbound c [b']) b'
    ∧ ib_pending b' = ib_pending b ++ concat ms.
Proof.
  revert q w c b. induction ms as [|m ms IH]; intros q w c b Hp Hq Hm Hl.
  { pose proof Hp as [[Hc Hi Hd Hb _ _ _ _] _ _]. exists q, b. cbn [app length concat Nat.add].
    rewrite (with_inbound_id w c b), app_nil_r by done. split_and!; [done..| |done].
    pose proof (plain_with_inbound w c b b Hp Hb Hd) as P. by rewrite (with_inbound_id w c b) in P. }
  apply Forall_cons in Hm as [Hm Hms]. cbn [app] in Hq. change (concat (m :: ms)) with (m ++ concat ms) in *.
  rewrite length_app in Hl. destruct (dequeue_queued q m (ms ++ rest) Hq Hm) as (q1 & E1 & Q1).
  cbn [length Nat.add feed_loop]. rewrite E1, strip_nul_snoc. unfold comm_refill_inbound_data.
  pose proof Hp as [[Hc Hi Hd Hb _ _ _ _] Hs _]. rewrite Hc, Hs.
  destruct (refill_plain m w c b Hp) as (b1 & E2 & Hb1 & Hd1 & P1). rewrite E2.
  rewrite (proj2 (Nat.leb_le _ _)) by lia. rewrite take_ge in P1 by lia.
  pose proof (plain_with_inbound w c b b1 Hp Hb1 Hd1) as Hp1.
  destruct (IH q1 _ _ b1 Hp1 Q1 Hms) as (q' & b' & E & Q & Hp' & P).
  { unfold ib_free in *. rewrite P1, length_app. lia. }
  rewrite (with_inbound_twice w c) in E, Hp' by done. exists q', b'.
  split_and!; [done..|]. by rewrite P, P1, app_assoc.
Qed.

(** An empty queue ends the loop. *)
Lemma feed_empty n q w : queued q [] → 
  ∃ q', feed_loop (S n) q w = (q', w, true) ∧ queued q' [].
Proof.
  intros Hq. destruct (dequeue_none q Hq) as [E Q]. cbn [feed_loop].
  destruct (AsyncQueue.async_queue_dequeue q 4096) as [q' x]. cbn in E. subst x. by exists q'.
Qed.

Context {laws : LineHost}.

(** A file reaches the application line by line.  When the queued chunks fit
    the slot's input buffer, one turn of the loop empties the queue and calls
    the inbound hook once for every line that is complete, in file order and
    across chunk boundaries, keeps the incomplete rest, and shuts the server
    down exactly when the end of the file was seen. *)
Theorem file_lines_delivered q eof w c b ms ls tail :
  plain_slot w c b → queued q ms → Forall chunk ms → length (concat ms) ≤ ib_free b →
  framed (ib_pending b ++ concat ms) ls tail →
  ∃ q' w', comm_process_file_input q eof w = (q', w', if eof then 0%Z else 1%Z)
    ∧ queued q' [] ∧ messages w' = messages w ++ map trim_ascii ls
    ∧ (∃ b', inbound_of w' = [b'] ∧ ib_pending b' = tail)
    ∧ (eof = true → ∃ l, log w' = l ++ [EServerShutdown]).
Proof.
  intros Hp Hq Hm Hl Hf. unfold comm_process_file_input.
  assert (Hn : AsyncQueue.count q = length ms).
  { rewrite <- (length_contents q). rewrite (proj2 Hq). by rewrite length_map. }
  rewrite <- (app_nil_r ms) in Hq. destruct (feed_fits ms 1 q w c b [] Hp Hq Hm Hl) as (q1 & b1 & E & Q & Hp1 & P1).
  rewrite Hn, <- Nat.add_1_r, E. destruct (feed_empty 0 q1 (with_inbound w [b1]) Q) as (q' & -> & Q').
  rewrite <- P1 in Hf. destruct (process_framed _ _ b1 ls tail (pl_line _ _ _ Hp1) Hf)
    as (w' & r & -> & _ & M & B).
  assert (Hw : messages (with_inbound w [b1]) = messages w)
    by (unfold with_inbound; by destruct (comm w)).
  rewrite Hw in M. destruct eof.
  - exists q', (emit w' EServerShutdown). split_and!; try done.
    + rewrite messages_emit, M. by rewrite app_nil_r.
    + intros _. by eexists.
  - exists q', w'. by split_and!.
Qed.

(** A chunk that does not fit loses its tail.  The loop empties the queue before
    it parses, so the chunk after those that fill the 4096-byte buffer is cut:
    its last bytes are neither in the buffer nor in the queue, and no error is
    reported to the application. *)
Theorem file_chunk_overflow q eof w c b ms m rest :
  plain_slot w c b → queued q (ms ++ m :: rest) → Forall chunk (ms ++ [m]) →
  length (concat ms) ≤ ib_free b < length (concat ms) + length m →
  ∃ q' w' b', feed_loop (S (AsyncQueue.count q)) q w = (q', w', false)
    ∧ queued q' rest ∧ inbound_of w' = [b']
    ∧ ib_pending b' = ib_pending b ++ concat ms ++ take (ib_free b - length (concat ms)) m
    ∧ 0 < length (drop (ib_free b - length (concat ms)) m)
    ∧ (comm_process_file_input q eof w).1.1 = q'.
Proof.
  intros Hp Hq Hm [Hl1 Hl2]. apply Forall_app in Hm as [Hms [Hm _]%Forall_cons].
  assert (Hn : AsyncQueue.count q = length ms + S (length rest)).
  { rewrite <- (length_contents q), (proj2 Hq), length_map, length_app. done. }
  destruct (feed_fits ms (S (S (length rest))) q w c b (m :: rest) Hp Hq Hms Hl1) as (q1 & b1 & E & Q & Hp1 & P1).
  destruct (dequeue_queued q1 m rest Q Hm) as (q2 & E2 & Q2).

  pose proof Hp1 as [[Hc1 _ _ _ _ _ _ _] Hs1 _].
  destruct (refill_plain m _ _ b1 Hp1) as (b2 & E3 & Hb2 & Hd2 & P2).
  assert (F1 : ib_free b1 = ib_free b - length (concat ms))
    by (unfold ib_free; rewrite P1, length_app; lia).
  assert (Ef : feed_loop (S (AsyncQueue.count q)) q w = (q2, with_inbound (with_inbound w [b1]) [b2], false)).
  { rewrite Hn, <- Nat.add_succ_r, E. cbn [feed_loop]. rewrite E2, strip_nul_snoc.
    unfold comm_refill_inbound_data. rewrite Hc1, Hs1, E3.
    by rewrite (proj2 (Nat.leb_gt _ _)) by lia. }
  eexists q2, _, b2. split; [exact Ef|]. split_and!; try done.
  - apply with_inbound_spec. by rewrite Hc1.
  - by rewrite P2, P1, F1, app_assoc.
  - rewrite length_drop. lia.
  - unfold comm_process_file_input. rewrite Ef. destruct (comm_process_input _ _) as [w' ?]. by destruct eof.
Qed.

End Feed.

(** ** The reader and the loop *)

(** The reader thread: waiting for the slots' mutex, holding it around the read,
    holding it and waiting for [file_input_mutex] at the end of the file,
    holding it after [file_input_eof] was set, holding a chunk to queue, done. *)
Inductive reader_pc := RStart | RRead | RWantFile | REof | REnqueue (m : list Z) | RDone.

(** The event loop thread.  [comm_init_async_file_input]: with [file_input_mutex]
    held, before the reader exists and before the connect hook.  A turn:
    outside, in the dequeue loop, parsing, at the check for the end.  The end:
    closing the slot, before and inside the join, finished. *)
Inductive floop_pc :=
  | LInit | LConnect
  | LReady | LOutside | LDrain | LParse | LCheck
  | LClosing | LStop | LJoin | LEnd.

#[export] Instance reader_pc_eq_dec : EqDecision reader_pc.
Proof. solve_decision. Defined.
#[export] Instance floop_pc_eq_dec : EqDecision floop_pc.
Proof. solve_decision. Defined.

Record file_sys := {
  fs_reader : option reader_pc;     (* [None] before the thread exists *)
  fs_loop : floop_pc;
  fs_queue : FifoSpec.fifo;
  fs_eof : bool;
  fs_gone : bool;                   (* the slot was removed *)
  fs_read : list (list Z);          (* history: chunks read from the file *)
  fs_taken : list (list Z);         (* history: chunks taken by the loop *)
  fs_clean : bool                   (* nothing was dropped or refused *)
}.

Definition file_init : file_sys :=
  {| fs_reader := None; fs_loop := LInit;
     fs_queue := FifoSpec.create 100 4096 ASYNC_QUEUE_DROP_OLDEST;
     fs_eof := false; fs_gone := false; fs_read := []; fs_taken := []; fs_clean := true |}.

(** The slots' mutex and [file_input_mutex]. *)
Definition reader_has_slot (r : option reader_pc) : bool :=
  match r with Some (RRead | RWantFile | REof) => true | _ => false end.
Definition loop_has_slot (l : floop_pc) : bool :=
  match l with LDrain | LParse | LCheck => true | _ => false end.
Definition loop_has_file (l : floop_pc) : bool :=
  match l with LInit | LConnect | LJoin => true | _ => false end.

Definition with_reader (s : file_sys) (r : reader_pc) : file_sys :=
  {| fs_reader := Some r; fs_loop := fs_loop s; fs_queue := fs_queue s; fs_eof := fs_eof s;
     fs_gone := fs_gone s; fs_read := fs_read s; fs_taken := fs_taken s; fs_clean := fs_clean s |}.
Definition with_loop (s : file_sys) (l : floop_pc) : file_sys :=
  {| fs_reader := fs_reader s; fs_loop := l; fs_queue := fs_queue s; fs_eof := fs_eof s;
     fs_gone := fs_gone s; fs_read := fs_read s; fs_taken := fs_taken s; fs_clean := fs_clean s |}.

(** What [BIO_read_ex] answers. *)
Inductive file_answer := FChunk (m : list Z) | FRetry | FEof | FError.

Inductive file_label :=
  | FReader (a : file_answer)       (* the reader takes its next step *)
  | FLoop (ok : bool)               (* the loop takes its next step; a refill answers [ok] *)
  | FEnter                          (* initialisation succeeded: enter the event loop *)
  | FFail                           (* a later part of the initialisation failed *)
  | FShutdown.                      (* the application asked the server to stop *)

Definition reader_step (s : file_sys) (a : file_answer) : option file_sys :=
  match fs_reader s with
  | Some RStart => if loop_has_slot (fs_loop s) then None else Some (with_reader s RRead)
  | Some RRead =>
      if fs_gone s then Some (with_reader s RDone)
      else match a with
      | FChunk m =>
          if (0 <? length m) && (length m <? 4096) then
            Some {| fs_reader := Some (REnqueue m); fs_loop := fs_loop s; fs_queue := fs_queue s;
                    fs_eof := fs_eof s; fs_gone := fs_gone s; fs_read := fs_read s ++ [m];
                    fs_taken := fs_taken s; fs_clean := fs_clean s |}
          else None
      | FRetry => Some (with_reader s RStart)
      | FEof => Some (with_reader s RWantFile)
      | FError => Some (with_reader s RDone)
      end
  | Some RWantFile =>
      if loop_has_file (fs_loop s) then None
      else Some {| fs_reader := Some REof; fs_loop := fs_loop s; fs_queue := fs_queue s;
                   fs_eof := true; fs_gone := fs_gone s; fs_read := fs_read s;
                   fs_taken := fs_taken s; fs_clean := fs_clean s |}
  | Some REof => Some (with_reader s RDone)
  | Some (REnqueue m) =>
      let '(q, _) := FifoSpec.enqueue (fs_queue s) (Some (m ++ [0%Z])) in
      Some {| fs_reader := Some RStart; fs_loop := fs_loop s; fs_queue := q; fs_eof := fs_eof s;
              fs_gone := fs_gone s; fs_read := fs_read s; fs_taken := fs_taken s;
              fs_clean := fs_clean s && (length (FifoSpec.msgs (fs_queue s)) <? FifoSpec.cap (fs_queue s)) |}
  | Some RDone | None => None
  end.

Definition floop_step (s : file_sys) (ok : bool) : option file_sys :=
  match fs_loop s with
  | LInit =>                        (* comm_abstract_has_rbio, then the thread starts *)
      Some {| fs_reader := Some RStart; fs_loop := LConnect; fs_queue := fs_queue s; fs_eof := false;
              fs_gone := fs_gone s; fs_read := fs_read s; fs_taken := fs_taken s; fs_clean := fs_clean s |}
  | LConnect =>                     (* comm_invoke_connect locks the slots *)
      if reader_has_slot (fs_reader s) then None else Some (with_loop s LReady)
  | LOutside => if reader_has_slot (fs_reader s) then None else Some (with_loop s LDrain)
  | LDrain =>
      match FifoSpec.dequeue (fs_queue s) 4096 with
      | (_, None) => Some (with_loop s LParse)
      | (q, Some m) =>
          Some {| fs_reader := fs_reader s; fs_loop := if ok then LDrain else LParse; fs_queue := q;
                  fs_eof := fs_eof s; fs_gone := fs_gone s; fs_read := fs_read s;
                  fs_taken := fs_taken s ++ [strip_nul m]; fs_clean := fs_clean s && ok |}
      end
  | LParse => Some (with_loop s LCheck)
  | LCheck => Some (with_loop s (if fs_eof s then LClosing else LOutside))
  | LClosing =>                     (* comm_close removes the slot *)
      if reader_has_slot (fs_reader s) then None
      else Some {| fs_reader := fs_reader s; fs_loop := LStop; fs_queue := fs_queue s; fs_eof := fs_eof s;
                   fs_gone := true; fs_read := fs_read s; fs_taken := fs_taken s; fs_clean := fs_clean s |}
  | LStop => Some (with_loop s LJoin)
  | LJoin =>                        (* join, then the queue is destroyed *)
      match fs_reader s with
      | Some RDone | None => Some (with_loop s LEnd)
      | _ => None
      end
  | LReady | LEnd => None
  end.

Definition file_step (s : file_sys) (l : file_label) : option file_sys :=
  match l with
  | FReader a => reader_step s a
  | FLoop ok => floop_step s ok
  | FEnter => if decide (fs_loop s = LReady) then Some (with_loop s LOutside) else None
  | FFail => if decide (fs_loop s = LReady) then Some (with_loop s LStop) else None
  | FShutdown => if decide (fs_loop s = LOutside) then Some (with_loop s LClosing) else None
  end.

Inductive file_reachable : file_sys → Prop :=
  | fr_init : file_reachable file_init
  | fr_step s l s' : file_reachable s → file_step s l = Some s' → file_reachable s'.

Fixpoint file_run (s : file_sys) (ls : list file_label) : option file_sys :=
  match ls with
  | [] => Some s
  | l :: rest => s' ← file_step s l; file_run s' rest
  end.

Lemma file_run_reachable s ls s' : file_reachable s → file_run s ls = Some s' → file_reachable s'.
Proof.
  revert s. induction ls as [|l ls IH]; intros s Hr; cbn; [by intros [= <-]|].
  destruct (file_step s l) as [s1|] eqn:E; [|done]. apply IH. by eapply fr_step.
Qed.

(** *** Invariant *)

(** The chunk the reader holds. *)
Definition reader_hand (r : option reader_pc) : list (list Z) :=
  match r with Some (REnqueue m) => [m] | _ => [] end.

Record file_inv (s : file_sys) : Prop := {
  fi_start : fs_loop s = LInit → fs_reader s = None;
  fi_mutex : reader_has_slot (fs_reader s) = true → loop_has_slot (fs_loop s) = false;
  fi_eof : fs_eof s = true → fs_reader s = Some REof ∨ fs_reader s = Some RDone;
  fi_hand : Forall chunk (reader_hand (fs_reader s));
  fi_queue : FifoSpec.cap (fs_queue s) = 100 ∧ FifoSpec.max_size (fs_queue s) = 4096
             ∧ Forall (fun m => ∃ x, m = x ++ [0%Z] ∧ chunk x) (FifoSpec.msgs (fs_queue s));
  fi_data : fs_clean s = true →
            fs_read s = fs_taken s ++ map strip_nul (FifoSpec.msgs (fs_queue s)) ++ reader_hand (fs_reader s);
  fi_drained : (fs_loop s = LParse ∨ fs_loop s = LCheck) → fs_clean s = true → fs_reader s = Some RDone →
               FifoSpec.msgs (fs_queue s) = [];
  fi_gone : fs_gone s = true → (fs_loop s = LStop ∨ fs_loop s = LJoin ∨ fs_loop s = LEnd)
            ∧ fs_reader s ≠ Some RWantFile ∧ fs_reader s ≠ Some REof
}.

Lemma file_init_inv : file_inv file_init.
Proof. split; cbn; done. Qed.

Lemma enqueue_chunk q m : chunk m → FifoSpec.max_size q = 4096 →
  FifoSpec.cap q = 100 → length (FifoSpec.msgs q) < 100 →
  FifoSpec.enqueue q (Some (m ++ [0%Z])) = (FifoSpec.push q (m ++ [0%Z]), EnqTrue).
Proof.
  intros [H1 H2] Hm Hc Hl. unfold FifoSpec.enqueue. rewrite Hm, Hc.
  assert (L : length (m ++ [0%Z]) = S (length m)) by (rewrite length_app; cbn; lia). rewrite L.
  change (S (length m) =? 0) with false. rewrite (proj2 (Nat.ltb_ge 4096 _)) by lia.
  by rewrite (proj2 (Nat.ltb_lt _ _)).
Qed.

(** Whatever the answer, the messages stay NUL-terminated chunks. *)
Lemma enqueue_queue_ok q m : chunk m →
  FifoSpec.cap q = 100 ∧ FifoSpec.max_size q = 4096
  ∧ Forall (fun m => ∃ x, m = x ++ [0%Z] ∧ chunk x) (FifoSpec.msgs q) →
  let q' := (FifoSpec.enqueue q (Some (m ++ [0%Z]))).1 in
  FifoSpec.cap q' = 100 ∧ FifoSpec.max_size q' = 4096
  ∧ Forall (fun m => ∃ x, m = x ++ [0%Z] ∧ chunk x) (FifoSpec.msgs q').
Proof.
  intros Hm (Hc & Hx & Hf). cbn zeta. unfold FifoSpec.enqueue. destruct (_ || _); [done|].
  assert (N : Forall (fun m => ∃ x, m = x ++ [0%Z] ∧ chunk x) [m ++ [0%Z]])
    by (apply Forall_singleton; by exists m).
  destruct (_ <? _).
  { cbn. split_and!; [done..|]. by apply Forall_app. }
  destruct (has_qflag _ _).
  { cbn. split_and!; [done..|]. apply Forall_app. split; [|done].
    destruct (FifoSpec.msgs q); [done|]. by apply Forall_cons in Hf as [_ ?]. }
  by destruct (has_qflag _ _).
Qed.

(** A reader that moves without touching the data. *)
Lemma with_reader_inv s r r' eof :
  file_inv s → fs_reader s = Some r →
  (reader_has_slot (Some r') = true → loop_has_slot (fs_loop s) = false) →
  (eof = true → r' = REof ∨ r' = RDone) →
  reader_hand (Some r) = [] → reader_hand (Some r') = [] →
  (r' = RDone → loop_has_slot (fs_loop s) = false) →
  (fs_gone s = true → r' ≠ RWantFile ∧ r' ≠ REof) →
  file_inv {| fs_reader := Some r'; fs_loop := fs_loop s; fs_queue := fs_queue s; fs_eof := eof;
              fs_gone := fs_gone s; fs_read := fs_read s; fs_taken := fs_taken s; fs_clean := fs_clean s |}.
Proof.
  intros [S M E Hh Q D P G] R Hm He H1 H2 Hd Hg. rewrite R in *.
  split; cbn [fs_reader fs_loop fs_queue fs_eof fs_gone fs_read fs_taken fs_clean].
  - intros L. by specialize (S L).
  - exact Hm.
  - intros X. destruct (He X) as [-> | ->]; auto.
  - by rewrite H2.
  - exact Q.
  - rewrite H2. rewrite H1 in D. exact D.
  - intros L _ [= ->]. specialize (Hd eq_refl). destruct L as [L|L]; by rewrite L in Hd.
  - intros X. destruct (G X) as [Hl _]. destruct (Hg X). split_and!; [done|congruence..].
Qed.

Lemma reader_step_inv s a s' : file_inv s → reader_step s a = Some s' → file_inv s'.
Proof.
  intros I St. pose proof I as [S M E Hh Q D P G]. unfold reader_step in St.
  destruct (fs_reader s) as [r|] eqn:R; [|done].
  assert (Ne : r ≠ REof → r ≠ RDone → fs_eof s = false).
  { intros N1 N2. destruct (fs_eof s); [|done]. destruct (E eq_refl); congruence. }
  destruct r as [| | | |m|].
  - destruct (loop_has_slot (fs_loop s)) eqn:L; [done|]. injection St as <-.
    apply (with_reader_inv s RStart RRead (fs_eof s)); try done. by rewrite Ne.
  - specialize (M eq_refl). specialize (Ne ltac:(done) ltac:(done)).
    destruct (fs_gone s) eqn:Hg.
    { injection St as <-. apply (with_reader_inv s RRead RDone (fs_eof s)); auto. }
    destruct a as [m| | |]; [destruct (_ && _) eqn:Hc; [|done]|..]; injection St as <-.
    + split; cbn [fs_reader fs_loop fs_queue fs_eof fs_gone fs_read fs_taken fs_clean]; try done.
      * intros L. by specialize (S L).
      * by rewrite Ne.
      * apply Forall_singleton. breflect. by split.
      * intros Hcl. rewrite (D Hcl). cbn. by rewrite app_nil_r, !app_assoc.
    + apply (with_reader_inv s RRead RStart (fs_eof s)); try done; by rewrite ?Ne.
    + apply (with_reader_inv s RRead RWantFile (fs_eof s)); try done; by rewrite ?Ne, ?Hg.
    + apply (with_reader_inv s RRead RDone (fs_eof s)); auto.
  - destruct (loop_has_file (fs_loop s)) eqn:L; [done|]. injection St as <-.
    apply (with_reader_inv s RWantFile REof true); auto.
    intros X. destruct (G X) as (_ & N & _). done.
  - injection St as <-. apply (with_reader_inv s REof RDone (fs_eof s)); auto.
  - cbn in Hh; apply Forall_cons in Hh as [Hh _]. pose proof (enqueue_queue_ok _ m Hh Q) as Q'.
    destruct (FifoSpec.enqueue (fs_queue s) (Some (m ++ [0%Z]))) as [q x] eqn:Eq. cbn [fst] in Q'.
    injection St as <-. specialize (Ne ltac:(done) ltac:(done)).
    split; cbn [fs_reader fs_loop fs_queue fs_eof fs_gone fs_read fs_taken fs_clean]; try done.
    + intros L. by specialize (S L).
    + by rewrite Ne.
    + intros [Hcl Hlt]%andb_true_iff. rewrite (D Hcl). destruct Q as (Qc & Qm & _).
      rewrite Qc in Hlt. breflect. rewrite (enqueue_chunk _ m Hh Qm Qc Hlt) in Eq. injection Eq as <- <-.
      cbn. rewrite map_app. cbn. by rewrite strip_nul_snoc, app_nil_r.
    + intros X. destruct (G X) as [Hl _]. done.
  - done.
Qed.

Lemma dequeue_chunk q : Forall (fun m => ∃ x, m = x ++ [0%Z] ∧ chunk x) (FifoSpec.msgs q) →
  match FifoSpec.dequeue q 4096 with
  | (_, None) => FifoSpec.msgs q = []
  | (q', Some m) => FifoSpec.msgs q = m :: FifoSpec.msgs q'
                    ∧ FifoSpec.cap q' = FifoSpec.cap q ∧ FifoSpec.max_size q' = FifoSpec.max_size q
  end.
Proof.
  intros Hf. unfold FifoSpec.dequeue. destruct (FifoSpec.msgs q) as [|m ms] eqn:E; [done|].
  apply Forall_cons in Hf as [(x & -> & Hx) _].
  rewrite (proj2 (Nat.ltb_ge _ _)) by (destruct Hx; rewrite length_app; cbn [length]; lia). done.
Qed.

(** A loop that moves without touching the data. *)
Lemma with_loop_inv s l gone :
  file_inv s → l ≠ LInit →
  (reader_has_slot (fs_reader s) = true → loop_has_slot l = false) →
  (l = LParse ∨ l = LCheck → fs_loop s = LParse ∨ fs_loop s = LCheck
     ∨ FifoSpec.msgs (fs_queue s) = []) →
  (gone = true → (l = LStop ∨ l = LJoin ∨ l = LEnd) ∧ fs_reader s ≠ Some RWantFile ∧ fs_reader s ≠ Some REof) →
  file_inv {| fs_reader := fs_reader s; fs_loop := l; fs_queue := fs_queue s; fs_eof := fs_eof s;
              fs_gone := gone; fs_read := fs_read s; fs_taken := fs_taken s; fs_clean := fs_clean s |}.
Proof.
  intros [S M E Hh Q D P G] Hi Hm Hp Hg.
  split; cbn [fs_reader fs_loop fs_queue fs_eof fs_gone fs_read fs_taken fs_clean]; try done.
  intros L Hc R. destruct (Hp L) as [X|[X|X]]; [apply P; auto..|done].
Qed.

Lemma floop_step_inv s ok s' : file_inv s → floop_step s ok = Some s' → file_inv s'.
Proof.
  intros I St. pose proof I as [S M E Hh Q D P G]. unfold floop_step in St. destruct (fs_loop s) eqn:L.
  - injection St as <-. specialize (S eq_refl).
    assert (Hg : fs_gone s = false) by (destruct (fs_gone s); [destruct (G eq_refl) as ([?|[?|?]] & _)|]; done).
    split; cbn [fs_reader fs_loop fs_queue fs_eof fs_gone fs_read fs_taken fs_clean]; try done.
    + rewrite S in D. exact D.
    + by rewrite Hg.
  - destruct (reader_has_slot (fs_reader s)) eqn:R; [done|]. injection St as <-.
    apply with_loop_inv; try done; [by intros [?|?]|].
    intros X. destruct (G X) as ([?|[?|?]] & _); done.
  - done.
  - destruct (reader_has_slot (fs_reader s)) eqn:R; [done|]. injection St as <-.
    apply with_loop_inv; try done; [by rewrite R|by intros [?|?]|].
    intros X. destruct (G X) as ([?|[?|?]] & _); done.
  - assert (Hg : fs_gone s = false) by (destruct (fs_gone s); [destruct (G eq_refl) as ([?|[?|?]] & _)|]; done).
    pose proof (dequeue_chunk (fs_queue s) (proj2 (proj2 Q))) as Dq.
    destruct (FifoSpec.dequeue (fs_queue s) 4096) as [q [m|]].
    + destruct Dq as (Em & Ec & Ex). injection St as <-. destruct Q as (Qc & Qm & Qf). rewrite Em in Qf.
      apply Forall_cons in Qf as [_ Qf].
      split; cbn [fs_reader fs_loop fs_queue fs_eof fs_gone fs_read fs_taken fs_clean]; try done.
      * by destruct ok.
      * intros X. specialize (M X). done.
      * split_and!; [congruence..|done].
      * intros [Hcl ->]%andb_true_iff. rewrite (D Hcl), Em. cbn. by rewrite <- !app_assoc.
      * intros Hl [Hcl ->]%andb_true_iff. destruct Hl; done.
      * by rewrite Hg.
    + injection St as <-. apply with_loop_inv; try done; [by auto|by rewrite Hg].
  - injection St as <-. apply with_loop_inv; try done; [by auto|].
    intros X. destruct (G X) as ([?|[?|?]] & _); done.
  - injection St as <-. apply with_loop_inv; [done|by destruct (fs_eof s)|by destruct (fs_eof s)| |].
    + destruct (fs_eof s); by intros [?|?].
    + intros X. destruct (G X) as ([?|[?|?]] & _); done.
  - destruct (reader_has_slot (fs_reader s)) eqn:R; [done|]. injection St as <-.
    apply with_loop_inv; try done; [by intros [?|?]|]. intros _. split; [by left|].
    destruct (fs_reader s) as [[]|]; done.
  - injection St as <-. apply with_loop_inv; try done; [by intros [?|?]|].
    intros X. destruct (G X) as (_ & ?). split; [by right; left|done].
  - assert (s' = with_loop s LEnd) as -> by (destruct (fs_reader s) as [[]|]; congruence).
    apply with_loop_inv; try done; [by intros [?|?]|].
    intros X. destruct (G X) as (_ & ?). split; [by right; right|done].
  - done.
Qed.

Lemma file_step_inv s l s' : file_inv s → file_step s l = Some s' → file_inv s'.
Proof.
  intros I St. destruct l; cbn in St; [by eapply reader_step_inv|by eapply floop_step_inv|..].
  all: destruct (decide _) as [L|]; [|done]; injection St as <-;
    apply with_loop_inv; [done..|by intros [?|?]|];
    intros X; destruct (fi_gone s I X) as (Y & ?); rewrite L in Y; by destruct Y as [?|[?|?]].
Qed.

Lemma file_reachable_inv s : file_reachable s → file_inv s.
Proof. induction 1; [apply file_init_inv|by eapply file_step_inv]. Qed.

(** *** Stopping *)

Definition reader_weight (r : option reader_pc) : nat :=
  match r with Some (REnqueue _) => 3 | Some RStart => 2 | Some RRead => 1 | _ => 0 end.
Definition floop_weight (l : floop_pc) : nat :=
  match l with LStop => 2 | LJoin => 1 | _ => 0 end.
Definition file_weight (s : file_sys) : nat := reader_weight (fs_reader s) + floop_weight (fs_loop s).

(** Once the slot is gone every step of either thread brings the end nearer. *)
Lemma gone_step_weight s l s' : file_inv s → fs_gone s = true → file_step s l = Some s' →
  fs_gone s' = true ∧ file_weight s' < file_weight s.
Proof.
  intros [_ _ _ _ _ _ _ G] Hg St. destruct (G Hg) as (Hl & N1 & N2). unfold file_weight.
  destruct l; cbn in St; try (destruct (decide _) as [L|]; [|done]; rewrite L in Hl; naive_solver).
  - unfold reader_step in St. destruct (fs_reader s) as [[| | | |m|]|] eqn:R; try done.
    + destruct (loop_has_slot (fs_loop s)); [done|]. simplify_eq. cbn. split; [done|lia].
    + rewrite Hg in St. simplify_eq. cbn. split; [done|lia].
    + destruct (FifoSpec.enqueue _ _). simplify_eq. cbn. split; [done|lia].
  - unfold floop_step in St. destruct Hl as [L|[L|L]]; rewrite L in *.
    + simplify_eq. cbn. split; [done|lia].
    + assert (s' = with_loop s LEnd) as -> by (destruct (fs_reader s) as [[]|]; congruence).
      cbn. split; [done|lia].
    + done.
Qed.

Lemma gone_progress s : file_inv s → fs_gone s = true → fs_loop s = LEnd ∨ ∃ l s', file_step s l = Some s'.
Proof.
  intros [_ _ _ _ _ _ _ G] Hg. destruct (G Hg) as ([L|[L|L]] & N1 & N2); [| |by left]; right.
  - exists (FLoop true). cbn. unfold floop_step. rewrite L. eauto.
  - destruct (fs_reader s) as [r|] eqn:R; [|exists (FLoop true); cbn; unfold floop_step; rewrite L, R; eauto].
    destruct (decide (r = RDone)) as [->|Hr]; [exists (FLoop true); cbn; unfold floop_step; rewrite L, R; eauto|].
    exists (FReader FRetry). cbn. unfold reader_step. rewrite R, L, Hg.
    destruct r as [| | | |m|]; try done; [by eexists..|].
    destruct (FifoSpec.enqueue (fs_queue s) (Some (m ++ [0%Z]))) as [q x]. by eexists.
Qed.

(** ** Theorems *)

(** The server does not stop on a file before it was handed on.  When the loop
    finds the end-of-file flag set, the reader has finished, and if the queue
    never overflowed and no refill failed then every chunk of the file has been
    taken from the queue, in file order: the flag is set under the slots'
    mutex, which the loop holds from its first dequeue to this check. *)
Theorem file_eof_after_data s :
  file_reachable s → fs_loop s = LCheck → fs_eof s = true →
  fs_reader s = Some RDone
  ∧ (fs_clean s = true → fs_taken s = fs_read s ∧ FifoSpec.msgs (fs_queue s) = []).
Proof.
  intros Hr L He. destruct (file_reachable_inv s Hr) as [_ M E _ _ D P _].
  assert (R : fs_reader s = Some RDone).
  { destruct (E He) as [R|R]; [|done]. rewrite R, L in M. by specialize (M eq_refl). }
  split; [done|]. intros Hc. pose proof (P (or_intror L) Hc R) as Q. split; [|done].
  rewrite (D Hc), Q, R. cbn. by rewrite app_nil_r.
Qed.

(** Shutting down after the slot was closed always finishes: whatever the
    schedule, within five steps of the two threads the reader has left and the
    join has returned, and until then one of them can step. *)
Theorem file_shutdown_terminates s ls s' :
  file_reachable s → fs_gone s = true → file_run s ls = Some s' →
  length ls ≤ 5 ∧ (fs_loop s' = LEnd ∨ ∃ l s'', file_step s' l = Some s'').
Proof.
  intros Hr Hg.
  assert (W : file_weight s ≤ 5).
  { destruct (file_reachable_inv s Hr) as [_ _ _ _ _ _ _ G]. destruct (G Hg) as (Hl & _).
    unfold file_weight. assert (floop_weight (fs_loop s) ≤ 2) by (destruct (fs_loop s); cbn; lia).
    assert (reader_weight (fs_reader s) ≤ 3) by (destruct (fs_reader s) as [[]|]; cbn; lia). lia. }
  intros Run. enough (length ls ≤ file_weight s ∧ (fs_loop s' = LEnd ∨ ∃ l s'', file_step s' l = Some s''))
    by (split; [lia|tauto]). clear W. revert s Hr Hg Run.
  induction ls as [|l ls IH]; intros s Hr Hg; cbn.
  { intros [= <-]. split; [lia|]. by apply gone_progress; [apply file_reachable_inv|]. }
  destruct (file_step s l) as [s1|] eqn:E; [|done]. cbn. intros Run.
  destruct (gone_step_weight s l s1 (file_reachable_inv s Hr) Hg E) as [Hg1 Hw].
  destruct (IH s1 (fr_step _ _ _ Hr E) Hg1 Run). split; [lia|done].
Qed.

(** Shutting down before the slot was closed can hang.  When a later part of
    the initialisation fails, [comm_shutdown_async_file_input] joins the reader
    with [file_input_mutex] held while the reader waits for that mutex to
    record the end of the file: neither thread can step again. *)
Theorem file_shutdown_deadlock :
  ∃ s, file_reachable s ∧ fs_loop s = LJoin ∧ fs_reader s = Some RWantFile
       ∧ ∀ l, file_step s l = None.
Proof.
  destruct (file_run file_init [FLoop true; FLoop true; FReader FRetry; FFail; FReader FEof; FLoop true])
    as [s|] eqn:E; [|by vm_compute in E].
  exists s. split; [eapply file_run_reachable; [apply fr_init|exact E]|].
  vm_compute in E. simplify_eq. split_and!; try done. by intros [].
Qed.

(** Starting file input can hang.  [comm_init_async_file_input] starts the
    reader and then takes the slots' mutex for the connect hook with
    [file_input_mutex] held; a reader that has reached the end of a short file
    by then holds the one and waits for the other. *)
Theorem file_start_deadlock :
  ∃ s, file_reachable s ∧ fs_loop s = LConnect ∧ fs_reader s = Some RWantFile
       ∧ ∀ l, file_step s l = None.
Proof.
  destruct (file_run file_init [FLoop true; FReader FRetry; FReader FEof]) as [s|] eqn:E; [|by vm_compute in E].
  exists s. split; [eapply file_run_reachable; [apply fr_init|exact E]|].
  vm_compute in E. simplify_eq. split_and!; try done. by intros [].
Qed.

(** ** Witnesses *)

#[local] Existing Instances demo_mbrlen demo_crypto.

(** Two chunks that split a line, and the beginning of a third one. *)
Definition demo_chunks : list (list Z) := [[103; 111]; [32; 110; 10; 108]]%Z.

Lemma demo_chunks_ok : Forall chunk demo_chunks.
Proof. unfold chunk. repeat (apply Forall_cons; split; [cbn; lia|]). apply Forall_nil. done. Qed.

Definition demo_queue : AsyncQueue.async_queue :=
  match AsyncQueue.async_queue_create true 2 16 ASYNC_QUEUE_DROP_OLDEST with
  | Some q => (run_queue q (map (fun m => CEnqueue (Some (m ++ [0%Z]))) demo_chunks)).1
  | None => AsyncQueue.mk_queue [] 0 0 0 0 0 0 0 0 0
  end.

Lemma demo_queued : queued demo_queue demo_chunks.
Proof.
  split; [|vm_compute; reflexivity].
  destruct (AsyncQueue.async_queue_create true 2 16 ASYNC_QUEUE_DROP_OLDEST) as [q|] eqn:E; [|done].
  pose proof (represents_run (map (fun m => CEnqueue (Some (m ++ [0%Z]))) demo_chunks) q _
    (represents_create 2 16 ASYNC_QUEUE_DROP_OLDEST q E)) as [[W _] _].
  unfold demo_queue. rewrite E. exact W.
Qed.

Definition demo_comm (b : inbound_buffer) : comm_abstract :=
  mk_comm (Some 1) (Some 2) None [b] [] [] None 1 C_LINE_INPUT no_capabilities.

#[export] Instance recording_scheduler : @BusyScheduler recording_host.
Proof. done. Qed.

Lemma demo_plain (b : inbound_buffer) : ib_ok b → is_data b = true →
  plain_slot (H := recording_host) (input_world C_LINE_INPUT [b]) (demo_comm b) b.
Proof. intros Hb Hd. by split. Qed.

Lemma file_lines_delivered_witness :
  let w := input_world C_LINE_INPUT [data_buffer []] in
  ∃ q' w', comm_process_file_input (H := recording_host) demo_queue true w = (q', w', 0%Z)
    ∧ queued q' [] ∧ messages w' = [[103; 111; 32; 110]]%Z.
Proof.
  destruct (file_lines_delivered (H := recording_host) (sched := recording_scheduler) (laws := recording_laws)
    demo_queue true (input_world C_LINE_INPUT [data_buffer []]) (demo_comm (data_buffer [])) (data_buffer [])
    demo_chunks [[103; 111; 32; 110]]%Z [108]%Z) as (q' & w' & E & Q & M & _).
  - apply demo_plain; [vm_compute; lia|done].
  - exact demo_queued.
  - exact demo_chunks_ok.
  - vm_compute. lia.
  - change (ib_pending (data_buffer []) ++ concat demo_chunks) with ([103; 111; 32; 110]%Z ++ [10]%Z ++ [108]%Z).
    apply framed_line; [by repeat constructor|left; by exists 10%Z|done|]. apply framed_tail. by repeat constructor.
  - exists q', w'. split; [exact E|]. split; [exact Q|]. rewrite M. vm_compute. reflexivity.
Defined.

Lemma file_chunk_overflow_witness :
  let b := data_buffer (replicate 4091 65%Z) in
  ∃ q' w', feed_loop (H := recording_host) 3 demo_queue (input_world C_LINE_INPUT [b]) = (q', w', false)
    ∧ queued q' [].
Proof.
  set (b := data_buffer (replicate 4091 65%Z)).
  assert (L : ib_end b = 4091) by (unfold ib_end, b; cbn [data_buffer ib_data]; by rewrite length_replicate).
  assert (F : ib_free b = 5) by (unfold ib_free; rewrite length_pending, L; done).
  destruct (file_chunk_overflow (H := recording_host) (sched := recording_scheduler)
    demo_queue true (input_world C_LINE_INPUT [b]) (demo_comm b) b [[103; 111]%Z] [32; 110; 10; 108]%Z [])
    as (q' & w' & _ & E & Q & _).
  - apply demo_plain; [|done]. unfold ib_ok. rewrite L. split; [unfold b; cbn; lia|]. apply Nat.leb_le. vm_compute. reflexivity.
  - exact demo_queued.
  - exact demo_chunks_ok.
  - rewrite F. cbn. lia.
  - exists q', w'. split; [exact E|exact Q].
Defined.

Definition eof_labels : list file_label :=
  [FLoop true; FLoop true; FEnter; FReader FRetry; FReader (FChunk [65; 10]%Z); FReader FRetry;
   FReader FRetry; FReader FEof; FReader FEof; FReader FEof;
   FLoop true; FLoop true; FLoop true; FLoop true].

Definition eof_state : file_sys := default file_init (file_run file_init eof_labels).

Lemma eof_state_reachable : file_reachable eof_state.
Proof.
  assert (E : file_run file_init eof_labels = Some eof_state) by (vm_compute; reflexivity).
  eapply file_run_reachable; [apply fr_init|exact E].
Qed.

Lemma file_eof_after_data_witness : fs_taken eof_state = [[65; 10]]%Z ∧ fs_taken eof_state = fs_read eof_state.
Proof.
  split; [vm_compute; reflexivity|].
  refine (proj1 (proj2 (file_eof_after_data eof_state eof_state_reachable eq_refl eq_refl) eq_refl)).
Defined.

Definition gone_state : file_sys := default file_init (file_run eof_state [FLoop true; FLoop true]).

Lemma gone_state_reachable : file_reachable gone_state.
Proof.
  assert (E : file_run eof_state [FLoop true; FLoop true] = Some gone_state) by (vm_compute; reflexivity).
  eapply file_run_reachable; [apply eof_state_reachable|exact E].
Qed.

Lemma file_shutdown_terminates_witness :
  length [FLoop true; FLoop true] ≤ 5
  ∧ (fs_loop (default file_init (file_run gone_state [FLoop true; FLoop true])) = LEnd
     ∨ ∃ l s'', file_step (default file_init (file_run gone_state [FLoop true; FLoop true])) l = Some s'').
Proof.
  refine (file_shutdown_terminates gone_state [FLoop true; FLoop true] _ gone_state_reachable eq_refl eq_refl).
Defined.
