(* ===== verification/ConsoleWorker.v ===== *)
(** * The console reader (lib/async/console_worker.cpp, the POSIX branch)

    A thread polls stdin and the stop event, queues what it reads and records
    the end of input; its owner signals it to stop, waits for it and frees it.
    [cstep] interleaves the two.  The answers of [poll] and [read] are the
    environment's: [poll] reports the stop event exactly when it is set. *)

From S2P Require Import Prelude.

(** ** State *)

Record console_worker := {
  eof_detected : bool;
  stop_requested : bool;
  stop_event : bool;          (* the pollable event is set *)
  worker_finished : bool;
  worker_started : bool
}.

(** [console_worker_init] up to the start of the thread. *)
Definition fresh_worker : console_worker :=
  {| eof_detected := false; stop_requested := false; stop_event := false;
     worker_finished := false; worker_started := false |}.

(** What [console_worker_init] returns: [None] for NULL, and whether the thread
    runs.  [no_console] is [CONSOLE_TYPE_NONE]. *)
Definition console_worker_init (event_ok no_console thread_ok : bool) : option console_worker :=
  if negb event_ok then None
  else if no_console then Some fresh_worker
  else if negb thread_ok then None
  else Some {| eof_detected := false; stop_requested := false; stop_event := false;
               worker_finished := false; worker_started := true |}.

Definition console_worker_set_eof (c : console_worker) : console_worker :=
  {| eof_detected := true; stop_requested := stop_requested c; stop_event := stop_event c;
     worker_finished := worker_finished c; worker_started := worker_started c |}.

Definition console_worker_take_eof (c : console_worker) : console_worker * bool :=
  ({| eof_detected := false; stop_requested := stop_requested c; stop_event := stop_event c;
      worker_finished := worker_finished c; worker_started := worker_started c |}, eof_detected c).

Definition console_worker_mark_done (c : console_worker) : console_worker :=
  {| eof_detected := eof_detected c; stop_requested := stop_requested c; stop_event := stop_event c;
     worker_finished := true; worker_started := worker_started c |}.

(** The two halves of [console_worker_signal_stop]. *)
Definition request_stop (c : console_worker) : console_worker :=
  {| eof_detected := eof_detected c; stop_requested := true; stop_event := stop_event c;
     worker_finished := worker_finished c; worker_started := worker_started c |}.
Definition set_stop_event (c : console_worker) : console_worker :=
  {| eof_detected := eof_detected c; stop_requested := stop_requested c; stop_event := true;
     worker_finished := worker_finished c; worker_started := worker_started c |}.
Definition not_started (c : console_worker) : console_worker :=
  {| eof_detected := eof_detected c; stop_requested := stop_requested c; stop_event := stop_event c;
     worker_finished := worker_finished c; worker_started := false |}.

(** ** The thread *)

(** At the loop condition, in [poll], before [read], before the enqueue, before
    [console_worker_mark_done], and after the thread has returned. *)
Inductive proc_pc := WTop | WPoll | WReadable | WLine (m : list Z) | WExit | WGone.

Inductive poll_answer :=
  | PollFails (eintr : bool)
  | PollReady (stdin_in stdin_hup stop_in : bool).
Inductive stdin_answer := ReadFails (again : bool) | ReadEof | ReadBytes (m : list Z).

Definition CONSOLE_MAX_LINE : nat := 4096.

(** What the environment may answer. *)
Definition poll_possible (c : console_worker) (a : poll_answer) : bool :=
  match a with
  | PollFails _ => true
  | PollReady i h s => eqb s (stop_event c) && (i || h || s)
  end.
Definition read_possible (a : stdin_answer) : bool :=
  match a with
  | ReadBytes m => (0 <? length m) && (length m <? CONSOLE_MAX_LINE)
  | _ => true
  end.

(** One step of [console_worker_proc_posix]: the new position, the state, and
    what is queued. *)
Definition proc_step (c : console_worker) (pc : proc_pc) (p : poll_answer) (r : stdin_answer)
    : option (proc_pc * console_worker * list (list Z)) :=
  match pc with
  | WTop => Some (if stop_requested c then WExit else WPoll, c, [])
  | WPoll =>
      if negb (poll_possible c p) then None
      else match p with
      | PollFails eintr => Some (if eintr then WTop else WExit, c, [])
      | PollReady i _ s => Some (if s then WExit else if negb i then WTop else WReadable, c, [])
      end
  | WReadable =>
      if negb (read_possible r) then None
      else match r with
      | ReadFails again => Some (if again then WTop else WExit, c, [])
      | ReadEof => Some (WExit, console_worker_set_eof c, [])
      | ReadBytes m => Some (WLine m, c, [])
      end
  | WLine m => Some (WTop, c, [m ++ [0%Z]])
  | WExit => Some (WGone, console_worker_mark_done c, [])
  | WGone => None
  end.

(** ** The owner *)

(** [console_worker_shutdown] and then [console_worker_destroy]: not called yet,
    stop requested, waiting with a timeout, joining; stopped; and after a
    timeout the same steps again inside destroy, with no timeout. *)
Inductive owner_pc :=
  | KRun | KStop | KWait | KJoin | KStopped
  | KLate | KStop2 | KWait2 | KJoin2 | KFreed.

#[export] Instance proc_pc_eq_dec : EqDecision proc_pc.
Proof. solve_decision. Defined.
#[export] Instance owner_pc_eq_dec : EqDecision owner_pc.
Proof. solve_decision. Defined.

Record csys := {
  cs_worker : console_worker;
  cs_proc : proc_pc;
  cs_owner : owner_pc;
  cs_lines : list (list Z);     (* history: what the thread read *)
  cs_queued : list (list Z)     (* history: what it queued *)
}.

Definition csys_init : csys :=
  {| cs_worker := {| eof_detected := false; stop_requested := false; stop_event := false;
                     worker_finished := false; worker_started := true |};
     cs_proc := WTop; cs_owner := KRun; cs_lines := []; cs_queued := [] |}.

Definition owner_step (s : csys) (timeout : bool) : option csys :=
  let c := cs_worker s in
  let go pc c' := Some {| cs_worker := c'; cs_proc := cs_proc s; cs_owner := pc;
                          cs_lines := cs_lines s; cs_queued := cs_queued s |} in
  match cs_owner s with
  | KRun => go KStop (request_stop c)
  | KStop => go KWait (set_stop_event c)
  | KWait => if worker_finished c then go KJoin c else if timeout then go KLate c else None
  | KJoin => if decide (cs_proc s = WGone) then go KStopped (not_started c) else None
  | KStopped => go KFreed c
  | KLate => go KStop2 (request_stop c)
  | KStop2 => go KWait2 (set_stop_event c)
  | KWait2 => if worker_finished c then go KJoin2 c else None
  | KJoin2 => if decide (cs_proc s = WGone) then go KFreed (not_started c) else None
  | KFreed => None
  end.

Inductive clabel :=
  | CProc (p : poll_answer) (r : stdin_answer)
  | COwner (timeout : bool)
  | CTakeEof.                   (* the event loop asks for the end of input *)

Definition hand (pc : proc_pc) : list (list Z) := match pc with WLine m => [m] | _ => [] end.

Definition cstep (s : csys) (l : clabel) : option csys :=
  match l with
  | CProc p r =>
      x ← proc_step (cs_worker s) (cs_proc s) p r;
      let '(pc, c, q) := x in
      Some {| cs_worker := c; cs_proc := pc; cs_owner := cs_owner s;
              cs_lines := cs_lines s ++ hand pc; cs_queued := cs_queued s ++ q |}
  | COwner timeout => owner_step s timeout
  | CTakeEof =>
      if decide (cs_owner s = KFreed) then None
      else Some {| cs_worker := (console_worker_take_eof (cs_worker s)).1; cs_proc := cs_proc s;
                   cs_owner := cs_owner s; cs_lines := cs_lines s; cs_queued := cs_queued s |}
  end.

Inductive creachable : csys → Prop :=
  | cr_init : creachable csys_init
  | cr_step s l s' : creachable s → cstep s l = Some s' → creachable s'.

Fixpoint crun (s : csys) (ls : list clabel) : option csys :=
  match ls with [] => Some s | l :: rest => s' ← cstep s l; crun s' rest end.

Lemma crun_reachable s ls s' : creachable s → crun s ls = Some s' → creachable s'.
Proof.
  revert s. induction ls as [|l ls IH]; intros s Hr; cbn; [by intros [= <-]|].
  destruct (cstep s l) as [s1|] eqn:E; [|done]. apply IH. by eapply cr_step.
Qed.

(** ** Invariant *)

Definition stop_sent (k : owner_pc) : bool :=
  match k with KRun | KStop => false | _ => true end.
Definition past_join (k : owner_pc) : bool :=
  match k with KStopped | KFreed => true | _ => false end.

Record console_inv (s : csys) : Prop := {
  ci_stop : cs_owner s ≠ KRun → stop_requested (cs_worker s) = true;
  ci_event : stop_sent (cs_owner s) = true → stop_event (cs_worker s) = true;
  ci_done : worker_finished (cs_worker s) = true ↔ cs_proc s = WGone;
  ci_join : past_join (cs_owner s) = true → cs_proc s = WGone;
  ci_lines : map (fun m => m ++ [0%Z]) (cs_lines s)
             = cs_queued s ++ map (fun m => m ++ [0%Z]) (hand (cs_proc s))
}.

Lemma csys_init_inv : console_inv csys_init.
Proof. split; cbn; done. Qed.

(** What a step of the thread leaves alone. *)
Lemma proc_step_frame c pc p r pc' c' q :
  proc_step c pc p r = Some (pc', c', q) →
  stop_requested c' = stop_requested c ∧ stop_event c' = stop_event c ∧ pc ≠ WGone
  ∧ (pc' = WGone ↔ pc = WExit) ∧ (worker_finished c' = if decide (pc = WExit) then true else worker_finished c)
  ∧ q = map (fun m => m ++ [0%Z]) (hand pc).
Proof.
  unfold proc_step. destruct pc as [| | |m| |]; intros St; try done; cbn [decide decide_rel].
  - simplify_eq. by destruct (stop_requested c').
  - destruct (negb _); [done|]. destruct p as [eintr|i h st]; simplify_eq.
    + by destruct eintr.
    + by destruct st, i.
  - destruct (negb _); [done|]. destruct r as [again| |m]; simplify_eq; [by destruct again|done..].
  - by simplify_eq.
  - by simplify_eq.
Qed.

Lemma proc_step_inv s p r s' : console_inv s → cstep s (CProc p r) = Some s' → console_inv s'.
Proof.
  intros [S E D J L] St. cbn in St.
  destruct (proc_step (cs_worker s) (cs_proc s) p r) as [[[pc c] q]|] eqn:P; [|done]. cbn in St. simplify_eq.
  destruct (proc_step_frame _ _ _ _ _ _ _ P) as (F1 & F2 & F3 & F4 & F5 & F6).
  split; cbn.
  - rewrite F1. exact S.
  - rewrite F2. exact E.
  - rewrite F5, F4. case_decide as N; [done|]. split; [|done]. intros X. by apply D in X.
  - intros H. by apply J in H.
  - rewrite map_app, L, F6. done.
Qed.

Lemma owner_step_inv s t s' : console_inv s → cstep s (COwner t) = Some s' → console_inv s'.
Proof.
  intros [S E D J L] St. cbn in St. unfold owner_step in St.
  assert (Keep : ∀ k c, cs_owner s ≠ KRun ∨ stop_requested c = true →
      (stop_requested (cs_worker s) = true → stop_requested c = true) →
      (stop_sent k = true → stop_event c = true) → worker_finished c = worker_finished (cs_worker s) →
      (past_join k = true → cs_proc s = WGone) →
      console_inv {| cs_worker := c; cs_proc := cs_proc s; cs_owner := k;
                     cs_lines := cs_lines s; cs_queued := cs_queued s |}).
  { intros k c H1 H2 H3 H4 H5. split; cbn; try done.
    - intros _. destruct H1 as [H1|H1]; [apply H2, S, H1|exact H1].
    - by rewrite H4. }
  destruct (cs_owner s) eqn:K; cbn in St; try done; specialize (S ltac:(done)) || clear S.
  all: repeat case_match; simplify_eq; apply Keep; cbn; auto; by left.
Qed.

Lemma console_reachable_inv s : creachable s → console_inv s.
Proof.
  induction 1 as [|s [p r|t|] s' _ I St]; [apply csys_init_inv|by eapply proc_step_inv|by eapply owner_step_inv|].
  cbn in St. case_decide; [done|]. destruct I. by simplify_eq; split.
Qed.

(** *** Stopping *)

Definition proc_weight (pc : proc_pc) : nat :=
  match pc with WPoll => 5 | WReadable => 4 | WLine _ => 3 | WTop => 2 | WExit => 1 | WGone => 0 end.
Definition owner_weight (k : owner_pc) : nat :=
  match k with
  | KRun => 9 | KStop => 8 | KWait => 7 | KJoin => 2 | KStopped => 1
  | KLate => 6 | KStop2 => 5 | KWait2 => 4 | KJoin2 => 3 | KFreed => 0
  end.
Definition console_weight (s : csys) : nat := proc_weight (cs_proc s) + owner_weight (cs_owner s).

Definition is_take (l : clabel) : bool := match l with CTakeEof => true | _ => false end.

Lemma proc_step_weight c pc p r pc' c' q :
  stop_requested c = true → proc_step c pc p r = Some (pc', c', q) → proc_weight pc' < proc_weight pc.
Proof.
  intros Hs. unfold proc_step. destruct pc as [| | |m| |]; intros St; try done.
  - rewrite Hs in St. simplify_eq. cbn. lia.
  - destruct (negb _); [done|]. destruct p as [eintr|i h st]; simplify_eq;
      repeat case_match; cbn; lia.
  - destruct (negb _); [done|]. destruct r as [again| |m]; simplify_eq; repeat case_match; cbn; lia.
  - simplify_eq. cbn. lia.
  - simplify_eq. cbn. lia.
Qed.

(** Once the stop is requested every step but a question for the end of input
    brings the end nearer. *)
Lemma cstep_weight s l s' : console_inv s → cs_owner s ≠ KRun → is_take l = false → cstep s l = Some s' →
  cs_owner s' ≠ KRun ∧ console_weight s' < console_weight s.
Proof.
  intros [S _ _ _ _] K T St. specialize (S K). unfold console_weight. destruct l as [p r|t|]; [| |done]; cbn in St.
  - destruct (proc_step (cs_worker s) (cs_proc s) p r) as [[[pc c] q]|] eqn:P; [|done]. cbn in St. simplify_eq.
    split; [done|]. cbn. pose proof (proc_step_weight _ _ _ _ _ _ _ S P). lia.
  - unfold owner_step in St. destruct (cs_owner s) eqn:Ko; cbn in St; try done;
      repeat case_match; simplify_eq; cbn; (split; [done|lia]).
Qed.

(** Whoever waits, the other can step. *)
Lemma console_progress s : console_inv s → cs_owner s ≠ KRun →
  cs_owner s = KFreed ∨ ∃ l s', is_take l = false ∧ cstep s l = Some s'.
Proof.
  intros [S E D J L] K. specialize (S K).
  assert (O : ∀ t, is_Some (owner_step s t) → ∃ l s', is_take l = false ∧ cstep s l = Some s')
    by (intros t [s' Hs]; by exists (COwner t), s').
  assert (P : cs_proc s ≠ WGone → stop_event (cs_worker s) = true → ∃ l s', is_take l = false ∧ cstep s l = Some s').
  { intros Hp He. exists (CProc (PollReady false false true) ReadEof). cbn. unfold proc_step.
    destruct (cs_proc s) as [| | |m| |]; try done; cbn; rewrite ?He; eauto. }
  destruct (decide (cs_proc s = WGone)) as [G|G].
  - destruct (decide (cs_owner s = KFreed)) as [F|F]; [by left|right]. apply (O false). unfold owner_step.
    assert (Wf : worker_finished (cs_worker s) = true) by (by apply D). cbn zeta.
    destruct (cs_owner s) eqn:Ko; rewrite ?Wf, ?decide_True by done; try done; by eexists.
  - destruct (cs_owner s) eqn:Ko; try done; try (right; by apply P, E);
      try (right; apply (O false); unfold owner_step; rewrite Ko; by eexists).
Qed.

(** ** Theorems *)

(** The console reader is freed only after its thread has returned, and a
    shutdown that reports success has stopped it: at that point every line read
    from stdin is in the queue, NUL-terminated and in order. *)
Theorem console_stopped_is_done s :
  creachable s → cs_owner s = KStopped ∨ cs_owner s = KFreed →
  cs_proc s = WGone ∧ cs_queued s = map (fun m => m ++ [0%Z]) (cs_lines s).
Proof.
  intros Hr K. destruct (console_reachable_inv s Hr) as [_ _ _ J L].
  assert (G : cs_proc s = WGone) by (apply J; by destruct K as [-> | ->]). split; [done|].
  rewrite G in L. cbn in L. by rewrite app_nil_r in L.
Qed.

(** Stopping the console reader terminates.  From the request on, whatever
    [poll] and [read] answer and whether or not the first wait times out, the
    two threads take at most thirteen steps together, and until the reader is
    freed one of them can step. *)
Theorem console_shutdown_terminates s ls s' :
  creachable s → cs_owner s ≠ KRun → Forall (fun l => is_take l = false) ls → crun s ls = Some s' →
  length ls ≤ 13 ∧ (cs_owner s' = KFreed ∨ ∃ l s'', is_take l = false ∧ cstep s' l = Some s'').
Proof.
  intros Hr K.
  assert (W : console_weight s ≤ 13).
  { unfold console_weight. assert (proc_weight (cs_proc s) ≤ 5) by (destruct (cs_proc s); cbn; lia).
    assert (owner_weight (cs_owner s) ≤ 8) by (destruct (cs_owner s); cbn; lia || done). lia. }
  intros Hl Run. enough (length ls ≤ console_weight s
    ∧ (cs_owner s' = KFreed ∨ ∃ l s'', is_take l = false ∧ cstep s' l = Some s'')) by (split; [lia|tauto]).
  clear W. revert s Hr K Run. induction Hl as [|l ls Hl _ IH]; intros s Hr K; cbn.
  { intros [= <-]. split; [lia|]. by apply console_progress; [apply console_reachable_inv|]. }
  destruct (cstep s l) as [s1|] eqn:E; [|done]. cbn. intros Run.
  destruct (cstep_weight s l s1 (console_reachable_inv s Hr) K Hl E) as [K1 Hw].
  destruct (IH s1 (cr_step _ _ _ Hr E) K1 Run). split; [lia|done].
Qed.

(** The answer for a pipe whose writers are gone: a hang-up without input. *)
Definition hangup : poll_answer := PollReady false true false.

(** The end of a piped stdin is never seen.  While [poll] answers a hang-up
    without input, as it does for a pipe that is empty and has no writer left,
    the thread goes round its loop without reading: no number of turns records
    the end of input or queues anything. *)
Theorem console_hangup_spins n r c :
  stop_requested c = false → stop_event c = false → eof_detected c = false →
  let turn := [CProc hangup r; CProc hangup r] in
  let s := {| cs_worker := c; cs_proc := WTop; cs_owner := KRun; cs_lines := []; cs_queued := [] |} in
  crun s (concat (replicate n turn)) = Some s ∧ eof_detected (cs_worker s) = false.
Proof.
  intros Hs He Hf turn s. split; [|done].
  assert (T : ∀ ls, crun s (turn ++ ls) = crun s ls).
  { intros ls. subst turn s. destruct c as [e sr se f st]. cbn in Hs, He. subst sr se. reflexivity. }
  induction n as [|n IH]; [done|].
  change (concat (replicate (S n) turn)) with (turn ++ concat (replicate n turn)). by rewrite T.
Qed.

(** ** Witnesses *)

Definition console_demo : list clabel :=
  [CProc hangup ReadEof; CProc (PollReady true false false) ReadEof;
   CProc hangup (ReadBytes [65; 10]%Z); COwner false; COwner false; CProc hangup ReadEof;
   CProc hangup ReadEof; CProc hangup ReadEof; COwner false; COwner false].

Definition console_demo_state : csys := default csys_init (crun csys_init console_demo).

Lemma console_demo_reachable : creachable console_demo_state.
Proof.
  assert (E : crun csys_init console_demo = Some console_demo_state) by (vm_compute; reflexivity).
  eapply crun_reachable; [apply cr_init|exact E].
Qed.

Lemma console_stopped_is_done_witness :
  cs_proc console_demo_state = WGone ∧ cs_queued console_demo_state = [[65; 10; 0]]%Z.
Proof.
  refine (console_stopped_is_done console_demo_state console_demo_reachable _). left. vm_compute. reflexivity.
Defined.

Lemma console_shutdown_terminates_witness :
  length [COwner true] ≤ 13
  ∧ (cs_owner (default csys_init (crun console_demo_state [COwner true])) = KFreed
     ∨ ∃ l s'', is_take l = false ∧ cstep (default csys_init (crun console_demo_state [COwner true])) l = Some s'').
Proof.
  refine (console_shutdown_terminates console_demo_state [COwner true] _ console_demo_reachable _ _ eq_refl).
  - vm_compute. discriminate.
  - by repeat constructor.
Defined.

Lemma console_hangup_spins_witness :
  crun csys_init (concat (replicate 7 [CProc hangup ReadEof; CProc hangup ReadEof])) = Some csys_init.
Proof.
  refine (proj1 (console_hangup_spins 7 ReadEof (cs_worker csys_init) eq_refl eq_refl eq_refl)).
Defined.
