(* ===== verification/Console.v ===== *)
(** * The console slot (lib/comm/console.cpp)

    The event loop's pass over the console: taking the end of input from the
    reader, reconnecting, feeding the queued lines to the slot, and the
    disconnect that ends a console session or, when stdin is a pipe or a file,
    the server.  The slot is the console slot of [World]; the reader is the one
    of [ConsoleWorker]. *)

From S2P Require Import Prelude AsyncQueue TextUtil InBuf OutBuf Abstract Execution WsFrame WsConn HttpUpgrade World.
From S2P Require Import Outbound InputMode Inbound FileInput ConsoleWorker.

Section Console.
Context `{Host, MultiByte, WsCrypto}.

(** ** State *)

Record console := {
  console_queue : AsyncQueue.async_queue;
  console_ctx : option console_worker;
  console_disconnect_pending : bool
}.

Definition with_ctx (k : console) (c : option console_worker) : console :=
  {| console_queue := console_queue k; console_ctx := c;
     console_disconnect_pending := console_disconnect_pending k |}.
Definition with_queue (k : console) (q : AsyncQueue.async_queue) : console :=
  {| console_queue := q; console_ctx := console_ctx k;
     console_disconnect_pending := console_disconnect_pending k |}.
Definition with_pending (k : console) (b : bool) : console :=
  {| console_queue := console_queue k; console_ctx := console_ctx k; console_disconnect_pending := b |}.

(** ** The pass *)

(** The end of input: the reader is stopped and freed, the terminal goes back to
    line input, and a terminal that may reconnect gets a new reader, [reinit]. *)
Definition console_take_eof (allow_reconnect tty : bool) (reinit : option console_worker) (k : console) (w : world)
    : console * world :=
  match console_ctx k with
  | None => (k, w)
  | Some c =>
      let '(c', eof) := console_worker_take_eof c in
      if negb eof then (with_ctx k (Some c'), w)
      else
        let w := (comm_set_line_input true w).1 in
        (with_pending (with_ctx k (if tty && allow_reconnect then reinit else None)) true, w)
  end.

(** The dequeue loop; a failed refill ends the input of the reader. *)
Definition console_feed (k : console) (w : world) : console * world :=
  let '(q, w, ok) := feed_loop (S (AsyncQueue.count (console_queue k))) (console_queue k) w in
  let k := with_queue k q in
  (if ok then k else with_ctx k (console_worker_set_eof <$> console_ctx k), w).

(** The part under [console_disconnect_pending]. *)
Definition console_finish (allow_reconnect : bool) (k : console) (w : world) : console * world :=
  let wait := match comm w with
              | Some c => negb allow_reconnect
                  && (busy w || has_flag (flags c) C_DEFERRED_INBOUND
                      || has_flag (flags c) C_ENABLE_PROMPT && negb (has_flag (flags c) C_INVOKED_PROMPT))
              | None => false
              end in
  if wait then (k, w)
  else
    let done_ w := 
      (with_pending (with_queue k (AsyncQueue.async_queue_clear (console_queue k))) false,
       if allow_reconnect then w else emit w EServerShutdown) in
    match comm w with
    | None => done_ w
    | Some c =>
        let w := if negb (has_flag (flags c) C_CLOSING) || has_flag (flags c) C_DISCONNECT_PENDING
                 then (comm_close_after_console_eof w).1 else w in
        match comm w with
        | None => (k, fails w)
        | Some c =>
            if has_flag (flags c) (Z.lor C_AWAITING_HOOK C_DISCONNECT_PENDING) || busy w then (k, w)
            else done_ (remove_slot w)
        end
    end.

(** [comm_process_console_input]; [fresh] is the slot [comm_abstract_add_file]
    sets up, if it succeeds, and [name] the console's entry name. *)
Definition comm_process_console_input (allow_reconnect tty : bool) (reinit : option console_worker)
    (fresh : option comm_abstract) (name : list Z) (k : console) (w : world) : console * world * Z :=
  let '(k, w) := console_take_eof allow_reconnect tty reinit k w in
  if bool_decide (comm w = None) && allow_reconnect && bool_decide (is_Some (console_ctx k))
     && negb (AsyncQueue.async_queue_is_empty (console_queue k))
  then match fresh with
       | None => (k, w, (-1)%Z)
       | Some c =>
           let k := with_queue k (AsyncQueue.async_queue_clear (console_queue k)) in
           (k, (comm_invoke_connect name (with_comm w (Some c))).1, 0%Z)
       end
  else
    let '(k, w) := console_feed k w in
    let '(w, _) := comm_process_input None w in
    if console_disconnect_pending k
    then let '(k, w) := console_finish allow_reconnect k w in (k, w, 0%Z)
    else (k, w, 0%Z).

(** ** Lemmas *)

(** A disconnect hook that sends no input to itself. *)
Class QuietDisconnect := quiet_disconnect : ∀ h w,
  hc_type h = HOOK_DISCONNECT → messages (dispatch h w).1 = messages w.

(** Hooks run inline and nothing is awaited, so no slot is ever busy. *)
Class IdleHost := idle_host : ∀ w, busy w = false.

Context {quiet : QuietDisconnect} {idle : IdleHost} {laws : LineHost}.

#[local] Instance idle_scheduler : BusyScheduler.
Proof. intros w i. by rewrite !idle_host. Qed.

Lemma messages_free_outbound w : messages (comm_free_outbound_buffers w) = messages w.
Proof. unfold comm_free_outbound_buffers. by destruct (comm w). Qed.

Lemma messages_on_conn f w : messages (on_conn f w) = messages w.
Proof. unfold on_conn. by destruct (comm w). Qed.

Lemma messages_remove w : messages (remove_slot w) = messages w.
Proof.
  unfold remove_slot. destruct (comm w); [|done]. cbn zeta.
  match goal with |- messages (with_comm (emit ?v ?e) None) = _ =>
    change (messages (emit v e) = messages w) end.
  rewrite messages_emit. by rewrite app_nil_r.
Qed.

Lemma messages_deref w k : (∀ c, messages (k c) = messages w) → messages (deref w k) = messages w.
Proof. intros Hk. unfold deref. by destruct (comm w). Qed.

Lemma messages_quiet w e : (match e with EDispatch _ => false | _ => true end) = true →
  messages (emit w e) = messages w.
Proof. intros He. rewrite messages_emit. destruct e; try done; by rewrite app_nil_r. Qed.

(** *** The disconnect *)

Lemma messages_dispatch_disconnect w :
  messages (do_dispatch (slot_hook HOOK_DISCONNECT) disconnect_hook_complete w).1 = messages w.
Proof.
  unfold do_dispatch. pose proof (quiet_disconnect (slot_hook HOOK_DISCONNECT)
    (emit w (EDispatch (slot_hook HOOK_DISCONNECT))) eq_refl) as Q.
  destruct (dispatch _ _) as [w1 r]. cbn [fst] in *.
  rewrite messages_quiet by done. rewrite messages_emit in Q. cbn in Q. rewrite app_nil_r in Q.
  destruct (hook_async _); [done|]. unfold disconnect_hook_complete, lower. by rewrite messages_flags.
Qed.

Lemma messages_close_tail b w : messages (close_tail b w).1 = messages w.
Proof.
  unfold close_tail. destruct (comm w) as [c|]; [|done]. cbn zeta. destruct (has_flag _ C_AWAITING_HOOK); [done|].
  assert (L : messages (lower C_BUFFERED_WRITE (comm_free_outbound_buffers w)) = messages w)
    by (unfold lower; by rewrite messages_flags, messages_free_outbound).
  destruct (host_slot =? COMM_SLOT_CONSOLE)%Z.
  { destruct file_inputs; cbn [fst].
    - by rewrite messages_quiet, messages_remove.
    - destruct b; [by rewrite messages_quiet|done]. }
  destruct (has_flag _ C_BUFFERED_WRITE && _); [done|].
  set (w1 := if has_flag (flags c) C_BUFFERED_WRITE then _ else w).
  assert (L1 : messages w1 = messages w) by (unfold w1; by destruct (has_flag _ C_BUFFERED_WRITE)).
  clearbody w1. destruct (_ && negb (_ =? WS_CLOSE_SENT)%Z && _); [cbn [fst]; by rewrite messages_on_conn|].
  destruct (_ && negb _); [done|]. cbn [fst]. rewrite messages_remove.
  assert (Q : ∀ v (o : option nat), messages (match o with Some n => if bio_has_fd n then emit v (ERemoveFd n) else v
    | None => v end) = messages v) by (intros v [n|]; [destruct (bio_has_fd n); [by apply messages_quiet|]|]; done).
  rewrite !Q. destruct (_ && _); [by rewrite messages_quiet|done].
Qed.

Lemma messages_close b w : messages (comm_close_impl b w).1 = messages w.
Proof.
  unfold comm_close_impl. destruct (comm w) as [c|]; [|done].
  destruct (_ || _); [|apply messages_close_tail].
  set (w1 := raise C_AWAITING_HOOK _). assert (M1 : messages w1 = messages w).
  { unfold w1, raise, lower. by rewrite messages_flags, messages_quiet, !messages_flags. }
  pose proof (messages_dispatch_disconnect w1) as D. clearbody w1.
  destruct (do_dispatch _ _ w1) as [w2 r]. cbn [fst] in D.
  assert (X : ∀ v f, messages v = messages w → messages (set_flags_w f v) = messages w)
    by (intros v f Hv; by rewrite messages_flags).
  assert (D2 : messages w2 = messages w) by congruence.
  destruct r; cbn [fst]; rewrite ?messages_close_tail; (etransitivity; [apply messages_deref; intros _|exact D2]);
    rewrite ?messages_flags; rewrite D2; unfold lower, raise; rewrite ?messages_flags; done.
Qed.

Lemma messages_finish allow k w : messages (console_finish allow k w).2 = messages w.
Proof.
  unfold console_finish. destruct (match comm w with Some _ => _ | None => false end); [done|].
  assert (Dn : ∀ v, messages (if allow then v else emit v EServerShutdown) = messages v)
    by (intros v; destruct allow; [done|by apply messages_quiet]).
  destruct (comm w) as [c|]; [|cbn [snd]; apply Dn].
  set (w1 := if _ || _ then _ else w). assert (M1 : messages w1 = messages w)
    by (unfold w1; destruct (_ || _); [apply messages_close|done]). clearbody w1.
  destruct (comm w1) as [c1|]; [|done]. destruct (_ || _); [done|]. cbn [snd]. by rewrite Dn, messages_remove.
Qed.

(** *** The end of input *)

Lemma plain_echo w c b :
  plain_slot w c b → messages (comm_set_line_input true w).1 = messages w
  ∧ ∃ c', plain_slot (comm_set_line_input true w).1 c' b.
Proof.
  intros Hp. pose proof Hp as [[Hc Hi Hd Hb Hl Ha [Hw1 Hw2] Hbu] Hs Ht]. unfold comm_set_line_input. rewrite Hc, Hl.
  unfold comm_set_echo. rewrite Hc. 
  assert (E : ∀ v, comm v = Some c → messages v = messages w → messages (set_client_echo true v) = messages w
    ∧ ∃ c', plain_slot (set_client_echo true v) c' b).
  { intros v Hv Mv. unfold set_client_echo, raise. split; [by rewrite messages_flags|].
    unfold set_flags_w. rewrite Hv. exists (set_flags c (set_flag (flags c) C_CLIENT_ECHO)).
    split; [split|done|]; try done; cbn [set_flags flags]; rewrite ?has_flag_set_other by done; try done.
    all: first [by rewrite idle_host
               |split; [done|]; unfold C_WEBSOCKET_IS_READY in *; by rewrite ws_state_set]. }
  destruct is_console.
  - destruct tty_ok; cbn [fst].
    + apply E; [done|by apply messages_quiet].
    + split; [done|]. by exists c.
  - cbn [fst]. assert (on_conn (negotiate_echo true) w = w) as ->.
    { unfold on_conn. rewrite Hc. unfold negotiate_echo. cbn [cn]. rewrite Ht. destruct w. cbn in *. by subst. }
    by apply E.
Qed.

Lemma take_eof_spec allow tty reinit k w c b :
  plain_slot w c b →
  let '(k', w') := console_take_eof allow tty reinit k w in
  console_queue k' = console_queue k ∧ messages w' = messages w ∧ ∃ c', plain_slot w' c' b.
Proof.
  intros Hp. unfold console_take_eof. destruct (console_ctx k) as [x|]; [|split_and!; by eauto].
  cbn. destruct (eof_detected x); cbn; [|split_and!; by eauto].
  split; [done|]. by apply (plain_echo w c b).
Qed.

(** ** Theorems *)

(** What was typed before the end of input reaches the application before the
    console is disconnected.  With hooks that run inline, one pass over a
    console in line input delivers every complete queued line once and in
    order and leaves nothing queued, whether or not the end of input was
    noticed in this pass and whatever the disconnect then does. *)
Theorem console_lines_before_disconnect allow tty reinit fresh name k w c b ms ls tail :
  plain_slot w c b → queued (console_queue k) ms → Forall chunk ms → length (concat ms) ≤ ib_free b →
  framed (ib_pending b ++ concat ms) ls tail →
  ∃ k' w', comm_process_console_input allow tty reinit fresh name k w = (k', w', 0%Z)
    ∧ messages w' = messages w ++ map trim_ascii ls ∧ AsyncQueue.count (console_queue k') = 0.
Proof.
  intros Hp Hq Hm Hl Hf. unfold comm_process_console_input.
  pose proof (take_eof_spec allow tty reinit k w c b Hp) as T.
  destruct (console_take_eof allow tty reinit k w) as [k1 w1]. destruct T as (Tq & Tm & c1 & Hp1).
  assert (N : comm w1 ≠ None) by (destruct Hp1 as [[-> _ _ _ _ _ _ _] _ _]; done).
  rewrite bool_decide_eq_false_2 by done. cbn [andb]. unfold console_feed. rewrite Tq.
  assert (Hn : AsyncQueue.count (console_queue k) = length ms)
    by (rewrite <- (length_contents (console_queue k)), (proj2 Hq); by rewrite length_map).
  rewrite <- (app_nil_r ms) in Hq.
  destruct (feed_fits ms 1 (console_queue k) w1 c1 b [] Hp1 Hq Hm Hl) as (q1 & b1 & E & Q & Hp2 & P1).
  rewrite Hn, <- Nat.add_1_r, E. destruct (feed_empty 0 q1 (with_inbound w1 [b1]) Q) as (q' & -> & Q').
  rewrite <- P1 in Hf. destruct (process_framed _ _ b1 ls tail (pl_line _ _ _ Hp2) Hf) as (w' & r & -> & _ & M & _).
  assert (Hw : messages (with_inbound w1 [b1]) = messages w1) by (unfold with_inbound; by destruct (comm w1)).
  rewrite Hw, Tm in M.
  assert (C0 : AsyncQueue.count q' = 0) by (rewrite <- (length_contents q'), (proj2 Q'); done).
  destruct (console_disconnect_pending _).
  - pose proof (messages_finish allow (with_queue k1 q') w') as F.
    destruct (console_finish allow (with_queue k1 q') w') as [k2 w2] eqn:Ef. exists k2, w2.
    split; [done|]. split; [cbn in F; congruence|]. unfold console_finish in Ef.
    repeat case_match; simplify_eq; cbn; done.
  - by eexists _, _.
Qed.

(** The end of input that was noticed or is still pending. *)
Definition eof_known (k : console) : bool :=
  console_disconnect_pending k || match console_ctx k with Some c => eof_detected c | None => false end.

(** The end of a piped console is not forgotten.  After a pass that knows of
    it, either the disconnect is still pending, so the next pass takes it up
    again, or the console slot is gone and the server has been told to stop. *)
Theorem console_eof_not_forgotten tty reinit fresh name k w :
  eof_known k = true →
  let '(k', w', _) := comm_process_console_input false tty reinit fresh name k w in
  console_disconnect_pending k' = true ∨ (comm w' = None ∧ ∃ l, log w' = l ++ [EServerShutdown]).
Proof.
  intros He. unfold comm_process_console_input.
  destruct (console_take_eof false tty reinit k w) as [k1 w1] eqn:T.
  assert (P1 : console_disconnect_pending k1 = true).
  { unfold console_take_eof in T. unfold eof_known in He. destruct (console_ctx k) as [x|].
    - cbn in T. destruct (eof_detected x); cbn in T; simplify_eq; [done|]. by rewrite orb_false_r in He.
    - simplify_eq. by rewrite orb_false_r in He. }
  rewrite andb_false_r. cbn [andb]. destruct (console_feed k1 w1) as [k2 w2] eqn:Fd.
  assert (P2 : console_disconnect_pending k2 = true).
  { unfold console_feed in Fd. destruct (feed_loop _ _ _) as [[q v] ok]. simplify_eq. by destruct ok. }
  destruct (comm_process_input None w2) as [w3 r]. rewrite P2.
  destruct (console_finish false k2 w3) as [k4 w4] eqn:Fi. unfold console_finish in Fi.
  destruct (match comm w3 with Some _ => _ | None => false end); [simplify_eq; by left|].
  destruct (comm w3) as [c3|] eqn:E3; [|simplify_eq; right; split; [done|by eexists]].
  set (w5 := if _ || _ then _ else w3) in Fi. destruct (comm w5) as [c5|] eqn:E5; [|simplify_eq; by left].
  destruct (has_flag (flags c5) (Z.lor C_AWAITING_HOOK C_DISCONNECT_PENDING) || busy w5); [simplify_eq; by left|]. simplify_eq. right. split; [|by eexists].
  unfold remove_slot. cbn [emit comm]. by rewrite E5.
Qed.

End Console.

(** ** Defects *)

#[local] Existing Instances demo_mbrlen demo_crypto.

(** The console slot with a hook of type [t] that closes it, run inline. *)
Definition console_close_host (t : hook_type) : Host := {|
  host_slot := COMM_SLOT_CONSOLE;
  dispatch := fun h w => (if bool_decide (hc_type h = t)
                          then (comm_close (H := tty_host COMM_SLOT_CONSOLE) w).1 else w, DISPATCH_OK);
  busy := fun _ => false;
  hook_async := fun _ => false;
  has_hook := fun _ => true;
  bio_has_fd := fun _ => true;
  file_inputs := false;
  tty_ok := true;
  host_write := fun _ => true;
  host_slots := {| alloc_ok := fun _ => true; unix_path := fun _ => None |}
|}.

(** The calls made between two states. *)
Definition calls_between (w w' : world) : list effect := drop (length (log w)) (log w').

(** A connect hook that refuses the console hangs the server.  The hook runs
    inside [comm_init_console] with [console_mutex] held; closing the console
    slot there signals the end of input, which locks the same mutex again. *)
Theorem console_connect_close_relocks :
  let H := console_close_host HOOK_CONNECT in
  let w := input_world C_LINE_INPUT [] in
  EConsoleEof ∈ calls_between w (comm_invoke_connect (H := H) [] w).1.
Proof. vm_compute. repeat (apply elem_of_cons; (left; reflexivity) || right). Qed.

(** ** Witnesses *)

Definition console_host : Host := tty_host COMM_SLOT_CONSOLE.

Lemma console_line_host : @LineHost console_host.
Proof. intros h w c _ Hc. cbn. split_and!; try done. by exists c. Qed.

(** A console whose reader has seen the end of the two chunks in its queue. *)
Definition demo_console : console :=
  {| console_queue := demo_queue;
     console_ctx := Some (console_worker_set_eof fresh_worker); console_disconnect_pending := false |}.

Definition demo_console_world : world := input_world C_LINE_INPUT [data_buffer []].

Lemma console_lines_before_disconnect_witness :
  ∃ k' w', comm_process_console_input (H := console_host) false false None None [] demo_console demo_console_world
    = (k', w', 0%Z) ∧ messages w' = [[103; 111; 32; 110]]%Z ∧ AsyncQueue.count (console_queue k') = 0.
Proof.
  destruct (console_lines_before_disconnect (H := console_host) (quiet := fun _ _ _ => eq_refl)
    (idle := fun _ => eq_refl) (laws := console_line_host) false false None None [] demo_console demo_console_world
    (demo_comm (data_buffer [])) (data_buffer []) demo_chunks [[103; 111; 32; 110]]%Z [108]%Z) as (k' & w' & E & M & Q).
  - split; try done. by split; try done; vm_compute; lia.
  - exact demo_queued.
  - exact demo_chunks_ok.
  - vm_compute. lia.
  - change (ib_pending (data_buffer []) ++ concat demo_chunks) with ([103; 111; 32; 110]%Z ++ [10]%Z ++ [108]%Z).
    apply framed_line; [by repeat constructor|left; by exists 10%Z|done|]. apply framed_tail. by repeat constructor.
  - exists k', w'. split; [exact E|]. split; [|exact Q]. rewrite M. vm_compute. reflexivity.
Defined.

Lemma console_eof_not_forgotten_witness :
  let '(k', w', _) := comm_process_console_input (H := console_host) false false None None [] demo_console demo_console_world in
  console_disconnect_pending k' = true ∨ (comm w' = None ∧ ∃ l, log w' = l ++ [EServerShutdown]).
Proof.
  apply (console_eof_not_forgotten (H := console_host)). vm_compute. reflexivity.
Defined.
