(* ===== verification/Accept.v ===== *)
(** * Listening sockets (lib/comm/accept.cpp, the POSIX branch)

    Opening listeners from accept names, and accepting connections: the
    descriptors, BIOs, pathnames and slots each call takes and gives back on
    every path.  The answers of the socket calls and of OpenSSL are arguments;
    the slot table is the one of [Abstract]. *)

From stdpp Require Import gmap.
From S2P Require Import Prelude InBuf OutBuf Abstract.

(** ** Accept names *)

Inductive accept_kind := AcceptInvalid | AcceptUnix (path : list Z) | AcceptTcp (endpoint : list Z).

Definition tcp_scheme : list Z := [116; 99; 112; 58; 47; 47]%Z.         (* tcp:// *)
Definition unix_scheme : list Z := [117; 110; 105; 120; 58; 47; 47]%Z.  (* unix:// *)

(** [configured_name.compare(0, scheme.size(), scheme) == 0]. *)
Definition starts_with (scheme name : list Z) : bool := bool_decide (take (length scheme) name = scheme).

Definition parse_accept_name (name : list Z) : accept_kind :=
  if length name =? 0 then AcceptInvalid
  else if starts_with unix_scheme name then
    let path := drop (length unix_scheme) name in
    if length path =? 0 then AcceptInvalid else AcceptUnix path
  else if negb (starts_with tcp_scheme name) || (length name =? length tcp_scheme) then AcceptInvalid
  else AcceptTcp (drop (length tcp_scheme) name).

(** ** Resources *)

Record net := {
  n_fds : gset Z;                  (* open descriptors *)
  n_bios : gmap nat (option Z);    (* live BIOs and the descriptor each closes *)
  n_paths : gset (list Z);         (* names bound in the file system *)
  n_slots : table;
  n_watch : gmap Z Z               (* descriptors of the runtime and their contexts *)
}.

Definition with_fds (n : net) (f : gset Z) : net :=
  {| n_fds := f; n_bios := n_bios n; n_paths := n_paths n; n_slots := n_slots n; n_watch := n_watch n |}.
Definition with_bios (n : net) (b : gmap nat (option Z)) : net :=
  {| n_fds := n_fds n; n_bios := b; n_paths := n_paths n; n_slots := n_slots n; n_watch := n_watch n |}.
Definition with_paths (n : net) (p : gset (list Z)) : net :=
  {| n_fds := n_fds n; n_bios := n_bios n; n_paths := p; n_slots := n_slots n; n_watch := n_watch n |}.
Definition with_slots (n : net) (t : table) : net :=
  {| n_fds := n_fds n; n_bios := n_bios n; n_paths := n_paths n; n_slots := t; n_watch := n_watch n |}.
Definition with_watch (n : net) (w : gmap Z Z) : net :=
  {| n_fds := n_fds n; n_bios := n_bios n; n_paths := n_paths n; n_slots := n_slots n; n_watch := w |}.

Definition open_fd (fd : Z) (n : net) : net := with_fds n ({[fd]} ∪ n_fds n).
Definition close_fd (fd : Z) (n : net) : net := with_fds n (n_fds n ∖ {[fd]}).
Definition new_bio (b : nat) (fd : option Z) (n : net) : net := with_bios n (<[b := fd]> (n_bios n)).

(** [BIO_free] of a BIO created with [BIO_CLOSE]. *)
Definition free_bio (b : nat) (n : net) : net :=
  match n_bios n !! b with
  | Some fd => with_bios (match fd with Some f => close_fd f n | None => n end) (delete b (n_bios n))
  | None => n
  end.

Definition apply_event (n : net) (e : slot_event) : net :=
  match e with
  | EvBIOFree b => free_bio b n
  | EvUnlink p => with_paths n (n_paths n ∖ {[p]})
  | EvSSLFree _ => n
  end.

Section Accept.
Context `{SlotEnv}.

(** [comm_abstract_add_bio] and [comm_abstract_remove] on the table in [n]. *)
Definition add_slot (n : net) (r w : option nat) (fl : Z) : net * option Z :=
  let '(t, s) := comm_abstract_add_bio (n_slots n) r w (-1) fl in (with_slots n t, s).

Definition remove_slot_n (n : net) (slot : Z) : net :=
  let t := comm_abstract_remove (n_slots n) slot in
  foldl apply_event (with_slots n t) (drop (length (events (n_slots n))) (events t)).

(** The end of [create_unix_listener] and [comm_accept]: the slot, then the
    runtime; [watch_ok] is the answer of [async_runtime_add]. *)
Definition publish_listener (n : net) (b : nat) (fd : Z) (watch_ok : bool) : net * Z :=
  match add_slot n (Some b) None C_SOCKET_LISTENING with
  | (n, None) => (free_bio b n, (-1)%Z)
  | (n, Some slot) =>
      if negb watch_ok then (remove_slot_n n slot, (-1)%Z)
      else (with_watch n (<[fd := slot]> (n_watch n)), 0%Z)
  end.

(** ** Listeners *)

Definition SUN_PATH_SIZE : nat := 108.

(** The answers [create_unix_listener] gets: a socket, non-blocking mode, bind,
    listen, a BIO, the runtime. *)
Record unix_env := {
  ue_socket : option Z; ue_nbio : bool; ue_bind : bool; ue_listen : bool;
  ue_bio : option nat; ue_watch : bool
}.

Definition create_unix_listener (env : unix_env) (path : list Z) (n : net) : net * Z :=
  if SUN_PATH_SIZE <=? length path then (n, (-1)%Z)
  else match ue_socket env with
  | None => (n, (-1)%Z)
  | Some fd =>
      let n := open_fd fd n in
      if negb (ue_nbio env) then (close_fd fd n, (-1)%Z)
      else if negb (ue_bind env) then (close_fd fd n, (-1)%Z)
      else
        let n := with_paths n ({[path]} ∪ n_paths n) in
        if negb (ue_listen env) then (close_fd fd n, (-1)%Z)
        else match ue_bio env with
        | None => (close_fd fd n, (-1)%Z)
        | Some b => publish_listener (new_bio b (Some fd) n) b fd (ue_watch env)
        end
  end.

(** The answers of the TCP path: an accept BIO, its three settings, the first
    [BIO_do_accept] with the listening descriptor it creates, [BIO_get_fd]. *)
Record tcp_env := {
  te_bio : option nat; te_name : bool; te_bind_mode : bool; te_nbio : bool;
  te_listen : option Z; te_get_fd : bool; te_watch : bool
}.

Definition create_tcp_listener (env : tcp_env) (n : net) : net * Z :=
  match te_bio env with
  | None => (n, (-1)%Z)
  | Some b =>
      let n := new_bio b None n in
      if negb (te_name env) then (free_bio b n, (-1)%Z)
      else if negb (te_bind_mode env) then (free_bio b n, (-1)%Z)
      else if negb (te_nbio env) then (free_bio b n, (-1)%Z)
      else match te_listen env with
      | None => (free_bio b n, (-1)%Z)
      | Some fd =>
          let n := new_bio b (Some fd) (open_fd fd n) in
          if negb (te_get_fd env) then (free_bio b n, (-1)%Z)
          else publish_listener n b fd (te_watch env)
      end
  end.

Definition comm_accept (ue : unix_env) (te : tcp_env) (name : list Z) (n : net) : net * Z :=
  match parse_accept_name name with
  | AcceptInvalid => (n, (-1)%Z)
  | AcceptUnix path => create_unix_listener ue path n
  | AcceptTcp _ => create_tcp_listener te n
  end.

(** ** Connections *)

(** The answers of an accept: the descriptor and its BIO, non-blocking mode.  On a
    Unix-domain listener the BIO is made after the descriptor, on a TCP listener
    [BIO_do_accept] makes both and [BIO_pop] takes the BIO. *)
Record accept_env := {
  ae_fd : option Z; ae_bio : option nat; ae_nbio : bool; ae_watch : bool
}.

Definition accept_unix_listener (env : accept_env) (n : net) : net * option Z :=
  match ae_fd env with
  | None => (n, None)
  | Some fd =>
      let n := open_fd fd n in
      if negb (ae_nbio env) then (close_fd fd n, None)
      else match ae_bio env with
      | None => (close_fd fd n, None)
      | Some b =>
          let n := new_bio b (Some fd) n in
          match add_slot n (Some b) (Some b) C_SOCKET_READABLE with
          | (n, None) => (free_bio b n, None)
          | (n, Some s) => (n, Some s)
          end
      end
  end.

Definition accept_tcp_listener (env : accept_env) (n : net) : net * option Z :=
  match ae_fd env, ae_bio env with
  | Some fd, Some b =>
      let n := new_bio b (Some fd) (open_fd fd n) in
      if negb (ae_nbio env) then (free_bio b n, None)
      else match add_slot n (Some b) (Some b) C_SOCKET_READABLE with
           | (n, None) => (free_bio b n, None)
           | (n, Some s) => (n, Some s)
           end
  | _, _ => (n, None)
  end.

(** [_accept_new_comm] on slot [listener]; [is_unix] is [listener_is_unix_socket]. *)
Definition accept_new_comm (env : accept_env) (listener : Z) (is_unix : bool) (n : net) : net * option Z :=
  match resolve_slot (n_slots n) listener with
  | Some c => if bool_decide (is_Some (rbio c)) && has_flag (flags c) C_SOCKET_LISTENING then
                if is_unix then accept_unix_listener env n else accept_tcp_listener env n
              else (n, None)
  | None => (n, None)
  end.

(** The descriptor of a slot's read BIO. *)
Definition rbio_fd (n : net) (slot : Z) : option Z :=
  c ← resolve_slot (n_slots n) slot; b ← rbio c; mjoin (n_bios n !! b).

Definition async_poll_read (watch_ok : bool) (n : net) (slot : Z) : option net :=
  match rbio_fd n slot with
  | Some fd => if watch_ok then Some (with_watch n (<[fd := slot]> (n_watch n))) else None
  | None => None
  end.

(** [comm_process_listener_event]: the slot the connect hook is then called for. *)
Definition comm_process_listener_event (env : accept_env) (listener : Z) (is_unix : bool) (n : net)
    : net * option Z :=
  match accept_new_comm env listener is_unix n with
  | (n, None) => (n, None)
  | (n, Some s) =>
      match async_poll_read (ae_watch env) n s with
      | None => (remove_slot_n n s, None)
      | Some n => (n, Some s)
      end
  end.
End Accept.

(** ** Lemmas *)

Section Lemmas.
Context `{SlotEnv}.

(** The tables have the same connections. *)
Definition same_used (t t' : table) : Prop := ∀ s, resolve_slot t' s = resolve_slot t s.

Lemma grown_same t t' :
  (∀ s c, slot_ptr t s = Some c → slot_ptr t' s = Some c) →
  (∀ s c, slot_ptr t' s = Some c → slot_ptr t s = None → c = zero_comm) → same_used t t'.
Proof.
  intros K Z0 s. unfold resolve_slot. destruct (slot_ptr t s) as [c|] eqn:E.
  - by rewrite (K s c E).
  - destruct (slot_ptr t' s) as [d|] eqn:D; [|done]. by rewrite (Z0 s d D E).
Qed.

Lemma ensure_capacity_events t n : events (ensure_capacity t n).1 = events t.
Proof. unfold ensure_capacity. by repeat case_match. Qed.

(** A connection for any free slot: it gets one, or nothing changes. *)
Lemma add_any t b w fl t' r :
  table_ok t → comm_abstract_add_bio t (Some b) w (-1) fl = (t', r) →
  table_ok t' ∧ events t' = events t
  ∧ match r with
    | None => same_used t t'
    | Some s => resolve_slot t s = None
        ∧ (∃ c, resolve_slot t' s = Some c ∧ rbio c = Some b ∧ wbio c = w ∧ flags c = fl ∧ ssl c = None)
        ∧ ∀ s', s' ≠ s → resolve_slot t' s' = resolve_slot t s'
    end.
Proof.
  intros Hok E. unfold comm_abstract_add_bio in E. rewrite bool_decide_eq_false_2 in E by done. cbn [andb] in E.
  pose proof (ensure_capacity_events t 2) as V1.
  destruct (ensure_capacity t 2) as [t1 ok] eqn:EC. cbn [fst] in V1.
  destruct (ensure_capacity_spec _ _ _ _ Hok EC) as (O1 & O2 & O3 & O4).
  pose proof (grown_same t t1 O2 O4) as G1.
  destruct ok; cbn [negb] in E; [|by simplify_eq]. destruct (O3 eq_refl) as [Hsome _].
  unfold prepare_slot in E. change (-1 <? 0)%Z with true in E. cbn [orb] in E.
  assert (V2 : events (find_slot t1).1 = events t1)
    by (unfold find_slot; cbn [fst]; destruct (_ <=? _); [apply ensure_capacity_events|done]).
  destruct (find_slot t1) as [t2 s] eqn:FS. cbn [fst] in V2.
  destruct (find_slot_spec _ _ _ O1 Hsome FS) as (F1 & F2 & F3 & F4 & F5).
  pose proof (grown_same t1 t2 F3 F4) as G2.
  assert (G : same_used t t2) by (intros x; by rewrite G2, G1).
  destruct (slot_ptr t2 s) as [c|] eqn:P; simplify_eq; [|by rewrite V2, V1].
  assert (U : in_use c = false) by (unfold resolve_slot in F5; rewrite P in F5; by destruct (in_use c)).
  pose proof (table_ok_slot _ _ _ F1 P) as Hc. destruct (so_free c Hc U) as (Hs & _).
  destruct (assigned_ok c (Some b) w fl Hc ltac:(by left)) as [Hc' Hu].
  set (c' := mk_comm (Some b) w _ _ _ _ _ _ _ _) in *.
  assert (PP : ∀ s', slot_ptr (put_slot t2 s c') s' = if decide (s' = s) then Some c' else slot_ptr t2 s')
    by (intros s'; apply slot_ptr_put; [done|by rewrite P]).
  split_and!; [by apply put_slot_ok|cbn; congruence|by rewrite <- G| |].
  - exists c'. unfold resolve_slot. rewrite PP, decide_True, Hu by done. by split_and!.
  - intros s' Hn. unfold resolve_slot at 1. rewrite PP, decide_False by done. apply G.
Qed.

Lemma remove_used t s : table_ok t →
  table_ok (comm_abstract_remove t s)
  ∧ ∀ s', resolve_slot (comm_abstract_remove t s) s' = if decide (s' = s) then None else resolve_slot t s'.
Proof.
  intros Hok. destruct (remove_spec t s Hok) as (R1 & _ & _ & R4). split; [done|]. intros s'.
  unfold resolve_slot at 1. rewrite R4. destruct (decide (s' = s)) as [->|]; [|done].
  destruct (resolve_slot t s) as [c|] eqn:E; [done|]. unfold resolve_slot in E.
  destruct (slot_ptr t s) as [d|]; [|done]. by destruct (in_use d).
Qed.

(** Nothing is left of a failed call: descriptors, BIOs, registrations and
    connections are those from before. *)
Record balanced (n n' : net) : Prop := {
  ba_fds : n_fds n' = n_fds n;
  ba_bios : n_bios n' = n_bios n;
  ba_watch : n_watch n' = n_watch n;
  ba_table : table_ok (n_slots n');
  ba_used : same_used (n_slots n) (n_slots n')
}.

Lemma balanced_refl n : table_ok (n_slots n) → balanced n n.
Proof. by split. Qed.

Lemma open_close fd n : fd ∉ n_fds n → n_fds (close_fd fd (open_fd fd n)) = n_fds n.
Proof. intros Hf. cbn. set_solver. Qed.

(** A BIO that closes its fresh descriptor. *)
Record holds (n0 n : net) (b : nat) (fd : Z) : Prop := {
  ho_fresh : (fd ∉ n_fds n0) ∧ n_bios n0 !! b = None;
  ho_fds : n_fds n = {[fd]} ∪ n_fds n0;
  ho_bios : n_bios n = <[b := Some fd]> (n_bios n0);
  ho_watch : n_watch n = n_watch n0
}.

Lemma free_held n0 n b fd : holds n0 n b fd → table_ok (n_slots n) → same_used (n_slots n0) (n_slots n) →
  balanced n0 (free_bio b n).
Proof.
  intros [[F1 F2] H1 H2 H3] Ht Hu. unfold free_bio. rewrite H2, lookup_insert_eq.
  split; cbn; try done.
  - rewrite H1. set_solver.
  - by apply delete_insert_id.
Qed.

Lemma holds_slots n0 n b fd t : holds n0 n b fd → holds n0 (with_slots n t) b fd.
Proof. by intros []; split. Qed.

Lemma holds_paths n0 n b fd p : holds n0 n b fd → holds n0 (with_paths n p) b fd.
Proof. by intros []; split. Qed.

(** Removing the slot that was just given the BIO. *)
Lemma remove_held n0 n b fd s c :
  holds n0 n b fd → table_ok (n_slots n) → resolve_slot (n_slots n0) s = None →
  resolve_slot (n_slots n) s = Some c → rbio c = Some b → (wbio c = None ∨ wbio c = Some b) → ssl c = None →
  (∀ s', s' ≠ s → resolve_slot (n_slots n) s' = resolve_slot (n_slots n0) s') →
  balanced n0 (remove_slot_n n s)
  ∧ n_paths (remove_slot_n n s)
    = (if has_flag (flags c) C_SOCKET_LISTENING
       then match unix_path b with Some p => n_paths n ∖ {[p]} | None => n_paths n end else n_paths n).
Proof.
  intros Hh Ht Hn Hc Hr Hw Hs Ho. destruct (remove_used (n_slots n) s Ht) as [T R].
  assert (Us : same_used (n_slots n0) (comm_abstract_remove (n_slots n) s)).
  { intros s'. rewrite R. destruct (decide (s' = s)) as [->|Hne]; [done|by apply Ho]. }
  unfold remove_slot_n. set (t := comm_abstract_remove (n_slots n) s) in *.
  assert (Ev : drop (length (events (n_slots n))) (events t)
    = (if has_flag (flags c) C_SOCKET_LISTENING
       then match unix_path b with Some p => [EvUnlink p] | None => [] end else []) ++ [EvBIOFree b]).
  { unfold t, comm_abstract_remove. rewrite Hc. cbn [events]. rewrite drop_app_length.
    unfold removal_events. rewrite Hs, Hr. cbn [app].
    destruct Hw as [-> | ->]; [|rewrite decide_True by done]; by rewrite ?app_nil_r. }
  rewrite Ev, foldl_app. set (n1 := foldl apply_event (with_slots n t) _).
  assert (Hh1 : holds n0 n1 b fd ∧ n_slots n1 = t ∧ n_paths n1 = (if has_flag (flags c) C_SOCKET_LISTENING
       then match unix_path b with Some p => n_paths n ∖ {[p]} | None => n_paths n end else n_paths n)).
  { unfold n1. pose proof (holds_slots n0 n b fd t Hh) as Hh'. destruct (has_flag _ _);
      [|by split; [exact Hh'|]].
    destruct (unix_path b); [|by split; [exact Hh'|]]. split; [exact (holds_paths _ _ _ _ _ Hh')|done]. }
  destruct Hh1 as (Hh1 & Et & Ep). cbn [foldl apply_event]. split.
  - apply (free_held n0 n1 b fd Hh1); rewrite Et; done.
  - unfold free_bio. destruct (n_bios n1 !! b) as [[f|]|]; done.
Qed.

(** A call that succeeded: one new slot with one new BIO on one new descriptor,
    and the runtime reports the descriptor with the slot. *)
Record published (n n' : net) (fl : Z) (w : option nat → Prop) (fd : Z) (slot : Z) : Prop := {
  pu_slot : resolve_slot (n_slots n) slot = None
            ∧ ∃ c b, resolve_slot (n_slots n') slot = Some c ∧ rbio c = Some b ∧ w (wbio c) ∧ flags c = fl
                     ∧ n_bios n' = <[b := Some fd]> (n_bios n);
  pu_others : ∀ s, s ≠ slot → resolve_slot (n_slots n') s = resolve_slot (n_slots n) s;
  pu_fds : n_fds n' = {[fd]} ∪ n_fds n;
  pu_watch : n_watch n' = <[fd := slot]> (n_watch n);
  pu_table : table_ok (n_slots n')
}.

Lemma publish_spec n0 n b fd watch_ok :
  holds n0 n b fd → n_slots n = n_slots n0 → table_ok (n_slots n0) →
  let '(n', x) := publish_listener n b fd watch_ok in
  x = 0%Z ∧ (∃ slot, published n0 n' C_SOCKET_LISTENING (fun w => w = None) fd slot)
  ∨ x = (-1)%Z ∧ balanced n0 n'.
Proof.
  intros Hh Es Ht. unfold publish_listener, add_slot. rewrite Es.
  destruct (comm_abstract_add_bio (n_slots n0) (Some b) None (-1) C_SOCKET_LISTENING) as [t r] eqn:A.
  destruct (add_any _ _ _ _ _ _ Ht A) as (T & _ & R). pose proof (holds_slots n0 n b fd t Hh) as Hh'.
  destruct r as [slot|].
  - destruct R as (R1 & (c & R2 & R3 & R4 & R5 & R6) & R7). destruct watch_ok; cbn [negb].
    + left. split; [done|]. exists slot. destruct Hh. split; cbn; try done.
      * split; [done|]. exists c, b. by split_and!.
      * congruence.
    + right. split; [done|]. apply (remove_held n0 _ b fd slot c Hh'); try done. by left.
  - right. split; [done|]. by apply (free_held n0 _ b fd Hh').
Qed.

(** The slot [s] of a new connection, over the BIO [b] on the descriptor [fd]. *)
Definition accepted_on (n0 n : net) (b : nat) (fd s : Z) : Prop :=
  holds n0 n b fd ∧ table_ok (n_slots n) ∧ resolve_slot (n_slots n0) s = None
  ∧ (∃ c, resolve_slot (n_slots n) s = Some c ∧ rbio c = Some b ∧ wbio c = Some b
          ∧ flags c = C_SOCKET_READABLE ∧ ssl c = None)
  ∧ ∀ s', s' ≠ s → resolve_slot (n_slots n) s' = resolve_slot (n_slots n0) s'.

Lemma add_connection_spec n0 n b fd :
  holds n0 n b fd → n_slots n = n_slots n0 → table_ok (n_slots n0) →
  match add_slot n (Some b) (Some b) C_SOCKET_READABLE with
  | (n', None) => balanced n0 (free_bio b n')
  | (n', Some s) =>
      accepted_on n0 n' b fd s
  end.
Proof.
  intros Hh Es Ht. unfold add_slot. rewrite Es.
  destruct (comm_abstract_add_bio (n_slots n0) (Some b) (Some b) (-1) C_SOCKET_READABLE) as [t r] eqn:A.
  destruct (add_any _ _ _ _ _ _ Ht A) as (T & _ & R). pose proof (holds_slots n0 n b fd t Hh) as Hh'.
  destruct r as [slot|]; [by destruct R|]. by apply (free_held n0 _ b fd Hh').
Qed.

(** Its registration, or its removal. *)
Lemma register_accepted n n1 b fd s ok :
  accepted_on n n1 b fd s →
  match async_poll_read ok n1 s with
  | None => balanced n (remove_slot_n n1 s)
  | Some n' => published n n' C_SOCKET_READABLE is_Some fd s
  end.
Proof.
  intros (Hh & T & R1 & (c & R2 & R3 & R4 & R5 & R6) & R7).
  assert (E : rbio_fd n1 s = Some fd).
  { unfold rbio_fd. rewrite R2. cbn. rewrite R3. cbn. destruct Hh as [_ _ -> _]. by rewrite lookup_insert_eq. }
  unfold async_poll_read. rewrite E. destruct ok.
  - destruct Hh. split; cbn; try done; [|congruence].
    split; [done|]. exists c, b. rewrite R4. by split_and!.
  - apply (remove_held n n1 b fd s c Hh T); try done. by right.
Qed.

Lemma holds_new n b fd : fd ∉ n_fds n → n_bios n !! b = None → holds n (new_bio b (Some fd) (open_fd fd n)) b fd.
Proof. by split. Qed.

Lemma balanced_fds n n' : n_fds n' = n_fds n → n_bios n' = n_bios n → n_watch n' = n_watch n →
  n_slots n' = n_slots n → table_ok (n_slots n) → balanced n n'.
Proof. intros H1 H2 H3 H4 Ht. split; rewrite ?H4; done. Qed.

(** The kernel and OpenSSL hand out new descriptors and BIOs. *)
Definition fresh_fd (n : net) (fd : option Z) : Prop := ∀ f, fd = Some f → f ∉ n_fds n.
Definition fresh_bio (n : net) (b : option nat) : Prop := ∀ x, b = Some x → n_bios n !! x = None.

Lemma unix_listener_spec env path n :
  table_ok (n_slots n) → fresh_fd n (ue_socket env) → fresh_bio n (ue_bio env) →
  let '(n', x) := create_unix_listener env path n in
  x = 0%Z ∧ (∃ fd slot, published n n' C_SOCKET_LISTENING (fun w => w = None) fd slot)
  ∨ x = (-1)%Z ∧ balanced n n'.
Proof.
  intros Ht Hf Hb. unfold create_unix_listener. destruct (_ <=? _); [right; split; [done|by apply balanced_refl]|].
  destruct (ue_socket env) as [fd|] eqn:Es; [|right; split; [done|by apply balanced_refl]].
  pose proof (open_close fd n (Hf fd eq_refl)) as OC.
  destruct (ue_nbio env); cbn [negb]; [|right; split; [done|by apply balanced_fds]].
  destruct (ue_bind env); cbn [negb]; [|right; split; [done|by apply balanced_fds]].
  destruct (ue_listen env); cbn [negb]; [|right; split; [done|by apply balanced_fds]].
  destruct (ue_bio env) as [b|] eqn:Eb; [|right; split; [done|by apply balanced_fds]].
  set (n1 := new_bio b (Some fd) _).
  pose proof (publish_spec n n1 b fd (ue_watch env)) as P.
  destruct (publish_listener n1 b fd (ue_watch env)) as [n' x]. destruct P as [[-> [slot P]]|P].
  - split; try done. split; [by apply Hf|by apply Hb].
  - done.
  - done.
  - left. split; [done|]. by exists fd, slot.
  - by right.
Qed.

Lemma tcp_listener_spec env n :
  table_ok (n_slots n) → fresh_fd n (te_listen env) → fresh_bio n (te_bio env) →
  let '(n', x) := create_tcp_listener env n in
  x = 0%Z ∧ (∃ fd slot, published n n' C_SOCKET_LISTENING (fun w => w = None) fd slot)
  ∨ x = (-1)%Z ∧ balanced n n'.
Proof.
  intros Ht Hf Hb. unfold create_tcp_listener.
  destruct (te_bio env) as [b|] eqn:Eb; [|right; split; [done|by apply balanced_refl]].
  assert (F : balanced n (free_bio b (new_bio b None n))).
  { unfold free_bio. cbn. rewrite lookup_insert_eq. apply balanced_fds; try done. cbn.
    rewrite delete_insert_id; [done|by apply Hb]. }
  destruct (te_name env); cbn [negb]; [|by right]. destruct (te_bind_mode env); cbn [negb]; [|by right].
  destruct (te_nbio env); cbn [negb]; [|by right].
  destruct (te_listen env) as [fd|] eqn:El; [|by right].
  set (n1 := new_bio b (Some fd) _).
  assert (Hh : holds n n1 b fd).
  { split; try done; [split; [by apply Hf|by apply Hb]|]. unfold n1. cbn. by rewrite insert_insert_eq. }
  destruct (te_get_fd env); cbn [negb]; [|right; split; [done|by apply (free_held n n1 b fd Hh)]].
  pose proof (publish_spec n n1 b fd (te_watch env) Hh eq_refl Ht) as P.
  destruct (publish_listener n1 b fd (te_watch env)) as [n' x]. destruct P as [[-> [slot P]]|P]; [|by right].
  left. split; [done|]. by exists fd, slot.
Qed.

(** ** Theorems *)

(** Opening a listener is all or nothing.  Whatever the socket calls, OpenSSL,
    the slot table and the runtime answer, [comm_accept] either answers 0 and
    has added exactly one slot, marked as listening, over one new BIO that owns
    one new descriptor which the runtime reports with that slot; or it answers
    -1 and descriptors, BIOs, registrations and slots are those from before. *)
Theorem comm_accept_all_or_nothing ue te name n :
  table_ok (n_slots n) →
  fresh_fd n (ue_socket ue) → fresh_bio n (ue_bio ue) → fresh_fd n (te_listen te) → fresh_bio n (te_bio te) →
  let '(n', x) := comm_accept ue te name n in
  x = 0%Z ∧ (∃ fd slot, published n n' C_SOCKET_LISTENING (fun w => w = None) fd slot)
  ∨ x = (-1)%Z ∧ balanced n n'.
Proof.
  intros Ht F1 B1 F2 B2. unfold comm_accept. destruct (parse_accept_name name).
  - right. split; [done|by apply balanced_refl].
  - by apply unix_listener_spec.
  - by apply tcp_listener_spec.
Qed.

(** Accepting a connection is all or nothing: a slot over one new BIO on one
    new descriptor, read and written through it and watched by the runtime, or
    nothing at all; every other connection is untouched. *)
Theorem accept_all_or_nothing env listener is_unix n :
  table_ok (n_slots n) → fresh_fd n (ae_fd env) → fresh_bio n (ae_bio env) →
  match comm_process_listener_event env listener is_unix n with
  | (n', None) => balanced n n'
  | (n', Some slot) => ∃ fd, published n n' C_SOCKET_READABLE is_Some fd slot
  end.
Proof.
  intros Ht Hf Hb. unfold comm_process_listener_event.
  assert (A : match accept_new_comm env listener is_unix n with
    | (n', None) => balanced n n'
    | (n', Some s) => ∃ b fd, accepted_on n n' b fd s
    end).
  { unfold accept_new_comm. destruct (resolve_slot (n_slots n) listener); [|by apply balanced_refl].
    destruct (_ && _); [|by apply balanced_refl].
    assert (C : ∀ b fd, ae_fd env = Some fd → ae_bio env = Some b →
      match add_slot (new_bio b (Some fd) (open_fd fd n)) (Some b) (Some b) C_SOCKET_READABLE with
      | (n', None) => balanced n (free_bio b n')
      | (n', Some s) => ∃ b fd, accepted_on n n' b fd s
      end).
    { intros b fd Ef Eb. pose proof (add_connection_spec n _ b fd
        (holds_new n b fd (Hf fd Ef) (Hb b Eb)) eq_refl Ht) as P.
      destruct (add_slot _ _ _ _) as [n1 [s|]]; [|done]. by exists b, fd. }
    destruct is_unix; [unfold accept_unix_listener|unfold accept_tcp_listener];
      (destruct (ae_fd env) as [fd|] eqn:Ef; [|by apply balanced_refl]).
    - destruct (ae_nbio env); cbn [negb]; [|apply balanced_fds; try done; by apply open_close, Hf].
      destruct (ae_bio env) as [b|] eqn:Eb; [|apply balanced_fds; try done; by apply open_close, Hf].
      specialize (C b fd eq_refl eq_refl). by destruct (add_slot _ _ _ _) as [n1 [s|]].
    - destruct (ae_bio env) as [b|] eqn:Eb; [|by apply balanced_refl].
      destruct (ae_nbio env); cbn [negb].
      + specialize (C b fd eq_refl eq_refl). by destruct (add_slot _ _ _ _) as [n1 [s|]].
      + apply (free_held n _ b fd); [|done|done]. apply holds_new; [by apply Hf|by apply Hb]. }
  destruct (accept_new_comm env listener is_unix n) as [n1 [s|]]; [|done].
  destruct A as (b & fd & A). pose proof (register_accepted n n1 b fd s (ae_watch env) A) as R.
  destruct (async_poll_read (ae_watch env) n1 s); [by exists fd|done].
Qed.

(** A Unix-domain listener that fails after it was bound leaves its name
    behind.  When [listen] fails, no BIO can be made or the slot table cannot
    grow, the socket is closed but the name stays in the file system, so the
    next attempt to bind it is refused. *)
Theorem unix_listener_leaves_name env path n fd :
  length path < SUN_PATH_SIZE → ue_socket env = Some fd → ue_nbio env = true → ue_bind env = true →
  ue_listen env = false ∨ ue_bio env = None →
  let '(n', x) := create_unix_listener env path n in x = (-1)%Z ∧ path ∈ n_paths n'.
Proof.
  intros Hl Es Hn Hb Hc. unfold create_unix_listener. rewrite (proj2 (Nat.leb_gt _ _)) by done.
  rewrite Es, Hn, Hb. cbn [negb]. destruct (ue_listen env); cbn [negb]; [|split; [done|cbn; set_solver]].
  destruct Hc as [Hc|Hc]; [done|]. rewrite Hc. split; [done|cbn; set_solver].
Qed.

End Lemmas.

Lemma starts_with_app scheme name : starts_with scheme name = true ↔ ∃ rest, name = scheme ++ rest.
Proof.
  unfold starts_with. rewrite bool_decide_eq_true. split.
  - intros E. exists (drop (length scheme) name). by rewrite <- E, firstn_skipn at 1.
  - intros [rest ->]. apply take_app_length.
Qed.

(** Accept names are "unix://" or "tcp://" followed by something, and the rest is
    handed on unchanged. *)
Theorem accept_name_forms name :
  (∀ path, parse_accept_name name = AcceptUnix path ↔ name = unix_scheme ++ path ∧ path ≠ [])
  ∧ (∀ endpoint, parse_accept_name name = AcceptTcp endpoint ↔ name = tcp_scheme ++ endpoint ∧ endpoint ≠ []).
Proof.
  assert (U : ∀ path, parse_accept_name (unix_scheme ++ path) = if length path =? 0 then AcceptInvalid else AcceptUnix path).
  { intros path. unfold parse_accept_name. change (length (unix_scheme ++ path) =? 0) with false.
    rewrite (proj2 (starts_with_app _ _)) by eauto. by rewrite drop_app_length. }
  assert (T : ∀ e, parse_accept_name (tcp_scheme ++ e) = if length e =? 0 then AcceptInvalid else AcceptTcp e).
  { intros e. unfold parse_accept_name. change (length (tcp_scheme ++ e) =? 0) with false.
    change (starts_with unix_scheme (tcp_scheme ++ e)) with false.
    rewrite (proj2 (starts_with_app tcp_scheme _)) by eauto. rewrite drop_app_length, length_app.
    by destruct e. }
  assert (S : ∀ k, parse_accept_name name = k → k ≠ AcceptInvalid →
    (∃ p, name = unix_scheme ++ p) ∨ (∃ e, name = tcp_scheme ++ e)).
  { intros k <-. unfold parse_accept_name. destruct (length name =? 0); [done|].
    destruct (starts_with unix_scheme name) eqn:E1; [left; by apply starts_with_app|].
    destruct (starts_with tcp_scheme name) eqn:E2; [right; by apply starts_with_app|done]. }
  split; intros x; split.
  - intros E. destruct (S _ E) as [[p ->]|[e ->]]; [done| |].
    + rewrite U in E. destruct p; [done|]. by injection E as <-.
    + rewrite T in E. by destruct e.
  - intros [-> Hx]. rewrite U. by destruct x.
  - intros E. destruct (S _ E) as [[p ->]|[e ->]]; [done| |].
    + rewrite U in E. by destruct p.
    + rewrite T in E. destruct e; [done|]. by injection E as <-.
  - intros [-> Hx]. rewrite T. by destruct x.
Qed.

(** ** Witnesses *)

#[local] Instance demo_slots : SlotEnv := {| alloc_ok := fun _ => true; unix_path := fun _ => None |}.

Definition demo_net : net :=
  {| n_fds := {[0; 1]}%Z; n_bios := ∅; n_paths := ∅; n_slots := empty_table; n_watch := ∅ |}.
Definition demo_unix : unix_env :=
  {| ue_socket := Some 5%Z; ue_nbio := true; ue_bind := true; ue_listen := false; ue_bio := Some 3; ue_watch := true |}.
Definition demo_tcp : tcp_env :=
  {| te_bio := Some 3; te_name := true; te_bind_mode := true; te_nbio := true; te_listen := Some 6%Z;
     te_get_fd := true; te_watch := true |}.

Lemma demo_fresh_fd f : f ≠ 0%Z → f ≠ 1%Z → fresh_fd demo_net (Some f).
Proof. intros H0 H1 g [= <-]. cbn. set_solver. Qed.

Lemma demo_fresh_bio : fresh_bio demo_net (Some 3).
Proof. by intros b [= <-]. Qed.

Lemma comm_accept_all_or_nothing_witness :
  ∃ n' fd slot, comm_accept demo_unix demo_tcp (tcp_scheme ++ [58; 50]%Z) demo_net = (n', 0%Z)
    ∧ published demo_net n' C_SOCKET_LISTENING (fun w => w = None) fd slot.
Proof.
  pose proof (comm_accept_all_or_nothing demo_unix demo_tcp (tcp_scheme ++ [58; 50]%Z) demo_net I
    (demo_fresh_fd 5 ltac:(done) ltac:(done)) demo_fresh_bio (demo_fresh_fd 6 ltac:(done) ltac:(done)) demo_fresh_bio) as P.
  assert (X : (comm_accept demo_unix demo_tcp (tcp_scheme ++ [58; 50]%Z) demo_net).2 = 0%Z) by (vm_compute; reflexivity).
  destruct (comm_accept demo_unix demo_tcp (tcp_scheme ++ [58; 50]%Z) demo_net) as [n' x]. cbn in X. subst x.
  destruct P as [[_ (fd & slot & P)]|[P _]]; [|done]. by exists n', fd, slot.
Defined.

Definition demo_listening : net :=
  (comm_accept demo_unix demo_tcp (tcp_scheme ++ [58; 50]%Z) demo_net).1.

Lemma demo_listening_ok : table_ok (n_slots demo_listening).
Proof.
  unfold table_ok. destruct (all_comms (n_slots demo_listening)) as [cs|] eqn:E; [|done].
  vm_compute in E. injection E as <-. split; [done|]. split; [vm_compute; lia|].
  repeat (apply Forall_cons; split; [constructor; cbn; (lia || done || by intros)|]). by apply Forall_nil.
Qed.

Lemma accept_all_or_nothing_witness :
  let env := {| ae_fd := Some 9%Z; ae_bio := Some 4; ae_nbio := true; ae_watch := false |} in
  balanced demo_listening (comm_process_listener_event env 1 false demo_listening).1.
Proof.
  intros env. pose proof (accept_all_or_nothing env 1 false demo_listening demo_listening_ok) as P.
  assert (X : (comm_process_listener_event env 1 false demo_listening).2 = None) by (vm_compute; reflexivity).
  destruct (comm_process_listener_event env 1 false demo_listening) as [n' r]. cbn in X. subst r. cbn [fst].
  apply P; [intros f [= <-]|intros b [= <-]]; [|vm_compute; reflexivity].
  assert (F : n_fds demo_listening = {[6; 0; 1]}%Z) by (vm_compute; reflexivity). rewrite F. set_solver.
Defined.

Lemma unix_listener_leaves_name_witness :
  let '(n', x) := create_unix_listener demo_unix [47; 115]%Z demo_net in x = (-1)%Z ∧ [47; 115]%Z ∈ n_paths n'.
Proof.
  apply (unix_listener_leaves_name demo_unix [47; 115]%Z demo_net 5); try reflexivity; [|by left].
  unfold SUN_PATH_SIZE. cbn. lia.
Defined.
