(* ===== verification/Tls.v ===== *)
(** * TLS contexts and sessions (lib/comm/ssl.cpp)

    The server context behind [comm_ssl_init] and [comm_ssl_deinit], and the
    references to a slot's BIOs that a TLS session holds, from
    [comm_enable_tls_for_slot] to the removal of the slot.  Which references
    [SSL_set_bio] takes over is OpenSSL's: a parameter with its documented
    rules. *)

From stdpp Require Import gmap.
From S2P Require Import Prelude InBuf OutBuf Abstract.

(** ** The server context *)

Record tls_context := {
  g_ssl_ctx : option nat;
  live_ctxs : gset nat            (* contexts that are allocated *)
}.

Definition SSL_CTX_free (x : nat) (s : tls_context) : tls_context :=
  {| g_ssl_ctx := g_ssl_ctx s; live_ctxs := live_ctxs s ∖ {[x]} |}.

(** What OpenSSL answers: initialisation, a new context, certificate, key, check. *)
Record ssl_env := {
  se_init : bool; se_new : option nat; se_certificate : bool; se_key : bool; se_check : bool
}.

Definition comm_ssl_init (env : ssl_env) (certificate_path private_key_path : list Z) (s : tls_context)
    : tls_context * bool :=
  if (length certificate_path =? 0) || (length private_key_path =? 0) then (s, false)
  else if negb (se_init env) then (s, false)
  else
    let s := match g_ssl_ctx s with
             | Some x => {| g_ssl_ctx := None; live_ctxs := live_ctxs (SSL_CTX_free x s) |}
             | None => s
             end in
    match se_new env with
    | None => (s, false)
    | Some ctx =>
        let s := {| g_ssl_ctx := g_ssl_ctx s; live_ctxs := {[ctx]} ∪ live_ctxs s |} in
        if negb (se_certificate env) then (SSL_CTX_free ctx s, false)
        else if negb (se_key env) then (SSL_CTX_free ctx s, false)
        else if negb (se_check env) then (SSL_CTX_free ctx s, false)
        else ({| g_ssl_ctx := Some ctx; live_ctxs := live_ctxs s |}, true)
    end.

Definition comm_ssl_deinit (s : tls_context) : tls_context :=
  match g_ssl_ctx s with
  | None => s
  | Some x => {| g_ssl_ctx := None; live_ctxs := live_ctxs (SSL_CTX_free x s) |}
  end.

Inductive ssl_call := SslInit (env : ssl_env) (certificate_path private_key_path : list Z) | SslDeinit.

Definition ssl_step (s : tls_context) (c : ssl_call) : tls_context :=
  match c with
  | SslInit env cert key => (comm_ssl_init env cert key s).1
  | SslDeinit => comm_ssl_deinit s
  end.

(** The current context is allocated, and nothing else is. *)
Definition ctx_ok (s : tls_context) : Prop :=
  live_ctxs s = match g_ssl_ctx s with Some x => {[x]} | None => ∅ end.

Lemma ssl_step_ok s c : ctx_ok s → ctx_ok (ssl_step s c).
Proof.
  unfold ctx_ok. intros Hs.
  assert (D : live_ctxs (comm_ssl_deinit s) = ∅).
  { unfold comm_ssl_deinit. destruct (g_ssl_ctx s); cbn; rewrite Hs; set_solver. }
  destruct c as [env cert key|]; cbn.
  - unfold comm_ssl_init. destruct (_ || _); [done|]. destruct (negb _); [done|].
    set (s1 := match g_ssl_ctx s with Some _ => _ | None => s end).
    assert (E1 : g_ssl_ctx s1 = None ∧ live_ctxs s1 = ∅).
    { unfold s1. destruct (g_ssl_ctx s) eqn:G; cbn; [split; [done|]|split; [done|]]; rewrite Hs; set_solver. }
    destruct E1 as [G1 L1]. destruct (se_new env) as [x|]; [|cbn; by rewrite G1].
    repeat (destruct (negb _); [cbn; rewrite G1, L1; set_solver|]). cbn. rewrite L1. set_solver.
  - rewrite D. unfold comm_ssl_deinit. by destruct (g_ssl_ctx s) eqn:E; cbn; rewrite ?E.
Qed.

(** The server context never leaks and is never used after it was freed: over
    every sequence of [comm_ssl_init] and [comm_ssl_deinit], failed ones
    included, exactly the current context is allocated, and after a deinit
    none is. *)
Theorem ssl_context_single calls s :
  ctx_ok s → ctx_ok (foldl ssl_step s calls)
  ∧ live_ctxs (foldl ssl_step s (calls ++ [SslDeinit])) = ∅.
Proof.
  intros Hs. assert (A : ctx_ok (foldl ssl_step s calls)).
  { revert s Hs. induction calls as [|c calls IH]; intros s Hs; [done|]. apply IH. by apply ssl_step_ok. }
  split; [done|]. rewrite foldl_app. cbn [foldl ssl_step].
  unfold ctx_ok in A. unfold comm_ssl_deinit.
  destruct (g_ssl_ctx (foldl ssl_step s calls)); cbn; rewrite A; set_solver.
Qed.

(** ** A session's references *)

(** Reference counts of BIOs; a BIO whose last reference is dropped is freed, and
    its descriptor closed. *)
Abbreviation refs := (gmap nat nat).
Definition count_of (r : refs) (b : nat) : nat := default 0 (r !! b).
Definition up_ref (b : nat) (r : refs) : refs := <[b := S (count_of r b)]> r.
Definition drop_ref (b : nat) (r : refs) : refs :=
  match count_of r b with S (S n) => <[b := S n]> r | _ => delete b r end.

Lemma count_insert_eq (k : refs) b n : count_of (<[b := n]> k) b = n.
Proof. unfold count_of. by rewrite lookup_insert_eq. Qed.
Lemma count_insert_ne (k : refs) a b n : a ≠ b → count_of (<[a := n]> k) b = count_of k b.
Proof. intros H. unfold count_of. by rewrite lookup_insert_ne. Qed.
Lemma count_delete_ne (k : refs) a b : a ≠ b → count_of (delete a k) b = count_of k b.
Proof. intros H. unfold count_of. by rewrite lookup_delete_ne. Qed.
Lemma up_ref_eq k b : count_of (up_ref b k) b = S (count_of k b).
Proof. apply count_insert_eq. Qed.
Lemma up_ref_ne k a b : a ≠ b → count_of (up_ref a k) b = count_of k b.
Proof. apply count_insert_ne. Qed.
Lemma drop_ref_eq k b : count_of (drop_ref b k) b = pred (count_of k b).
Proof.
  unfold drop_ref. destruct (count_of k b) as [|[|n]] eqn:E; [| |apply count_insert_eq];
    unfold count_of; by rewrite lookup_delete_eq.
Qed.
Lemma drop_ref_ne k a b : a ≠ b → count_of (drop_ref a k) b = count_of k b.
Proof.
  intros H. unfold drop_ref. destruct (count_of k a) as [|[|n]];
    [by apply count_delete_ne..|by apply count_insert_ne].
Qed.

Create Rewrite HintDb refcount.
#[export] Hint Rewrite up_ref_eq drop_ref_eq count_insert_eq : refcount.
#[export] Hint Rewrite up_ref_ne drop_ref_ne count_insert_ne using congruence : refcount.

(** Evaluates a count under any nesting of references taken and dropped. *)
Ltac count_refs := autorewrite with refcount; try done.

Section Session.

(** The references [SSL_set_bio(ssl, rbio, wbio)] takes over from its caller and
    [SSL_free] later gives back: one for each of two different BIOs, and a
    single one when they are the same. *)
Context (adopt : nat → nat → list nat).
Context (adopt_same : ∀ b, adopt b b = [b]).
Context (adopt_two : ∀ r w, r ≠ w → adopt r w = [r; w]).

(** A slot with its BIOs' counts; [s_adopted] are the references the session owns. *)
Record tls_slot := {
  s_comm : comm_abstract;
  s_refs : refs;
  s_adopted : list nat
}.

(** What OpenSSL answers: a new session, and the two [BIO_up_ref]s. *)
Record tls_env := { tv_ssl : option nat; tv_up_write : bool; tv_up_read : bool }.

Definition set_ssl (c : comm_abstract) (x : option nat) (fl : Z) : comm_abstract :=
  mk_comm (rbio c) (wbio c) x (inbound c) (outbound c) (websocket_upgrade_barrier c) (websocket c)
    (generation c) fl (caps c).

(** [comm_enable_tls_for_slot], the POSIX branch. *)
Definition comm_enable_tls_for_slot (has_ctx : bool) (env : tls_env) (s : tls_slot) : tls_slot :=
  let c := s_comm s in
  if negb has_ctx then s
  else match rbio c, wbio c, ssl c with
  | Some r, Some w, None =>
      match tv_ssl env with
      | None => s
      | Some x =>
          if negb (tv_up_write env) then s
          else
            let k := up_ref w (s_refs s) in
            if negb (tv_up_read env)
            then {| s_comm := c; s_refs := drop_ref w k; s_adopted := s_adopted s |}
            else {| s_comm := set_ssl c (Some x) (clear_flag (flags c) C_TLS_ESTABLISHED);
                    s_refs := up_ref r k; s_adopted := adopt r w |}
      end
  | _, _, _ => s
  end.

(** The Windows branch: the session reads from a memory BIO of its own, [mem],
    which [BIO_new] may fail to make. *)
Definition comm_enable_tls_for_slot_win (has_ctx : bool) (env : tls_env) (mem : option nat) (s : tls_slot) : tls_slot :=
  let c := s_comm s in
  if negb has_ctx then s
  else match rbio c, wbio c, ssl c with
  | Some r, Some w, None =>
      match tv_ssl env with
      | None => s
      | Some x =>
          if negb (tv_up_write env) then s
          else
            let k := up_ref w (s_refs s) in
            match mem with
            | None => {| s_comm := c; s_refs := drop_ref w k; s_adopted := s_adopted s |}
            | Some m => {| s_comm := set_ssl c (Some x) (clear_flag (flags c) C_TLS_ESTABLISHED);
                           s_refs := <[m := 1]> k; s_adopted := adopt m w |}
            end
      end
  | _, _, _ => s
  end.

(** The part of [comm_abstract_remove] that drops references: the session, then
    each BIO of the slot once. *)
Definition release_slot (s : tls_slot) : refs :=
  let k := match ssl (s_comm s) with Some _ => foldr drop_ref (s_refs s) (s_adopted s) | None => s_refs s end in
  let k := match rbio (s_comm s) with Some b => drop_ref b k | None => k end in
  match wbio (s_comm s) with
  | Some b => if decide (rbio (s_comm s) = Some b) then k else drop_ref b k
  | None => k
  end.

(** A connected slot as it was added: its BIOs have one reference each. *)
Definition new_slot (c : comm_abstract) (r w : nat) : tls_slot :=
  {| s_comm := c; s_refs := <[r := 1]> (<[w := 1]> ∅); s_adopted := [] |}.

(** ** Theorems *)

(** TLS over two different BIOs gives every reference back: when the slot is
    removed both BIOs are freed, whether TLS was enabled, refused for lack of a
    context or a session, or failed half way. *)
Theorem tls_two_bios_released c r w has_ctx env :
  r ≠ w → rbio c = Some r → wbio c = Some w → ssl c = None →
  let k := release_slot (comm_enable_tls_for_slot has_ctx env (new_slot c r w)) in
  count_of k r = 0 ∧ count_of k w = 0.
Proof using adopt_two.
  intros Hn Hr Hw Hs. assert (Hn' : w ≠ r) by congruence.
  assert (P : ∀ k, count_of k r = 1 → count_of k w = 1 →
    let k' := release_slot {| s_comm := c; s_refs := k; s_adopted := [] |} in
    count_of k' r = 0 ∧ count_of k' w = 0).
  { intros k C1 C2. unfold release_slot. cbn [s_comm s_refs]. rewrite Hs, Hr, Hw, decide_False by congruence.
    split; count_refs; [by rewrite C1|by rewrite C2]. }
  unfold comm_enable_tls_for_slot, new_slot. cbn [s_comm s_refs s_adopted]. rewrite Hr, Hw, Hs.
  destruct has_ctx; cbn [negb]; [|apply P; count_refs].
  destruct (tv_ssl env) as [x|]; [|apply P; count_refs].
  destruct (tv_up_write env); cbn [negb]; [|apply P; count_refs].
  destruct (tv_up_read env); cbn [negb]; [|apply P; count_refs].
  unfold release_slot. cbn [s_comm s_refs s_adopted set_ssl rbio wbio ssl].
  rewrite Hr, Hw, (adopt_two r w Hn), decide_False by congruence. cbn [foldr]. split; count_refs.
Qed.

(** TLS over one BIO leaks it.  An accepted connection reads and writes
    through the same BIO; enabling TLS takes two references to it, of which the
    session owns only one, so after the slot was removed the BIO still has a
    reference: it is never freed and its descriptor never closed. *)
Theorem tls_shared_bio_leaks c b x :
  rbio c = Some b → wbio c = Some b → ssl c = None →
  let env := {| tv_ssl := Some x; tv_up_write := true; tv_up_read := true |} in
  count_of (release_slot (comm_enable_tls_for_slot true env (new_slot c b b))) b = 1
  ∧ count_of (release_slot (new_slot c b b)) b = 0.
Proof using adopt_same.
  intros Hr Hw Hs env. unfold comm_enable_tls_for_slot, release_slot, new_slot, env.
  cbn [negb s_comm s_refs s_adopted tv_ssl tv_up_write tv_up_read]. rewrite Hr, Hw, Hs.
  cbn [s_comm s_refs s_adopted set_ssl rbio wbio ssl]. rewrite ?Hr, ?Hw, ?Hs, adopt_same.
  rewrite !decide_True by done. cbn [foldr]. split; count_refs.
Qed.

(** The Windows branch does not: whether the connection has one BIO or two, and
    whether TLS was enabled, refused or failed half way, the removal of the slot
    frees its BIOs and the session's memory BIO. *)
Theorem tls_memory_bio_released c r w m has_ctx env mem :
  rbio c = Some r → wbio c = Some w → ssl c = None → m ≠ r → m ≠ w → mem = None ∨ mem = Some m →
  let k := release_slot (comm_enable_tls_for_slot_win has_ctx env mem (new_slot c r w)) in
  count_of k r = 0 ∧ count_of k w = 0 ∧ count_of k m = 0.
Proof using adopt_two.
  intros Hr Hw Hs Nr Nw Hm. assert (r ≠ m ∧ w ≠ m) as [Nr' Nw'] by (split; congruence).
  assert (Fresh : count_of (<[r := 1]> (<[w := 1]> ∅)) m = 0) by count_refs.
  assert (Both : count_of (<[r := 1]> (<[w := 1]> ∅)) w = 1) by (destruct (decide (r = w)) as [->|]; count_refs).
  assert (P : ∀ k : refs, count_of k r = 1 → count_of k w = 1 → count_of k m = 0 →
    let k' := release_slot {| s_comm := c; s_refs := k; s_adopted := [] |} in
    count_of k' r = 0 ∧ count_of k' w = 0 ∧ count_of k' m = 0).
  { intros k C1 C2 C3. unfold release_slot. cbn [s_comm s_refs]. rewrite Hs, Hr, Hw.
    destruct (decide (r = w)) as [<-|Hn].
    - rewrite decide_True by done. count_refs. by rewrite C1, C3.
    - rewrite decide_False by congruence. count_refs. by rewrite C1, C2, C3. }
  unfold comm_enable_tls_for_slot_win, new_slot. cbn [s_comm s_refs s_adopted]. rewrite Hr, Hw, Hs.
  destruct has_ctx; cbn [negb]; [|apply P; count_refs].
  destruct (tv_ssl env) as [x|]; [|apply P; count_refs].
  destruct (tv_up_write env); cbn [negb]; [|apply P; count_refs].
  destruct Hm as [-> | ->].
  - apply P; [|count_refs; by rewrite Both|count_refs; by rewrite Fresh].
    destruct (decide (r = w)) as [<-|Hn]; count_refs.
  - unfold release_slot. cbn [s_comm s_refs s_adopted set_ssl rbio wbio ssl].
    rewrite Hr, Hw, (adopt_two m w Nw). cbn [foldr].
    destruct (decide (r = w)) as [<-|Hn].
    + rewrite decide_True by done. count_refs.
    + rewrite decide_False by congruence. count_refs.
Qed.
End Session.

(** ** Witnesses *)

Lemma tls_memory_bio_released_witness :
  let c := mk_comm (Some 1) (Some 1) None [] [] [] None 1 0 no_capabilities in
  let env := {| tv_ssl := Some 7; tv_up_write := true; tv_up_read := true |} in
  let adopt r w := if decide (r = w) then [r] else [r; w] in
  count_of (release_slot (comm_enable_tls_for_slot_win adopt true env (Some 9) (new_slot c 1 1))) 1 = 0.
Proof.
  intros c env adopt. refine (proj1 (tls_memory_bio_released adopt _ c 1 1 9 true env (Some 9) eq_refl eq_refl eq_refl _ _ _));
    [|done|done|by right].
  intros r w Hn. unfold adopt. by rewrite decide_False.
Defined.

Definition documented_adopt (r w : nat) : list nat := if decide (r = w) then [r] else [r; w].

Lemma documented_same b : documented_adopt b b = [b].
Proof. unfold documented_adopt. by rewrite decide_True. Qed.
Lemma documented_two r w : r ≠ w → documented_adopt r w = [r; w].
Proof. intros Hn. unfold documented_adopt. by rewrite decide_False. Qed.

Lemma ssl_context_single_witness :
  let good := {| se_init := true; se_new := Some 1; se_certificate := true; se_key := true; se_check := true |} in
  let bad := {| se_init := true; se_new := Some 2; se_certificate := true; se_key := false; se_check := true |} in
  live_ctxs (foldl ssl_step {| g_ssl_ctx := None; live_ctxs := ∅ |}
    ([SslInit good [47]%Z [47]%Z; SslInit bad [47]%Z [47]%Z] ++ [SslDeinit])) = ∅.
Proof.
  intros good bad. refine (proj2 (ssl_context_single [SslInit good [47]%Z [47]%Z; SslInit bad [47]%Z [47]%Z]
    {| g_ssl_ctx := None; live_ctxs := ∅ |} _)). reflexivity.
Defined.

Lemma tls_two_bios_released_witness :
  let c := mk_comm (Some 1) (Some 2) None [] [] [] None 1 0 no_capabilities in
  let env := {| tv_ssl := Some 7; tv_up_write := true; tv_up_read := true |} in
  count_of (release_slot (comm_enable_tls_for_slot documented_adopt true env (new_slot c 1 2))) 1 = 0.
Proof.
  intros c env. refine (proj1 (tls_two_bios_released documented_adopt documented_two c 1 2 true env _ eq_refl eq_refl eq_refl)).
  done.
Defined.

Lemma tls_shared_bio_leaks_witness :
  let c := mk_comm (Some 1) (Some 1) None [] [] [] None 1 0 no_capabilities in
  let env := {| tv_ssl := Some 7; tv_up_write := true; tv_up_read := true |} in
  count_of (release_slot (comm_enable_tls_for_slot documented_adopt true env (new_slot c 1 1))) 1 = 1.
Proof.
  intros c env. refine (proj1 (tls_shared_bio_leaks documented_adopt documented_same c 1 7 eq_refl eq_refl eq_refl)).
Defined.
