(* ===== verification/Shutdown.v ===== *)
(** * Closing every connection at shutdown (src/mudmux.cpp)

    After the event loop has left, [mudmux_run] closes every connected slot and
    then waits until each one's disconnect hook has run, before it joins the
    workers.  The passes are modelled for one slot of the table; the other slots
    appear as the part of the loop's condition they contribute. *)

From S2P Require Import Prelude InBuf OutBuf Abstract Execution WsFrame WsConn HttpUpgrade World Outbound.

Section Shutdown.
Context `{Host}.

(** The first pass: [comm_close] on every slot that is not a listener. *)
Definition close_connected (w : world) : world :=
  match comm w with
  | None => w
  | Some c => if has_flag (flags c) C_SOCKET_LISTENING then w else (comm_close w).1
  end.

Definition unsettled_flags : Z := Z.lor C_AWAITING_HOOK C_DISCONNECT_PENDING.

(** One visit of the waiting loop: retry a notification that found the queue full,
    and tell whether the slot still has to be waited for. *)
Definition drain_slot (w : world) : world * bool :=
  match comm w with
  | None => (w, false)
  | Some c =>
      if has_flag (flags c) C_SOCKET_LISTENING then (w, false)
      else
        let w := if has_flag (flags c) C_DISCONNECT_PENDING && negb (busy w) then (comm_close w).1 else w in
        (deref w (fun _ => w), flag w unsettled_flags || busy w)
  end.

(** What one turn meets: whether another slot is still pending, and the wait, which
    fails or returns after the workers have changed the slot. *)
Record drain_turn := { dt_others : bool; dt_wait : option (world → world) }.

Inductive drain_end :=
  | DrainSettled (w : world)      (* no slot is pending *)
  | DrainFailed (w : world)       (* [async_runtime_wait] failed *)
  | DrainWaits (w : world).       (* the turns given are used up *)

Fixpoint drain_loop (turns : list drain_turn) (w : world) : drain_end :=
  match turns with
  | [] => DrainWaits w
  | t :: turns =>
      let '(w, pending) := drain_slot w in
      if pending || dt_others t then
        match dt_wait t with
        | None => DrainFailed w
        | Some evolve => drain_loop turns (evolve w)
        end
      else DrainSettled w
  end.

Definition shutdown_slot (turns : list drain_turn) (w : world) : drain_end :=
  drain_loop turns (close_connected w).

(** ** The notification *)

(** The workers finish hooks: they neither close the slot nor answer for it. *)
Definition worker_only (f : world → world) : Prop :=
  ∀ w, phase (f w) = phase w ∧ settled (f w) = settled w.

(** The slot is on its way out, and its notification is counted. *)
Definition leaving (w : world) : Prop := life_inv w ∧ phase w ≠ Some (false, false).

Context {laws : CloseHost}.

Lemma close_leaves w : life_inv w → leaving (comm_close w).1.
Proof using laws.
  intros Hi. split; [by eapply life_step_inv; [|apply ls_close]|]. unfold comm_close.
  destruct (comm w) as [c|] eqn:Hc; [|unfold comm_close_impl, phase; rewrite Hc; cbn; by rewrite Hc].
  destruct (close_cases true w c Hc) as [(w1 & d & Hd & Hp & _ & ->)|(_ & _ & p & -> & _)]; [|done].
  destruct (close_tail_spec true w1 d Hd) as (_ & B & _).
  destruct (close_tail true w1).2; [unfold phase; by rewrite B|by rewrite B, Hp].
Qed.

Lemma deref_same w :
  phase (deref w (fun _ => w)) = phase w ∧ settled (deref w (fun _ => w)) = settled w
  ∧ flags_of (deref w (fun _ => w)) = flags_of w ∧ comm (deref w (fun _ => w)) = comm w
  ∧ (comm w = None ∨ busy (deref w (fun _ => w)) = busy w).
Proof. unfold deref. destruct (comm w) eqn:E; split_and!; try done; [by right|by left]. Qed.

Lemma drain_slot_leaving w :
  leaving w → leaving (drain_slot w).1
  ∧ ((drain_slot w).2 = false → flag (drain_slot w).1 C_SOCKET_LISTENING = false →
     settled (drain_slot w).1 = 1 ∧ flag (drain_slot w).1 C_AWAITING_HOOK = false
     ∧ (comm (drain_slot w).1 = None ∨ busy (drain_slot w).1 = false)).
Proof using laws.
  intros Hl. unfold drain_slot. destruct (comm w) as [c|] eqn:Hc.
  2:{ split; [done|]. intros _ _. cbn [fst]. unfold flag, flags_of. rewrite Hc.
      destruct Hl as [Hi _]. unfold life_inv, phase in Hi. rewrite Hc in Hi. cbn in Hi.
      split_and!; [done|done|by left]. }
  destruct (has_flag (flags c) C_SOCKET_LISTENING) eqn:El.
  { split; [done|]. intros _. cbn [fst]. unfold flag, flags_of. by rewrite Hc, El. }
  set (v := if has_flag (flags c) C_DISCONNECT_PENDING && negb (busy w) then (comm_close w).1 else w).
  assert (Hv : leaving v) by (unfold v; destruct (_ && _); [apply close_leaves, Hl|done]).
  clearbody v. cbn [fst snd]. destruct (deref_same v) as (E2 & E3 & E4 & E5 & E6).
  unfold leaving, life_inv in *. rewrite E2, E3, E5. unfold flag in *. rewrite E4.
  split; [done|]. unfold unsettled_flags. rewrite has_flag_lor. intros Hp _.
  apply orb_false_iff in Hp as [[Ha Hd]%orb_false_iff Hb].
  split_and!; [|done|destruct E6 as [?|E6]; [by left|right; by rewrite E6]].
  destruct Hv as [Hi Hn]. unfold phase, flags_of in *. destruct (comm v) as [d|]; cbn in *; [|done].
  rewrite Hd in *. by destruct (has_flag (flags d) C_CLOSING).
Qed.

(** ** Theorems *)

(** What is known of a slot that was open when the shutdown loop is left: its
    notification was answered at most once, and once if the slot is gone. *)
Definition notified_once (w : world) : Prop := settled w ≤ 1 ∧ (comm w = None → settled w = 1).

Lemma leaving_notified w : leaving w → notified_once w.
Proof.
  intros [Hi _]. unfold life_inv, phase in Hi. unfold notified_once.
  destruct (comm w) as [c|]; cbn in Hi; [|split; [lia|done]]. split; [|done].
  destruct (has_flag (flags c) C_CLOSING), (has_flag (flags c) C_DISCONNECT_PENDING); try lia; by destruct Hi.
Qed.

(** A slot that is settled does not hold the loop up. *)
Lemma settled_not_pending w :
  leaving w → settled w = 1 → flag w C_AWAITING_HOOK = false → comm w = None ∨ busy w = false →
  (drain_slot w).2 = false.
Proof.
  intros [Hi Hn] S1 S2 S3. unfold drain_slot. destruct (comm w) as [c|] eqn:Hc; [|done].
  destruct (has_flag (flags c) C_SOCKET_LISTENING) eqn:El; [done|]. destruct S3 as [?|S3]; [done|].
  assert (Hd : has_flag (flags c) C_DISCONNECT_PENDING = false).
  { unfold life_inv, phase in Hi, Hn. rewrite Hc in Hi, Hn. cbn in Hi, Hn.
    destruct (has_flag (flags c) C_CLOSING), (has_flag (flags c) C_DISCONNECT_PENDING); try done; lia. }
  rewrite Hd. cbn [andb snd]. rewrite S3, orb_false_r. unfold flag, unsettled_flags, flags_of in *.
  rewrite Hc in *. rewrite has_flag_lor. by rewrite S2, Hd.
Qed.

(** C18: shutdown waits for the disconnect notification of every connection.
    However the workers progress, the loop that closes the connections is left
    in one of two ways.  Nothing is pending: then the notification of a slot that
    was open has been answered exactly once (its hook ran, was taken by a worker,
    or could not be given to one), its hook is not outstanding, and the slot is
    gone or idle and does not hold the loop up.  Or the wait has failed: then the
    notification has been answered at most once, and once if the slot is gone,
    which also holds while the loop goes on. *)
Theorem shutdown_settles_disconnect turns w :
  phase w = Some (false, false) → settled w = 0 → flag w C_SOCKET_LISTENING = false →
  Forall (fun t => match dt_wait t with Some f => worker_only f | None => True end) turns →
  match shutdown_slot turns w with
  | DrainSettled w' => flag w' C_SOCKET_LISTENING = false →
      settled w' = 1 ∧ flag w' C_AWAITING_HOOK = false ∧ (comm w' = None ∨ busy w' = false)
      ∧ (drain_slot w').2 = false
  | DrainFailed w' => notified_once w' ∧ ∃ t, t ∈ turns ∧ dt_wait t = None
  | DrainWaits w' => notified_once w'
  end.
Proof using laws.
  intros Hp Hs Hl Ht. unfold shutdown_slot.
  assert (L : leaving (close_connected w)).
  { unfold close_connected. unfold flag, flags_of in Hl. destruct (comm w) as [c|] eqn:Hc.
    - rewrite Hl. apply close_leaves. unfold life_inv. by rewrite Hp.
    - unfold phase in Hp. by rewrite Hc in Hp. }
  revert L. generalize (close_connected w). clear w Hp Hs Hl.
  induction turns as [|t turns IH]; intros w L; [by apply leaving_notified|]. cbn [drain_loop].
  apply Forall_cons in Ht as [Ht Hts].
  destruct (drain_slot_leaving w L) as [L' S]. destruct (drain_slot w) as [v pending]. cbn [fst snd] in *.
  destruct (pending || dt_others t) eqn:Ep.
  - destruct (dt_wait t) as [f|] eqn:Ew.
    + assert (L2 : leaving (f v)) by (destruct (Ht v) as [F1 F2]; unfold leaving, life_inv in *; by rewrite F1, F2).
      specialize (IH Hts _ L2). destruct (drain_loop turns (f v)); [done| |done].
      destruct IH as [? (u & ? & ?)]. split; [done|]. exists u. by split; [right|].
    + split; [by apply leaving_notified|]. exists t. by split; [left|].
  - apply orb_false_iff in Ep as [-> _]. intros Hl'. destruct (S eq_refl Hl') as (S1 & S2 & S3).
    split_and!; try done. by apply settled_not_pending.
Qed.

(** A retry that cannot notify any more reads a removed slot.  If a slot's
    notification found the queue full, and its retry during shutdown is refused
    (the pool does not take tasks any more), then a connection with nothing
    left to send is removed by that close, and the loop goes on to read its
    flags. *)
Theorem shutdown_retry_faults w c :
  comm w = Some c → host_slot ≠ COMM_SLOT_CONSOLE →
  has_flag (flags c) C_SOCKET_LISTENING = false → has_flag (flags c) C_DISCONNECT_PENDING = true →
  has_flag (flags c) C_BUFFERED_WRITE = false → C_WEBSOCKET_IS_READY (flags c) = false →
  busy w = false → (∀ v, dispatch (slot_hook HOOK_DISCONNECT) v = (v, DISPATCH_ERROR)) →
  fault (drain_slot w).1 = true.
Proof using.
  intros Hc Hn Hl Hd Hb Hw Hi Hx. unfold drain_slot. rewrite Hc, Hl, Hd, Hi. cbn [andb negb fst].
  assert (E : comm (comm_close w).1 = None); [|unfold deref; by rewrite E].
  unfold comm_close, comm_close_impl. rewrite Hc, Hd, orb_true_r. cbn zeta.
  unfold do_dispatch. rewrite Hx.
  set (w1 := raise C_AWAITING_HOOK _).
  assert (∃ d, comm w1 = Some d ∧ flags d = set_flag (clear_flag (set_flag (flags c) C_CLOSING) C_DISCONNECT_PENDING) C_AWAITING_HOOK)
    as (d & Hd1 & Hd2).
  { unfold w1, raise, lower, emit, set_flags_w. cbn. rewrite Hc. cbn. by eexists. }
  set (w2 := if hook_async _ then _ else _).
  set (w3 := deref _ _).
  assert (∃ e, comm w3 = Some e ∧ has_flag (flags e) C_AWAITING_HOOK = false
    ∧ has_flag (flags e) C_BUFFERED_WRITE = false ∧ C_WEBSOCKET_IS_READY (flags e) = false) as (e & He & Ha & Hb' & Hw').
  { unfold w3, w2, deref, disconnect_hook_complete, lower, set_flags_w, emit. cbn.
    destruct (hook_async HOOK_DISCONNECT); cbn; rewrite Hd1; cbn; eexists; (split; [done|]); cbn; rewrite Hd2;
      flag_simpl; unfold C_WEBSOCKET_IS_READY in *; flag_simpl; done. }
  destruct (close_tail_spec true w3 e He) as (_ & B & _).
  assert (T : (close_tail true w3).2 = true); [|by rewrite T in B].
  unfold close_tail. rewrite He, Ha, Hb', Hw'.
  assert ((host_slot =? COMM_SLOT_CONSOLE)%Z = false) as -> by by apply Z.eqb_neq. done.
Qed.
End Shutdown.

(** ** Witnesses *)

(** A host with a worker pool that takes the notification, and one whose pool has stopped. *)
Definition pool_host (r : dispatch_result) : Host := {|
  host_slot := 5;
  dispatch := fun _ w => (w, r);
  busy := fun _ => false;
  hook_async := fun _ => true;
  has_hook := fun _ => true;
  bio_has_fd := fun b => b <? 10;
  file_inputs := false;
  tty_ok := true;
  host_write := fun _ => true;
  host_slots := {| alloc_ok := fun _ => true; unix_path := fun _ => None |}
|}.

Lemma pool_host_close r : CloseHost (H := pool_host r).
Proof. intros w Hp _. by split. Qed.

Lemma shutdown_settles_disconnect_witness :
  let host := pool_host DISPATCH_QUEUED in
  let w := demo_world [] [] C_TRANSPORT_READY None [] [] in
  let turn := {| dt_others := false; dt_wait := Some (lower C_AWAITING_HOOK) |} in
  match shutdown_slot (H := host) [turn; turn] w with
  | DrainSettled w' => settled w' = 1
  | _ => False
  end.
Proof.
  intros host w turn.
  pose proof (shutdown_settles_disconnect (H := host) (laws := pool_host_close DISPATCH_QUEUED)
    [turn; turn] w eq_refl eq_refl eq_refl (ltac:(repeat constructor; by apply phase_lower))) as T.
  destruct (shutdown_slot (H := host) [turn; turn] w) as [w'|w'|w'] eqn:E; [|vm_compute in E; discriminate E..].
  apply T. vm_compute in E. injection E as <-. reflexivity.
Defined.

Lemma shutdown_retry_faults_witness :
  let w := demo_world [] [] (Z.lor C_CLOSING C_DISCONNECT_PENDING) None [] [] in
  fault (drain_slot (H := pool_host DISPATCH_ERROR) w).1 = true.
Proof.
  intros w.
  apply (shutdown_retry_faults (H := pool_host DISPATCH_ERROR) w
    (demo_comm [] [] (Z.lor C_CLOSING C_DISCONNECT_PENDING) None)); try reflexivity; done.
Defined.
