(* ===== verification/Hooks.v ===== *)
(** * Hooks (src/hooks.cpp, lib/comm/current_slot.cpp)

    The table of registered hooks, and how a callback is invoked: with the slot
    and the hook type of the thread set for its duration, under the slot-table
    lock in strict mode, and with a flush afterwards where the caller asks. *)

From S2P Require Import Prelude.

(** ** The hook table *)

Definition MAX_PUBLIC_HOOKS : nat := 10.
Definition MAX_HOOK_TYPE_VALUE : nat := 12.

(** [all_hooks]; 0 is a null pointer. *)
Abbreviation hook_table := (list nat).
Definition no_hooks : hook_table := replicate MAX_HOOK_TYPE_VALUE 0.

Definition public_hook (hook_type : Z) : bool := (0 <? hook_type)%Z && (hook_type <? 10)%Z.

Definition mudmux_get_registered_hook (t : hook_table) (hook_type : Z) : nat :=
  if public_hook hook_type then default 0 (t !! Z.to_nat hook_type) else 0.

Definition mudmux_register_hook (t : hook_table) (hook_type : Z) (hook_func : nat) : hook_table * bool :=
  if negb (public_hook hook_type) || (hook_func =? 0) then (t, false)
  else (<[Z.to_nat hook_type := hook_func]> t, true).

Definition mudmux_reset_registered_hooks (t : hook_table) : hook_table :=
  foldl (fun t i => <[i := 0]> t) t (seq 0 MAX_HOOK_TYPE_VALUE).

Definition TIMER_HOOK : Z := 8.
Definition GC_HOOK : Z := 9.

Lemma reset_hooks t : length t = MAX_HOOK_TYPE_VALUE → mudmux_reset_registered_hooks t = no_hooks.
Proof. intros H. do 12 (destruct t as [|? t]; [done|]). by destruct t. Qed.

(** ** Invocation *)

(** The thread-local variables [current_slot] and [current_hook_type]. *)
Record thread_ctx := { tc_slot : Z; tc_hook : Z }.

(** What an invocation does, in order: the lock, the callback with what it reads
    from the thread, the flush. *)
Inductive hook_action :=
  | HLock | HUnlock
  | HCall (hook_func : nat) (seen : thread_ctx)
  | HFlushAll.

Definition outcome : Type := thread_ctx * list hook_action * Z.

(** [mudmux_invoke_hook]; [body] is what the callback does, which may be to invoke
    hooks itself.  The slot scope restores what it found. *)
Definition mudmux_invoke_hook (strict : bool) (hook_func : nat) (body : thread_ctx → outcome)
    (flush_after : bool) (current_slot_ : Z) (c : thread_ctx) : outcome :=
  let inside := {| tc_slot := current_slot_; tc_hook := tc_hook c |} in
  let '(c', acts, ret) := body inside in
  ({| tc_slot := tc_slot c; tc_hook := tc_hook c' |},
   (if strict then [HLock] else []) ++ HCall hook_func inside :: acts
     ++ (if strict then [HUnlock] else []) ++ (if flush_after then [HFlushAll] else []),
   ret).

(** [mudmux_invoke_registered_hook]. *)
Definition mudmux_invoke_registered_hook (t : hook_table) (strict : bool) (hook_type : Z)
    (body : nat → thread_ctx → outcome) (flush_after : bool) (current_slot_ : Z) (c : thread_ctx) : outcome :=
  if negb (public_hook hook_type) then (c, [], (-1)%Z)
  else
    let hook_func := default 0 (t !! Z.to_nat hook_type) in
    if hook_func =? 0 then (c, [], 0%Z)
    else
      let '(c', acts, ret) := mudmux_invoke_hook strict hook_func (body hook_func) flush_after current_slot_
                                {| tc_slot := tc_slot c; tc_hook := hook_type |} in
      ({| tc_slot := tc_slot c'; tc_hook := tc_hook c |}, acts, ret).

(** Callbacks that invoke hooks, to any depth: each invocation names what its
    callback does, and what follows it. *)
Inductive script :=
  | Returns (ret : Z)
  | Invokes (hook_type slot : Z) (flush_after : bool) (callback rest : script).

Fixpoint run_script (t : hook_table) (strict : bool) (p : script) (c : thread_ctx) : outcome :=
  match p with
  | Returns ret => (c, [], ret)
  | Invokes hook_type slot flush_after callback rest =>
      let '(c1, acts1, _) := mudmux_invoke_registered_hook t strict hook_type
                               (fun _ => run_script t strict callback) flush_after slot c in
      let '(c2, acts2, ret) := run_script t strict rest c1 in
      (c2, acts1 ++ acts2, ret)
  end.

(** The depth of the recursive lock after some actions; [None] when it is given up
    without being held, or a callback runs without it in strict mode. *)
Fixpoint lock_depth (strict : bool) (acts : list hook_action) (d : nat) : option nat :=
  match acts with
  | [] => Some d
  | HLock :: rest => lock_depth strict rest (S d)
  | HUnlock :: rest => match d with 0 => None | S d => lock_depth strict rest d end
  | HCall _ _ :: rest => if strict && (d =? 0) then None else lock_depth strict rest d
  | HFlushAll :: rest => lock_depth strict rest d
  end.

Lemma lock_depth_app strict a b d :
  lock_depth strict (a ++ b) d = (d' ← lock_depth strict a d; lock_depth strict b d').
Proof.
  revert d. induction a as [|x a IH]; intros d; [done|]. destruct x; cbn; try apply IH.
  - destruct d; [done|apply IH].
  - destruct (strict && (d =? 0)); [done|apply IH].
Qed.

Lemma invoke_restores t strict hook_type body flush_after slot c :
  (∀ f x, (body f x).1.1 = x ∧ ∀ d, lock_depth strict (body f x).1.2 d = Some d) →
  let r := mudmux_invoke_registered_hook t strict hook_type body flush_after slot c in
  r.1.1 = c ∧ ∀ d, lock_depth strict r.1.2 d = Some d.
Proof.
  intros Hb. unfold mudmux_invoke_registered_hook. destruct (negb _); [done|]. cbn zeta.
  destruct (_ =? 0); [done|]. unfold mudmux_invoke_hook.
  set (f := default 0 (t !! Z.to_nat hook_type)). cbn [tc_hook].
  destruct (Hb f {| tc_slot := slot; tc_hook := hook_type |}) as [H1 H2].
  destruct (body f _) as [[c' acts] ret]. cbn in H1, H2. subst c'. cbn. split; [by destruct c|].
  intros d. destruct strict; cbn; rewrite lock_depth_app, H2; cbn; by destruct flush_after.
Qed.

(** C39: Hooks nest: however callbacks that return invoke hooks again, on the same
    or another slot, each invocation leaves the thread's slot and hook type as it found
    them and the slot-table lock at the depth it had, and in strict mode no
    callback runs without that lock. *)
Theorem hook_scopes_nest t strict p c d :
  (run_script t strict p c).1.1 = c ∧ lock_depth strict (run_script t strict p c).1.2 d = Some d.
Proof.
  revert c d. induction p as [ret|hook_type slot flush_after cb IH1 rest IH2]; intros c d; [done|]. cbn.
  destruct (invoke_restores t strict hook_type (fun _ => run_script t strict cb) flush_after slot c) as [A B].
  { intros _ x. split; [apply (IH1 x 0)|intros k; apply (IH1 x k)]. }
  destruct (mudmux_invoke_registered_hook _ _ _ _ _ _ _) as [[c1 a1] r1]. cbn in A, B. subst c1.
  destruct (IH2 c d) as [E1 E2]. destruct (run_script t strict rest c) as [[c2 a2] r2]. cbn in *.
  split; [done|]. by rewrite lock_depth_app, B.
Qed.

(** A registered hook is the one that is found: registration answers true
    exactly for a public type and a non-null function, stores nothing otherwise,
    replaces what the type had and leaves the other types alone; a reset forgets
    all of them. *)
Theorem hook_registration_exact t hook_type hook_func other :
  length t = MAX_HOOK_TYPE_VALUE →
  let '(t', ok) := mudmux_register_hook t hook_type hook_func in
  ok = (public_hook hook_type && negb (hook_func =? 0))
  ∧ mudmux_get_registered_hook t' other
    = (if ok && (other =? hook_type)%Z then hook_func else mudmux_get_registered_hook t other)
  ∧ mudmux_get_registered_hook (mudmux_reset_registered_hooks t') other = 0.
Proof.
  intros Hl. unfold mudmux_register_hook. destruct (negb (public_hook hook_type) || _) eqn:E.
  - assert (public_hook hook_type && negb (hook_func =? 0) = false) as ->
      by (destruct (public_hook hook_type), (hook_func =? 0); done).
    split_and!; [done..|]. rewrite reset_hooks by done. unfold mudmux_get_registered_hook, no_hooks.
    destruct (public_hook other); [|done]. destruct (replicate _ _ !! _) eqn:R; [|done].
    by apply lookup_replicate in R as [-> _].
  - apply orb_false_iff in E as [E1%negb_false_iff E2]. rewrite E1, E2. split; [done|].
    split.
    + unfold mudmux_get_registered_hook. cbn [andb].
      destruct (other =? hook_type)%Z eqn:Eo.
      * apply Z.eqb_eq in Eo as ->. rewrite E1, list_lookup_insert_eq; [done|].
        rewrite Hl. unfold public_hook in E1. unfold MAX_HOOK_TYPE_VALUE. lia.
      * destruct (public_hook other) eqn:Ep; [|done]. apply Z.eqb_neq in Eo.
        unfold public_hook in *. by rewrite list_lookup_insert_ne by lia.
    + rewrite reset_hooks by (by rewrite length_insert). unfold mudmux_get_registered_hook, no_hooks.
      destruct (public_hook other); [|done]. destruct (replicate _ _ !! _) eqn:R; [|done].
      by apply lookup_replicate in R as [-> _].
Qed.

Lemma hook_registration_exact_witness :
  mudmux_get_registered_hook (mudmux_register_hook no_hooks 8 5).1 8 = 5.
Proof. exact (proj1 (proj2 (hook_registration_exact no_hooks 8 5 8 eq_refl))). Defined.
