(* ===== verification/Lifecycle.v ===== *)
(** * The life of the server (src/mudmux.cpp, src/execution.cpp)

    The library's entry points on its global state: configuration, the worker
    pool's start and stop, and [mudmux_run] from setup to
    teardown.  The configuration is what yaml-cpp answers for each key; the
    transports' own work is an answer of the environment, and the order in which
    [mudmux_run] uses the subsystems is recorded. *)

From stdpp Require Import gmap.
From S2P Require Import Prelude Hooks Execution ThreadPool EventReg InBuf OutBuf Abstract Tls.

(** ** Workers *)

Record worker_config := {
  wk_running : bool;
  wk_pool : pool;
  wk_size : Z;                  (* [thread_pool_size] *)
  wk_backlog : Z;
  wk_relaxed : bool             (* [MUDMUX_DETERMINISM_RELAXED] *)
}.

Definition mudmux_workers_configure (thread_pool_size backlog_capacity : Z) (k : worker_config)
    : worker_config :=
  {| wk_running := wk_running k; wk_pool := wk_pool k; wk_size := thread_pool_size;
     wk_backlog := backlog_capacity; wk_relaxed := negb (thread_pool_size =? 1)%Z |}.

Definition set_pool (k : worker_config) (running : bool) (p : pool) : worker_config :=
  {| wk_running := running; wk_pool := p; wk_size := wk_size k; wk_backlog := wk_backlog k;
     wk_relaxed := wk_relaxed k |}.

(** [thread_pool::stop], once every thread was joined. *)
Definition pool_stopped (p : pool) : pool := clear_section (stop_section p).1.

(** [ids]: the threads the system lets [start] create. *)
Definition mudmux_workers_start (ids : list nat) (k : worker_config) : worker_config * bool :=
  if wk_running k then (k, false)
  else
    let n := Z.to_nat (wk_size k) in
    match start_section (wk_pool k) n (take n ids) with
    | None => (set_pool k false (wk_pool k), false)
    | Some (p, true) => (set_pool k false (pool_stopped p), false)
    | Some (p, false) => (set_pool k true p, true)
    end.

Definition mudmux_workers_stop (k : worker_config) : worker_config :=
  set_pool k false (pool_stopped (wk_pool k)).

(** ** The globals *)

Record run_state := { is_running : bool; is_shutting_down : bool; mud_logic_thread_id : option nat }.

Record transport_config := {
  enable_standard_input : bool;
  enable_console : bool;
  accept_names : list (list Z);
  keep_alive_interval_seconds : Z
}.

Record event_globals := {
  event_registrations : list event_registration;
  timer_event_initialized : bool;
  timer_event_registered : bool;
  timer_pending_flags : Z
}.

(** What [mudmux_run] does to the subsystems, in order. *)
Inductive run_event :=
  | TRuntimeInit | TTimer (msg : Z) | TTurn | TGarbageCollection | TCloseSlots | TWorkersStop
  | TFlushAll | TFileShutdown | TConsoleShutdown | TRuntimeDeinit | TRemoveAll.

#[export] Instance run_event_eq_dec : EqDecision run_event.
Proof. solve_decision. Defined.

Record server := mk_server {
  run : run_state;
  transport : transport_config;
  events : event_globals;
  wk : worker_config;
  apis : option bool;             (* the three API pointers: null, or whether the tables are filled *)
  all_hooks : hook_table;
  ssl_state : tls_context;
  listeners : list (list Z);      (* listening slots, by accept name *)
  console_rbio : bool;            (* the console slot has a read BIO *)
  runtime_live : bool;
  crashed : bool;                 (* a null pointer was written through *)
  trace : list run_event
}.

Definition on_run (f : run_state → run_state) (s : server) : server :=
  mk_server (f (run s)) (transport s) (events s) (wk s) (apis s) (all_hooks s) (ssl_state s)
    (listeners s) (console_rbio s) (runtime_live s) (crashed s) (trace s).
Definition on_transport (f : transport_config → transport_config) (s : server) : server :=
  mk_server (run s) (f (transport s)) (events s) (wk s) (apis s) (all_hooks s) (ssl_state s)
    (listeners s) (console_rbio s) (runtime_live s) (crashed s) (trace s).
Definition on_events (f : event_globals → event_globals) (s : server) : server :=
  mk_server (run s) (transport s) (f (events s)) (wk s) (apis s) (all_hooks s) (ssl_state s)
    (listeners s) (console_rbio s) (runtime_live s) (crashed s) (trace s).
Definition on_workers (f : worker_config → worker_config) (s : server) : server :=
  mk_server (run s) (transport s) (events s) (f (wk s)) (apis s) (all_hooks s) (ssl_state s)
    (listeners s) (console_rbio s) (runtime_live s) (crashed s) (trace s).
Definition with_apis (a : option bool) (s : server) : server :=
  mk_server (run s) (transport s) (events s) (wk s) a (all_hooks s) (ssl_state s)
    (listeners s) (console_rbio s) (runtime_live s) (crashed s) (trace s).
Definition with_hooks (h : hook_table) (s : server) : server :=
  mk_server (run s) (transport s) (events s) (wk s) (apis s) h (ssl_state s)
    (listeners s) (console_rbio s) (runtime_live s) (crashed s) (trace s).
Definition with_ssl (x : tls_context) (s : server) : server :=
  mk_server (run s) (transport s) (events s) (wk s) (apis s) (all_hooks s) x
    (listeners s) (console_rbio s) (runtime_live s) (crashed s) (trace s).
Definition with_slots (l : list (list Z)) (console : bool) (s : server) : server :=
  mk_server (run s) (transport s) (events s) (wk s) (apis s) (all_hooks s) (ssl_state s)
    l console (runtime_live s) (crashed s) (trace s).
Definition with_runtime (live : bool) (s : server) : server :=
  mk_server (run s) (transport s) (events s) (wk s) (apis s) (all_hooks s) (ssl_state s)
    (listeners s) (console_rbio s) live (crashed s) (trace s).
Definition crash (s : server) : server :=
  mk_server (run s) (transport s) (events s) (wk s) (apis s) (all_hooks s) (ssl_state s)
    (listeners s) (console_rbio s) (runtime_live s) true (trace s).
Definition record (e : run_event) (s : server) : server :=
  mk_server (run s) (transport s) (events s) (wk s) (apis s) (all_hooks s) (ssl_state s)
    (listeners s) (console_rbio s) (runtime_live s) (crashed s) (trace s ++ [e]).

(** The state the program starts with. *)
Definition fresh_server : server :=
  mk_server {| is_running := false; is_shutting_down := false; mud_logic_thread_id := None |}
    {| enable_standard_input := false; enable_console := false; accept_names := [];
       keep_alive_interval_seconds := 20 |}
    {| event_registrations := []; timer_event_initialized := false; timer_event_registered := false;
       timer_pending_flags := 0 |}
    {| wk_running := false; wk_pool := empty_pool; wk_size := 1; wk_backlog := 8; wk_relaxed := false |}
    None no_hooks {| g_ssl_ctx := None; live_ctxs := ∅ |} [] false false false [].

Definition set_running (b : bool) (x : run_state) : run_state :=
  {| is_running := b; is_shutting_down := is_shutting_down x; mud_logic_thread_id := mud_logic_thread_id x |}.
Definition set_shutting_down (b : bool) (x : run_state) : run_state :=
  {| is_running := is_running x; is_shutting_down := b; mud_logic_thread_id := mud_logic_thread_id x |}.
Definition set_logic_thread (t : option nat) (x : run_state) : run_state :=
  {| is_running := is_running x; is_shutting_down := is_shutting_down x; mud_logic_thread_id := t |}.

Definition set_console (b : bool) (x : transport_config) : transport_config :=
  {| enable_standard_input := enable_standard_input x; enable_console := b;
     accept_names := accept_names x; keep_alive_interval_seconds := keep_alive_interval_seconds x |}.
Definition set_names (l : list (list Z)) (x : transport_config) : transport_config :=
  {| enable_standard_input := enable_standard_input x; enable_console := enable_console x;
     accept_names := l; keep_alive_interval_seconds := keep_alive_interval_seconds x |}.
Definition set_keep_alive (i : Z) (x : transport_config) : transport_config :=
  {| enable_standard_input := enable_standard_input x; enable_console := enable_console x;
     accept_names := accept_names x; keep_alive_interval_seconds := i |}.

Definition mudmux_enable_standard_input (b : bool) : server → server :=
  on_transport (fun x => {| enable_standard_input := b; enable_console := enable_console x;
    accept_names := accept_names x; keep_alive_interval_seconds := keep_alive_interval_seconds x |}).
Definition mudmux_enable_console (b : bool) : server → server := on_transport (set_console b).

(** [comm_api_thread_guard]. *)
Definition comm_api_thread_guard (s : server) (this_thread : nat) (is_worker : bool) : bool :=
  match mud_logic_thread_id (run s) with
  | None => true
  | Some t => (this_thread =? t) || is_worker
  end.

(** [guarded_call]. *)
Definition guarded_call {A} (s : server) (this_thread : nat) (is_worker : bool) (fallback : A) (call : A) : A :=
  if comm_api_thread_guard s this_thread is_worker then call else fallback.

(** ** [mudmux_deinit] *)

Definition timer_event : nat := 1.

Definition clear_events (x : event_globals) : event_globals :=
  {| event_registrations := []; timer_event_initialized := false; timer_event_registered := false;
     timer_pending_flags := timer_pending_flags x |}.

(** The [memset]s through the API pointers are where a server that was never
    initialised stops. *)
Definition mudmux_deinit (s : server) : server :=
  if is_running (run s) then s
  else
    let s := on_transport (set_console false) s in
    let s := on_run (set_logic_thread None) s in
    let s := on_workers (fun k => mudmux_workers_configure 1 8 (mudmux_workers_stop k)) s in
    let s := on_transport (set_names []) s in
    let s := on_events clear_events s in
    match apis s with
    | None => crash s
    | Some _ =>
        let s := with_apis (Some false) s in
        let s := with_ssl (comm_ssl_deinit (ssl_state s)) s in
        with_hooks (mudmux_reset_registered_hooks (all_hooks s)) s
    end.

(** ** [mudmux_init] *)

(** What yaml-cpp answers for a key: not there, a conversion that throws, a value. *)
Inductive yaml (A : Type) := Absent | Bad | Val (a : A).
Arguments Absent {A}. Arguments Bad {A}. Arguments Val {A} a.

Record config := {
  cf_console : yaml bool;
  cf_accept : yaml (list (yaml (list Z)));
  cf_pool : yaml (yaml Z * yaml Z);           (* size, backlog_capacity *)
  cf_keep_alive : yaml Z;
  cf_ssl : yaml (list Z * list Z)
}.

(** The rest of what the initialisation meets: the native event, OpenSSL, and the
    threads the system provides. *)
Record init_env := { ie_event : bool; ie_ssl : ssl_env; ie_threads : list nat }.

(** Steps that can give up. *)
Definition attempt := server → server * bool.
Definition andthen (f g : attempt) : attempt := fun s => let '(s, ok) := f s in if ok then g s else (s, false).
Declare Scope attempt_scope.
Infix ">>?" := andthen (at level 61, left associativity) : attempt_scope.
Open Scope attempt_scope.

Definition key {A} (y : yaml A) (k : A → attempt) : attempt := fun s =>
  match y with Absent => (s, true) | Bad => (s, false) | Val a => k a s end.

Definition apply_console (b : bool) : attempt := fun s => (mudmux_enable_console b s, true).

Fixpoint apply_accept (names : list (yaml (list Z))) : attempt := fun s =>
  match names with
  | [] => (s, true)
  | Val n :: rest =>
      apply_accept rest (on_transport (fun x => set_names (accept_names x ++ [n]) x) s)
  | _ :: _ => (s, false)
  end.

(** A missing number has its default; [None] is an exception. *)
Definition number (y : yaml Z) (d : Z) : option Z :=
  match y with Absent => Some d | Bad => None | Val z => Some z end.

Definition apply_pool (p : yaml Z * yaml Z) : attempt := fun s =>
  match number p.1 1, number p.2 8 with
  | Some size, Some backlog =>
      if (size <? 1)%Z then (s, false)
      else if (backlog <? 1)%Z then (s, false)
      else (on_workers (mudmux_workers_configure size backlog) s, true)
  | _, _ => (s, false)
  end.

Definition apply_keep_alive (i : Z) : attempt := fun s =>
  if (i <? 1)%Z then (s, false) else (on_transport (set_keep_alive i) s, true).

Definition apply_ssl (env : ssl_env) (paths : list Z * list Z) : attempt := fun s =>
  let '(x, ok) := comm_ssl_init env paths.1 paths.2 (ssl_state s) in (with_ssl x s, ok).

Definition start_workers (ids : list nat) : attempt := fun s =>
  let '(k, ok) := mudmux_workers_start ids (wk s) in (on_workers (fun _ => k) s, ok).

(** The timer's native event and its registration. *)
Definition init_timer (ok : bool) : attempt := fun s =>
  let x := events s in
  if negb (timer_event_initialized x) && negb ok then (s, false)
  else
    (on_events (fun x =>
       {| event_registrations :=
            if timer_event_registered x then event_registrations x
            else event_registrations x ++ [{| er_event := timer_event; er_hook := 0 |}];
          timer_event_initialized := true; timer_event_registered := true;
          timer_pending_flags := timer_pending_flags x |}) s, true).

(** The keys of the configuration, in the order they are read. *)
Definition apply_config (env : init_env) (c : config) : attempt :=
  key (cf_console c) apply_console >>? key (cf_accept c) apply_accept
  >>? key (cf_pool c) apply_pool >>? key (cf_keep_alive c) apply_keep_alive
  >>? key (cf_ssl c) (apply_ssl (ie_ssl env)).

(** From [YAML::Load] to the end of the [try] block; [None]: it throws. *)
Definition configure (env : init_env) (config_yaml : option config) : attempt := fun s =>
  match config_yaml with
  | None => (s, false)
  | Some c =>
      (apply_config env c >>? start_workers (ie_threads env)
       >>? fun s => (on_run (set_shutting_down false) s, true)) s
  end.

Definition mudmux_init (env : init_env) (config_yaml : option config) (s : server) : server * bool :=
  if is_running (run s) then (s, false)
  else
    let s := on_workers (mudmux_workers_configure 1 8) s in
    let s := on_transport (set_keep_alive 20) s in
    let s := on_events (fun x => {| event_registrations := event_registrations x;
               timer_event_initialized := timer_event_initialized x;
               timer_event_registered := timer_event_registered x; timer_pending_flags := 0 |}) s in
    let s := with_apis (Some true) s in
    let '(s, ok) := (init_timer (ie_event env) >>? configure env config_yaml) s in
    if ok then (s, true) else (mudmux_deinit s, false).

(** ** [mudmux_run] *)

(** A turn of the event loop: whether the wait succeeded, and whether
    [mudmux_shutdown] was called by a hook or another thread before its end. *)
Record loop_event := { le_wait : bool; le_shutdown : bool }.

Record run_env := {
  re_thread : nat;                     (* the calling thread *)
  re_runtime : bool;                   (* [async_runtime_init] *)
  re_add_event : nat → bool;           (* [async_runtime_add_event], by event *)
  re_threads : list nat;
  re_console : bool;                   (* [comm_init_console] *)
  re_file : bool;                      (* [comm_init_async_file_input] *)
  re_accept : list Z → bool;           (* [comm_accept], by name *)
  re_start : bool;                     (* [mudmux_shutdown] called before the first turn *)
  re_turns : list loop_event;
  re_stop : bool                       (* ... and by the final timer notification *)
}.

Definition mudmux_shutdown (s : server) : server :=
  if is_running (run s) then on_run (set_shutting_down true) s else s.

Definition register_runtime_events (env : run_env) : attempt := fun s =>
  (s, forallb (fun r => re_add_event env (er_event r)) (event_registrations (events s))).

Definition init_runtime (env : run_env) : attempt := fun s =>
  if re_runtime env then (with_runtime true (record TRuntimeInit s), true) else (s, false).

Definition restore_workers (env : run_env) : attempt := fun s =>
  if pool_size (wk_pool (wk s)) =? 0 then start_workers (re_threads env) s else (s, true).

Definition init_input (env : run_env) : attempt := fun s =>
  if enable_console (transport s) || enable_standard_input (transport s) then (s, re_console env)
  else if console_rbio s then (s, re_file env) else (s, true).

Fixpoint accept_all (env : run_env) (names : list (list Z)) : attempt := fun s =>
  match names with
  | [] => (s, true)
  | n :: rest =>
      if re_accept env n then accept_all env rest (with_slots (listeners s ++ [n]) (console_rbio s) s)
      else (s, false)
  end.

Definition run_setup (env : run_env) : attempt :=
  init_runtime env >>? register_runtime_events env >>? restore_workers env >>? init_input env
  >>? fun s => accept_all env (accept_names (transport s)) s.

(** A lifecycle notification, if its hook is registered. *)
Definition notify (hook_type : Z) (e : run_event) (s : server) : server :=
  if mudmux_get_registered_hook (all_hooks s) hook_type =? 0 then s else record e s.

Definition shutdown_if (b : bool) (s : server) : server := if b then mudmux_shutdown s else s.

(** The event loop; [None]: it is still running after the turns given. *)
Fixpoint event_loop (turns : list loop_event) (s : server) : option server :=
  if is_shutting_down (run s) then Some s
  else match turns with
  | [] => None
  | t :: turns =>
      if negb (le_wait t) then Some s
      else event_loop turns (shutdown_if (le_shutdown t) (notify GC_HOOK TGarbageCollection (record TTurn s)))
  end.

(** The common part of both ways out, and what a completed run does after it. *)
Definition leave_run (s : server) : server :=
  on_run (set_logic_thread None) (on_run (set_running false) (with_runtime false s)).

Definition stop_all (s : server) : server := record TWorkersStop (on_workers mudmux_workers_stop s).

Definition mudmux_run (env : run_env) (s : server) : option (server * bool) :=
  if is_running (run s) then Some (s, false)
  else
    let s := on_run (set_logic_thread (Some (re_thread env))) (on_run (set_running true) s) in
    let '(s, ok) := run_setup env s in
    if negb ok then
      Some (leave_run (record TRuntimeDeinit (record TConsoleShutdown (record TFileShutdown (stop_all s)))), false)
    else
      let s := shutdown_if (re_start env) (notify TIMER_HOOK (TTimer 0) s) in
      s ← event_loop (re_turns env) s;
      let s := shutdown_if (re_stop env) (notify TIMER_HOOK (TTimer (-1)) s) in
      let s := if is_shutting_down (run s) then record TCloseSlots s else s in
      let s := record TFlushAll (stop_all s) in
      let s := record TRuntimeDeinit (record TConsoleShutdown (record TFileShutdown s)) in
      Some (record TRemoveAll (with_slots [] false (leave_run s)), true).

(** ** Sequences of calls *)

Inductive call :=
  | CInit (env : init_env) (config_yaml : option config)
  | CDeinit
  | CRun (env : run_env)
  | CShutdown
  | CRegisterHook (hook_type : Z) (hook_func : nat)
  | CRegisterEvent (event hook_func : nat)
  | CEnableConsole (b : bool)
  | CEnableStandardInput (b : bool)
  | CAddConsoleFile                     (* [comm_abstract_add_file] on the console slot *)
  | CWorkersStart (ids : list nat)
  | CWorkersStop.

Definition api_call (s : server) (c : call) : option server :=
  match c with
  | CInit env cfg => Some (mudmux_init env cfg s).1
  | CDeinit => Some (mudmux_deinit s)
  | CRun env => '(s, _) ← mudmux_run env s; Some s
  | CShutdown => Some (mudmux_shutdown s)
  | CRegisterHook t f => Some (with_hooks (mudmux_register_hook (all_hooks s) t f).1 s)
  | CRegisterEvent e f =>
      match mudmux_register_event (is_running (run s)) (event_registrations (events s)) e f with
      | Some regs => Some (on_events (fun x => {| event_registrations := regs;
          timer_event_initialized := timer_event_initialized x;
          timer_event_registered := timer_event_registered x;
          timer_pending_flags := timer_pending_flags x |}) s)
      | None => Some s
      end
  | CEnableConsole b => Some (mudmux_enable_console b s)
  | CEnableStandardInput b => Some (mudmux_enable_standard_input b s)
  | CAddConsoleFile => Some (with_slots (listeners s) true s)
  | CWorkersStart ids => Some (start_workers ids s).1
  | CWorkersStop => Some (on_workers mudmux_workers_stop s)
  end.

Fixpoint api_calls (s : server) (cs : list call) : option server :=
  match cs with [] => Some s | c :: cs => s ← api_call s c; api_calls s cs end.

(** ** The invariant *)

Definition timer_listed (x : event_globals) : Prop :=
  timer_event_registered x = timer_event_initialized x
  ∧ (timer_event_registered x = true → timer_event ∈ map er_event (event_registrations x)).

Record core_ok (s : server) : Prop := {
  co_workers : wk_running (wk s) = negb (pool_size (wk_pool (wk s)) =? 0);
  co_size : (1 ≤ wk_size (wk s))%Z;
  co_timer : timer_listed (events s);
  co_ssl : ctx_ok (ssl_state s);
  co_hooks : length (all_hooks s) = MAX_HOOK_TYPE_VALUE
}.

(** Between calls no run is under way. *)
Record life_ok (s : server) : Prop := {
  lo_core : core_ok s;
  lo_idle : is_running (run s) = false ∧ mud_logic_thread_id (run s) = None ∧ runtime_live s = false
}.

Definition keeps (P : server → Prop) (f : attempt) : Prop := ∀ s, P s → P (f s).1.

Ltac core := intros []; constructor; cbn in *; try done.

Lemma core_run f s : core_ok s → core_ok (on_run f s). Proof. core. Qed.
Lemma core_transport f s : core_ok s → core_ok (on_transport f s). Proof. core. Qed.
Lemma core_record e s : core_ok s → core_ok (record e s). Proof. core. Qed.
Lemma core_slots l b s : core_ok s → core_ok (with_slots l b s). Proof. core. Qed.
Lemma core_runtime b s : core_ok s → core_ok (with_runtime b s). Proof. core. Qed.
Lemma core_apis a s : core_ok s → core_ok (with_apis a s). Proof. core. Qed.
Lemma core_crash s : core_ok s → core_ok (crash s). Proof. core. Qed.
#[local] Hint Resolve core_run core_transport core_record core_slots core_runtime core_apis core_crash : core.

Lemma core_configure n b s : (1 ≤ n)%Z → core_ok s → core_ok (on_workers (mudmux_workers_configure n b) s).
Proof. intros Hn. core. Qed.
Lemma core_stop s : core_ok s → core_ok (on_workers mudmux_workers_stop s).
Proof. core. Qed.

Definition workers_ok (k : worker_config) : Prop := wk_running k = negb (pool_size (wk_pool k) =? 0).

Lemma workers_start_spec ids k :
  workers_ok k →
  let '(k', ok) := mudmux_workers_start ids k in
  workers_ok k' ∧ wk_size k' = wk_size k ∧ wk_backlog k' = wk_backlog k ∧ wk_relaxed k' = wk_relaxed k
  ∧ (ok = true → wk_running k = false ∧ wk_running k' = true ∧ pool_size (wk_pool k') = Z.to_nat (wk_size k)).
Proof.
  unfold mudmux_workers_start, workers_ok. intros Hk. destruct (wk_running k) eqn:R; [by rewrite R|].
  unfold start_section. cbn zeta. destruct (_ || _) eqn:E; [done|].
  apply orb_false_iff in E as [E%Nat.eqb_neq _].
  destruct (length (take (Z.to_nat (wk_size k)) ids) <? Z.to_nat (wk_size k)) eqn:L; [done|].
  apply Nat.ltb_ge in L. rewrite length_take in L. cbn [set_pool wk_running wk_pool wk_size wk_backlog wk_relaxed]. unfold pool_size. cbn. rewrite length_take, Nat.min_l by lia.
  split_and!; try done. symmetry. apply negb_true_iff. by apply Nat.eqb_neq.
Qed.

Lemma core_start ids : keeps core_ok (start_workers ids).
Proof.
  intros s [H1 H2 H3 H4 H5]. unfold start_workers. pose proof (workers_start_spec ids (wk s) H1) as W.
  destruct (mudmux_workers_start ids (wk s)) as [k ok]. destruct W as (W1 & W2 & _).
  constructor; cbn; try done. by rewrite W2.
Qed.

Lemma core_deinit s : core_ok s → core_ok (mudmux_deinit s).
Proof.
  intros H. unfold mudmux_deinit. destruct (is_running _); [done|]. cbn [on_events on_transport on_workers on_run apis].
  assert (C : core_ok (on_events clear_events (on_transport (set_names [])
    (on_workers (λ k, mudmux_workers_configure 1 8 (mudmux_workers_stop k))
      (on_run (set_logic_thread None) (on_transport (set_console false) s)))))).
  { destruct H. constructor; cbn; done. }
  destruct (apis s); [|by apply core_crash].
  destruct C as [H1 H2 H3 H4 H5]. constructor; try done.
  - cbn. apply (ssl_step_ok _ SslDeinit). by destruct H.
  - cbn [with_hooks with_ssl with_apis all_hooks on_events on_transport on_workers on_run].
    rewrite reset_hooks by (by destruct H). done.
Qed.

Lemma keeps_andthen P f g : keeps P f → keeps P g → keeps P (f >>? g).
Proof.
  intros Hf Hg s H. unfold andthen. specialize (Hf s H). destruct (f s) as [s1 []]; cbn in *; [by apply Hg|done].
Qed.
Lemma keeps_key {A} P (y : yaml A) k : (∀ a, keeps P (k a)) → keeps P (key y k).
Proof. intros Hk s H. unfold key. destruct y; [done..|by apply Hk]. Qed.
Lemma keeps_accept_all env names : keeps core_ok (accept_all env names).
Proof.
  induction names as [|n names IH]; intros s H; [done|]. cbn. destruct (re_accept env n); [|done].
  apply IH. by apply core_slots.
Qed.
Lemma keeps_ssl env paths : keeps core_ok (apply_ssl env paths).
Proof.
  intros s [H1 H2 H3 H4 H5]. unfold apply_ssl. pose proof (ssl_step_ok (ssl_state s) (SslInit env paths.1 paths.2) H4) as K.
  cbn in K. destruct (comm_ssl_init _ _ _ _) as [x ok]. by constructor.
Qed.
Lemma keeps_timer b : keeps core_ok (init_timer b).
Proof.
  intros s H. unfold init_timer. destruct (negb _ && _); [done|]. destruct H as [H1 H2 [H3 H6] H4 H5].
  constructor; cbn; try done. split; cbn; [done|]. intros _.
  destruct (timer_event_registered (events s)) eqn:E; [by apply H6|].
  rewrite map_app. apply elem_of_app. right. cbn. by apply list_elem_of_singleton.
Qed.

Lemma accept_names_only names s :
  ∃ l, (apply_accept names s).1 = on_transport (set_names l) s.
Proof.
  revert s. induction names as [|[| |n] names IH]; intros s; cbn;
    try (exists (accept_names (transport s)); by destruct s as [? [] ? ? ? ? ? ? ? ? ? ?]).
  destruct (IH (on_transport (λ x, set_names (accept_names x ++ [n]) x) s)) as [l ->]. by exists l.
Qed.

(** What the setters used by the configuration keep, it keeps. *)
Record frame_ok (P : server → Prop) : Prop := {
  fr_transport f s : P s → P (on_transport f s);
  fr_workers n b s : (1 ≤ n)%Z → P s → P (on_workers (mudmux_workers_configure n b) s);
  fr_ssl env paths : keeps P (apply_ssl env paths)
}.

Lemma frame_config P env c : frame_ok P → keeps P (apply_config env c).
Proof.
  intros [Ft Fw Fs]. unfold apply_config. repeat apply keeps_andthen; apply keeps_key.
  - intros b s H. by apply Ft.
  - intros names s H. destruct (accept_names_only names s) as [l ->]. by apply Ft.
  - intros p s H. unfold apply_pool. destruct (number p.1 1) as [n|]; [|done].
    destruct (number p.2 8) as [b|]; [|done]. destruct (n <? 1)%Z eqn:E; [done|]. apply Z.ltb_ge in E.
    destruct (b <? 1)%Z; [done|]. by apply Fw.
  - intros i s H. unfold apply_keep_alive. destruct (i <? 1)%Z; [done|]. by apply Ft.
  - apply Fs.
Qed.

Lemma frame_configure P env cfg :
  frame_ok P → (∀ ids, keeps P (start_workers ids)) →
  (∀ s, P s → P (on_run (set_shutting_down false) s)) → keeps P (configure env cfg).
Proof.
  intros F Fs Fo s H. unfold configure. destruct cfg as [c|]; [|done]. revert s H.
  apply (keeps_andthen P (apply_config env c >>? start_workers (ie_threads env))); [|done].
  apply keeps_andthen; [by apply frame_config|done].
Qed.

(** A predicate that ignores the transport, the workers and TLS is kept. *)
Lemma frame_ssl (P : server → Prop) : (∀ x s, P s → P (with_ssl x s)) → ∀ env paths, keeps P (apply_ssl env paths).
Proof. intros H env paths s Hs. unfold apply_ssl. destruct (comm_ssl_init _ _ _ _). by apply H. Qed.
Lemma frame_start (P : server → Prop) : (∀ f s, P s → P (on_workers f s)) → ∀ ids, keeps P (start_workers ids).
Proof. intros H ids s Hs. unfold start_workers. destruct (mudmux_workers_start _ _). by apply H. Qed.

Lemma core_frame : frame_ok core_ok.
Proof. constructor; [intros; by apply core_transport|intros; by apply core_configure|apply keeps_ssl]. Qed.

Lemma keeps_configure env cfg : keeps core_ok (configure env cfg).
Proof.
  apply frame_configure; [apply core_frame|apply core_start|]. intros s H. by apply core_run.
Qed.

Lemma core_init env cfg s : core_ok s → core_ok (mudmux_init env cfg s).1.
Proof.
  intros H. unfold mudmux_init. destruct (is_running _); [done|]. cbn zeta.
  match goal with |- context [(init_timer ?b >>? configure env cfg) ?v] => set (s0 := v) end.
  assert (C0 : core_ok s0) by (unfold s0; destruct H; by constructor).
  pose proof (keeps_andthen _ _ _ (keeps_timer (ie_event env)) (keeps_configure env cfg) s0 C0) as K.
  destruct ((init_timer (ie_event env) >>? configure env cfg) s0) as [s1 []]; cbn [fst] in *; [done|].
  by apply core_deinit.
Qed.

Definition idle (s : server) : Prop :=
  is_running (run s) = false ∧ mud_logic_thread_id (run s) = None ∧ runtime_live s = false.

Lemma idle_configure env cfg : keeps idle (configure env cfg).
Proof. apply frame_configure; [constructor; [done..|by apply frame_ssl]|by apply frame_start|done]. Qed.

Lemma idle_deinit s : idle s → idle (mudmux_deinit s).
Proof.
  intros (H1 & H2 & H3). unfold mudmux_deinit. rewrite H1. cbn [on_events on_transport on_workers on_run apis].
  by destruct (apis s).
Qed.

Lemma idle_init env cfg s : idle s → idle (mudmux_init env cfg s).1.
Proof.
  intros H. unfold mudmux_init. destruct (is_running _); [done|]. cbn zeta.
  match goal with |- context [(init_timer ?b >>? configure env cfg) ?v] => set (s0 := v) end.
  assert (C0 : idle s0) by done.
  assert (K : keeps idle (init_timer (ie_event env) >>? configure env cfg)).
  { apply keeps_andthen; [|apply idle_configure]. intros s' H'. unfold init_timer. by destruct (negb _ && _). }
  specialize (K s0 C0). destruct ((init_timer (ie_event env) >>? configure env cfg) s0) as [s1 []];
    cbn [fst] in *; [done|]. by apply idle_deinit.
Qed.

(** ** A run *)

Lemma core_setup env : keeps core_ok (run_setup env).
Proof.
  unfold run_setup. repeat apply keeps_andthen; intros s H.
  - unfold init_runtime. destruct (re_runtime env); [|done]. by apply core_runtime, core_record.
  - done.
  - unfold restore_workers. destruct (_ =? 0); [by apply core_start|done].
  - unfold init_input. destruct (_ || _); [done|]. by destruct (console_rbio s).
  - by apply keeps_accept_all.
Qed.

Lemma core_notify t e s : core_ok s → core_ok (notify t e s).
Proof. unfold notify. destruct (_ =? 0); [done|]. apply core_record. Qed.
Lemma core_shutdown_if b s : core_ok s → core_ok (shutdown_if b s).
Proof. unfold shutdown_if, mudmux_shutdown. destruct b; [|done]. destruct (is_running _); [|done]. apply core_run. Qed.
#[local] Hint Resolve core_notify core_shutdown_if core_stop : core.

Lemma core_loop turns s s' : core_ok s → event_loop turns s = Some s' → core_ok s'.
Proof.
  revert s. induction turns as [|t turns IH]; intros s H; cbn; destruct (is_shutting_down (run s)); [congruence|done|congruence|].
  destruct (negb (le_wait t)); [congruence|]. apply IH. auto with core.
Qed.

Lemma run_life env s s' ok : life_ok s → mudmux_run env s = Some (s', ok) → life_ok s'.
Proof.
  intros [Hc (H1 & H2 & H3)]. unfold mudmux_run. rewrite H1. cbn zeta.
  match goal with |- context [run_setup env ?v] => set (s0 := v) end.
  assert (C0 : core_ok s0) by (unfold s0; auto with core).
  pose proof (core_setup env s0 C0) as K. destruct (run_setup env s0) as [s1 []]; cbn [fst negb] in *.
  - destruct (event_loop _ _) as [s2|] eqn:E; [|done]. apply core_loop in E; [|auto with core].
    cbn. intros [= <- <-]. constructor; [|done].
    unfold leave_run, stop_all. apply core_record, core_slots, core_run, core_run, core_runtime. do 5 apply core_record.
    apply core_stop. destruct (is_shutting_down _); auto with core.
  - intros [= <- <-]. constructor; [|done]. unfold leave_run, stop_all. auto 10 with core.
Qed.

Lemma accept_all_spec env names s :
  ∃ k, (accept_all env names s).1 = with_slots (listeners s ++ take k names) (console_rbio s) s
       ∧ Forall (fun n => re_accept env n = true) (take k names)
       ∧ ((accept_all env names s).2 = false →
          ∃ n, names !! k = Some n ∧ re_accept env n = false).
Proof.
  revert s. induction names as [|n names IH]; intros s; cbn.
  - exists 0. rewrite app_nil_r. by destruct s.
  - destruct (re_accept env n) eqn:E.
    + destruct (IH (with_slots (listeners s ++ [n]) (console_rbio s) s)) as (k & -> & H2 & H3).
      exists (S k). cbn. rewrite <- app_assoc. cbn. split; [done|]. split; [by constructor|]. exact H3.
    + exists 0. cbn. rewrite app_nil_r. split; [by destruct s|]. split; [done|]. intros _. by exists n.
Qed.

(** What the setup of a run changes besides the workers. *)
Record setup_frame (s s' : server) (runtime : bool) : Prop := {
  sf_trace : trace s' = trace s ++ (if runtime then [TRuntimeInit] else []);
  sf_run : run s' = run s;
  sf_hooks : all_hooks s' = all_hooks s
}.

Lemma setup_spec env s :
  setup_frame s (run_setup env s).1 (re_runtime env)
  ∧ (∃ k, listeners (run_setup env s).1 = listeners s ++ take k (accept_names (transport s))
     ∧ ((run_setup env s).2 = true → re_runtime env = true)).
Proof.
  unfold run_setup, andthen, init_runtime. destruct (re_runtime env) eqn:R.
  2:{ split; [|exists 0; by rewrite app_nil_r]. constructor; cbn; by rewrite ?app_nil_r. }
  set (s0 := with_runtime true (record TRuntimeInit s)).
  assert (E0 : setup_frame s s0 true) by by constructor.
  assert (L0 : listeners s0 = listeners s ∧ transport s0 = transport s) by done.
  clearbody s0. unfold register_runtime_events. destruct (forallb _ _).
  2:{ split; [done|]. exists 0. cbn. by rewrite app_nil_r, (proj1 L0). }
  assert (∃ s1 b, restore_workers env s0 = (s1, b) ∧ setup_frame s s1 true
    ∧ listeners s1 = listeners s ∧ transport s1 = transport s) as (s1 & b & -> & E1 & L1 & T1).
  { unfold restore_workers. destruct (_ =? 0); [|exists s0, true; by destruct L0].
    unfold start_workers. destruct (mudmux_workers_start _ _) as [k b]. eexists _, b.
    split; [done|]. destruct E0. split_and!; try apply L0. by constructor. }
  destruct b; [|split; [done|]; exists 0; cbn; by rewrite app_nil_r].
  assert (D : ∀ b : bool, let r := if b then accept_all env (accept_names (transport s1)) s1 else (s1, false) in
    setup_frame s r.1 true
    ∧ ∃ k, listeners r.1 = listeners s ++ take k (accept_names (transport s)) ∧ (r.2 = true → true = true)).
  { intros []; [|split; [done|]; exists 0; cbn; by rewrite app_nil_r].
    cbn zeta. destruct (accept_all_spec env (accept_names (transport s1)) s1) as (k & -> & _). rewrite T1.
    split; [destruct E1; by constructor|]. exists k. cbn. by rewrite L1. }
  unfold init_input. destruct (_ || _); [apply (D (re_console env))|].
  destruct (console_rbio s1); [apply (D (re_file env))|apply (D true)].
Qed.

Definition loop_trace (e : run_event) : Prop := e = TTurn ∨ e = TGarbageCollection.

Lemma loop_spec turns s s' :
  event_loop turns s = Some s' → is_running (run s) = true →
  ∃ mid, trace s' = trace s ++ mid ∧ Forall loop_trace mid ∧ all_hooks s' = all_hooks s
    ∧ is_running (run s') = true ∧ (is_shutting_down (run s) = true → mid = []).
Proof.
  revert s. induction turns as [|t turns IH]; intros s E R; cbn in E; destruct (is_shutting_down (run s)) eqn:D;
    try (injection E as <-); try done; try (exists []; by rewrite app_nil_r).
  destruct (negb (le_wait t)); [injection E as <-; exists []; by rewrite app_nil_r|].
  set (v := notify GC_HOOK TGarbageCollection (record TTurn s)) in *.
  assert (V : ∃ m, trace v = trace s ++ TTurn :: m ∧ Forall loop_trace m ∧ run v = run s ∧ all_hooks v = all_hooks s).
  { unfold v, notify. cbn [record all_hooks]. destruct (_ =? 0).
    - by exists [].
    - exists [TGarbageCollection]. cbn. rewrite <- app_assoc. split_and!; try done. constructor; [by right|done]. }
  destruct V as (m & V1 & V2 & V3 & V4).
  assert (W : trace (shutdown_if (le_shutdown t) v) = trace v ∧ all_hooks (shutdown_if (le_shutdown t) v) = all_hooks v
    ∧ is_running (run (shutdown_if (le_shutdown t) v)) = true).
  { unfold shutdown_if, mudmux_shutdown. rewrite V3, R. destruct (le_shutdown t); cbn; by rewrite V3. }
  destruct W as (W1 & W2 & W3). destruct (IH _ E W3) as (mid & M1 & M2 & M3 & M4 & _).
  exists (TTurn :: m ++ mid). rewrite M1, W1, V1, <- app_assoc. split_and!; try done.
  - constructor; [by left|]. by apply Forall_app.
  - congruence.
Qed.

(** ** Theorems *)

(** C15: the server's global state is consistent between calls, over every sequence
    of calls of the library's entry points, failed ones included: no run is left
    half torn down (not running, the logic thread unbound, no runtime), the
    execution layer counts as running exactly when the pool has workers, the
    timer event is registered exactly when it is initialised, and only the
    current TLS context is allocated. *)
Theorem lifecycle_invariant cs s :
  api_calls fresh_server cs = Some s → life_ok s.
Proof.
  assert (H0 : life_ok fresh_server) by (constructor; [by constructor|done]).
  revert H0. generalize fresh_server. induction cs as [|c cs IH]; intros s0 H0; cbn; [congruence|].
  destruct (api_call s0 c) as [s1|] eqn:E; [|done]. apply IH. clear IH.
  destruct H0 as [Hc Hi]. destruct c; cbn in E.
  - injection E as <-. constructor; [by apply core_init|by apply idle_init].
  - injection E as <-. constructor; [by apply core_deinit|by apply idle_deinit].
  - destruct (mudmux_run env s0) as [[s2 ok]|] eqn:R; [|done]. injection E as <-. by eapply run_life.
  - injection E as <-. unfold mudmux_shutdown. rewrite (proj1 Hi). by constructor.
  - injection E as <-. constructor; [|done]. destruct Hc. constructor; try done.
    cbn [with_hooks all_hooks]. unfold mudmux_register_hook. destruct (_ || _); cbn [fst]; by rewrite ?length_insert.
  - destruct (mudmux_register_event _ _ _ _) as [regs|] eqn:R; injection E as <-; [|by constructor].
    constructor; [|done]. destruct Hc as [H1 H2 [H3 H6] H4 H5]. constructor; cbn; try done.
    split; cbn; [done|]. intros T. specialize (H6 T). unfold mudmux_register_event in R.
    destruct (_ || _); [done|]. destruct (existsb _ _); [done|]. injection R as <-.
    rewrite map_app. apply elem_of_app. by left.
  - injection E as <-. constructor; [by apply core_transport|done].
  - injection E as <-. constructor; [by apply core_transport|done].
  - injection E as <-. constructor; [by apply core_slots|done].
  - injection E as <-. constructor; [by apply core_start|].
    unfold start_workers. by destruct (mudmux_workers_start _ _).
  - injection E as <-. constructor; [by apply core_stop|done].
Qed.

(** What a server that can run has, and what one that was torn down has not. *)
Definition initialised (s : server) : Prop :=
  wk_running (wk s) = true ∧ pool_size (wk_pool (wk s)) = Z.to_nat (wk_size (wk s))
  ∧ timer_event_initialized (events s) = true ∧ timer_event_registered (events s) = true
  ∧ is_shutting_down (run s) = false ∧ apis s = Some true.

Definition torn_down (s : server) : Prop :=
  wk_running (wk s) = false ∧ pool_size (wk_pool (wk s)) = 0
  ∧ event_registrations (events s) = [] ∧ timer_event_initialized (events s) = false
  ∧ accept_names (transport s) = [] ∧ enable_console (transport s) = false
  ∧ live_ctxs (ssl_state s) = ∅ ∧ all_hooks s = no_hooks ∧ apis s = Some false.

Lemma deinit_torn_down s : core_ok s → idle s → is_Some (apis s) → torn_down (mudmux_deinit s).
Proof.
  intros [H1 H2 H3 H4 H5] (I1 & I2 & I3) [b A]. unfold mudmux_deinit. rewrite I1.
  cbn [on_events on_transport on_workers on_run apis]. rewrite A.
  cbn [with_hooks with_ssl with_apis on_events on_transport on_workers on_run apis all_hooks ssl_state].
  unfold torn_down. cbn [wk events transport ssl_state all_hooks apis].
  rewrite reset_hooks by done. split_and!; try done. unfold comm_ssl_deinit, ctx_ok in *.
  destruct (g_ssl_ctx (ssl_state s)) eqn:E; cbn; rewrite H4, ?E; set_solver.
Qed.

(** The parts of the state that a successful initialisation has set up before the
    workers start, which no later step of the configuration touches. *)
Definition prepared (s : server) : Prop :=
  timer_event_initialized (events s) = true ∧ timer_event_registered (events s) = true ∧ apis s = Some true.

Lemma prepared_configure env cfg : keeps prepared (configure env cfg).
Proof. apply frame_configure; [constructor; [done..|by apply frame_ssl]|by apply frame_start|done]. Qed.

(** A configuration that succeeds found no workers and started the configured number. *)
Lemma configure_starts env cfg s :
  core_ok s → (configure env cfg s).2 = true →
  let s' := (configure env cfg s).1 in
  wk_running (wk s) = false ∧ wk_running (wk s') = true
  ∧ pool_size (wk_pool (wk s')) = Z.to_nat (wk_size (wk s')) ∧ is_shutting_down (run s') = false.
Proof.
  intros H. unfold configure. destruct cfg as [c|]; [|done].
  pose proof (frame_config core_ok env c core_frame s H) as K.
  assert (R : keeps (fun v => wk_running (wk v) = wk_running (wk s)) (apply_config env c)).
  { apply frame_config. constructor; [done..|by apply frame_ssl]. }
  specialize (R s eq_refl). cbn beta in R. unfold andthen. destruct (apply_config env c s) as [s1 []]; [|done].
  cbn [fst] in K, R. unfold start_workers.
  pose proof (workers_start_spec (ie_threads env) (wk s1) ltac:(by destruct K)) as W.
  destruct (mudmux_workers_start _ _) as [k []]; [|done]. intros _. cbn.
  destruct W as (_ & W2 & _ & _ & W3). destruct (W3 eq_refl) as (W6 & W4 & W5). by rewrite W2, <- R.
Qed.

Lemma init_result env cfg s :
  life_ok s →
  let '(s', ok) := mudmux_init env cfg s in
  if ok then wk_running (wk s) = false ∧ initialised s' else torn_down s'.
Proof.
  intros [Hc Hi]. unfold mudmux_init. rewrite (proj1 Hi). cbn zeta.
  match goal with |- context [(init_timer ?b >>? configure env cfg) ?v] => set (s0 := v) end.
  assert (C0 : core_ok s0) by (unfold s0; destruct Hc; by constructor).
  assert (R0 : wk_running (wk s0) = wk_running (wk s)) by done.
  assert (I0 : idle s0) by done. assert (A0 : apis s0 = Some true) by done. clearbody s0.
  assert (T : core_ok (init_timer (ie_event env) s0).1 ∧ idle (init_timer (ie_event env) s0).1
    ∧ apis (init_timer (ie_event env) s0).1 = Some true
    ∧ ((init_timer (ie_event env) s0).2 = true → prepared (init_timer (ie_event env) s0).1)
    ∧ wk_running (wk (init_timer (ie_event env) s0).1) = wk_running (wk s)).
  { split; [by apply keeps_timer|]. unfold init_timer. destruct (negb _ && _); by split_and!. }
  unfold andthen. destruct (init_timer (ie_event env) s0) as [s1 b1]. cbn [fst snd] in T.
  destruct T as (T1 & T2 & T3 & T4 & T5). destruct b1; cbn iota.
  2:{ apply deinit_torn_down; [done..|by rewrite T3]. }
  pose proof (keeps_configure env cfg s1 T1) as K1. pose proof (idle_configure env cfg s1 T2) as K2.
  pose proof (prepared_configure env cfg s1 (T4 eq_refl)) as K3.
  pose proof (configure_starts env cfg s1 T1) as K4.
  destruct (configure env cfg s1) as [s2 []]; cbn [fst snd] in *.
  - destruct (K4 eq_refl) as (K5 & ? & ? & ?), K3 as (? & ? & ?). rewrite <- T5. by split_and!.
  - apply deinit_torn_down; [done..|]. by rewrite (proj2 (proj2 K3)).
Qed.

(** C16: the initialisation succeeds completely or tears everything down: afterwards
    either the workers run with the configured size and the timer is ready, or
    nothing of it remains: no workers, no registered event, no accept name, no
    TLS context and no hook, whichever step failed. *)
Theorem init_all_or_nothing env cfg s :
  life_ok s →
  let '(s', ok) := mudmux_init env cfg s in
  if ok then initialised s' else torn_down s'.
Proof.
  intros Hl. pose proof (init_result env cfg s Hl) as I.
  destruct (mudmux_init env cfg s) as [s' []]; [by destruct I|done].
Qed.

(** C17: a completed run uses the subsystems in one order: the runtime first, the
    start notification before the first turn, the stop notification after the
    last, closing of the connections, then the workers are joined before the
    runtime is destroyed, and the slots removed last; the state is then as
    before the run. *)
Theorem run_ordered env s s' :
  life_ok s → mudmux_run env s = Some (s', true) →
  let timer msg := if mudmux_get_registered_hook (all_hooks s) TIMER_HOOK =? 0 then [] else [TTimer msg] in
  ∃ turns, Forall loop_trace turns
  ∧ trace s' = trace s ++ [TRuntimeInit] ++ timer 0%Z ++ turns ++ timer (-1)%Z
      ++ (if is_shutting_down (run s') then [TCloseSlots] else [])
      ++ [TWorkersStop; TFlushAll; TFileShutdown; TConsoleShutdown; TRuntimeDeinit; TRemoveAll]
  ∧ idle s' ∧ wk_running (wk s') = false ∧ listeners s' = [].
Proof.
  intros [Hc (H1 & H2 & H3)]. unfold mudmux_run. rewrite H1. cbn zeta.
  match goal with |- context [run_setup env ?v] => set (s0 := v) end.
  destruct (setup_spec env s0) as [[F1 F2 F3] (k & _ & F4)].
  destruct (run_setup env s0) as [s1 []]; cbn [fst snd negb] in *; [|done]. rewrite (F4 eq_refl) in F1.
  assert (N : ∀ b e v, is_running (run v) = true →
    let u := shutdown_if b (notify TIMER_HOOK e v) in
    all_hooks u = all_hooks v ∧ is_running (run u) = true
    ∧ trace u = trace v ++ if mudmux_get_registered_hook (all_hooks v) TIMER_HOOK =? 0 then [] else [e]).
  { intros b e v R. unfold shutdown_if, mudmux_shutdown, notify. destruct (_ =? 0) eqn:Z; cbn zeta;
      rewrite ?app_nil_r; destruct b; cbn; rewrite ?R; cbn; by rewrite ?R. }
  destruct (N (re_start env) (TTimer 0) s1) as (A1 & A2 & A3); [by rewrite F2|].
  destruct (event_loop _ _) as [s2|] eqn:E; [|done]. destruct (loop_spec _ _ _ E A2) as (mid & M1 & M2 & M3 & M4 & _).
  destruct (N (re_stop env) (TTimer (-1)) s2 M4) as (B1 & B2 & B3).
  cbn. set (u := shutdown_if (re_stop env) _) in *.
  set (v := if is_shutting_down (run u) then record TCloseSlots u else u).
  assert (V : run v = run u ∧ trace v = trace u ++ if is_shutting_down (run u) then [TCloseSlots] else [])
    by (unfold v; destruct (is_shutting_down (run u)); cbn; by rewrite ?app_nil_r).
  destruct V as [V1 V2]. clearbody v. intros [= <-]. exists mid. split; [done|]. split; [|done].
  cbn. rewrite V1, V2, B3, M1, A3, F1, M3, A1, F3. cbn. rewrite <- !app_assoc. done.
Qed.

(** A run that fails to start undoes what it started, in the same order, and
    leaves the state as before the run. *)
Theorem failed_run_undone env s s' :
  life_ok s → mudmux_run env s = Some (s', false) →
  idle s' ∧ wk_running (wk s') = false ∧ run s' = run s
  ∧ trace s' = trace s ++ (if re_runtime env then [TRuntimeInit] else [])
      ++ [TWorkersStop; TFileShutdown; TConsoleShutdown; TRuntimeDeinit].
Proof.
  intros [Hc (H1 & H2 & H3)]. unfold mudmux_run. rewrite H1. cbn zeta.
  match goal with |- context [run_setup env ?v] => set (s0 := v) end.
  destruct (setup_spec env s0) as [[F1 F2 F3] (k & F5 & F4)].
  destruct (run_setup env s0) as [s1 []]; cbn [fst snd negb] in *.
  - by destruct (event_loop _ _).
  - intros [= <-]. split; [done|]. split; [done|]. split.
    + cbn. rewrite F2. unfold s0. cbn. destruct (run s) as [r d t]; cbn in *. by rewrite H1, H2.
    + cbn. rewrite F1. cbn. by rewrite <- !app_assoc.
Qed.

(** But it keeps the listeners it had already opened.  When an accept name
    fails after others succeeded, the run fails and their listening slots stay
    in the table, bound to their addresses and without a loop to serve them;
    [mudmux_deinit] does not remove them either. *)
Theorem failed_accept_keeps_listeners env s good bad rest :
  life_ok s → re_runtime env = true → (∀ e, re_add_event env e = true) →
  pool_size (wk_pool (wk s)) ≠ 0 →
  enable_console (transport s) = false → enable_standard_input (transport s) = false → console_rbio s = false →
  accept_names (transport s) = good ++ bad :: rest →
  Forall (fun n => re_accept env n = true) good → re_accept env bad = false →
  ∃ s', mudmux_run env s = Some (s', false) ∧ listeners s' = listeners s ++ good
        ∧ listeners (mudmux_deinit s') = listeners s ++ good.
Proof.
  intros [Hc (H1 & H2 & H3)] Hr He Hp E1 E2 E3 En Hg Hb. unfold mudmux_run. rewrite H1. cbn zeta.
  assert (A : ∀ v, accept_all env (good ++ bad :: rest) v
    = (with_slots (listeners v ++ good) (console_rbio v) v, false)).
  { clear En. induction good as [|n good IH]; intros v; cbn.
    - rewrite Hb, app_nil_r. by destruct v.
    - apply Forall_cons in Hg as [-> Hg]. rewrite (IH Hg). cbn. by rewrite <- app_assoc. }
  unfold run_setup, andthen, init_runtime. rewrite Hr. unfold register_runtime_events.
  rewrite (proj2 (forallb_forall _ _)) by (intros; apply He).
  unfold restore_workers. cbn [with_runtime record on_run wk]. rewrite (proj2 (Nat.eqb_neq _ _) Hp).
  unfold init_input. cbn [with_runtime record on_run transport console_rbio]. rewrite E1, E2, E3.
  cbn [orb with_runtime record on_run transport]. rewrite En, A. cbn [negb].
  eexists. split; [done|]. split; [done|].
  unfold mudmux_deinit. cbn. by destruct (apis s).
Qed.

(** C1: [mudmux_shutdown] ends the server: as soon as it was called before the loop
    or during one of its turns (or a wait failed), [mudmux_run] returns. *)
Theorem shutdown_ends_run env s :
  life_ok s →
  re_start env = true ∨ Exists (fun t => le_wait t = false ∨ le_shutdown t = true) (re_turns env) →
  is_Some (mudmux_run env s).
Proof.
  intros [Hc (H1 & H2 & H3)] Hx. unfold mudmux_run. rewrite H1. cbn zeta.
  match goal with |- context [run_setup env ?v] => set (s0 := v) end.
  destruct (setup_spec env s0) as [[_ F2 _] _].
  destruct (run_setup env s0) as [s1 []]; cbn [fst snd negb] in *; [|done].
  assert (L : ∀ turns v, is_running (run v) = true →
    is_shutting_down (run v) = true ∨ Exists (fun t => le_wait t = false ∨ le_shutdown t = true) turns →
    is_Some (event_loop turns v)).
  { induction turns as [|t turns IH]; intros v R D; cbn; destruct (is_shutting_down (run v)) eqn:Dv; try done.
    - destruct D as [?|D]; [congruence|by inv D].
    - destruct D as [?|D]; [congruence|]. destruct (le_wait t) eqn:W; cbn; [|done].
      set (u := notify GC_HOOK TGarbageCollection (record TTurn v)).
      assert (U : run u = run v) by (unfold u, notify; by destruct (_ =? 0)).
      unfold shutdown_if, mudmux_shutdown. rewrite U, R. destruct (le_shutdown t) eqn:Sh.
      + apply IH; [cbn; by rewrite U|by left].
      + apply IH; [by rewrite U|right]. by apply Exists_cons in D as [[?|?]|D]; [congruence..|]. }
  set (u := notify TIMER_HOOK (TTimer 0) s1).
  assert (U : run u = run s1) by (unfold u, notify; by destruct (_ =? 0)).
  destruct (L (re_turns env) (shutdown_if (re_start env) u)) as [s2 ->]; [| |done].
  - unfold shutdown_if, mudmux_shutdown. rewrite U, F2. cbn. by destruct (re_start env); cbn; rewrite U, F2.
  - destruct Hx as [->|Hx]; [left|by right]. unfold shutdown_if, mudmux_shutdown. by rewrite U, F2.
Qed.

(** A server that was shut down cannot be run again: [is_shutting_down] is
    cleared by [mudmux_init] only, so a second [mudmux_run] sets everything up,
    notifies start and stop and returns without serving a single turn. *)
Theorem second_run_serves_nothing env env' s s' s'' :
  life_ok s → mudmux_run env s = Some (s', true) → is_shutting_down (run s') = true →
  mudmux_run env' s' = Some (s'', true) →
  List.filter (fun e => bool_decide (e = TTurn)) (trace s'')
  = List.filter (fun e => bool_decide (e = TTurn)) (trace s').
Proof.
  intros Hl E1 D E2. pose proof (run_life env s s' true Hl E1) as [Hc (H1 & H2 & H3)]. revert E2.
  unfold mudmux_run. rewrite H1. cbn zeta.
  match goal with |- context [run_setup env' ?v] => set (s0 := v) end.
  destruct (setup_spec env' s0) as [[F1 F2 F3] _].
  destruct (run_setup env' s0) as [s1 []]; cbn [fst snd negb] in *; [|done].
  assert (N : ∀ b e v, is_shutting_down (run v) = true → e ≠ TTurn →
    let u := shutdown_if b (notify TIMER_HOOK e v) in
    is_shutting_down (run u) = true
    ∧ List.filter (fun e => bool_decide (e = TTurn)) (trace u) = List.filter (fun e => bool_decide (e = TTurn)) (trace v)).
  { intros b e v Dv He. unfold shutdown_if, mudmux_shutdown, notify. destruct (_ =? 0); cbn zeta.
    - destruct b; [|done]. destruct (is_running (run v)); [|done]. done.
    - destruct b; [destruct (is_running (run (record e v)))|]; (split; [done|]); cbn;
        rewrite List.filter_app; cbn; rewrite bool_decide_eq_false_2 by done; by rewrite app_nil_r. }
  destruct (N (re_start env') (TTimer 0) s1) as [A1 A2]; [by rewrite F2|done|].
  set (u := shutdown_if (re_start env') _) in *.
  assert (event_loop (re_turns env') u = Some u) as -> by (destruct (re_turns env'); cbn; by rewrite A1).
  cbn. destruct (N (re_stop env') (TTimer (-1)) u A1) as [B1 B2]; [done|]. rewrite B1. intros [= <-].
  cbn. rewrite !List.filter_app, B2, A2, F1, List.filter_app. cbn. rewrite !app_nil_r. destruct (re_runtime env'); cbn; by rewrite app_nil_r.
Qed.

(** A server whose workers run cannot be initialised: a second [mudmux_init]
    fails at the workers' start, and its clean-up tears down the working
    server: its workers, its events, its hooks. *)
Theorem second_init_tears_down env cfg s :
  life_ok s → wk_running (wk s) = true →
  (mudmux_init env cfg s).2 = false ∧ torn_down (mudmux_init env cfg s).1.
Proof.
  intros Hl R. pose proof (init_result env cfg s Hl) as I.
  destruct (mudmux_init env cfg s) as [s' []]; [|by split]. destruct I as [I _]. congruence.
Qed.

(** C1: [mudmux_deinit] before any [mudmux_init] writes through null pointers. *)
Theorem deinit_uninitialised_crashes s :
  is_running (run s) = false → apis s = None → crashed (mudmux_deinit s) = true.
Proof. intros R A. unfold mudmux_deinit. rewrite R. cbn. by rewrite A. Qed.

(** ** Witnesses *)

Definition good_ssl : ssl_env :=
  {| se_init := true; se_new := Some 7; se_certificate := true; se_key := true; se_check := true |}.
Definition good_init : init_env := {| ie_event := true; ie_ssl := good_ssl; ie_threads := [1; 2; 3; 4] |}.

(** Two workers, TLS and two accept names; and one whose backlog is refused. *)
Definition demo_config : config :=
  {| cf_console := Absent; cf_accept := Val [Val [49]%Z; Val [50]%Z]; cf_pool := Val (Val 2%Z, Absent);
     cf_keep_alive := Val 5%Z; cf_ssl := Val ([47]%Z, [47]%Z) |}.
Definition bad_config : config :=
  {| cf_console := Val true; cf_accept := Val [Val [49]%Z]; cf_pool := Val (Val 2%Z, Val 0%Z);
     cf_keep_alive := Absent; cf_ssl := Absent |}.

(** One turn, then another that asks for shutdown; [accept] answers the names. *)
Definition demo_run (accept : list Z → bool) : run_env :=
  {| re_thread := 9; re_runtime := true; re_add_event := fun _ => true; re_threads := [1; 2; 3; 4];
     re_console := true; re_file := true; re_accept := accept; re_start := false;
     re_turns := [{| le_wait := true; le_shutdown := false |}; {| le_wait := true; le_shutdown := true |}];
     re_stop := false |}.
Definition accepts_all (_ : list Z) : bool := true.
Definition accepts_first (n : list Z) : bool := bool_decide (n = [49]%Z).

Definition demo_server : server :=
  default fresh_server (api_calls fresh_server [CInit good_init (Some demo_config); CRegisterHook 8 5]).

Lemma fresh_ok : life_ok fresh_server.
Proof. constructor; [constructor; [done|done|by split|done|done]|done]. Qed.
Lemma demo_ok : life_ok demo_server.
Proof.
  constructor; [constructor|].
  - vm_compute. reflexivity.
  - vm_compute. discriminate.
  - split; [vm_compute; reflexivity|]. intros _. vm_compute. apply list_elem_of_here.
  - vm_compute. reflexivity.
  - vm_compute. reflexivity.
  - split_and!; vm_compute; reflexivity.
Qed.

Definition ran (env : run_env) (s : server) : server := match mudmux_run env s with Some (s', _) => s' | None => s end.

Lemma lifecycle_invariant_witness :
  ∃ s, api_calls fresh_server [CInit good_init (Some demo_config); CRegisterHook 8 5;
         CRun (demo_run accepts_all); CDeinit; CInit good_init (Some bad_config); CWorkersStart [1; 2]] = Some s
       ∧ life_ok s.
Proof.
  eexists. split; [vm_compute; reflexivity|].
  apply (lifecycle_invariant [CInit good_init (Some demo_config); CRegisterHook 8 5;
    CRun (demo_run accepts_all); CDeinit; CInit good_init (Some bad_config); CWorkersStart [1; 2]]).
  vm_compute. reflexivity.
Defined.

Lemma init_all_or_nothing_witness :
  let '(s', ok) := mudmux_init good_init (Some bad_config) fresh_server in
  if ok then initialised s' else torn_down s'.
Proof. apply (init_all_or_nothing good_init (Some bad_config) fresh_server fresh_ok). Defined.

Lemma run_ordered_witness :
  let s' := ran (demo_run accepts_all) demo_server in
  ∃ turns, Forall loop_trace turns
  ∧ trace s' = [] ++ [TRuntimeInit] ++ [TTimer 0] ++ turns ++ [TTimer (-1)] ++ [TCloseSlots]
      ++ [TWorkersStop; TFlushAll; TFileShutdown; TConsoleShutdown; TRuntimeDeinit; TRemoveAll]
  ∧ idle s' ∧ wk_running (wk s') = false ∧ listeners s' = [].
Proof.
  intros s'. apply (run_ordered (demo_run accepts_all) demo_server s' demo_ok). vm_compute. reflexivity.
Defined.

Lemma failed_run_undone_witness :
  idle (ran (demo_run accepts_first) demo_server).
Proof.
  refine (proj1 (failed_run_undone (demo_run accepts_first) demo_server _ demo_ok _)). vm_compute. reflexivity.
Defined.

Lemma failed_accept_keeps_listeners_witness :
  ∃ s', mudmux_run (demo_run accepts_first) demo_server = Some (s', false)
    ∧ listeners s' = listeners demo_server ++ [[49]%Z]
    ∧ listeners (mudmux_deinit s') = listeners demo_server ++ [[49]%Z].
Proof.
  apply (failed_accept_keeps_listeners (demo_run accepts_first) demo_server [[49]%Z] [50]%Z []);
    [exact demo_ok|done|done|vm_compute; discriminate|vm_compute; reflexivity..| |vm_compute; reflexivity].
  by repeat constructor.
Defined.

Lemma shutdown_ends_run_witness : is_Some (mudmux_run (demo_run accepts_all) demo_server).
Proof.
  apply (shutdown_ends_run (demo_run accepts_all) demo_server demo_ok). right. apply Exists_cons. right.
  apply Exists_cons. left. by right.
Defined.

Lemma second_run_serves_nothing_witness :
  let s' := ran (demo_run accepts_all) demo_server in
  let s'' := ran (demo_run accepts_all) s' in
  List.filter (fun e => bool_decide (e = TTurn)) (trace s'')
  = List.filter (fun e => bool_decide (e = TTurn)) (trace s').
Proof.
  intros s' s''. apply (second_run_serves_nothing (demo_run accepts_all) (demo_run accepts_all) demo_server s' s'' demo_ok);
    vm_compute; reflexivity.
Defined.

Lemma second_init_tears_down_witness :
  (mudmux_init good_init (Some demo_config) demo_server).2 = false
  ∧ torn_down (mudmux_init good_init (Some demo_config) demo_server).1.
Proof.
  apply (second_init_tears_down good_init (Some demo_config) demo_server demo_ok). vm_compute. reflexivity.
Defined.

Lemma deinit_uninitialised_crashes_witness : crashed (mudmux_deinit fresh_server) = true.
Proof. apply (deinit_uninitialised_crashes fresh_server); reflexivity. Defined.
