(* ===== verification/IocpRuntime.v ===== *)
(** * The completion-port runtime (lib/async/async_runtime_iocp.cpp)

    Overlapped reads and writes with their pooled contexts, the accept worker's
    table of listening sockets, one-shot event waits, and the conversion of
    dequeued completions into I/O events.  The port is the queue the system
    documents; when an operation completes, with which bytes, and whether a call
    succeeds are the system's choice. *)

From stdpp Require Import gmap.
From S2P Require Import Prelude PollRuntime.

(** ** Data *)

Definition IOCP_COMPLETION_KEY (x : Z) : Z := 0xC1000000 + x.
Definition ASYNC_WORKER_KEY (x : Z) : Z := 0xF0000000 + x.
Definition ACCEPT_COMPLETION_KEY : Z := IOCP_COMPLETION_KEY 1.
Definition WAKEUP_COMPLETION_KEY : Z := IOCP_COMPLETION_KEY 2.
Definition EVENT_COMPLETION_KEY : Z := IOCP_COMPLETION_KEY 3.

Definition MAX_TEXT : nat := 2048.
Definition INITIAL_POOL_SIZE : nat := 256.
Definition INVALID_SOCKET : Z := 2 ^ 64 - 1.

Inductive iocp_operation := OP_READ | OP_WRITE | OP_ACCEPT.

(** An [iocp_context_t]: [ic_wsa] is the caller's buffer when the operation does not
    use its own. *)
Record iocp_context := {
  ic_user : Z;
  ic_operation : iocp_operation;
  ic_fd : Z;
  ic_wsa : option nat;
  ic_buffer : list Z
}.

(** An [event_wait_registration_t]; [ew_armed]: a one-shot wait is registered. *)
Record event_wait := { ew_event : nat; ew_context : Z; ew_rearm : bool; ew_armed : bool }.

(** The overlapped pointer of a completion: null, a context, or a registration. *)
Inductive overlapped := OvNull | OvContext (c : nat) | OvWait (i : nat).

#[export] Instance overlapped_eq_dec : EqDecision overlapped.
Proof. solve_decision. Defined.

Record entry := { en_key : Z; en_overlapped : overlapped; en_bytes : Z }.

Record iocp_runtime := mk_iocp {
  context_pool : list nat;                 (* top of the pool first *)
  contexts : gmap nat iocp_context;        (* allocated contexts by address *)
  num_fds : Z;
  listen_sockets : list (Z * Z);           (* descriptor, context *)
  listen_capacity : nat;
  event_waits : list event_wait;
  event_wait_capacity : nat;
  port : list entry;                       (* completions not yet dequeued *)
  started : list nat                       (* contexts of operations in progress *)
}.

Definition iocp_init : iocp_runtime := mk_iocp [] ∅ 0 [] 8 [] 8 [] [].

Definition with_pool (r : iocp_runtime) (p : list nat) (m : gmap nat iocp_context) : iocp_runtime :=
  mk_iocp p m (num_fds r) (listen_sockets r) (listen_capacity r) (event_waits r) (event_wait_capacity r)
    (port r) (started r).
Definition with_fds_count (r : iocp_runtime) (n : Z) : iocp_runtime :=
  mk_iocp (context_pool r) (contexts r) n (listen_sockets r) (listen_capacity r) (event_waits r)
    (event_wait_capacity r) (port r) (started r).
Definition with_listeners (r : iocp_runtime) (l : list (Z * Z)) (n : nat) : iocp_runtime :=
  mk_iocp (context_pool r) (contexts r) (num_fds r) l n (event_waits r) (event_wait_capacity r) (port r) (started r).
Definition with_waits (r : iocp_runtime) (l : list event_wait) (n : nat) : iocp_runtime :=
  mk_iocp (context_pool r) (contexts r) (num_fds r) (listen_sockets r) (listen_capacity r) l n (port r) (started r).
Definition with_port (r : iocp_runtime) (q : list entry) : iocp_runtime :=
  mk_iocp (context_pool r) (contexts r) (num_fds r) (listen_sockets r) (listen_capacity r) (event_waits r)
    (event_wait_capacity r) q (started r).
Definition with_started (r : iocp_runtime) (l : list nat) : iocp_runtime :=
  mk_iocp (context_pool r) (contexts r) (num_fds r) (listen_sockets r) (listen_capacity r) (event_waits r)
    (event_wait_capacity r) (port r) l.

(** [PostQueuedCompletionStatus]. *)
Definition post (r : iocp_runtime) (e : entry) : iocp_runtime := with_port r (port r ++ [e]).

(** ** The context pool *)

(** [alloc_iocp_context]; [mem] is whether [calloc] succeeds.  A pooled context
    keeps the bytes of its buffer. *)
Definition alloc_iocp_context (mem : bool) (r : iocp_runtime) (fd user : Z) (op : iocp_operation)
    : option (nat * iocp_runtime) :=
  let fill c b m := <[c := {| ic_user := user; ic_operation := op; ic_fd := fd; ic_wsa := None; ic_buffer := b |}]> m in
  match context_pool r with
  | c :: p =>
      let b := match contexts r !! c with Some x => ic_buffer x | None => [] end in
      Some (c, with_pool r p (fill c b (contexts r)))
  | [] =>
      if mem then
        let c := fresh (dom (contexts r)) in
        Some (c, with_pool r [] (fill c (replicate MAX_TEXT 0%Z) (contexts r)))
      else None
  end.

(** [free_iocp_context]. *)
Definition free_iocp_context (r : iocp_runtime) (c : nat) : iocp_runtime :=
  if length (context_pool r) <? INITIAL_POOL_SIZE then with_pool r (c :: context_pool r) (contexts r)
  else with_pool r (context_pool r) (delete c (contexts r)).

(** ** I/O sources *)

(** [async_runtime_add]; [listening] is [SO_ACCEPTCONN], [grown] whether [realloc]
    succeeds, [associated] whether the port takes the socket. *)
Definition iocp_runtime_add (r : iocp_runtime) (fd context : Z) (listening grown associated : bool)
    : iocp_runtime * Z :=
  if (fd =? INVALID_SOCKET)%Z then (r, (-1)%Z)
  else if listening then
    let full := listen_capacity r <=? length (listen_sockets r) in
    if full && negb grown then (r, (-1)%Z)
    else
      let cap := if full then listen_capacity r * 2 else listen_capacity r in
      (with_fds_count (with_listeners r (listen_sockets r ++ [(fd, context)]) cap) (num_fds r + 1), 0%Z)
  else if negb associated then (r, (-1)%Z)
  else (with_fds_count r (num_fds r + 1), 0%Z).

Definition iocp_runtime_modify (r : iocp_runtime) : iocp_runtime * Z := (r, 0%Z).

(** Removal from the table: the last entry takes the place of the removed one. *)
Fixpoint remove_listener (fd : Z) (l : list (Z * Z)) : option (list (Z * Z)) :=
  match l with
  | [] => None
  | (f, x) :: rest =>
      if (f =? fd)%Z
      then Some (match last rest with Some y => y :: removelast rest | None => [] end)
      else (fun l' => (f, x) :: l') <$> remove_listener fd rest
  end.

Definition iocp_runtime_remove (r : iocp_runtime) (fd : Z) : iocp_runtime * Z :=
  let r := match remove_listener fd (listen_sockets r) with
           | Some l => with_listeners r l (listen_capacity r)
           | None => r
           end in
  (with_fds_count r (num_fds r - 1), 0%Z).

(** [async_runtime_add_event]; [handle] whether the event has a native handle,
    [mem], [waited] and [grown] the answers of the allocations and of
    [RegisterWaitForSingleObject]. *)
Definition iocp_runtime_add_event (r : iocp_runtime) (event : nat) (context : Z) (handle mem waited grown : bool)
    : iocp_runtime * Z :=
  if (event =? 0) || negb handle || negb mem || negb waited then (r, (-1)%Z)
  else
    let full := length (event_waits r) =? event_wait_capacity r in
    if full && negb grown then (r, (-1)%Z)
    else
      let cap := if full then event_wait_capacity r * 2 else event_wait_capacity r in
      (with_waits r (event_waits r ++ [{| ew_event := event; ew_context := context; ew_rearm := false;
                                          ew_armed := true |}]) cap, 0%Z).

(** ** Posting *)

Definition DWORD (z : Z) : Z := u32 z.

(** [ok]: the answer of [PostQueuedCompletionStatus]. *)
Definition iocp_runtime_wakeup (ok : bool) (r : iocp_runtime) : iocp_runtime * Z :=
  if ok then (post r {| en_key := WAKEUP_COMPLETION_KEY; en_overlapped := OvNull; en_bytes := 0 |}, 0%Z)
  else (r, (-1)%Z).

Definition iocp_post_completion (ok : bool) (r : iocp_runtime) (completion_key data : Z) : iocp_runtime * Z :=
  if ok then (post r {| en_key := completion_key; en_overlapped := OvNull; en_bytes := DWORD data |}, 0%Z)
  else (r, (-1)%Z).

(** An operation that the system starts, or refuses with an error other than
    [WSA_IO_PENDING]. *)
Definition start_operation (accepted : bool) (r : iocp_runtime) (c : nat) : iocp_runtime * Z :=
  if accepted then (with_started r (started r ++ [c]), 0%Z) else (free_iocp_context r c, (-1)%Z).

Definition set_wsa (r : iocp_runtime) (c : nat) (buffer : option nat) : iocp_runtime :=
  with_pool r (context_pool r)
    (alter (fun x => {| ic_user := ic_user x; ic_operation := ic_operation x; ic_fd := ic_fd x;
                        ic_wsa := buffer; ic_buffer := ic_buffer x |}) c (contexts r)).

(** [async_runtime_post_read]; without a buffer the operation reads into its own. *)
Definition async_runtime_post_read (mem accepted : bool) (r : iocp_runtime) (fd : Z) (buffer : option (nat * nat))
    : iocp_runtime * Z :=
  if (fd =? INVALID_SOCKET)%Z then (r, (-1)%Z)
  else match alloc_iocp_context mem r fd 0 OP_READ with
  | None => (r, (-1)%Z)
  | Some (c, r) =>
      let r := match buffer with
               | Some (p, len) => if 0 <? len then set_wsa r c (Some p) else r
               | None => r
               end in
      start_operation accepted r c
  end.

Definition async_runtime_post_write (mem accepted : bool) (r : iocp_runtime) (fd : Z) (buffer : option nat)
    : iocp_runtime * Z :=
  match buffer with
  | None => (r, (-1)%Z)
  | Some p =>
      if (fd =? INVALID_SOCKET)%Z then (r, (-1)%Z)
      else match alloc_iocp_context mem r fd 0 OP_WRITE with
      | None => (r, (-1)%Z)
      | Some (c, r) => start_operation accepted (set_wsa r c (Some p)) c
      end
  end.

(** ** Waiting *)

(** The [io_event_t] of a completion; [iv_buffer] is the address of the context
    whose buffer it shows. *)
Record iocp_event := {
  iv_fd : Z; iv_key : Z; iv_context : Z; iv_type : Z; iv_bytes : Z; iv_buffer : option nat
}.

(** [rearm_pending_event_waits] with the system's answers; [None] when one is
    refused, which leaves the earlier ones armed. *)
Fixpoint rearm (ok : nat → bool) (i : nat) (ws : list event_wait) : list event_wait * bool :=
  match ws with
  | [] => ([], true)
  | w :: rest =>
      if negb (ew_rearm w) then let '(rest, b) := rearm ok (S i) rest in (w :: rest, b)
      else if ok i then
        let '(rest, b) := rearm ok (S i) rest in
        ({| ew_event := ew_event w; ew_context := ew_context w; ew_rearm := false; ew_armed := true |} :: rest, b)
      else (w :: rest, false)
  end.

Definition mark_rearm (i : nat) (ws : list event_wait) : list event_wait :=
  alter (fun w => {| ew_event := ew_event w; ew_context := ew_context w; ew_rearm := true;
                     ew_armed := ew_armed w |}) i ws.

(** What one completion becomes; [None]: nothing is reported. *)
Definition convert (r : iocp_runtime) (e : entry) : iocp_runtime * option iocp_event :=
  if (en_key e =? EVENT_COMPLETION_KEY)%Z then
    match en_overlapped e with
    | OvWait i =>
        (with_waits r (mark_rearm i (event_waits r)) (event_wait_capacity r),
         Some {| iv_fd := INVALID_SOCKET; iv_key := en_key e;
                 iv_context := match event_waits r !! i with Some w => ew_context w | None => 0 end;
                 iv_type := EVENT_READ; iv_bytes := 0; iv_buffer := None |})
    | _ => (r, None)
    end
  else
    match en_overlapped e with
    | OvContext c =>
        match contexts r !! c with
        | Some x =>
            let shown := {| iv_fd := ic_fd x; iv_key := en_key e; iv_context := en_key e; iv_type := EVENT_WRITE;
                            iv_bytes := en_bytes e; iv_buffer := Some c |} in
            (free_iocp_context r c,
             Some (match ic_operation x with
                   | OP_ACCEPT => {| iv_fd := ic_fd x; iv_key := en_key e; iv_context := ic_user x;
                                     iv_type := EVENT_READ; iv_bytes := 0; iv_buffer := None |}
                   | OP_READ => {| iv_fd := ic_fd x; iv_key := en_key e; iv_context := en_key e;
                                   iv_type := if (0 <? en_bytes e)%Z then EVENT_READ else EVENT_CLOSE;
                                   iv_bytes := en_bytes e; iv_buffer := Some c |}
                   | OP_WRITE => shown
                   end))
        | None => (r, None)
        end
    | OvNull =>
        if (en_key e =? ASYNC_IO_ERROR_KEY)%Z
        then (r, Some {| iv_fd := INVALID_SOCKET; iv_key := en_key e; iv_context := en_bytes e;
                         iv_type := EVENT_ERROR; iv_bytes := en_bytes e; iv_buffer := None |})
        else (r, None)
    | OvWait _ => (r, None)
    end.

(** The loop over the dequeued completions, which stops when [events] is full; the
    completions it has not looked at by then are dropped. *)
Fixpoint convert_all (r : iocp_runtime) (entries : list entry) (max_events : nat)
    : iocp_runtime * list iocp_event * list entry :=
  match entries, max_events with
  | [], _ => (r, [], [])
  | _, 0 => (r, [], entries)
  | e :: entries, S m =>
      match convert r e with
      | (r, Some v) => let '(r, vs, rest) := convert_all r entries m in (r, v :: vs, rest)
      | (r, None) => convert_all r entries (S m)
      end
  end.

Definition DEQUEUE_MAX : nat := 64.

(** [async_runtime_wait]; [rearmed] answers the waits, [n] is how many completions
    the port gives out, [None] for a timeout.  The last component are the
    completions it took from the port and dropped. *)
Definition iocp_runtime_wait (rearmed : nat → bool) (n : option nat) (max_events : nat) (r : iocp_runtime)
    : iocp_runtime * option (list iocp_event) * list entry :=
  if max_events =? 0 then (r, None, [])
  else
    let '(ws, ok) := rearm rearmed 0 (event_waits r) in
    let r := with_waits r ws (event_wait_capacity r) in
    if negb ok then (r, None, [])
    else match n with
    | None => (r, Some [], [])
    | Some n =>
        let k := Nat.min n DEQUEUE_MAX in
        let '(r, vs, rest) := convert_all (with_port r (drop k (port r))) (take k (port r)) max_events in
        (r, Some vs, rest)
    end.

(** ** The system *)

(** The operation [c] completes with [data]; [key] is the context its socket was
    associated with.  A read fills the buffer it was given. *)
Definition complete (r : iocp_runtime) (c : nat) (key : Z) (data : list Z) : option iocp_runtime :=
  if decide (c ∈ started r) then
    let r := with_started r (filter (fun x => x ≠ c) (started r)) in
    let r := with_pool r (context_pool r) (alter (fun x =>
      match ic_operation x, ic_wsa x with
      | OP_READ, None => {| ic_user := ic_user x; ic_operation := OP_READ; ic_fd := ic_fd x; ic_wsa := None;
                            ic_buffer := data ++ drop (length data) (ic_buffer x) |}
      | _, _ => x
      end) c (contexts r)) in
    Some (post r {| en_key := key; en_overlapped := OvContext c; en_bytes := Z.of_nat (length data) |})
  else None.

(** A completion that is posted without looking at the answer: it is queued, or
    lost. *)
Definition post_unchecked (posted : bool) (r : iocp_runtime) (e : entry) : iocp_runtime * list entry :=
  if posted then (post r e, []) else (r, [e]).

(** [event_wait_callback], which the thread pool runs once for each armed wait;
    [posted] is the answer of [PostQueuedCompletionStatus]. *)
Definition event_wait_callback (posted : bool) (r : iocp_runtime) (i : nat) : option (iocp_runtime * list entry) :=
  match event_waits r !! i with
  | Some w =>
      if ew_armed w then
        let r := with_waits r (<[i := {| ew_event := ew_event w; ew_context := ew_context w;
                                         ew_rearm := ew_rearm w; ew_armed := false |}]> (event_waits r))
                   (event_wait_capacity r) in
        Some (post_unchecked posted r {| en_key := EVENT_COMPLETION_KEY; en_overlapped := OvWait i; en_bytes := 0 |})
      else None
  | None => None
  end.

(** The accept worker with a connection of a listener: the socket travels in a
    context, or is closed when there is none; [posted] is the answer of
    [PostQueuedCompletionStatus]. *)
Definition accept_one (mem posted : bool) (r : iocp_runtime) (accepted_fd context : Z) : iocp_runtime * list entry :=
  match alloc_iocp_context mem r accepted_fd context OP_ACCEPT with
  | Some (c, r) =>
      post_unchecked posted r {| en_key := ACCEPT_COMPLETION_KEY; en_overlapped := OvContext c; en_bytes := 0 |}
  | None => (r, [])
  end.

Inductive iocp_label :=
  | LAdd (fd context : Z) (listening grown associated : bool)
  | LRemove (fd : Z)
  | LAddEvent (event : nat) (context : Z) (handle mem waited grown : bool)
  | LWakeup (ok : bool)
  | LPost (ok : bool) (key data : Z)
  | LRead (mem accepted : bool) (fd : Z) (buffer : option (nat * nat))
  | LWrite (mem accepted : bool) (fd : Z) (buffer : option nat)
  | LComplete (c : nat) (key : Z) (data : list Z)
  | LFire (posted : bool) (i : nat)
  | LAccept (mem posted : bool) (fd context : Z)
  | LWait (rearmed : nat → bool) (n : option nat) (max_events : nat).

(** Keys the program associates with sockets and posts itself are not the key of
    event waits. *)
Definition label_ok (l : iocp_label) : Prop :=
  match l with
  | LPost _ key _ | LComplete _ key _ => key ≠ EVENT_COMPLETION_KEY
  | _ => True
  end.

(** One call, completion or callback; each is taken as a whole.  The completions
    that are lost in it come second. *)
Definition iocp_step (r : iocp_runtime) (l : iocp_label) : option (iocp_runtime * list entry) :=
  match l with
  | LAdd fd x a b c => Some ((iocp_runtime_add r fd x a b c).1, [])
  | LRemove fd => Some ((iocp_runtime_remove r fd).1, [])
  | LAddEvent e x a b c d => Some ((iocp_runtime_add_event r e x a b c d).1, [])
  | LWakeup ok => Some ((iocp_runtime_wakeup ok r).1, [])
  | LPost ok k d => Some ((iocp_post_completion ok r k d).1, [])
  | LRead m a fd b => Some ((async_runtime_post_read m a r fd b).1, [])
  | LWrite m a fd b => Some ((async_runtime_post_write m a r fd b).1, [])
  | LComplete c k d => (fun r' => (r', [])) <$> complete r c k d
  | LFire ok i => event_wait_callback ok r i
  | LAccept m ok fd x => Some (accept_one m ok r fd x)
  | LWait f n m => let '(r', _, rest) := iocp_runtime_wait f n m r in Some (r', rest)
  end.

(** A run, with all the completions that were lost. *)
Fixpoint iocp_run (r : iocp_runtime) (lost : list entry) (ls : list iocp_label) : option (iocp_runtime * list entry) :=
  match ls with
  | [] => Some (r, lost)
  | l :: ls => '(r, more) ← iocp_step r l; iocp_run r (more ++ lost) ls
  end.

(** Nothing is lost in a step that asks for as many events as a wait dequeues, and
    whose unchecked post succeeds. *)
Definition careful (l : iocp_label) : Prop :=
  match l with
  | LFire posted _ | LAccept _ posted _ _ => posted = true
  | LWait _ _ m => DEQUEUE_MAX ≤ m
  | _ => True
  end.

(** ** Ownership of contexts *)

Definition entry_context (e : entry) : option nat :=
  match en_overlapped e with OvContext c => Some c | _ => None end.
Definition port_contexts (q : list entry) : list nat := omap entry_context q.

(** Each allocated context is in exactly one place: held outside the runtime
    ([held]), in the pool, part of an operation in progress, or in a completion. *)
Definition owns (held : list nat) (r : iocp_runtime) : Prop :=
  let l := held ++ context_pool r ++ started r ++ port_contexts (port r) in
  NoDup l ∧ (∀ c, c ∈ l ↔ is_Some (contexts r !! c)).

(** Completions of event waits name a registration, the others do not carry the key. *)
Definition entry_ok (n : nat) (e : entry) : Prop :=
  match en_overlapped e with
  | OvWait i => en_key e = EVENT_COMPLETION_KEY ∧ i < n
  | _ => en_key e ≠ EVENT_COMPLETION_KEY
  end.

(** A wait is armed, or its completion is queued, or it waits to be re-armed. *)
Definition fired (i : nat) (e : entry) : bool := bool_decide (en_overlapped e = OvWait i).

Definition wait_count (es : list entry) (i : nat) : nat := length (List.filter (fired i) es).

(** The state while the completions [es] are out of the port: dequeued and not yet
    converted, or lost. *)
Record iocp_inv (es : list entry) (r : iocp_runtime) : Prop := {
  io_owns : owns (port_contexts es) r;
  io_pool : length (context_pool r) ≤ INITIAL_POOL_SIZE;
  io_entries : Forall (entry_ok (length (event_waits r))) (es ++ port r);
  io_waits i w : event_waits r !! i = Some w →
    wait_count (es ++ port r) i + (if ew_armed w then 1 else 0) + (if ew_rearm w then 1 else 0) = 1
}.
Definition iocp_ok : iocp_runtime → Prop := iocp_inv [].

Lemma owns_perm h h' r : h ≡ₚ h' → owns h r → owns h' r.
Proof.
  intros P [A B]. split.
  - by rewrite <- P.
  - intros c. rewrite <- P. apply B.
Qed.

Lemma owns_alloc h mem r fd user op c r' :
  alloc_iocp_context mem r fd user op = Some (c, r') → owns h r →
  owns (c :: h) r' ∧ started r' = started r ∧ port r' = port r ∧ event_waits r' = event_waits r
  ∧ event_wait_capacity r' = event_wait_capacity r
  ∧ length (context_pool r') ≤ length (context_pool r).
Proof.
  unfold alloc_iocp_context, owns. intros E [A B]. cbn [app] in *. destruct (context_pool r) as [|c0 p] eqn:P.
  - destruct mem; [|done]. injection E as <- <-. cbn. split_and!; try done; try lia.
    + constructor; [|done]. intros X. apply B in X. apply (is_fresh (dom (contexts r))). by apply elem_of_dom.
    + intros x. rewrite elem_of_cons, B. rewrite lookup_insert_is_Some. cbn in *.
      destruct (decide (fresh (dom (contexts r)) = x)); naive_solver.
  - injection E as <- <-. cbn in *. assert (Q : c0 :: h ++ p ++ started r ++ port_contexts (port r)
      ≡ₚ h ++ c0 :: p ++ started r ++ port_contexts (port r)) by solve_Permutation.
    split_and!; try done; [by rewrite Q| |lia].
    intros x. rewrite Q, B, lookup_insert_is_Some.
    destruct (decide (c0 = x)) as [->|]; [|naive_solver]. split; [by left|]. intros _. apply B. set_solver.
Qed.

Lemma owns_free c h r :
  owns (c :: h) r → length (context_pool r) ≤ INITIAL_POOL_SIZE →
  owns h (free_iocp_context r c) ∧ length (context_pool (free_iocp_context r c)) ≤ INITIAL_POOL_SIZE
  ∧ started (free_iocp_context r c) = started r ∧ port (free_iocp_context r c) = port r
  ∧ event_waits (free_iocp_context r c) = event_waits r
  ∧ event_wait_capacity (free_iocp_context r c) = event_wait_capacity r
  ∧ (∀ x, x ≠ c → contexts (free_iocp_context r c) !! x = contexts r !! x).
Proof.
  unfold owns, free_iocp_context. intros [A B] L. cbn [app] in *.
  destruct (_ <? _) eqn:E; breflect; cbn [with_pool context_pool started port contexts event_waits event_wait_capacity].
  - split_and!; try done.
    + cbn [app]. rewrite <- Permutation_middle. exact A.
    + intros x. cbn [app]. rewrite <- Permutation_middle. apply B.
  - apply NoDup_cons in A as [N A]. split_and!; try done.
    + intros x. destruct (decide (x = c)) as [->|Hx].
      * rewrite lookup_delete_eq. split; [done|]. intros [? [=]].
      * rewrite lookup_delete_ne by done. rewrite <- B, elem_of_cons. naive_solver.
    + intros x Hx. by rewrite lookup_delete_ne.
Qed.

Lemma port_contexts_app q e : port_contexts (q ++ [e]) = port_contexts q ++ option_list (entry_context e).
Proof. unfold port_contexts. by rewrite omap_app. Qed.

Lemma owns_post h r e : owns (option_list (entry_context e) ++ h) r → owns h (post r e).
Proof.
  unfold owns. cbn [post with_port context_pool started port contexts]. rewrite port_contexts_app. intros [A B].
  assert (P : h ++ context_pool r ++ started r ++ port_contexts (port r) ++ option_list (entry_context e)
    ≡ₚ (option_list (entry_context e) ++ h) ++ context_pool r ++ started r ++ port_contexts (port r)) by solve_Permutation.
  split; [by rewrite P|]. intros c. rewrite P. apply B.
Qed.

Lemma owns_start c h r : owns (c :: h) r → owns h (with_started r (started r ++ [c])).
Proof.
  unfold owns. cbn [with_started context_pool started port contexts app]. intros [A B].
  assert (P : h ++ context_pool r ++ (started r ++ [c]) ++ port_contexts (port r)
    ≡ₚ c :: h ++ context_pool r ++ started r ++ port_contexts (port r)) by solve_Permutation.
  split; [by rewrite P|]. intros x. rewrite P. apply B.
Qed.

Lemma wait_count_app a b i : wait_count (a ++ b) i = wait_count a i + wait_count b i.
Proof. unfold wait_count. by rewrite List.filter_app, length_app. Qed.
Lemma wait_count_other e i : en_overlapped e ≠ OvWait i → wait_count [e] i = 0.
Proof. intros N. unfold wait_count. cbn. unfold fired. by rewrite bool_decide_eq_false_2. Qed.
Lemma wait_count_self e i : en_overlapped e = OvWait i → wait_count [e] i = 1.
Proof. intros E. unfold wait_count. cbn. unfold fired. by rewrite bool_decide_eq_true_2. Qed.

(** The parts of the invariant a change of contexts does not touch. *)
Record waits_ok (es : list entry) (r : iocp_runtime) : Prop := {
  wo_pool : length (context_pool r) ≤ INITIAL_POOL_SIZE;
  wo_entries : Forall (entry_ok (length (event_waits r))) (es ++ port r);
  wo_waits i w : event_waits r !! i = Some w →
    wait_count (es ++ port r) i + (if ew_armed w then 1 else 0) + (if ew_rearm w then 1 else 0) = 1
}.

Lemma inv_waits es r : iocp_inv es r → waits_ok es r.
Proof. intros []. by constructor. Qed.

(** Posting a completion that is not an event wait's. *)
Lemma ok_post es r e :
  owns (option_list (entry_context e) ++ port_contexts es) r → (∀ i, en_overlapped e ≠ OvWait i) →
  en_key e ≠ EVENT_COMPLETION_KEY → waits_ok es r → iocp_inv es (post r e).
Proof.
  intros Ho Hw Hk [Hp He Hc]. constructor; cbn [post with_port context_pool event_waits port].
  - by apply owns_post.
  - done.
  - rewrite app_assoc. apply Forall_app. split; [done|]. constructor; [|done]. unfold entry_ok.
    destruct (en_overlapped e) eqn:E; [done..|]. by destruct (Hw i).
  - intros i w Hi. rewrite app_assoc, wait_count_app, (wait_count_other e i) by apply Hw. rewrite Nat.add_0_r. by apply Hc.
Qed.

(** Losing it instead. *)
Lemma ok_lose es r e :
  owns (option_list (entry_context e) ++ port_contexts es) r → (∀ i, en_overlapped e ≠ OvWait i) →
  en_key e ≠ EVENT_COMPLETION_KEY → waits_ok es r → iocp_inv (e :: es) r.
Proof.
  intros Ho Hw Hk [Hp He Hc]. constructor; try done.
  - unfold port_contexts in *. cbn. by destruct (entry_context e).
  - cbn. constructor; [|done]. unfold entry_ok. destruct (en_overlapped e) eqn:E; [done..|]. by destruct (Hw i).
  - intros i w Hi. cbn [app]. change (e :: es ++ port r) with ([e] ++ (es ++ port r)).
    rewrite wait_count_app, (wait_count_other e i) by apply Hw. by apply Hc.
Qed.

Lemma ok_alloc es mem r fd user op c r' :
  iocp_inv es r → alloc_iocp_context mem r fd user op = Some (c, r') →
  owns (c :: port_contexts es) r' ∧ waits_ok es r'.
Proof.
  intros [Ho Hp He Hw] E. destruct (owns_alloc _ _ _ _ _ _ _ _ E Ho) as (O & S & P & W & _ & L).
  split; [done|]. constructor; rewrite ?P, ?W; [lia|done..].
Qed.

Lemma ok_start es accepted r c :
  owns (c :: port_contexts es) r → waits_ok es r → iocp_inv es (start_operation accepted r c).1.
Proof.
  intros Ho [Hp He Hw]. unfold start_operation. destruct accepted; cbn [fst].
  - constructor; try done. by apply owns_start.
  - destruct (owns_free c _ r Ho Hp) as (O & L & S & P & W & _). constructor; try done.
    + by rewrite P, W.
    + intros i w. rewrite P, W. apply Hw.
Qed.

Lemma owns_contexts h r m :
  (∀ c, is_Some (m !! c) ↔ is_Some (contexts r !! c)) → owns h r → owns h (with_pool r (context_pool r) m).
Proof. intros Hm [A B]. split; [done|]. intros c. cbn. rewrite Hm. apply B. Qed.

Lemma owns_set_wsa h r c b : owns h r → owns h (set_wsa r c b).
Proof. apply owns_contexts. intros x. by rewrite lookup_alter_is_Some. Qed.

Lemma ok_complete es r c key data r' :
  iocp_inv es r → key ≠ EVENT_COMPLETION_KEY → complete r c key data = Some r' → iocp_inv es r'.
Proof.
  intros I Hk. pose proof I as [Ho _ _ _]. unfold complete. destruct (decide (c ∈ started r)) as [Hc|]; [|done]. intros [= <-].
  apply ok_post; [|done..|by destruct (inv_waits _ _ I)]. cbn [entry_context en_overlapped option_list app].
  refine (owns_contexts (c :: _) (with_started r _) _ _ _); [intros x; apply lookup_alter_is_Some|].
  destruct Ho as [A B]. unfold owns.
  cbn [with_started context_pool started port contexts app].
  assert (P : c :: port_contexts es ++ context_pool r ++ filter (λ x, x ≠ c) (started r) ++ port_contexts (port r)
    ≡ₚ port_contexts es ++ context_pool r ++ started r ++ port_contexts (port r)).
  { assert (Hn : NoDup (started r)).
    { apply NoDup_app in A as (_ & _ & A). apply NoDup_app in A as (_ & _ & A). by apply NoDup_app in A as (A & _ & _). }
    assert (Q : started r ≡ₚ c :: filter (λ x, x ≠ c) (started r)).
    { apply NoDup_Permutation; [done|constructor; [|by apply NoDup_filter]|].
      - rewrite list_elem_of_filter. naive_solver.
      - intros x. rewrite elem_of_cons, list_elem_of_filter. destruct (decide (x = c)); naive_solver. }
    rewrite Q at 2. solve_Permutation. }
  split; [by rewrite P|]. intros x. rewrite P. apply B.
Qed.

Lemma ok_fire es posted r i r' lost :
  iocp_inv es r → event_wait_callback posted r i = Some (r', lost) → iocp_inv (lost ++ es) r'.
Proof.
  intros [Ho Hp He Hw]. unfold event_wait_callback. destruct (event_waits r !! i) as [w|] eqn:Hi; [|done].
  destruct (ew_armed w) eqn:Ha; [|done]. set (e := {| en_key := EVENT_COMPLETION_KEY; en_overlapped := OvWait i; en_bytes := 0 |}).
  set (ws := <[i := _]> (event_waits r)). intros [= E]. pose proof (lookup_lt_Some _ _ _ Hi) as Hl.
  assert (L : length ws = length (event_waits r)) by apply length_insert.
  assert (W : ∀ j v, ws !! j = Some v →
    wait_count [e] j + wait_count (es ++ port r) j + (if ew_armed v then 1 else 0) + (if ew_rearm v then 1 else 0) = 1).
  { intros j v Hj. unfold ws in Hj. destruct (decide (i = j)) as [<-|N].
    - rewrite list_lookup_insert_eq in Hj by done. injection Hj as <-. rewrite (wait_count_self e i) by done.
      specialize (Hw i w Hi). rewrite Ha in Hw. cbn. lia.
    - rewrite list_lookup_insert_ne in Hj by done. rewrite (wait_count_other e j) by (cbn; congruence).
      specialize (Hw j v Hj). lia. }
  assert (Eo : entry_ok (length ws) e) by (by rewrite L).
  unfold post_unchecked in E. destruct posted; injection E as <- <-.
  - constructor; cbn [post with_port with_waits context_pool event_waits port]; try done.
    + by apply owns_post.
    + rewrite app_assoc. apply Forall_app. rewrite L. split; [done|]. by repeat constructor.
    + intros j v Hj. rewrite app_assoc, wait_count_app. specialize (W j v Hj). cbn [app]. lia.
  - constructor; cbn [with_waits context_pool event_waits port app]; try done.
    + constructor; [done|]. by rewrite L.
    + intros j v Hj. change (e :: es ++ port r) with ([e] ++ (es ++ port r)). rewrite wait_count_app. by apply W.
Qed.

(** Completions name registrations that exist. *)
Lemma wait_count_beyond n es i : Forall (entry_ok n) es → n ≤ i → wait_count es i = 0.
Proof.
  intros H Hi. unfold wait_count. induction H as [|e es He _ IH]; [done|]. cbn. unfold fired at 1.
  rewrite bool_decide_eq_false_2; [done|]. intros E. unfold entry_ok in He. rewrite E in He. lia.
Qed.

Lemma ok_add_event es r e x a b c d : iocp_inv es r → iocp_inv es (iocp_runtime_add_event r e x a b c d).1.
Proof.
  intros H. unfold iocp_runtime_add_event. destruct (_ || negb c); [done|]. cbn zeta.
  destruct (_ && negb d); [done|]. destruct H as [Ho Hp He Hw]. cbn [app] in *.
  constructor; cbn [fst with_waits context_pool event_waits port app]; try done.
  - rewrite length_app. eapply Forall_impl; [exact He|]. intros y Hy. unfold entry_ok in *.
    destruct (en_overlapped y); try done. destruct Hy. split; [done|lia].
  - intros i w Hi. apply lookup_app_Some in Hi as [Hi|[Hi Hj]]; [by apply Hw|].
    apply list_lookup_singleton_Some in Hj as [Hj <-]. cbn.
    rewrite (wait_count_beyond _ _ _ He Hi). done.
Qed.

Lemma rearm_spec ok i ws :
  length (rearm ok i ws).1 = length ws
  ∧ (∀ j w', (rearm ok i ws).1 !! j = Some w' → ∃ w, ws !! j = Some w
      ∧ (w' = w ∨ ew_rearm w = true
          ∧ w' = {| ew_event := ew_event w; ew_context := ew_context w; ew_rearm := false; ew_armed := true |}))
  ∧ ((rearm ok i ws).2 = true → ∀ j w', (rearm ok i ws).1 !! j = Some w' → ew_rearm w' = false).
Proof.
  revert i. induction ws as [|w ws IH]; intros i; [done|]. cbn. specialize (IH (S i)).
  destruct (ew_rearm w) eqn:R; cbn; [destruct (ok i)|].
  - destruct (rearm ok (S i) ws) as [rest b]. cbn in *. destruct IH as (I1 & I2 & I3). split_and!; [lia|..].
    + intros [|j] w' Hj; cbn in *; [|by apply I2]. injection Hj as <-. exists w. split; [done|]. by right.
    + intros B [|j] w' Hj; cbn in *; [by injection Hj as <-|by eapply I3].
  - split_and!; [done| |done]. intros j w' Hj. exists w'. split; [done|by left].
  - destruct (rearm ok (S i) ws) as [rest b]. cbn in *. destruct IH as (I1 & I2 & I3). split_and!; [lia|..].
    + intros [|j] w' Hj; cbn in *; [|by apply I2]. injection Hj as <-. exists w. split; [done|by left].
    + intros B [|j] w' Hj; cbn in *; [by injection Hj as <-|by eapply I3].
Qed.

Lemma ok_rearm es ok r :
  iocp_inv es r → iocp_inv es (with_waits r (rearm ok 0 (event_waits r)).1 (event_wait_capacity r)).
Proof.
  intros [Ho Hp He Hw]. cbn [app] in *. destruct (rearm_spec ok 0 (event_waits r)) as (R1 & R2 & _).
  constructor; cbn [with_waits context_pool event_waits port app]; try done; [by rewrite R1|].
  intros i w' Hi. destruct (R2 i w' Hi) as (w & Hw' & [->|[Hr ->]]); [by apply Hw|].
  specialize (Hw i w Hw'). rewrite Hr in Hw. cbn. destruct (ew_armed w); lia.
Qed.

(** ** Conversion *)

(** What is reported depends on the completion's own context and registration. *)
Lemma convert_frame r r' y :
  (∀ c, entry_context y = Some c → contexts r' !! c = contexts r !! c) →
  (∀ i, ew_context <$> event_waits r' !! i = ew_context <$> event_waits r !! i) →
  (convert r' y).2 = (convert r y).2.
Proof.
  intros Hc Hw. unfold convert, entry_context in *.
  destruct (en_key y =? EVENT_COMPLETION_KEY)%Z; destruct (en_overlapped y) as [|c|i]; try done.
  - cbn. do 2 f_equal. specialize (Hw i). by destruct (event_waits r' !! i), (event_waits r !! i); simplify_eq/=.
  - by destruct (en_key y =? ASYNC_IO_ERROR_KEY)%Z.
  - rewrite (Hc c eq_refl). by destruct (contexts r !! c).
Qed.

Lemma wait_count_cons e es i : wait_count (e :: es) i = (if fired i e then 1 else 0) + wait_count es i.
Proof. unfold wait_count. cbn. by destruct (fired i e). Qed.

(** A completion that is not an event wait's leaves the waits alone. *)
Lemma inv_next e es r r' :
  iocp_inv (e :: es) r → (∀ i, fired i e = false) →
  owns (port_contexts es) r' → length (context_pool r') ≤ INITIAL_POOL_SIZE →
  event_waits r' = event_waits r → port r' = port r → iocp_inv es r'.
Proof.
  intros [Ho Hp He Hw] Hf O L W P. cbn [app] in *. apply Forall_cons in He as [_ He].
  constructor; rewrite ?W, ?P; try done. intros i w Hi. specialize (Hw i w Hi).
  rewrite wait_count_cons, Hf in Hw. lia.
Qed.

Lemma convert_context e es r c :
  iocp_inv (e :: es) r → en_overlapped e = OvContext c → en_key e ≠ EVENT_COMPLETION_KEY →
  iocp_inv es (convert r e).1 ∧ ∀ x, x ∈ es → (convert (convert r e).1 x).2 = (convert r x).2.
Proof.
  intros I Ov He%Z.eqb_neq. pose proof I as [Ho Hp _ _]. unfold convert at 1 3. rewrite He, Ov.
  assert (Ho' : owns (c :: port_contexts es) r)
    by (unfold port_contexts in *; cbn in Ho; unfold entry_context in Ho; by rewrite Ov in Ho).
  assert (is_Some (contexts r !! c)) as [x Hx] by (apply Ho'; by left). rewrite Hx. cbn [fst].
  destruct (owns_free c _ r Ho' Hp) as (O & L & S & P & W & WC & K). split.
  - apply (inv_next e es r); try done. intros i. unfold fired. by rewrite Ov, bool_decide_eq_false_2.
  - intros y Hy. apply convert_frame; [|by rewrite W]. intros d Hd. apply K. intros ->. destruct Ho' as [N _]. cbn in N.
    apply NoDup_cons in N as [N _]. apply N, elem_of_app. left. apply list_elem_of_omap. by exists y.
Qed.

Lemma convert_wait e es r i :
  iocp_inv (e :: es) r → en_overlapped e = OvWait i → en_key e = EVENT_COMPLETION_KEY →
  iocp_inv es (convert r e).1 ∧ ∀ x, x ∈ es → (convert (convert r e).1 x).2 = (convert r x).2.
Proof.
  intros [Ho Hp He Hw] Ov Hk. unfold convert at 1 3. rewrite Hk, Z.eqb_refl, Ov. cbn [fst app] in *.
  apply Forall_cons in He as [_ He]. split.
  - constructor; cbn [with_waits context_pool event_waits port]; try done.
    + unfold port_contexts in *. cbn in Ho. unfold entry_context in Ho. by rewrite Ov in Ho.
    + unfold mark_rearm. by rewrite length_alter.
    + intros j w' Hj. unfold mark_rearm in Hj. destruct (decide (i = j)) as [<-|N].
      * rewrite list_lookup_alter_eq in Hj. apply fmap_Some in Hj as (w & Hw' & ->). cbn. specialize (Hw i w Hw').
        rewrite wait_count_cons in Hw. unfold fired in Hw at 1. rewrite bool_decide_eq_true_2 in Hw by done.
        destruct (ew_armed w), (ew_rearm w); lia.
      * rewrite list_lookup_alter_ne in Hj by done. specialize (Hw j w' Hj).
        rewrite wait_count_cons in Hw. unfold fired in Hw at 1. rewrite bool_decide_eq_false_2 in Hw by congruence. lia.
  - intros y Hy. apply convert_frame; [done|]. intros j. cbn [with_waits event_waits]. unfold mark_rearm.
    destruct (decide (i = j)) as [<-|N]; [|by rewrite list_lookup_alter_ne].
    rewrite list_lookup_alter_eq. by destruct (event_waits r !! i).
Qed.

Lemma convert_ok e es r :
  iocp_inv (e :: es) r →
  iocp_inv es (convert r e).1 ∧ ∀ x, x ∈ es → (convert (convert r e).1 x).2 = (convert r x).2.
Proof.
  intros I. pose proof I as [Ho Hp He _]. apply Forall_cons in He as [He _]. unfold entry_ok in He.
  destruct (en_overlapped e) as [|c|i] eqn:Ov; [|by eapply convert_context|by eapply convert_wait; naive_solver].
  assert (E : (convert r e).1 = r) by (unfold convert; rewrite (proj2 (Z.eqb_neq _ _) He), Ov; by destruct (_ =? ASYNC_IO_ERROR_KEY)%Z).
  rewrite E. split; [|done]. apply (inv_next e es r); try done.
  - intros i. unfold fired. by rewrite Ov, bool_decide_eq_false_2.
  - unfold port_contexts in *. cbn in Ho. unfold entry_context in Ho. by rewrite Ov in Ho.
Qed.

(** The conversion of the completions [es] while [lost] are out of the port too. *)
Lemma convert_all_inv es lost r m :
  iocp_inv (es ++ lost) r → let '(r', _, rest) := convert_all r es m in iocp_inv (rest ++ lost) r'.
Proof.
  revert r m. induction es as [|e es IH]; intros r m I; [by destruct m|].
  destruct m as [|m]; [done|]. destruct (convert_ok e (es ++ lost) r I) as [I' _]. cbn [convert_all].
  destruct (convert r e) as [r1 [v|]]; cbn [fst] in *.
  - specialize (IH r1 m I'). by destruct (convert_all r1 es m) as [[r2 vs] rest].
  - exact (IH r1 (S m) I').
Qed.

(** With room for all of them, each is reported and none is dropped. *)
Lemma convert_all_reports es lost r m :
  iocp_inv (es ++ lost) r → length es ≤ m →
  let '(_, vs, rest) := convert_all r es m in vs = omap (fun e => (convert r e).2) es ∧ rest = [].
Proof.
  revert r m. induction es as [|e es IH]; intros r m I Hm; [by destruct m|].
  destruct m as [|m]; [cbn in Hm; lia|]. destruct (convert_ok e (es ++ lost) r I) as [I' F]. cbn [convert_all length] in *.
  assert (G : omap (λ x, (convert (convert r e).1 x).2) es = omap (λ x, (convert r x).2) es).
  { assert (F' : ∀ x, x ∈ es → (convert (convert r e).1 x).2 = (convert r x).2) by (intros x Hx; apply F; set_solver).
    clear -F'. induction es as [|y es IH]; [done|]. cbn. rewrite F' by by left. rewrite IH; [done|].
    intros x Hx. apply F'. by right. }
  destruct (convert r e) as [r1 [v|]] eqn:E; cbn [fst] in *.
  - specialize (IH r1 m I' ltac:(lia)). destruct (convert_all r1 es m) as [[r2 vs] rest]. destruct IH as [-> ->].
    cbn. rewrite E. cbn. by rewrite G.
  - specialize (IH r1 (S m) I' ltac:(lia)). destruct (convert_all r1 es (S m)) as [[r2 vs] rest]. destruct IH as [-> ->].
    cbn. rewrite E. cbn. by rewrite G.
Qed.

Lemma port_split es r k : iocp_inv es r → iocp_inv (take k (port r) ++ es) (with_port r (drop k (port r))).
Proof.
  intros [[A B] Hp He Hw]. pose proof (take_drop k (port r)) as T. unfold port_contexts in *. rewrite <- T in A, B.
  rewrite omap_app in A, B.
  assert (C : ∀ (X : list entry), take k (port r) ++ X ++ drop k (port r) ≡ₚ X ++ port r).
  { intros X. rewrite <- T at 3. solve_Permutation. }
  constructor; try done.
  - unfold owns, port_contexts. cbn [with_port context_pool started port contexts]. rewrite omap_app.
    assert (P : (omap entry_context (take k (port r)) ++ omap entry_context es) ++ context_pool r ++ started r ++ omap entry_context (drop k (port r))
      ≡ₚ omap entry_context es ++ context_pool r ++ started r ++ omap entry_context (take k (port r)) ++ omap entry_context (drop k (port r)))
      by solve_Permutation.
    split; [by rewrite P|]. intros c. rewrite P. apply B.
  - cbn [with_port event_waits port]. rewrite <- app_assoc, C. done.
  - intros i w Hi. cbn [with_port port]. specialize (Hw i w Hi). rewrite !wait_count_app in *.
    rewrite <- T, wait_count_app in Hw. lia.
Qed.

Lemma ok_wait es f n m r :
  iocp_inv es r → let '(r', _, rest) := iocp_runtime_wait f n m r in iocp_inv (rest ++ es) r'.
Proof.
  intros H. unfold iocp_runtime_wait. destruct (m =? 0); [done|]. pose proof (ok_rearm es f r H) as R.
  destruct (rearm f 0 (event_waits r)) as [ws ok]. cbn [fst] in R. destruct (negb ok); [done|].
  destruct n as [n|]; [|done]. cbn zeta.
  pose proof (convert_all_inv _ es _ m (port_split es _ (Nat.min n DEQUEUE_MAX) R)) as A.
  cbn [with_waits port] in A |- *. by destruct (convert_all _ _ _) as [[r' vs] rest].
Qed.

Lemma wait_keeps f n m r : iocp_ok r → DEQUEUE_MAX ≤ m → (iocp_runtime_wait f n m r).2 = [].
Proof.
  intros H Hm. unfold iocp_runtime_wait. destruct (m =? 0); [done|]. pose proof (ok_rearm [] f r H) as R.
  destruct (rearm f 0 (event_waits r)) as [ws ok]. cbn [fst] in R. destruct (negb ok); [done|].
  destruct n as [n|]; [|done]. cbn zeta.
  pose proof (convert_all_reports _ [] _ m (port_split [] _ (Nat.min n DEQUEUE_MAX) R)) as A.
  rewrite length_take in A. cbn [with_waits port] in A |- *.
  destruct (convert_all _ _ _) as [[r' vs] rest]. apply A. lia.
Qed.

Lemma iocp_step_ok es r l r' lost :
  iocp_inv es r → label_ok l → iocp_step r l = Some (r', lost) → iocp_inv (lost ++ es) r'.
Proof.
  intros H Hl. destruct l; cbn [iocp_step label_ok] in *; try (intros [= <- <-]; cbn [app]).
  - unfold iocp_runtime_add. destruct (_ =? _)%Z; [done|]. destruct listening.
    + destruct (_ && negb grown); [done|]. by destruct H.
    + destruct (negb associated); [done|]. by destruct H.
  - unfold iocp_runtime_remove. destruct (remove_listener _ _); by destruct H.
  - by apply ok_add_event.
  - unfold iocp_runtime_wakeup. destruct ok; [|done]. apply ok_post; [by destruct H|done..|by apply inv_waits].
  - unfold iocp_post_completion. destruct ok; [|done]. apply ok_post; [by destruct H|done..|by apply inv_waits].
  - unfold async_runtime_post_read. destruct (_ =? _)%Z; [done|].
    destruct (alloc_iocp_context mem r fd 0 OP_READ) as [[c r1]|] eqn:E; [|done].
    destruct (ok_alloc _ _ _ _ _ _ _ _ H E) as (O & W).
    destruct buffer as [[p len]|]; [destruct (0 <? len)|]; apply ok_start; try done; [by apply owns_set_wsa|by destruct W].
  - unfold async_runtime_post_write. destruct buffer as [p|]; [|done]. destruct (_ =? _)%Z; [done|].
    destruct (alloc_iocp_context mem r fd 0 OP_WRITE) as [[c r1]|] eqn:E; [|done].
    destruct (ok_alloc _ _ _ _ _ _ _ _ H E) as (O & W). apply ok_start; [by apply owns_set_wsa|by destruct W].
  - intros E. apply fmap_Some in E as (r1 & E & [= -> ->]). by eapply ok_complete.
  - by apply ok_fire.
  - unfold accept_one. destruct (alloc_iocp_context mem r fd context OP_ACCEPT) as [[c r1]|] eqn:E; [|by intros [= <- <-]].
    destruct (ok_alloc _ _ _ _ _ _ _ _ H E) as (O & W). unfold post_unchecked.
    destruct posted; intros [= <- <-]; [by apply ok_post|by apply ok_lose].
  - pose proof (ok_wait es rearmed n max_events r H) as W. destruct (iocp_runtime_wait _ _ _ _) as [[r1 vs] rest].
    by intros [= <- <-].
Qed.

Lemma careful_step r l r' lost : iocp_ok r → careful l → iocp_step r l = Some (r', lost) → lost = [].
Proof.
  intros H Hl. destruct l; cbn [iocp_step careful] in *; try by intros [= _ <-].
  - intros E. by apply fmap_Some in E as (r1 & _ & [= _ ->]).
  - subst posted. unfold event_wait_callback. destruct (event_waits r !! i) as [w|]; [|done].
    destruct (ew_armed w); [|done]. by intros [= _ <-].
  - subst posted. unfold accept_one. destruct (alloc_iocp_context _ _ _ _ _) as [[c r1]|]; by intros [= _ <-].
  - pose proof (wait_keeps rearmed n max_events r H Hl) as W. destruct (iocp_runtime_wait _ _ _ _) as [[r1 vs] rest].
    cbn in W. by intros [= _ <-].
Qed.

Lemma iocp_init_ok : iocp_ok iocp_init.
Proof.
  constructor; try done.
  - split; [constructor|]. intros c. cbn. split; [by intros ?%elem_of_nil|intros [x Hx]; by rewrite lookup_empty in Hx].
  - cbn. lia.
Qed.

Lemma iocp_run_ok ls r0 lost0 r lost :
  iocp_inv lost0 r0 → Forall label_ok ls → iocp_run r0 lost0 ls = Some (r, lost) →
  iocp_inv lost r ∧ (lost0 = [] → Forall careful ls → lost = []).
Proof.
  revert r0 lost0. induction ls as [|l ls IH]; intros r0 lost0 H0 Hl E; cbn in E; [by simplify_eq|].
  apply Forall_cons in Hl as [Hl Hls]. destruct (iocp_step r0 l) as [[r1 more]|] eqn:S; [|done].
  destruct (IH r1 (more ++ lost0)) as [A B]; try done; [by eapply iocp_step_ok|]. split; [done|].
  intros -> [Hc Hcs]%Forall_cons. apply B; [|done]. by rewrite (careful_step _ _ _ _ H0 Hc S).
Qed.

(** ** The destruction *)

(** [async_runtime_deinit] frees the pooled contexts; what is left of the others. *)
Definition iocp_runtime_deinit (r : iocp_runtime) : gmap nat iocp_context :=
  foldr delete (contexts r) (context_pool r).

(** ** The pool and the accept worker *)

(** [context_pool[--pool_size]] in two threads that share no lock: read the size,
    store it decremented, read the slot. *)
Inductive take_pc := TakeSize | TakeStore (n : nat) | TakeSlot (k : nat) | Taken (c : option nat).

Record shared_pool := { sp_slots : list nat; sp_size : nat; sp_loop : take_pc; sp_accept : take_pc }.

Definition take_step (slots : list nat) (size : nat) (pc : take_pc) : option (nat * take_pc) :=
  match pc with
  | TakeSize => Some (size, if 0 <? size then TakeStore size else Taken None)
  | TakeStore n => Some (n - 1, TakeSlot (n - 1))
  | TakeSlot k => Some (size, Taken (slots !! k))
  | Taken _ => None
  end.

(** One step of the event loop's thread ([true]) or the accept worker's. *)
Definition pool_race_step (s : shared_pool) (loop : bool) : option shared_pool :=
  '(n, pc) ← take_step (sp_slots s) (sp_size s) (if loop then sp_loop s else sp_accept s);
  Some {| sp_slots := sp_slots s; sp_size := n;
          sp_loop := if loop then pc else sp_loop s; sp_accept := if loop then sp_accept s else pc |}.

Fixpoint pool_race (s : shared_pool) (ts : list bool) : option shared_pool :=
  match ts with [] => Some s | t :: ts => s ← pool_race_step s t; pool_race s ts end.

(** ** Theorems *)

(** C28: every context and every event wait is accounted for.  Over every sequence
    of the runtime's calls, completions, accepted connections and fired waits,
    each taken as a whole, with keys other than the one of event waits: each
    allocated context is in exactly one place (the pool, an operation in
    progress, a queued completion or a lost one), and each event wait is exactly
    one of armed, queued, due to be armed again or lost.  Nothing is lost as long
    as every wait has room for the 64 completions it may dequeue and every post
    of the accept worker and of a fired wait succeeds. *)
Theorem iocp_contexts_owned ls r lost :
  Forall label_ok ls → iocp_run iocp_init [] ls = Some (r, lost) →
  iocp_inv lost r ∧ (Forall careful ls → lost = []).
Proof. intros Hl E. destruct (iocp_run_ok _ _ _ _ _ iocp_init_ok Hl E) as [A B]. split; [done|by apply B]. Qed.

(** A wait with a smaller array loses what it does not report: the contexts of two
    completed reads are dequeued, one is reported, the other is in no place any
    more. *)
Theorem small_wait_loses_contexts : ∃ r,
  iocp_run iocp_init []
    [LRead true true 100 None; LRead true true 101 None; LComplete 0 1 [97]%Z; LComplete 1 2 [98]%Z;
     LWait (fun _ => true) (Some 2) 1]
  = Some (r, [{| en_key := 2; en_overlapped := OvContext 1; en_bytes := 1 |}])
  ∧ port r = [] ∧ started r = [] ∧ context_pool r = [0].
Proof. eexists. split; [vm_compute; reflexivity|]. split_and!; vm_compute; reflexivity. Qed.

(** A wait reports every completion it takes from the port, in order and with
    the context of its own operation or registration; wake-ups and worker
    completions report nothing.  At most 64 are taken, the rest stays queued,
    and the waits that had fired are armed again first. *)
Theorem iocp_wait_reports f n m r :
  iocp_ok r → DEQUEUE_MAX ≤ m → (∀ i, f i = true) →
  let k := Nat.min n DEQUEUE_MAX in
  let '(r', vs, rest) := iocp_runtime_wait f (Some n) m r in
  vs = Some (omap (fun e => (convert r e).2) (take k (port r))) ∧ rest = [] ∧ iocp_ok r'.
Proof.
  intros H Hm Hf k. pose proof (ok_wait [] f (Some n) m r H) as K. pose proof (wait_keeps f (Some n) m r H Hm) as Z0.
  unfold iocp_runtime_wait in *.
  assert ((m =? 0) = false) as E0 by (apply Nat.eqb_neq; unfold DEQUEUE_MAX in Hm; lia). rewrite E0 in *.
  pose proof (ok_rearm [] f r H) as R. destruct (rearm_spec f 0 (event_waits r)) as (R1 & R2 & _).
  assert (R3 : ∀ i ws, (rearm f i ws).2 = true).
  { intros i ws. revert i. induction ws as [|w ws IH]; intros i; [done|]. cbn. rewrite Hf. specialize (IH (S i)).
    destruct (rearm f (S i) ws) as [rest b]. cbn in IH. subst b. by destruct (negb _). }
  specialize (R3 0 (event_waits r)).
  destruct (rearm f 0 (event_waits r)) as [ws ok]. cbn [fst snd] in *. subst ok. cbn [negb] in *. cbn zeta in *.
  pose proof (convert_all_reports _ [] _ m (port_split [] _ k R)) as B. rewrite length_take in B.
  cbn [with_waits port] in *. fold k in K, Z0 |- *.
  destruct (convert_all _ _ _) as [[r' vs] rest]. cbn [snd] in Z0. subst rest.
  destruct B as [B _]; [unfold k; lia|]. split; [|done]. rewrite B. f_equal.
  clear - R1 R2. induction (take k (port r)) as [|e es IH]; [done|]. cbn. rewrite IH.
  rewrite (convert_frame r); [done|done|]. intros i. cbn.
  destruct (ws !! i) as [w'|] eqn:Ew.
  - destruct (R2 i w' Ew) as (w & -> & [->|[_ ->]]); done.
  - apply lookup_ge_None in Ew. by rewrite (proj2 (lookup_ge_None _ _)) by lia.
Qed.

(** The bytes of a read may be replaced before the loop looks at them.  When one
    wait reports two reads, both contexts are back in the pool, and the loop
    re-arms the first socket before it handles the second event: that new read
    is given the buffer the second event still shows, and whatever it receives
    is taken for the second connection's input. *)
Theorem iocp_event_buffer_reused r e1 e2 c1 c2 x1 x2 rest data key :
  let shown1 := {| iv_fd := ic_fd x1; iv_key := en_key e1; iv_context := en_key e1; iv_type := EVENT_READ;
                   iv_bytes := en_bytes e1; iv_buffer := Some c1 |} in
  let shown2 := {| iv_fd := ic_fd x2; iv_key := en_key e2; iv_context := en_key e2; iv_type := EVENT_READ;
                   iv_bytes := en_bytes e2; iv_buffer := Some c2 |} in
  iocp_ok r → event_waits r = [] → port r = e1 :: e2 :: rest → length (context_pool r) + 2 ≤ INITIAL_POOL_SIZE →
  en_overlapped e1 = OvContext c1 → en_overlapped e2 = OvContext c2 →
  (0 < en_bytes e1)%Z → (0 < en_bytes e2)%Z →
  contexts r !! c1 = Some x1 → contexts r !! c2 = Some x2 → ic_operation x1 = OP_READ → ic_operation x2 = OP_READ →
  ic_fd x1 ≠ INVALID_SOCKET →
  ∃ r1 r2 r3,
    iocp_runtime_wait (fun _ => true) (Some 2) 64 r = (r1, Some [shown1; shown2], [])
    ∧ async_runtime_post_read true true r1 (ic_fd x1) None = (r2, 0%Z)
    ∧ complete r2 c2 key data = Some r3
    ∧ (ic_buffer <$> contexts r3 !! c2) = Some (data ++ drop (length data) (ic_buffer x2)).
Proof.
  intros sh1 sh2 [Ho _ He _] W P L O1 O2 B1 B2 X1 X2 Op1 Op2 Hfd. rewrite P in He. cbn [app] in He.
  apply Forall_cons in He as [K1 He]. apply Forall_cons in He as [K2 _].
  unfold entry_ok in K1, K2. rewrite O1 in K1. rewrite O2 in K2. apply Z.eqb_neq in K1, K2.
  assert (D : c1 ≠ c2).
  { destruct Ho as [N _]. unfold port_contexts in N. rewrite P in N. cbn in N.
    unfold entry_context in N. rewrite O1, O2 in N. cbn in N. intros <-. apply NoDup_app in N as (_ & _ & N). apply NoDup_app in N as (_ & _ & N).
    apply NoDup_cons in N as [N _]. apply N. left. }
  apply Z.ltb_lt in B1, B2. unfold iocp_runtime_wait. rewrite W. cbn [rearm negb Nat.eqb].
  cbn [Nat.min DEQUEUE_MAX with_waits port]. rewrite P. cbn [take drop convert_all].
  assert (F : ∀ r0 c, length (context_pool r0) < INITIAL_POOL_SIZE →
    free_iocp_context r0 c = with_pool r0 (c :: context_pool r0) (contexts r0)).
  { intros r0 c Hl. unfold free_iocp_context. by rewrite (proj2 (Nat.ltb_lt _ _) Hl). }
  unfold convert at 1. rewrite K1, O1. cbn [with_port with_waits contexts]. rewrite X1, Op1, B1.
  rewrite F by (cbn; lia). cbn [with_pool with_port with_waits context_pool contexts].
  unfold convert at 1. rewrite K2, O2. cbn [contexts with_pool with_port with_waits]. rewrite X2, Op2, B2.
  rewrite F by (cbn; lia). cbn [with_pool context_pool contexts].
  eexists _, _, _. split; [reflexivity|].
  unfold async_runtime_post_read. rewrite (proj2 (Z.eqb_neq _ _) Hfd).
  unfold alloc_iocp_context. cbn [context_pool contexts with_pool with_port with_waits]. rewrite X2. unfold start_operation.
  split; [reflexivity|]. unfold complete. cbn [with_started with_pool started].
  rewrite decide_True by (apply elem_of_app; right; by apply list_elem_of_singleton).
  split; [reflexivity|]. cbn [post with_port with_pool with_started contexts].
  rewrite lookup_alter_eq, lookup_insert_eq. done.
Qed.

(** Destroying the runtime leaks the contexts of operations that are in progress
    or completed but not dequeued; every connected socket has such a read. *)
Theorem iocp_deinit_leaks r c :
  iocp_ok r →
  is_Some (iocp_runtime_deinit r !! c) ↔ c ∈ started r ∨ c ∈ port_contexts (port r).
Proof.
  intros [[A B] _ _ _]. unfold port_contexts in *. cbn [app omap list_omap] in A, B. unfold iocp_runtime_deinit.
  assert (D : ∀ p, is_Some (foldr delete (contexts r) p !! c) ↔ (c ∉ p) ∧ is_Some (contexts r !! c)).
  { induction p as [|d p IH]; cbn; [set_solver|]. rewrite lookup_delete_is_Some, IH, not_elem_of_cons. naive_solver. }
  rewrite D, <- B, !elem_of_app. apply NoDup_app in A as (_ & A & _). specialize (A c).
  rewrite elem_of_app in A. tauto.
Qed.

(** The pool is not protected between the loop and the accept worker: there is a
    schedule in which both are given the same context. *)
Theorem iocp_pool_race : ∃ ts s c,
  pool_race {| sp_slots := [5; 7]; sp_size := 2; sp_loop := TakeSize; sp_accept := TakeSize |} ts = Some s
  ∧ sp_loop s = Taken (Some c) ∧ sp_accept s = Taken (Some c).
Proof.
  exists [true; false; true; false; true; false]. eexists. exists 7. split; [reflexivity|]. done.
Qed.

(** The table of listening sockets is a set: adding one registers it, removing
    one takes exactly its entry out and keeps the others, in whatever order. *)
Theorem iocp_listeners_exact r fd :
  match remove_listener fd (listen_sockets r) with
  | Some l => ∃ x, listen_sockets r ≡ₚ (fd, x) :: l ∧ listen_sockets (iocp_runtime_remove r fd).1 = l
  | None => (fd ∉ map fst (listen_sockets r)) ∧ listen_sockets (iocp_runtime_remove r fd).1 = listen_sockets r
  end.
Proof.
  unfold iocp_runtime_remove.
  assert (S : match remove_listener fd (listen_sockets r) with
    | Some l => ∃ x, listen_sockets r ≡ₚ (fd, x) :: l
    | None => fd ∉ map fst (listen_sockets r) end).
  { induction (listen_sockets r) as [|[f x] l IH]; cbn; [by apply not_elem_of_nil|].
    destruct (f =? fd)%Z eqn:E.
    - apply Z.eqb_eq in E as ->. exists x. constructor. destruct (last l) as [y|] eqn:La.
      + apply last_Some in La as [k ->]. rewrite removelast_last. by rewrite Permutation_app_comm.
      + by apply last_None in La as ->.
    - apply Z.eqb_neq in E. destruct (remove_listener fd l) as [l'|]; cbn.
      + destruct IH as [y IH]. exists y. rewrite IH. constructor.
      + apply not_elem_of_cons. by split. }
  destruct (remove_listener fd (listen_sockets r)) as [l|]; [|done]. destruct S as [x S]. by exists x.
Qed.

(** ** Witnesses *)

(** Two sockets with reads in progress, a connection from the accept worker and an
    event wait that fired. *)
Definition iocp_demo : list iocp_label :=
  [LAdd 100 1 false true true; LAdd 200 2 true true true; LAddEvent 9 33 true true true true;
   LRead true true 100 None; LRead true true 101 None; LAccept true true 102 2; LFire true 0;
   LComplete 0 1 [104; 105]%Z; LWakeup true; LPost true 77 5; LWait (fun _ => true) (Some 64) 64;
   LRead true true 100 None].
Definition iocp_demo_state : iocp_runtime * list entry := default (iocp_init, []) (iocp_run iocp_init [] iocp_demo).

Lemma iocp_demo_labels : Forall label_ok iocp_demo.
Proof. repeat apply Forall_cons_2; cbn; try done; try apply Forall_nil_2; done. Qed.
Lemma iocp_demo_careful : Forall careful iocp_demo.
Proof. repeat apply Forall_cons_2; cbn; try done; try apply Forall_nil_2; done. Qed.

Lemma iocp_contexts_owned_witness : iocp_inv iocp_demo_state.2 iocp_demo_state.1 ∧ iocp_demo_state.2 = [].
Proof.
  destruct (iocp_contexts_owned iocp_demo iocp_demo_state.1 iocp_demo_state.2 iocp_demo_labels) as [A B];
    [vm_compute; reflexivity|].
  split; [exact A|]. exact (B iocp_demo_careful).
Defined.

(** Two reads that have completed. *)
Definition iocp_reads : list iocp_label :=
  [LRead true true 100 None; LRead true true 101 None; LComplete 0 1 [97]%Z; LComplete 1 2 [98]%Z].
Definition iocp_reads_state : iocp_runtime := (default (iocp_init, []) (iocp_run iocp_init [] iocp_reads)).1.

Lemma iocp_reads_ok : iocp_ok iocp_reads_state.
Proof.
  refine (proj1 (iocp_run_ok iocp_reads iocp_init [] iocp_reads_state [] iocp_init_ok _ _)); [|vm_compute; reflexivity].
  repeat apply Forall_cons_2; cbn; try done; apply Forall_nil_2; done.
Qed.

Lemma iocp_wait_reports_witness :
  ∃ r', iocp_runtime_wait (fun _ => true) (Some 5) 64 iocp_reads_state
    = (r', Some (omap (fun e => (convert iocp_reads_state e).2) (take 5 (port iocp_reads_state))), []) ∧ iocp_ok r'.
Proof.
  pose proof (iocp_wait_reports (fun _ => true) 5 64 iocp_reads_state iocp_reads_ok ltac:(done) ltac:(done)) as W.
  destruct (iocp_runtime_wait _ _ _ _) as [[r' vs] rest]. destruct W as (-> & -> & W). by exists r'.
Defined.

Lemma iocp_event_buffer_reused_witness :
  ∃ r1 v1 v2 r2 r3,
    iocp_runtime_wait (fun _ => true) (Some 2) 64 iocp_reads_state = (r1, Some [v1; v2], [])
    ∧ async_runtime_post_read true true r1 100 None = (r2, 0%Z)
    ∧ complete r2 1 1 [120; 121]%Z = Some r3
    ∧ iv_buffer v2 = Some 1
    ∧ (ic_buffer <$> contexts r3 !! 1) = Some ([120; 121]%Z ++ drop 2 (98%Z :: replicate 2047 0%Z)).
Proof.
  edestruct (iocp_event_buffer_reused iocp_reads_state
    {| en_key := 1; en_overlapped := OvContext 0; en_bytes := 1 |}
    {| en_key := 2; en_overlapped := OvContext 1; en_bytes := 1 |} 0 1
    {| ic_user := 0; ic_operation := OP_READ; ic_fd := 100; ic_wsa := None; ic_buffer := 97%Z :: replicate 2047 0%Z |}
    {| ic_user := 0; ic_operation := OP_READ; ic_fd := 101; ic_wsa := None; ic_buffer := 98%Z :: replicate 2047 0%Z |}
    [] [120; 121]%Z 1) as (r1 & r2 & r3 & W & P & C & B);
    [exact iocp_reads_ok|vm_compute; reflexivity|vm_compute; reflexivity|vm_compute; lia|done..|vm_compute; reflexivity
    |vm_compute; reflexivity|done|done|done|].
  eexists r1, _, _, r2, r3. split_and!; [exact W|exact P|exact C|done|exact B].
Defined.

Lemma iocp_deinit_leaks_witness :
  is_Some (iocp_runtime_deinit iocp_reads_state !! 0)
  ↔ 0 ∈ started iocp_reads_state ∨ 0 ∈ port_contexts (port iocp_reads_state).
Proof. apply (iocp_deinit_leaks iocp_reads_state 0 iocp_reads_ok). Defined.
