(* ===== verification/ExecDispatch.v ===== *)
(** * Executions and their dispatch (src/execution.hpp, src/execution.cpp)

    The value that carries one callback with its payload and completion, and
    [mudmux_execution_dispatch], which runs it on the spot, hands it to the slot
    scheduler (Execution.v) or to the event lane (EventExec.v), or refuses it;
    and how [mudmux_workers_submit] and [mudmux_workers_await] take closures
    over.  The schedulers' answers are arguments. *)

From stdpp Require Import gmap.
From S2P Require Import Prelude Execution Detached EventExec Hooks.

(** ** The value *)

(** [target_]: a registered hook, by its number, or a function. *)
Inductive exec_target := TargetHook (hook_type : Z) | TargetFunc (func : nat).

Record mudmux_execution := {
  ex_target : exec_target;
  ex_ctx : nat;
  ex_msg : Z;
  ex_current_slot : Z;
  ex_registration : option nat;
  ex_payload : list Z;
  ex_completion : option (nat * nat)      (* function, context *)
}.

(** [copy_payload]; [None]: it throws. *)
Definition copy_payload (data : option (list Z)) (size : nat) : option (list Z) :=
  match data with
  | None => if 0 <? size then None else Some []
  | Some bytes => Some (take size bytes)
  end.

Definition new_execution (target : exec_target) (ctx : nat) (msg : Z) (payload : list Z) : mudmux_execution :=
  {| ex_target := target; ex_ctx := ctx; ex_msg := msg; ex_current_slot := -1; ex_registration := None;
     ex_payload := payload; ex_completion := None |}.

(** The constructors; [None]: [std::invalid_argument]. *)
Definition hook_execution (hook_type : Z) (ctx : nat) (msg : Z) (size : nat) (data : option (list Z))
    : option mudmux_execution :=
  if negb (public_hook hook_type) then None
  else new_execution (TargetHook hook_type) ctx msg <$> copy_payload data size.

Definition func_execution (func : nat) (ctx : nat) (msg : Z) (size : nat) (data : option (list Z))
    : option mudmux_execution :=
  if func =? 0 then None else new_execution (TargetFunc func) ctx msg <$> copy_payload data size.

Definition set_completion (f context : nat) (e : mudmux_execution) : mudmux_execution :=
  {| ex_target := ex_target e; ex_ctx := ex_ctx e; ex_msg := ex_msg e; ex_current_slot := ex_current_slot e;
     ex_registration := ex_registration e; ex_payload := ex_payload e; ex_completion := Some (f, context) |}.
Definition set_current_slot (slot : Z) (e : mudmux_execution) : mudmux_execution :=
  {| ex_target := ex_target e; ex_ctx := ex_ctx e; ex_msg := ex_msg e; ex_current_slot := slot;
     ex_registration := ex_registration e; ex_payload := ex_payload e; ex_completion := ex_completion e |}.
Definition set_event_registration (r : option nat) (e : mudmux_execution) : mudmux_execution :=
  {| ex_target := ex_target e; ex_ctx := ex_ctx e; ex_msg := ex_msg e; ex_current_slot := ex_current_slot e;
     ex_registration := r; ex_payload := ex_payload e; ex_completion := ex_completion e |}.

Definition is_registered_hook (e : mudmux_execution) : bool :=
  match ex_target e with TargetHook _ => true | TargetFunc _ => false end.

(** [hook_type]: [MAX_HOOK_TYPE] for a function. *)
Definition exec_hook_type (e : mudmux_execution) : Z :=
  match ex_target e with TargetHook t => t | TargetFunc _ => Z.of_nat MAX_HOOK_TYPE_VALUE end.

(** The numbers of the hook types. *)
Definition hook_number (h : hook_type) : Z :=
  match h with
  | HOOK_CONNECT => 1 | HOOK_DISCONNECT => 2 | HOOK_MESSAGE_INBOUND => 3 | HOOK_MESSAGE_OUTBOUND => 4
  | HOOK_TRANSPORT_READY => 5 | HOOK_PROMPT => 6 | HOOK_TELNET_SUBNEG => 7 | HOOK_TIMER => 8
  | HOOK_GARBAGE_COLLECTION => 9 | HOOK_RESUME => 10 | HOOK_COMPLETION => 11 | MAX_HOOK_TYPE => 12
  end.

Definition is_hook (e : mudmux_execution) (h : hook_type) : bool := (exec_hook_type e =? hook_number h)%Z.

(** What one callback does: it is given the function, the payload (null when it is
    empty) and the thread's context. *)
Definition callback := nat → option (list Z) → thread_ctx → outcome.

(** [invoke]. *)
Definition exec_invoke (t : hook_table) (strict : bool) (body : callback) (flush_after : bool)
    (e : mudmux_execution) (c : thread_ctx) : outcome :=
  let data := match ex_payload e with [] => None | p => Some p end in
  match ex_target e with
  | TargetHook hook_type =>
      mudmux_invoke_registered_hook t strict hook_type (fun f => body f data) flush_after (ex_current_slot e) c
  | TargetFunc f => mudmux_invoke_hook strict f (body f data) flush_after (ex_current_slot e) c
  end.

(** ** The states of the slots *)

(** [slot_states]: a table that grows on demand. *)
Abbreviation slot_states := (list slot_execution_state).

(** [ensure_slot_state_locked]. *)
Definition ensure_slot_state (states : slot_states) (slot : nat) : slot_states :=
  states ++ replicate (S slot - length states) idle_state.

(** A section on the state of a slot that is in the table. *)
Definition in_slot {A} (states : slot_states) (slot : Z) (none : A)
    (section : slot_execution_state → A * slot_execution_state) : A * slot_states :=
  if (slot <? 0)%Z then (none, states)
  else match states !! Z.to_nat slot with
  | None => (none, states)
  | Some st => let '(a, st') := section st in (a, <[Z.to_nat slot := st']> states)
  end.

(** [mudmux_execution_slot_busy]. *)
Definition mudmux_execution_slot_busy (states : slot_states) (slot : Z) : bool :=
  (in_slot states slot false (fun st => (slot_busy st, st))).1.

(** [finish_slot_execution]: the task handed to a worker, if any; [submitted] is
    the pool's answer. *)
Definition finish_slot_execution (submitted : bool) (states : slot_states) (slot : Z)
    : option slot_execution * slot_states :=
  match in_slot states slot None finish_section with
  | (Some t, states') =>
      if submitted then (Some t, states')
      else (None, (in_slot states' slot tt (fun st => (tt, finish_failed_section st))).2)
  | (None, states') => (None, states')
  end.

(** The answers of the worker pool to the submissions a call may make. *)
Record pool_answers := { first_submit : bool; second_submit : bool }.

(** [mudmux_execution_enqueue] with a task for [slot]: the tasks handed to a
    worker, the table and the answer. *)
Definition mudmux_execution_enqueue (running : bool) (backlog : nat) (pool : pool_answers) (states : slot_states)
    (slot : Z) (registered allow_pending : bool) (t : slot_execution)
    : list slot_execution * slot_states * dispatch_result :=
  if negb running || (slot <? 0)%Z || negb registered then ([], states, DISPATCH_ERROR)
  else
    let states := ensure_slot_state states (Z.to_nat slot) in
    match in_slot states slot (inl DISPATCH_ERROR)
            (fun st => match enqueue_section backlog st t allow_pending with
                       | inl (r, st') => (inl r, st')
                       | inr st' => (inr tt, st')
                       end) with
    | (inl r, states') => ([], states', r)
    | (inr _, states') =>
        if first_submit pool then ([t], states', DISPATCH_QUEUED)
        else
          let '(next, states'') := finish_slot_execution (second_submit pool) states' slot in
          (match next with Some x => [x] | None => [] end, states'', DISPATCH_ERROR)
    end.

(** [mudmux_execution_finalize_await]: the await work to run, with its generation. *)
Definition mudmux_execution_finalize_await (states : slot_states) (slot : Z)
    : option (Z * option nat) * slot_states :=
  in_slot states slot None finalize_section.

(** [mudmux_execution_cancel_await], with the task of the slot that is resumed;
    the closures it destroys are those the section clears. *)
Definition mudmux_execution_cancel_await (submitted : bool) (states : slot_states) (slot : Z)
    : option slot_execution * slot_states :=
  match in_slot states slot false cancel_section with
  | (true, states') => finish_slot_execution submitted states' slot
  | (false, states') => (None, states')
  end.

(** ** Dispatch *)

Record exec_state := {
  xs_relaxed : bool;                    (* [determinism_mode] *)
  xs_running : bool;
  xs_backlog : nat;                     (* [backlog_capacity] *)
  xs_slots : slot_states;
  xs_events : event_state
}.

Definition MUDMUX_EXECUTION_TIMELY_EVENT : Z := 1.

(** Where an execution goes. *)
Inductive route :=
  | RReject (r : dispatch_result)
  | RInline
  | REvent (timely : bool)
  | RSlot (queue_slot : Z) (allow_pending : bool).

Definition exec_async (relaxed : bool) (e : mudmux_execution) : bool :=
  relaxed && existsb (is_hook e) [HOOK_CONNECT; HOOK_DISCONNECT; HOOK_MESSAGE_INBOUND; HOOK_MESSAGE_OUTBOUND;
                                  HOOK_TRANSPORT_READY; HOOK_PROMPT; HOOK_TELNET_SUBNEG].

(** The execution as it is dispatched: an outbound message runs for its own slot. *)
Definition dispatched (e : mudmux_execution) : mudmux_execution :=
  if is_registered_hook e && is_hook e HOOK_MESSAGE_OUTBOUND && (ex_current_slot e <? 0)%Z
  then set_current_slot (ex_msg e) e else e.

Definition exec_route (s : exec_state) (flags : Z) (e : mudmux_execution) : route :=
  if negb (Z.land flags (Z.lnot MUDMUX_EXECUTION_TIMELY_EVENT) =? 0)%Z then RReject DISPATCH_ERROR
  else
    let timely := negb (Z.land flags MUDMUX_EXECUTION_TIMELY_EVENT =? 0)%Z in
    let registered := is_registered_hook e in
    if timely && (registered || negb (xs_running s)) then RReject DISPATCH_ERROR
    else if negb registered && timely && bool_decide (ex_registration e = None) then RReject DISPATCH_ERROR
    else if negb registered && timely && mudmux_execution_event_busy (xs_events s) (ex_registration e)
    then RReject DISPATCH_QUEUE_FULL
    else if negb (xs_relaxed s) || (registered && negb (exec_async (xs_relaxed s) e)) then RInline
    else if negb registered then REvent timely
    else
      let e := dispatched e in
      let allow_pending := negb (is_hook e HOOK_MESSAGE_INBOUND) && negb (is_hook e HOOK_TELNET_SUBNEG) in
      let queue_slot := if is_hook e HOOK_TELNET_SUBNEG then ex_current_slot e else ex_msg e in
      if (queue_slot <? 0)%Z then RReject DISPATCH_ERROR else RSlot queue_slot allow_pending.

(** What the caller observes of a dispatch: the thread after it, the callback's
    actions, the completion calls, the await work that is started, the tasks handed
    to workers, the states of slots and events, and the answer. *)
Record dispatch_effect := {
  de_thread : thread_ctx;
  de_actions : list hook_action;
  de_completions : list (nat * nat * Z);
  de_await : option (Z * option nat);
  de_handed : list slot_execution;
  de_slots : slot_states;
  de_events : event_state;
  de_result : dispatch_result
}.

Definition no_callback (c : thread_ctx) (handed : list slot_execution) (st : slot_states) (v : event_state)
    (r : dispatch_result) : dispatch_effect :=
  {| de_thread := c; de_actions := []; de_completions := []; de_await := None; de_handed := handed;
     de_slots := st; de_events := v; de_result := r |}.

(** The hook type of a number. *)
Definition hook_of_number (n : Z) : hook_type :=
  default MAX_HOOK_TYPE (find (fun h => hook_number h =? n)%Z
    [HOOK_CONNECT; HOOK_DISCONNECT; HOOK_MESSAGE_INBOUND; HOOK_MESSAGE_OUTBOUND; HOOK_TRANSPORT_READY; HOOK_PROMPT;
     HOOK_TELNET_SUBNEG; HOOK_TIMER; HOOK_GARBAGE_COLLECTION; HOOK_RESUME; HOOK_COMPLETION]).

(** [complete]. *)
Definition completions (e : mudmux_execution) : list (nat * nat * Z) :=
  match ex_completion e with
  | Some (f, x) => if f =? 0 then [] else [(f, x, ex_msg e)]
  | None => []
  end.

(** The registration a function is admitted under, for which [registration_scope]
    counts one execution. *)
Definition scope (e : mudmux_execution) : option nat := if is_registered_hook e then None else ex_registration e.

Definition begin_scope (s : exec_state) (timely : bool) (e : mudmux_execution) : event_state :=
  default (xs_events s) (admit_section (xs_running s) (xs_events s) (scope e) timely).

(** [enqueue_event_execution]; [submitted] is the pool's answer, [id] the number the
    event lane knows the execution by. *)
Definition enqueue_event_execution (running submitted : bool) (id : nat) (timely : bool) (e : mudmux_execution)
    (v : event_state) : event_state * dispatch_result :=
  if negb running then (v, DISPATCH_ERROR)
  else if timely then (v, if submitted then DISPATCH_QUEUED else DISPATCH_ERROR)
  else
    let '(v', submit) := enqueue_event_section v {| et_id := id; et_reg := ex_registration e |} in
    if negb submit || submitted then (v', DISPATCH_QUEUED) else (enqueue_failed_section v', DISPATCH_ERROR).

(** [mudmux_execution_dispatch].  [touch] is what an inline callback does to the slot
    states (it may request an await), [generation] the generations of the slots
    and [id] the number the schedulers know the execution by.  The admission ends
    with the call unless a worker has taken the event over. *)
Definition mudmux_execution_dispatch (s : exec_state) (t : hook_table) (body : callback)
    (touch : slot_states → slot_states) (generation : Z → Z) (pool : pool_answers) (id : nat)
    (flags : Z) (e : mudmux_execution) (c : thread_ctx) : dispatch_effect :=
  let timely := negb (Z.land flags MUDMUX_EXECUTION_TIMELY_EVENT =? 0)%Z in
  match exec_route s flags e with
  | RReject r => no_callback c [] (xs_slots s) (xs_events s) r
  | RInline =>
      let x := dispatched e in
      let '(c', acts, ret) := exec_invoke t (negb (xs_relaxed s)) body true x c in
      let '(await, slots) :=
        if is_registered_hook e then mudmux_execution_finalize_await (touch (xs_slots s)) (ex_current_slot e)
        else (None, touch (xs_slots s)) in
      {| de_thread := c'; de_actions := acts; de_completions := completions x; de_await := await;
         de_handed := []; de_slots := slots;
         de_events := release_section (begin_scope s timely e) (scope e);
         de_result := if (ret <? 0)%Z then DISPATCH_ERROR else DISPATCH_OK |}
  | REvent timely =>
      match enqueue_event_execution (xs_running s) (first_submit pool) id timely e (begin_scope s timely e) with
      | (v, DISPATCH_QUEUED) => no_callback c [] (xs_slots s) v DISPATCH_QUEUED
      | (v, r) => no_callback c [] (xs_slots s) (release_section v (scope e)) r
      end
  | RSlot slot allow =>
      let '(handed, slots, r) :=
        mudmux_execution_enqueue (xs_running s) (xs_backlog s) pool (xs_slots s) slot true allow
          {| se_id := id; se_hook := hook_of_number (exec_hook_type e); se_generation := generation slot |} in
      no_callback c handed slots (xs_events s) r
  end.

(** ** Closures handed over *)

(** [mudmux_workers_submit]; [accepted] is the pool's answer.  The closures of the
    caller afterwards, and the task. *)
Definition mudmux_workers_submit (running accepted : bool) (work completion : async_closure)
    : async_closure * async_closure * option (async_closure * async_closure) :=
  if negb (async_closure_is_valid work) || negb (async_closure_is_valid completion) || negb running
  then (work, completion, None)
  else if accepted then (null_closure, null_closure, Some (work, completion))
  else (work, completion, None).

(** [mudmux_workers_await]; the closures are known to the scheduler by numbers.  The
    table, the caller's closures, and the answer; when it is true the input of
    the slot is deferred. *)
Definition mudmux_workers_await (running : bool) (slot : Z) (h : hook_type) (generation : Z)
    (states : slot_states) (work resume : async_closure) (work_id resume_id : nat)
    : slot_states * async_closure * async_closure * bool :=
  if negb (async_closure_is_valid work) || negb (async_closure_is_valid resume) || negb running
     || (slot <? 0)%Z || negb (may_await h) || (generation =? 0)%Z
  then (states, work, resume, false)
  else match in_slot (ensure_slot_state states (Z.to_nat slot)) slot false
               (fun st => match await_section st generation work_id resume_id with
                          | None => (false, st)
                          | Some st' => (true, st')
                          end) with
  | (false, states') => (states', work, resume, false)
  | (true, states') => (states', null_closure, null_closure, true)
  end.

(** ** The table as independent slots *)

(** The calls on a slot, with the pool's answers. *)
Inductive slot_op :=
  | OpEnqueue (running : bool) (backlog : nat) (pool : pool_answers) (registered allow_pending : bool) (t : slot_execution)
  | OpFinish (submitted : bool)
  | OpFinalize
  | OpCancel (submitted : bool)
  | OpAwait (running : bool) (h : hook_type) (generation : Z) (work resume : async_closure) (work_id resume_id : nat)
  | OpBusy.

(** What a call tells its caller and hands to workers. *)
Inductive slot_answer :=
  | AnDispatch (handed : list slot_execution) (r : dispatch_result)
  | AnTask (handed : option slot_execution)
  | AnAwait (started : option (Z * option nat))
  | AnClosures (work resume : async_closure) (ok : bool)
  | AnBusy (b : bool).

Definition table_op (states : slot_states) (slot : Z) (o : slot_op) : slot_answer * slot_states :=
  match o with
  | OpEnqueue running backlog pool registered allow t =>
      let '(handed, states', r) := mudmux_execution_enqueue running backlog pool states slot registered allow t in
      (AnDispatch handed r, states')
  | OpFinish submitted => let '(t, states') := finish_slot_execution submitted states slot in (AnTask t, states')
  | OpFinalize => let '(w, states') := mudmux_execution_finalize_await states slot in (AnAwait w, states')
  | OpCancel submitted => let '(t, states') := mudmux_execution_cancel_await submitted states slot in (AnTask t, states')
  | OpAwait running h generation work resume work_id resume_id =>
      let '(states', w, r, ok) := mudmux_workers_await running slot h generation states work resume work_id resume_id in
      (AnClosures w r ok, states')
  | OpBusy => (AnBusy (mudmux_execution_slot_busy states slot), states)
  end.

(** The same calls on the state of one slot that is always there. *)
Definition finish_one (submitted : bool) (st : slot_execution_state) : option slot_execution * slot_execution_state :=
  match finish_section st with
  | (Some t, st') => if submitted then (Some t, st') else (None, finish_failed_section st')
  | (None, st') => (None, st')
  end.

Definition one_op (st : slot_execution_state) (o : slot_op) : slot_answer * slot_execution_state :=
  match o with
  | OpEnqueue running backlog pool registered allow t =>
      if negb running || negb registered then (AnDispatch [] DISPATCH_ERROR, st)
      else match enqueue_section backlog st t allow with
      | inl (r, st') => (AnDispatch [] r, st')
      | inr st' =>
          if first_submit pool then (AnDispatch [t] DISPATCH_QUEUED, st')
          else let '(next, st'') := finish_one (second_submit pool) st' in
               (AnDispatch match next with Some x => [x] | None => [] end DISPATCH_ERROR, st'')
      end
  | OpFinish submitted => let '(t, st') := finish_one submitted st in (AnTask t, st')
  | OpFinalize => let '(w, st') := finalize_section st in (AnAwait w, st')
  | OpCancel submitted =>
      match cancel_section st with
      | (true, st') => let '(t, st'') := finish_one submitted st' in (AnTask t, st'')
      | (false, st') => (AnTask None, st')
      end
  | OpAwait running h generation work resume work_id resume_id =>
      if negb (async_closure_is_valid work) || negb (async_closure_is_valid resume) || negb running
         || negb (may_await h) || (generation =? 0)%Z
      then (AnClosures work resume false, st)
      else match await_section st generation work_id resume_id with
      | None => (AnClosures work resume false, st)
      | Some st' => (AnClosures null_closure null_closure true, st')
      end
  | OpBusy => (AnBusy (slot_busy st), st)
  end.

Fixpoint table_run (states : slot_states) (ops : list (nat * slot_op)) : list (nat * slot_answer) * slot_states :=
  match ops with
  | [] => ([], states)
  | (n, o) :: rest =>
      let '(a, states1) := table_op states (Z.of_nat n) o in
      let '(answers, states2) := table_run states1 rest in
      ((n, a) :: answers, states2)
  end.

Fixpoint slot_run (st : slot_execution_state) (ops : list slot_op) : list slot_answer * slot_execution_state :=
  match ops with
  | [] => ([], st)
  | o :: rest =>
      let '(a, st1) := one_op st o in
      let '(answers, st2) := slot_run st1 rest in
      (a :: answers, st2)
  end.

(** What concerns one slot. *)
Definition for_slot {A} (n : nat) (l : list (nat * A)) : list A := map snd (filter (fun x => x.1 = n) l).

(** The state a slot has, in the table or not yet. *)
Definition state_of (states : slot_states) (n : nat) : slot_execution_state := default idle_state (states !! n).

(** ** Lemmas *)

Definition restores (body : callback) : Prop := ∀ f data x, (body f data x).1.1 = x.

Lemma exec_invoke_thread t strict body flush_after e c :
  restores body → (exec_invoke t strict body flush_after e c).1.1 = c.
Proof.
  intros Hb. unfold exec_invoke, mudmux_invoke_registered_hook, mudmux_invoke_hook. destruct (ex_target e) as [h|f].
  - destruct (negb _); [done|]. cbn zeta. destruct (_ =? 0); [done|].
    match goal with |- context [body ?f ?d ?x] => specialize (Hb f d x); destruct (body f d x) as [[c' acts] ret] end.
    by destruct c.
  - match goal with |- context [body ?f ?d ?x] => specialize (Hb f d x); destruct (body f d x) as [[c' acts] ret] end.
    cbn in Hb. subst c'. by destruct c.
Qed.

Lemma hook_type_of_number n :
  public_hook n = true → ∃ h, n = hook_number h ∧ h ≠ HOOK_RESUME ∧ h ≠ HOOK_COMPLETION ∧ h ≠ MAX_HOOK_TYPE.
Proof.
  unfold public_hook. intros H.
  assert (n = 1 ∨ n = 2 ∨ n = 3 ∨ n = 4 ∨ n = 5 ∨ n = 6 ∨ n = 7 ∨ n = 8 ∨ n = 9)%Z as D by lia.
  destruct D as [->|[->|[->|[->|[->|[->|[->|[->| ->]]]]]]]].
  all: [> exists HOOK_CONNECT | exists HOOK_DISCONNECT | exists HOOK_MESSAGE_INBOUND | exists HOOK_MESSAGE_OUTBOUND
    | exists HOOK_TRANSPORT_READY | exists HOOK_PROMPT | exists HOOK_TELNET_SUBNEG | exists HOOK_TIMER
    | exists HOOK_GARBAGE_COLLECTION ]; done.
Qed.

(** An admission that ends leaves the counts as they were. *)
Lemma admit_release running v registration timely v' :
  (∀ k, event_in_flight v !! k ≠ Some 0) → admit_section running v registration timely = Some v' →
  release_section v' registration = v.
Proof.
  intros P. unfold admit_section. destruct (timely && _); [done|]. destruct (timely && _); [done|].
  destruct v as [act pend m]. cbn in P. destruct registration as [k|]; intros [= <-]; [|done].
  unfold release_section, release_event_registration. cbn. rewrite lookup_insert_eq. f_equal.
  destruct (m !! k) as [n|] eqn:E; cbn.
  - destruct n as [|n]; [by apply P in E|]. replace (S n + 1 - 1) with (S n) by lia. cbn.
    rewrite insert_insert_eq. by apply insert_id.
  - rewrite delete_insert_eq. by apply delete_id.
Qed.

Lemma admit_lane running v registration timely v' :
  admit_section running v registration timely = Some v' →
  event_active v' = event_active v ∧ pending_events v' = pending_events v.
Proof.
  unfold admit_section. destruct (timely && _); [done|]. destruct (timely && _); [done|].
  destruct registration; intros [= <-]; done.
Qed.

(** An event that no worker takes leaves the lane alone. *)
Lemma enqueue_event_unchanged running submitted id timely e v :
  (event_active v = false → pending_events v = []) →
  (enqueue_event_execution running submitted id timely e v).2 ≠ DISPATCH_QUEUED →
  (enqueue_event_execution running submitted id timely e v).1 = v.
Proof.
  unfold enqueue_event_execution, enqueue_event_section. destruct v as [act pend m]. cbn. intros H.
  destruct running; [|done]. destruct timely; [done|]. destruct act; [done|].
  cbn [negb orb]. destruct submitted; [done|]. intros _. by rewrite H.
Qed.

Lemma route_strict s flags e : xs_relaxed s = false → exec_route s flags e = RInline ∨ ∃ r, exec_route s flags e = RReject r.
Proof.
  intros Hs. unfold exec_route. rewrite Hs. cbn [negb orb].
  destruct (negb (Z.land flags (Z.lnot _) =? 0)%Z); [by eauto|]. cbn zeta.
  destruct (negb (Z.land flags _ =? 0)%Z); destruct (is_registered_hook e); cbn [negb orb andb]; [by eauto| |by eauto..].
  destruct (negb (xs_running s)); [by eauto|]. destruct (bool_decide _); [by eauto|].
  destruct (mudmux_execution_event_busy _ _); by eauto.
Qed.

(** What a route that goes on says of the admission. *)
Lemma route_admitted s flags e :
  (∀ r, exec_route s flags e ≠ RReject r) →
  ∃ v, admit_section (xs_running s) (xs_events s) (scope e)
         (negb (Z.land flags MUDMUX_EXECUTION_TIMELY_EVENT =? 0)%Z) = Some v.
Proof.
  unfold exec_route, admit_section, scope. cbn zeta.
  destruct (negb (Z.land flags (Z.lnot _) =? 0)%Z); [intros H; by destruct (H DISPATCH_ERROR)|].
  destruct (negb (Z.land flags _ =? 0)%Z); destruct (is_registered_hook e); cbn [negb orb andb].
  - intros H; by destruct (H DISPATCH_ERROR).
  - destruct (negb (xs_running s)); [intros H; by destruct (H DISPATCH_ERROR)|].
    destruct (bool_decide _); [intros H; by destruct (H DISPATCH_ERROR)|].
    destruct (mudmux_execution_event_busy _ _); [intros H; by destruct (H DISPATCH_QUEUE_FULL)|].
    intros _. destruct (ex_registration e); by eexists.
  - intros _. by eexists.
  - intros _. destruct (ex_registration e); by eexists.
Qed.

Lemma is_hook_number e h g :
  exec_hook_type e = hook_number h → is_hook e g = bool_decide (hook_number h = hook_number g).
Proof.
  intros E. unfold is_hook. rewrite E. destruct (Z.eqb_spec (hook_number h) (hook_number g)) as [->|N].
  - by rewrite bool_decide_true.
  - by rewrite bool_decide_false.
Qed.

(** The numbers of the source and the constructors name the same asynchronous hooks. *)
Lemma exec_async_hook relaxed e h :
  exec_hook_type e = hook_number h → exec_async relaxed e = should_dispatch_async relaxed h.
Proof.
  intros E. unfold exec_async, should_dispatch_async. f_equal. cbn [existsb].
  rewrite !(is_hook_number e h) by done. by destruct h.
Qed.

(** *** The slot table *)

Lemma ensure_state_of states n k : state_of (ensure_slot_state states n) k = state_of states k.
Proof.
  unfold state_of, ensure_slot_state. destruct (decide (k < length states)) as [H|H].
  - by rewrite lookup_app_l.
  - rewrite lookup_app_r, (lookup_ge_None_2 states k) by lia.
    destruct (replicate _ _ !! _) eqn:E; [|done]. by apply lookup_replicate in E as [-> _].
Qed.

Lemma ensure_is_Some states n : is_Some (ensure_slot_state states n !! n).
Proof. apply lookup_lt_is_Some. unfold ensure_slot_state. rewrite length_app, length_replicate. lia. Qed.

(** A section that is idle on an idle slot sees the table as a function. *)
Lemma in_slot_state_of {A} states n (none : A) section :
  (is_Some (states !! n) ∨ section idle_state = (none, idle_state)) →
  (in_slot states (Z.of_nat n) none section).1 = (section (state_of states n)).1
  ∧ state_of (in_slot states (Z.of_nat n) none section).2 n = (section (state_of states n)).2
  ∧ (∀ k, k ≠ n → state_of (in_slot states (Z.of_nat n) none section).2 k = state_of states k).
Proof.
  intros H. unfold in_slot. rewrite (proj2 (Z.ltb_ge _ _)), Nat2Z.id by lia.
  assert (S : state_of states n = default idle_state (states !! n)) by done. rewrite S.
  destruct (states !! n) as [st|] eqn:E; cbn.
  - destruct (section st) as [a st'] eqn:Es. cbn. split; [done|].
    assert (n < length states) by (by eapply lookup_lt_Some). split.
    + unfold state_of. by rewrite list_lookup_insert_eq.
    + intros k Hk. unfold state_of. by rewrite list_lookup_insert_ne.
  - destruct H as [[? [=]]|H]. by rewrite H, S.
Qed.

(** The same for a section whose result is used. *)
Lemma in_slot_cases {A} states n (none : A) section a states' :
  in_slot states (Z.of_nat n) none section = (a, states') →
  (is_Some (states !! n) ∨ section idle_state = (none, idle_state)) →
  section (state_of states n) = (a, state_of states' n) ∧ (∀ k, k ≠ n → state_of states' k = state_of states k).
Proof.
  intros E H. destruct (in_slot_state_of states n none section H) as (A1 & A2 & A3). rewrite E in A1, A2, A3. cbn in *.
  split; [|done]. destruct (section (state_of states n)) as [x y]. cbn in *. by subst.
Qed.

Lemma finish_slot_cases submitted states n t states' :
  finish_slot_execution submitted states (Z.of_nat n) = (t, states') →
  finish_one submitted (state_of states n) = (t, state_of states' n)
  ∧ (∀ k, k ≠ n → state_of states' k = state_of states k).
Proof.
  unfold finish_slot_execution, finish_one.
  destruct (in_slot states _ None finish_section) as [o s1] eqn:E.
  apply in_slot_cases in E as [-> F1]; [|by right]. destruct o as [x|]; [|by intros [= <- <-]].
  destruct submitted; [by intros [= <- <-]|].
  destruct (in_slot s1 _ tt _) as [u s2] eqn:E. apply in_slot_cases in E as [E F2]; [|by right].
  intros [= <- <-]. split; [cbn beta in E; congruence|]. intros k Hk. by rewrite F2, F1.
Qed.

Lemma table_op_cases states n o a states' :
  table_op states (Z.of_nat n) o = (a, states') →
  one_op (state_of states n) o = (a, state_of states' n)
  ∧ (∀ k, k ≠ n → state_of states' k = state_of states k).
Proof.
  assert (N : (Z.of_nat n <? 0)%Z = false) by (apply Z.ltb_ge; lia).
  destruct o as [running backlog pool registered allow t|submitted| |submitted|running h g w r wi ri|]; cbn [table_op one_op].
  - unfold mudmux_execution_enqueue. rewrite N, Nat2Z.id, orb_false_r.
    destruct (negb running || negb registered); [by intros [= <- <-]|].
    destruct (in_slot (ensure_slot_state states n) _ _ _) as [x s1] eqn:E.
    apply in_slot_cases in E as [E F]; [|left; apply ensure_is_Some]. rewrite ensure_state_of in E.
    assert (F' : ∀ k, k ≠ n → state_of s1 k = state_of states k) by (intros; rewrite F, ensure_state_of; done).
    destruct (enqueue_section _ _ _ _) as [[r st']|st']; simplify_eq/=; [by intros [= <- <-]|].
    destruct (first_submit pool); [by intros [= <- <-]|].
    destruct (finish_slot_execution _ s1 _) as [nx s2] eqn:Fi. apply finish_slot_cases in Fi as [-> F2].
    intros [= <- <-]. split; [done|]. intros k Hk. by rewrite F2, F'.
  - destruct (finish_slot_execution _ _ _) as [x s1] eqn:E. apply finish_slot_cases in E as [-> F]. by intros [= <- <-].
  - unfold mudmux_execution_finalize_await. destruct (in_slot _ _ _ _) as [x s1] eqn:E.
    apply in_slot_cases in E as [-> F]; [|by right]. by intros [= <- <-].
  - unfold mudmux_execution_cancel_await. destruct (in_slot _ _ _ _) as [x s1] eqn:E.
    apply in_slot_cases in E as [-> F]; [|by right]. destruct x; [|by intros [= <- <-]].
    destruct (finish_slot_execution _ s1 _) as [nx s2] eqn:Fi. apply finish_slot_cases in Fi as [-> F2].
    intros [= <- <-]. split; [done|]. intros k Hk. by rewrite F2, F.
  - unfold mudmux_workers_await. rewrite N, Nat2Z.id, orb_false_r. destruct (_ || (g =? 0)%Z); [by intros [= <- <-]|].
    destruct (in_slot (ensure_slot_state states n) _ _ _) as [x s1] eqn:E.
    apply in_slot_cases in E as [E F]; [|left; apply ensure_is_Some]. rewrite ensure_state_of in E.
    assert (F' : ∀ k, k ≠ n → state_of s1 k = state_of states k) by (intros; rewrite F, ensure_state_of; done).
    destruct (await_section (state_of states n) g wi ri) as [st'|] eqn:Ea; injection E as <- E'; intros [= <- <-];
      split; [by rewrite E'|done|by rewrite E'|done].
  - unfold mudmux_execution_slot_busy. destruct (in_slot_state_of states n false (fun st => (slot_busy st, st))) as [-> _];
      [by right|]. by intros [= <- <-].
Qed.

(** ** Theorems *)

(** C20: the table of slot states is a collection of independent slots.  Whatever
    calls are made on whatever slots, and whether or not the table had reached
    them, each slot gives the answers, hands over the tasks and ends in the state
    that its own calls, in their order, give a slot that was idle at first. *)
Theorem slot_table_refines states ops n :
  let '(answers, states') := table_run states ops in
  slot_run (state_of states n) (for_slot n ops) = (for_slot n answers, state_of states' n).
Proof.
  unfold for_slot. revert states. induction ops as [|[m o] ops IH]; intros states; [done|]. cbn [table_run].
  destruct (table_op states (Z.of_nat m) o) as [a s1] eqn:E. apply table_op_cases in E as [E F]. specialize (IH s1).
  destruct (table_run s1 ops) as [answers s2]. rewrite !filter_cons. cbn [fst].
  destruct (decide (m = n)) as [->|N]; cbn [map snd slot_run].
  - by rewrite E, IH.
  - rewrite <- IH, F by done. done.
Qed.

(** The function an execution stands for: the one registered for its hook, if
    any, or its own. *)
Definition callee (t : hook_table) (e : mudmux_execution) : option nat :=
  match ex_target e with
  | TargetHook h => let f := mudmux_get_registered_hook t h in if f =? 0 then None else Some f
  | TargetFunc f => Some f
  end.

(** What an inline run shows: the function is called once, with the payload, the
    slot and the hook type of the execution, in strict mode under the lock, and
    flushed after; the answer says whether it returned a negative number.  A hook
    nobody registered is a success, one that is not public an error. *)
Definition runs_inline (t : hook_table) (strict : bool) (body : callback) (e : mudmux_execution) (c : thread_ctx)
    (actions : list hook_action) (r : dispatch_result) : Prop :=
  let inside := {| tc_slot := ex_current_slot (dispatched e);
                   tc_hook := if is_registered_hook e then exec_hook_type e else tc_hook c |} in
  match callee t e with
  | Some f =>
      let '(_, nested, ret) := body f (if ex_payload e is [] then None else Some (ex_payload e)) inside in
      actions = (if strict then [HLock] else []) ++ HCall f inside :: nested
                ++ (if strict then [HUnlock] else []) ++ [HFlushAll]
      ∧ r = if (ret <? 0)%Z then DISPATCH_ERROR else DISPATCH_OK
  | None => actions = [] ∧ r = if public_hook (exec_hook_type e) then DISPATCH_OK else DISPATCH_ERROR
  end.

Lemma dispatched_fields e :
  ex_target (dispatched e) = ex_target e ∧ ex_payload (dispatched e) = ex_payload e
  ∧ completions (dispatched e) = completions e.
Proof. unfold dispatched, completions. by destruct (_ && _). Qed.

Lemma exec_invoke_runs t strict body e c :
  let '(_, acts, ret) := exec_invoke t strict body true (dispatched e) c in
  runs_inline t strict body e c acts (if (ret <? 0)%Z then DISPATCH_ERROR else DISPATCH_OK).
Proof.
  destruct (dispatched_fields e) as (T & P & _).
  unfold exec_invoke, runs_inline, callee, is_registered_hook, exec_hook_type. rewrite T, P.
  destruct (ex_target e) as [h|f]; destruct (ex_payload e).
  1,2: unfold mudmux_invoke_registered_hook, mudmux_get_registered_hook; destruct (public_hook h); cbn [negb]; [|done];
    destruct (default 0 (t !! Z.to_nat h) =? 0); [done|]; unfold mudmux_invoke_hook; cbn [tc_hook];
    by destruct (body _ _ _) as [[c' acts] ret].
  all: unfold mudmux_invoke_hook; by destruct (body _ _ _) as [[c' acts] ret].
Qed.

(** C22: dispatch keeps its contract.  A callback runs on the calling thread exactly
    when the execution is routed inline; then it is called once with the payload,
    slot and hook type of the execution, its completion is called once whatever
    it answered, and the answer says whether that was negative.  An execution
    that is refused or queued runs nothing here and calls no completion.  Unless
    it is queued for a worker, the call leaves no registration in flight.  In strict mode nothing is queued.  In every case
    the thread's slot and hook type are what they were.  Callbacks are taken to
    leave the thread as they find it, and the event state to have no zero count
    and no event pending while idle. *)
Theorem dispatch_contract s t body touch generation pool id flags e c :
  restores body → (∀ k, event_in_flight (xs_events s) !! k ≠ Some 0) →
  (event_active (xs_events s) = false → pending_events (xs_events s) = []) →
  let d := mudmux_execution_dispatch s t body touch generation pool id flags e c in
  de_thread d = c
  ∧ (match exec_route s flags e with
     | RInline => de_completions d = completions e
         ∧ runs_inline t (negb (xs_relaxed s)) body e c (de_actions d) (de_result d)
     | _ => de_actions d = [] ∧ de_completions d = [] ∧ de_await d = None
     end)
  ∧ (de_result d ≠ DISPATCH_QUEUED → de_events d = xs_events s)
  ∧ (xs_relaxed s = false → exec_route s flags e = RInline ∨ ∃ r, exec_route s flags e = RReject r).
Proof.
  intros Hb Hp Ht d. unfold d, mudmux_execution_dispatch. cbn zeta.
  pose proof (route_admitted s flags e) as Ha. pose proof (route_strict s flags e) as Hs.
  assert (Hadm : ∀ timely v, admit_section (xs_running s) (xs_events s) (scope e) timely = Some v →
            release_section (begin_scope s timely e) (scope e) = xs_events s).
  { intros timely v E. unfold begin_scope. rewrite E. cbn. by eapply admit_release. }
  destruct (exec_route s flags e) as [r| |timely|slot allow] eqn:R.
  - split_and!; done.
  - destruct Ha as [v E]; [done|]. rewrite (Hadm _ _ E).
    pose proof (exec_invoke_thread t (negb (xs_relaxed s)) body true (dispatched e) c Hb) as I.
    pose proof (exec_invoke_runs t (negb (xs_relaxed s)) body e c) as X.
    destruct (exec_invoke _ _ _ _ _ _) as [[c' acts] ret]. cbn in I.
    destruct (if is_registered_hook e then _ else _) as [await slots].
    cbn [de_thread de_completions de_actions de_result de_events]. split_and!; try done.
    apply dispatched_fields.
  - destruct Ha as [v E]; [done|]. assert (Et : timely = negb (Z.land flags MUDMUX_EXECUTION_TIMELY_EVENT =? 0)%Z).
    { clear -R. unfold exec_route in R. cbn zeta in R. repeat (case_match; try done); by simplify_eq. }
    rewrite <- Et in E. specialize (Hadm _ _ E). pose proof (enqueue_event_unchanged (xs_running s) (first_submit pool) id timely e (begin_scope s timely e)) as U.
    destruct (enqueue_event_execution _ _ _ _ _ _) as [v' r]. cbn in U.
    destruct r; cbn; split_and!; try done; intros _; rewrite U; try done; unfold begin_scope; rewrite E; cbn;
      by rewrite (proj1 (admit_lane _ _ _ _ _ E)), (proj2 (admit_lane _ _ _ _ _ E)).
  - destruct (mudmux_execution_enqueue _ _ _ _ _ _ _ _) as [[handed slots] r]. split_and!; done.
Qed.

(** A thread, a table and a callback for the witnesses. *)
Definition demo_thread : thread_ctx := {| tc_slot := -1; tc_hook := 0 |}.
Definition demo_hooks : hook_table := [0; 11; 12; 13; 14; 15; 16; 17; 18; 19; 0; 0].
Definition demo_exec (relaxed : bool) : exec_state :=
  {| xs_relaxed := relaxed; xs_running := true; xs_backlog := 8; xs_slots := []; xs_events := idle_events |}.
Definition demo_callback : callback := fun _ data c => (c, [], match data with Some _ => 0 | None => -1 end)%Z.
Definition demo_pool : pool_answers := {| first_submit := true; second_submit := true |}.

Lemma dispatch_contract_witness :
  let e := set_completion 5 6 (new_execution (TargetHook 3) 0 4 [104; 105]%Z) in
  let d := mudmux_execution_dispatch (demo_exec false) demo_hooks demo_callback (fun x => x) (fun _ => 1%Z) demo_pool 1 0 e
             demo_thread in
  de_thread d = demo_thread ∧ de_completions d = [(5, 6, 4%Z)] ∧ de_result d = DISPATCH_OK.
Proof.
  split; [|split; vm_compute; reflexivity].
  apply (dispatch_contract (demo_exec false) demo_hooks demo_callback (fun x => x) (fun _ => 1%Z) demo_pool 1 0
    (set_completion 5 6 (new_execution (TargetHook 3) 0 4 [104; 105]%Z)) demo_thread); [done|done|done].
Defined.

(** Where a hook goes when workers run them.  Timer and collection hooks run on
    the calling thread; a subnegotiation is queued for the current slot, whose
    number its message does not carry, every other hook for the slot its message
    names; hooks that carry parsed input, inbound messages and subnegotiations,
    may not wait behind a running hook of their slot, the others may.  Without a
    slot the execution is refused. *)
Theorem relaxed_routes s h ctx msg size data slot e :
  hook_execution (hook_number h) ctx msg size data = Some e → xs_relaxed s = true →
  let x := set_current_slot slot e in
  let target := if bool_decide (h = HOOK_TELNET_SUBNEG) then slot else msg in
  exec_route s 0 x =
    if bool_decide (h = HOOK_TIMER ∨ h = HOOK_GARBAGE_COLLECTION) then RInline
    else if (target <? 0)%Z then RReject DISPATCH_ERROR
    else RSlot target (negb (bool_decide (h = HOOK_MESSAGE_INBOUND ∨ h = HOOK_TELNET_SUBNEG))).
Proof.
  unfold hook_execution. intros E R. destruct (public_hook (hook_number h)) eqn:P; [|done].
  destruct (copy_payload data size) as [p|]; [|done]. cbn in E. injection E as <-.
  unfold exec_route. rewrite R. destruct h; try done; cbn;
    try (unfold dispatched; cbn; destruct (slot <? 0)%Z; reflexivity); reflexivity.
Qed.

Lemma relaxed_routes_witness :
  exec_route (demo_exec true) 0 (set_current_slot 7 (new_execution (TargetHook 7) 0 24 [])) = RSlot 7 false.
Proof.
  apply (relaxed_routes (demo_exec true) HOOK_TELNET_SUBNEG 0 24 0 None 7 (new_execution (TargetHook 7) 0 24 [])); reflexivity.
Defined.

(** What an inline callback sees.  The hook that runs is the one registered for
    the type, with its own copy of exactly the bytes it was given (none for an
    empty payload), under the hook's type and slot - for an outbound message the
    slot the message names when the caller set none; in strict mode it runs inside
    the slot-table lock, and pending output is flushed after the lock is gone. *)
Theorem inline_hook_sees s t body touch generation pool id n ctx msg bytes slot e c :
  hook_execution n ctx msg (length bytes) (Some bytes) = Some e →
  mudmux_get_registered_hook t n ≠ 0 → exec_route s 0 (set_current_slot slot e) = RInline →
  let d := mudmux_execution_dispatch s t body touch generation pool id 0 (set_current_slot slot e) c in
  let f := mudmux_get_registered_hook t n in
  let seen := {| tc_slot := if (n =? hook_number HOOK_MESSAGE_OUTBOUND)%Z && (slot <? 0)%Z then msg else slot;
                 tc_hook := n |} in
  let data := match bytes with [] => None | _ => Some bytes end in
  let lock := if xs_relaxed s then [] else [HLock] in
  let unlock := if xs_relaxed s then [] else [HUnlock] in
  de_actions d = lock ++ HCall f seen :: (body f data seen).1.2 ++ unlock ++ [HFlushAll]
  ∧ de_result d = (if ((body f data seen).2 <? 0)%Z then DISPATCH_ERROR else DISPATCH_OK).
Proof.
  intros E Hf R d f seen data lock unlock. unfold hook_execution in E. unfold mudmux_get_registered_hook in *.
  destruct (public_hook n) eqn:P; [|done].
  cbn [negb copy_payload fmap option_fmap option_map] in E. rewrite firstn_all in E. injection E as <-.
  assert (Hd : dispatched (set_current_slot slot (new_execution (TargetHook n) ctx msg bytes)) =
            set_current_slot (tc_slot seen) (new_execution (TargetHook n) ctx msg bytes)).
  { unfold dispatched, is_hook. cbn. by destruct (_ && _). }
  assert (Hi : exec_invoke t (negb (xs_relaxed s)) body true
             (dispatched (set_current_slot slot (new_execution (TargetHook n) ctx msg bytes))) c =
           ({| tc_slot := tc_slot c; tc_hook := tc_hook c |},
            lock ++ HCall f seen :: (body f data seen).1.2 ++ unlock ++ [HFlushAll], (body f data seen).2)).
  { rewrite Hd. unfold exec_invoke, mudmux_invoke_registered_hook, mudmux_invoke_hook. cbn [ex_target ex_payload ex_current_slot
      set_current_slot new_execution tc_slot tc_hook]. rewrite P. cbn [negb]. fold f. rewrite (proj2 (Nat.eqb_neq f 0) Hf).
    change {| tc_slot := tc_slot seen; tc_hook := n |} with seen.
    replace (match bytes with [] => None | z :: l => Some (z :: l) end) with data by (by destruct bytes).
    destruct (body f data seen) as [[c' acts] ret]. unfold lock, unlock. by destruct (xs_relaxed s). }
  unfold d, mudmux_execution_dispatch. rewrite R. cbn zeta. rewrite Hi.
  destruct (if is_registered_hook _ then _ else _) as [await slots]. done.
Qed.

Lemma inline_hook_sees_witness :
  de_actions (mudmux_execution_dispatch (demo_exec false) demo_hooks demo_callback (fun x => x) (fun _ => 1%Z) demo_pool 1 0
     (set_current_slot (-1) (new_execution (TargetHook 4) 0 3 [104]%Z)) demo_thread)
  = [HLock; HCall 14 {| tc_slot := 3; tc_hook := 4 |}; HUnlock; HFlushAll].
Proof.
  refine (proj1 (inline_hook_sees (demo_exec false) demo_hooks demo_callback (fun x => x) (fun _ => 1%Z) demo_pool 1 4 0 3 [104]%Z
    (-1) (new_execution (TargetHook 4) 0 3 [104]%Z) demo_thread _ _ _)); [reflexivity|done|reflexivity].
Defined.

(** Closures change hands as a pair.  After a submission or a request to await,
    either the scheduler has both closures, exactly as they were, and the
    caller's are null, or the caller still has both and the scheduler has taken
    neither. *)
Theorem closures_change_hands running accepted slot h generation states work completion wi ri :
  (let '(w, c, task) := mudmux_workers_submit running accepted work completion in
   (w = null_closure ∧ c = null_closure ∧ task = Some (work, completion)
      ∧ async_closure_is_valid work = true ∧ async_closure_is_valid completion = true)
   ∨ (w = work ∧ c = completion ∧ task = None))
  ∧ (let '(states', w, r, ok) := mudmux_workers_await running slot h generation states work completion wi ri in
     let st := state_of states' (Z.to_nat slot) in
     (ok = true ∧ w = null_closure ∧ r = null_closure ∧ await_requested st = true
        ∧ await_work st = Some wi ∧ await_resume st = Some ri ∧ await_generation st = generation)
     ∨ (ok = false ∧ w = work ∧ r = completion ∧ ∀ k, state_of states' k = state_of states k)).
Proof.
  split.
  - unfold mudmux_workers_submit. destruct (async_closure_is_valid work), (async_closure_is_valid completion), running;
      cbn; try (right; done). destruct accepted; [left|right]; done.
  - unfold mudmux_workers_await. destruct (Z.ltb_spec slot 0) as [L|L].
    { rewrite orb_true_r. right. done. }
    destruct (_ || (generation =? 0)%Z); [by right|].
    destruct (in_slot _ _ _ _) as [x s1] eqn:E. rewrite <- (Z2Nat.id slot) in E by lia. rewrite Nat2Z.id in E.
    apply in_slot_cases in E as [E F]; [|left; apply ensure_is_Some]. rewrite ensure_state_of in E.
    unfold await_section in E. destruct (_ || _) in E; injection E as <- E'.
    + right. split_and!; try done. intros k. destruct (decide (k = Z.to_nat slot)) as [->|N]; [done|].
      by rewrite F, ensure_state_of.
    + left. rewrite <- E'. done.
Qed.
