(* ===== verification/AppHost.v ===== *)
(** * Applications whose callbacks run on the event loop (src/hooks.cpp)

    The host of lib/comm in strict mode: a hook runs on the thread that dispatches
    it, calls the communication API for its slot, and the dispatch ends with
    [comm_flush_all].  Callbacks are arbitrary finite programs of API calls, each
    chosen from the state it finds; what they call may dispatch hooks again, to
    any depth.  The laws the close protocol asks of its host are proved for all
    of them. *)

From stdpp Require Import relations.
From S2P Require Import Prelude InBuf OutBuf Abstract Execution WsFrame WsConn World Outbound InputMode.

(** ** Programs of API calls *)

(** The entries of [mudmux_comm_api_v1_t] that act on a connected slot. *)
Inductive comm_call :=
  | ApiBufferedWrite (buf : list Z)
  | ApiAddMessage (buf : list Z)
  | ApiClose
  | ApiSetLineInput (echo : bool)
  | ApiSetCharInput
  | ApiSetEcho (echo : bool)
  | ApiEnablePrompt (enable : bool).

(** The callbacks: what each hook calls, in order, and what it returns. *)
Record application := {
  app_calls : hook_call → list (world → comm_call);
  app_return : hook_call → world → Z
}.

Section Application.
Context (base : Host) (app : application).

(** The host with another dispatch; hooks run inline and none is ever awaited. *)
Definition host_with (d : hook_call → world → world * dispatch_result) : Host := {|
  host_slot := host_slot;
  dispatch := d;
  busy := fun _ => false;
  hook_async := fun _ => false;
  has_hook := has_hook;
  bio_has_fd := bio_has_fd;
  file_inputs := file_inputs;
  tty_ok := tty_ok;
  host_write := host_write;
  host_slots := host_slots
|}.

(** The thread's slot and hook type in a callback; a disconnect has no slot set. *)
Definition callback_ctx (h : hook_call) : hook_ctx :=
  {| current_slot := if bool_decide (hc_type h = HOOK_DISCONNECT) then -1 else host_slot;
     current_hook := hc_type h |}.

Definition run_api (H : Host) (ctx : hook_ctx) (call : comm_call) (w : world) : world :=
  match call with
  | ApiBufferedWrite buf => comm_buffered_write ctx buf w
  | ApiAddMessage buf => comm_add_message ctx buf w
  | ApiClose => (comm_close w).1
  | ApiSetLineInput echo => (comm_set_line_input echo w).1
  | ApiSetCharInput => (comm_set_char_input w).1
  | ApiSetEcho echo => (comm_set_echo echo w).1
  | ApiEnablePrompt enable => comm_enable_prompt enable w
  end.

(** [comm_flush_all] on this slot: the flush, and the progress of a close. *)
Definition flush_all (H : Host) (w : world) : world :=
  let w := default w (comm_flush 3 w) in
  if flag w C_CLOSING && negb (flag w C_AWAITING_HOOK) then (comm_close w).1 else w.

(** [mudmux_invoke_hook] with [flush_after]. *)
Definition invoke_callback (H : Host) (h : hook_call) (w : world) : world * Z :=
  let w := foldl (fun w call => run_api H (callback_ctx h) (call w) w) w (app_calls app h) in
  (flush_all H w, app_return app h w).

(** [mudmux_execution_dispatch] in strict mode, with hooks that nest at most [n]
    deep. *)
Fixpoint strict_dispatch (n : nat) (h : hook_call) (w : world) : world * dispatch_result :=
  match n with
  | 0 => (w, DISPATCH_ERROR)
  | S m =>
      if has_hook (hc_type h) then
        let '(w', ret) := invoke_callback (host_with (strict_dispatch m)) h w in
        (w', if (ret <? 0)%Z then DISPATCH_ERROR else DISPATCH_OK)
      else (w, DISPATCH_OK)
  end.

Definition strict_host (n : nat) : Host := host_with (strict_dispatch n).

End Application.

(** ** Steps that leave the close protocol alone *)

(** The hooks a worker accepted, in order. *)
Definition queued_hook (e : effect) : option hook_call :=
  match e with EAnswer h DISPATCH_QUEUED => Some h | _ => None end.
Definition accepted_hooks (w : world) : list hook_call := omap queued_hook (log w).

Lemma accepted_emit w e :
  accepted_hooks (emit w e) = accepted_hooks w ++ match queued_hook e with Some h => [h] | None => [] end.
Proof. unfold accepted_hooks. cbn [emit log]. rewrite omap_app. cbn. by destruct (queued_hook e). Qed.

Record steady (w w' : world) : Prop := {
  sy_phase : phase w' = phase w;
  sy_settled : settled w' = settled w;
  sy_accepted : accepted_hooks w' = accepted_hooks w;
  sy_awaiting : flag w C_CLOSING = true → flag w' C_AWAITING_HOOK = flag w C_AWAITING_HOOK
}.

Lemma phase_closing w : flag w C_CLOSING = match phase w with Some (b, _) => b | None => false end.
Proof. unfold flag, flags_of, phase. by destruct (comm w). Qed.

#[export] Instance steady_preorder : PreOrder steady.
Proof.
  split; [done|]. intros u v w [A1 A2 A4 A3] [B1 B2 B4 B3]. split; [congruence..|].
  intros Hc. rewrite B3, A3; [done..|]. rewrite phase_closing, A1, <- phase_closing. done.
Qed.

(** The bits of the close protocol. *)
Definition close_bits : Z := Z.lor (Z.lor C_CLOSING C_DISCONNECT_PENDING) C_AWAITING_HOOK.

Lemma close_bits_disjoint a : Z.land a close_bits = 0%Z →
  Z.land a C_CLOSING = 0%Z ∧ Z.land a C_DISCONNECT_PENDING = 0%Z ∧ Z.land a C_AWAITING_HOOK = 0%Z.
Proof.
  unfold close_bits. rewrite !Z.land_lor_distr_r.
  by intros [[? ?]%Z.lor_eq_0_iff ?]%Z.lor_eq_0_iff.
Qed.

(** A step that keeps the log and the three flags. *)
Lemma steady_comm w w' c c' :
  comm w = Some c → comm w' = Some c' → log w' = log w →
  (∀ b, Z.land close_bits b = b → has_flag (flags c') b = has_flag (flags c) b) → steady w w'.
Proof.
  intros E E' L F. split.
  - unfold phase. rewrite E, E'. cbn. by rewrite !F.
  - unfold settled. by rewrite L.
  - unfold accepted_hooks. by rewrite L.
  - intros _. unfold flag, flags_of. rewrite E, E'. by apply F.
Qed.

Lemma steady_emit w e : settles e = false → queued_hook e = None → steady w (emit w e).
Proof.
  intros Hs Ha. split; [done|..|done]; [rewrite settled_emit, Hs; lia|].
  by rewrite accepted_emit, Ha, app_nil_r.
Qed.

Lemma steady_fails w : steady w (fails w).
Proof. done. Qed.

Lemma steady_flags f w :
  (∀ z b, Z.land close_bits b = b → has_flag (f z) b = has_flag z b) → steady w (set_flags_w f w).
Proof.
  intros Hf. destruct (comm w) as [c|] eqn:E.
  - eapply steady_comm; [done|unfold set_flags_w; by rewrite E|unfold set_flags_w; by rewrite E|].
    intros b Hb. by apply Hf.
  - unfold set_flags_w. by rewrite E.
Qed.

Lemma disjoint_sub a b : Z.land a close_bits = 0%Z → Z.land close_bits b = b → Z.land a b = 0%Z.
Proof. intros Ha Hb. by rewrite <- Hb, Z.land_assoc, Ha, Z.land_0_l. Qed.

Lemma steady_raise a w : Z.land a close_bits = 0%Z → steady w (raise a w).
Proof. intros Ha. apply steady_flags. intros z b Hb. by apply has_flag_set_other, disjoint_sub. Qed.
Lemma steady_lower a w : Z.land a close_bits = 0%Z → steady w (lower a w).
Proof. intros Ha. apply steady_flags. intros z b Hb. by apply has_flag_clear_other, disjoint_sub. Qed.

Lemma steady_on_conn `{Host} f w : keeps_flags f → steady w (on_conn f w).
Proof.
  intros Hf. unfold on_conn. destruct (comm w) as [c|] eqn:E; [|done]. cbn zeta.
  eapply steady_comm; [done|done|done|]. intros b Hb. apply (Hf {| cn := c; cn_pool := opool w |}).
  by apply disjoint_sub.
Qed.

Create HintDb steady.
#[export] Hint Resolve steady_emit steady_fails steady_raise steady_lower steady_on_conn : steady.
#[export] Hint Extern 1 (Z.land _ _ = _) => reflexivity : steady.

(** ** What the API may do *)

Section Closed.
Context `{Host}.

(** Steps of the program, closed under composition, among them every steady one. *)
Context (R : relation world) `{!PreOrder R}.
Hypothesis steady_R : ∀ w w', steady w w' → R w w'.
#[local] Hint Resolve steady_R : steady.

(** The transport-ready hook is such a step. *)
Hypothesis ready_R : ∀ w, R w (comm_invoke_transport_ready w).

Lemma negotiation_keeps : keeps_flags comm_start_telnet_negotiation.
Proof.
  intros x b Hb. unfold comm_start_telnet_negotiation. destruct (has_flag _ C_ENABLE_TELNET); [|done].
  unfold start_telnet_negotiation. destruct (ssl (cn x)); [done|]. cbn zeta.
  unfold comm_telnet_send_will, comm_telnet_send_do, comm_telnet_send_wont. by rewrite !telnet_send_keeps.
Qed.

Lemma steady_free_outbound w : steady w (comm_free_outbound_buffers w).
Proof. unfold comm_free_outbound_buffers. destruct (comm w) eqn:E; [|done]. by eapply steady_comm. Qed.

Lemma steady_interest w b : steady w (update_slot_event_interest w b).
Proof.
  unfold update_slot_event_interest. destruct (comm w); [|done]. destruct (get_socket_fd _); [|done]. by apply steady_emit.
Qed.

Lemma steady_tls w l : steady w (with_tls w l).
Proof. done. Qed.

Lemma steady_failed w c : steady w (flush_failed w c).
Proof.
  unfold flush_failed. cbn zeta. set (v := if _ && _ then _ else w).
  assert (steady w v) by (unfold v; destruct (_ && _); [by apply steady_lower|done]).
  etransitivity; [done|]. etransitivity; [apply steady_free_outbound|].
  etransitivity; [apply (steady_lower C_BUFFERED_WRITE); reflexivity|].
  destruct (flag w C_CLOSING); [done|by apply steady_emit].
Qed.

Lemma steady_settle w : steady w (flush_settle w).
Proof.
  unfold flush_settle, deref. destruct (comm w) as [c|]; [|done].
  destruct (negb _); [done|]. destruct (outbound c); cbn zeta.
  2:{ destruct (flag w C_SOCKET_WRITABLE); [done|]. etransitivity; [|by apply steady_emit]. by apply steady_raise. }
  set (v := if flag w C_SOCKET_WRITABLE then _ else w).
  assert (steady w v).
  { unfold v. destruct (flag w C_SOCKET_WRITABLE); [|done].
    etransitivity; [apply (steady_emit w (EModify false)); reflexivity|by apply steady_lower]. }
  etransitivity; [done|]. etransitivity; [apply (steady_lower C_BUFFERED_WRITE); reflexivity|].
  destruct (_ && _); [|done]. destruct (_ && _); by apply steady_emit.
Qed.
#[local] Hint Resolve steady_free_outbound steady_interest steady_tls steady_failed steady_settle : steady.

Lemma handshake_steps w : R w (comm_tls_handshake_step w).1.
Proof using Type*.
  unfold comm_tls_handshake_step. destruct (comm w) as [c|]; [|done].
  destruct (_ || _); [done|]. destruct (tls w) as [|[] rest]; cbn [fst]; [by eauto with steady|..];
    (transitivity (with_tls w rest); [by apply steady_R|]).
  - transitivity (raise C_TLS_ESTABLISHED (with_tls w rest)); [by eauto with steady|done].
  - transitivity (raise C_TLS_ESTABLISHED (with_tls w rest)); [by eauto with steady|].
    etransitivity; [|apply ready_R]. by eauto with steady.
  - by eauto with steady.
  - by eauto with steady.
  - done.
Qed.

Lemma barrier_steps rec w w' :
  (∀ v v', rec v = Some v' → R v v') → flush_barrier rec w = Some w' → R w w'.
Proof using Type*.
  intros Hrec. unfold flush_barrier. destruct (comm w) as [c|] eqn:Hc; [|intros [= <-]; by eauto with steady]. cbn zeta.
  destruct (_ && _ && _).
  - set (v := raise C_BUFFERED_WRITE _).
    assert (R w (comm_invoke_transport_ready v)).
    { etransitivity; [|apply ready_R]. unfold v.
      etransitivity; [|apply steady_R, steady_raise; reflexivity]. apply steady_R. by eapply steady_comm. }
    destruct (comm (comm_invoke_transport_ready v)); [|by intros [= <-]].
    intros E. etransitivity; [done|by apply Hrec].
  - intros [= <-]. etransitivity; [|apply steady_R, steady_settle]. destruct (_ && _); [apply ready_R|done].
Qed.

Lemma queue_steps rec w w' :
  (∀ v v', rec v = Some v' → R v v') → flush_queue rec w = Some w' → R w w'.
Proof using Type*.
  intros Hrec. unfold flush_queue. destruct (comm w) as [c|] eqn:Hc; [|intros [= <-]; by eauto with steady]. cbn zeta.
  set (d := drain _ _ _ _). set (w1 := with_writes _ _ _).
  assert (steady w w1) by (by eapply steady_comm). set (w2 := emit _ EFlush).
  assert (R w w2).
  { apply steady_R. etransitivity; [done|]. unfold w2. etransitivity; [|by apply steady_emit].
    destruct (dr_failed d); [apply steady_failed|done]. }
  intros E. etransitivity; [done|]. revert E.
  destruct (comm w2) as [c2|] eqn:Hc2; [|intros [= <-]; by eauto with steady].
  destruct (_ && _); [|by apply barrier_steps]. set (w3 := set_flags_w _ w2).
  assert (R w2 w3).
  { apply steady_R, steady_flags. intros z b Hb. apply has_flag_set_state. by apply disjoint_sub. }
  destruct (flag w3 C_CLOSING).
  - intros E. etransitivity; [done|]. by eapply barrier_steps.
  - intros E. etransitivity; [done|]. etransitivity; [apply steady_R, steady_on_conn, negotiation_keeps|by apply Hrec].
Qed.

Lemma flush_steps n w w' : comm_flush n w = Some w' → R w w'.
Proof using Type*.
  revert w w'. induction n as [|n IH]; intros w w'; cbn [comm_flush]; [done|].
  destruct (comm w) as [c|]; [|by intros [= <-]]. destruct (bool_decide _); [by intros [= <-]|].
  destruct (_ && _); [|by apply queue_steps].
  pose proof (handshake_steps w) as Hs. destruct (comm_tls_handshake_step w) as [w1 hs]. cbn [fst] in Hs.
  intros E. etransitivity; [exact Hs|]. revert E.
  destruct (hs <? 0)%Z; [|destruct (hs =? 0)%Z; [|by apply queue_steps]]; intros [= <-]; apply steady_R;
    unfold deref; (destruct (comm w1); [|done]); [destruct (flag w1 C_CLOSING); [done|]|]; by apply steady_emit.
Qed.

(** The input modes and the prompt setting. *)
Lemma steady_echo echo w : steady w (comm_set_echo echo w).1.
Proof.
  assert (E : ∀ v, steady v (set_client_echo echo v)) by (intros v; destruct echo; [by apply steady_raise|by apply steady_lower]).
  unfold comm_set_echo. destruct (comm w); [|done]. destruct is_console.
  - destruct tty_ok; [|done]. cbn [fst]. etransitivity; [|apply E]. by apply steady_emit.
  - cbn [fst]. etransitivity; [|apply E]. apply steady_on_conn, echo_keeps.
Qed.

Lemma steady_line echo w : steady w (comm_set_line_input echo w).1.
Proof.
  unfold comm_set_line_input. destruct (comm w) as [c|]; [|done]. destruct (has_flag _ _); [apply steady_echo|].
  destruct is_console.
  - destruct tty_ok; [|done]. etransitivity; [|apply steady_echo].
    etransitivity; [|by apply steady_raise]. by apply steady_emit.
  - etransitivity; [|apply steady_echo]. etransitivity; [|by apply steady_raise].
    destruct (has_flag _ _); [apply steady_on_conn, line_input_keeps|done].
Qed.

Lemma steady_char w : steady w (comm_set_char_input w).1.
Proof.
  unfold comm_set_char_input. destruct (comm w) as [c|]; [|done]. destruct (negb _); [apply steady_echo|].
  destruct is_console; [|destruct (has_flag _ _)].
  - destruct tty_ok; [|done]. etransitivity; [|apply steady_echo].
    etransitivity; [|by apply steady_lower]. by apply steady_emit.
  - cbn [fst]. etransitivity; [|by apply steady_lower]. apply steady_on_conn, line_input_keeps.
  - etransitivity; [|apply steady_echo]. by apply steady_lower.
Qed.

Lemma steady_write ctx buf w : steady w (comm_buffered_write ctx buf w).
Proof.
  unfold comm_buffered_write. cbn zeta. destruct (_ && _); [done|]. destruct (_ && _); [done|].
  etransitivity; [|apply steady_on_conn; intros x b Hb; by apply (write_impl_keeps buf true)].
  destruct (_ && _); [by apply steady_lower|done].
Qed.

End Closed.

(** ** Callbacks *)

Section Callbacks.
Context (base : Host) (app : application) (R : relation world) `{!PreOrder R}.
Hypothesis steady_R : ∀ w w', steady w w' → R w w'.

Abbreviation host n := (strict_host base app n).

Lemma strict_answer n h w : (strict_dispatch base app n h w).2 ≠ DISPATCH_QUEUED.
Proof.
  destruct n; cbn [strict_dispatch]; [done|]. destruct (has_hook _); [|done].
  destruct (invoke_callback _ _ _ _ _) as [v ret]. by destruct (ret <? 0)%Z.
Qed.

(** A hook other than the disconnect one is dispatched by steps of [R]. *)
Lemma do_dispatch_steps n h w :
  (∀ v, R v (strict_dispatch base app n h v).1) → hc_type h ≠ HOOK_DISCONNECT →
  R w (do_dispatch (H := host n) h id w).1.
Proof using Type*.
  intros Hd Ht. unfold do_dispatch. cbn [dispatch host_with strict_host hook_async].
  specialize (Hd (emit w (EDispatch h))). pose proof (strict_answer n h (emit w (EDispatch h))) as Hr.
  destruct (strict_dispatch base app n h _) as [w' r]. cbn [fst snd] in *.
  etransitivity; [apply steady_R, (steady_emit w (EDispatch h)); reflexivity|].
  etransitivity; [exact Hd|]. apply steady_R, steady_emit; [cbn; by rewrite bool_decide_eq_false_2|by destruct r].
Qed.

Section Depth.
Context (n : nat).
Hypothesis dispatch_R : ∀ h w, R w (strict_dispatch base app n h w).1.
Hypothesis ready_R : ∀ w, R w (comm_invoke_transport_ready (H := host n) w).
Hypothesis close_R : ∀ w, R w (comm_close (H := host n) w).1.

Lemma run_api_steps ctx call w : R w (run_api (host n) ctx call w).
Proof using Type*.
  destruct call as [buf|buf| |echo| |echo|[]]; cbn [run_api].
  - apply steady_R, steady_write.
  - unfold comm_add_message. destruct (_ =? 0); [done|]. destruct (output_hook _); [done|].
    destruct (has_hook _); [apply do_dispatch_steps; [intros; apply dispatch_R|done]|apply steady_R, steady_write].
  - apply close_R.
  - apply steady_R, steady_line.
  - apply steady_R, steady_char.
  - apply steady_R, steady_echo.
  - apply steady_R, steady_raise. reflexivity.
  - apply steady_R, steady_lower. reflexivity.
Qed.

Lemma flush_all_steps w : R w (flush_all (host n) w).
Proof using Type*.
  unfold flush_all. cbn zeta. set (v := default w _).
  assert (R w v).
  { unfold v. destruct (comm_flush 3 w) as [v'|] eqn:E; [|reflexivity].
    by apply (flush_steps R steady_R ready_R 3). }
  etransitivity; [done|]. destruct (_ && _); [apply close_R|done].
Qed.

Lemma callback_steps h w : R w (invoke_callback base app (host n) h w).1.
Proof using Type*.
  unfold invoke_callback. cbn [fst]. etransitivity; [|apply flush_all_steps].
  generalize w. induction (app_calls app h) as [|call calls IH]; intros v; [done|]. cbn [foldl].
  etransitivity; [|apply IH]. apply run_api_steps.
Qed.
End Depth.

(** Hooks are steps of [R], however deep they nest, when the two functions that
    dispatch them are. *)
Lemma strict_dispatch_steps :
  (∀ n, (∀ h w, R w (strict_dispatch base app n h w).1) → ∀ w, R w (comm_invoke_transport_ready (H := host n) w)) →
  (∀ n, (∀ h w, R w (strict_dispatch base app n h w).1) → ∀ w, R w (comm_close (H := host n) w).1) →
  ∀ n h w, R w (strict_dispatch base app n h w).1.
Proof using Type*.
  intros Hr Hc n. induction n as [|n IH]; intros h w; [done|]. cbn [strict_dispatch].
  destruct (has_hook _); [|done]. pose proof (callback_steps n IH (Hr n IH) (Hc n IH) h w) as E.
  unfold strict_host in E. by destruct (invoke_callback _ _ _ _ _).
Qed.
End Callbacks.

(** ** The laws of the host *)

Section Laws.
Context (base : Host) (app : application).
Abbreviation host n := (strict_host base app n).

(** While the disconnect hook runs, everything is steady. *)
Definition notifying (w : world) : Prop := phase w = Some (true, false) ∧ flag w C_AWAITING_HOOK = true.
Definition while_notifying (w w' : world) : Prop := notifying w → steady w w'.

#[local] Instance while_notifying_preorder : PreOrder while_notifying.
Proof.
  split; [done|]. intros u v w A B N. specialize (A N). etransitivity; [exact A|]. apply B.
  destruct N as [N1 N2], A as [A1 A2 _ A3]. split; [congruence|]. rewrite A3; [done|]. by rewrite phase_closing, N1.
Qed.

Lemma notifying_ready n w : while_notifying w (comm_invoke_transport_ready (H := host n) w).
Proof.
  intros [N _]. unfold comm_invoke_transport_ready. unfold phase in N. destruct (comm w) as [c|]; [|done].
  cbn in N. injection N as N _. by rewrite has_flag_lor, N.
Qed.

Lemma notifying_close n w : while_notifying w (comm_close (H := host n) w).1.
Proof.
  intros [N A]. unfold comm_close, comm_close_impl. unfold phase in N. unfold flag, flags_of in A.
  destruct (comm w) as [c|] eqn:Hc; [|done]. cbn in N. injection N as -> ->. cbn [negb orb].
  unfold close_tail. rewrite Hc. cbn zeta. by rewrite A.
Qed.

#[export] Instance strict_close n : CloseHost (H := host n).
Proof.
  intros w Hp Ha w'. assert (S : steady w w').
  { unfold w'. cbn [dispatch host_with strict_host].
    apply (strict_dispatch_steps base app while_notifying); [|intros; apply notifying_ready|intros; apply notifying_close|done].
    by intros v v' S _. }
  split; [|apply S]. rewrite (sy_phase _ _ S). exact Hp.
Qed.

(** Every hook keeps the notification counted. *)
Definition keeps_life (w w' : world) : Prop := life_inv w → life_inv w'.

#[local] Instance keeps_life_preorder : PreOrder keeps_life.
Proof. split; [by intros w N|]. intros u v w A B N. by apply B, A. Qed.

Lemma steady_life w w' : phase w' = phase w → settled w' = settled w → keeps_life w w'.
Proof. intros A B. unfold keeps_life, life_inv. by rewrite A, B. Qed.

Lemma life_ready n :
  (∀ h w, keeps_life w (strict_dispatch base app n h w).1) →
  ∀ w, keeps_life w (comm_invoke_transport_ready (H := host n) w).
Proof.
  intros Hd w. unfold comm_invoke_transport_ready. destruct (comm w) as [c|]; [|done].
  destruct (has_flag _ _); [done|]. destruct (tls_pending w); [done|]. destruct (upgrade_pending _); [done|].
  cbn zeta. cbn [hook_async host_with strict_host]. set (h := slot_hook HOOK_TRANSPORT_READY).
  pose proof (do_dispatch_steps base app keeps_life (λ w w' S, steady_life w w' (sy_phase _ _ S) (sy_settled _ _ S))
                n h (raise C_TRANSPORT_READY w) (Hd h)) as D.
  destruct (do_dispatch h id _) as [w' r]. cbn [fst] in D.
  assert (K : keeps_life w w').
  { etransitivity; [|by apply D]. destruct (phase_flags (fun f => set_flag f C_TRANSPORT_READY) w) as [A B];
      [intros z; by flag_simpl|]. by apply steady_life. }
  destruct (mudmux_dispatch_accepted r); [done|]. etransitivity; [exact K|].
  unfold deref. destruct (comm w'); [|by apply steady_life]. destruct (phase_lower (Z.lor C_TRANSPORT_READY C_AWAITING_HOOK) w' eq_refl) as [A B].
  by apply steady_life.
Qed.

Lemma life_close n w : keeps_life w (comm_close (H := host n) w).1.
Proof. intros Hi. eapply (life_step_inv (H := host n) (laws := strict_close n)); [exact Hi|apply ls_close]. Qed.

Lemma strict_dispatch_life n h w : keeps_life w (strict_dispatch base app n h w).1.
Proof.
  apply (strict_dispatch_steps base app keeps_life).
  - intros v v' S. by apply steady_life; apply S.
  - apply life_ready.
  - intros m _. apply life_close.
Qed.

(** What happens to a slot of a strict server: closes by the event loop, hooks,
    flushes, API calls of callbacks that belong to no slot (timers, events), and
    steps of the rest of the program, which neither remove the slot nor touch the
    close protocol. *)
Inductive app_step (n : nat) : world → world → Prop :=
  | as_close b w : app_step n w (comm_close_impl (H := host n) b w).1
  | as_hook h w : hc_type h ≠ HOOK_DISCONNECT → app_step n w (do_dispatch (H := host n) h id w).1
  | as_flush w : app_step n w (flush_all (host n) w)
  | as_api ctx call w : app_step n w (run_api (host n) ctx call w)
  | as_other w w' : is_Some (comm w) → phase w' = phase w → settled w' = settled w → app_step n w w'.

Lemma app_step_life n w w' : app_step n w w' → keeps_life w w'.
Proof.
  assert (SR : ∀ v v', steady v v' → keeps_life v v') by (intros v v' S; by apply steady_life; apply S).
  pose proof (strict_dispatch_life n) as D. pose proof (life_ready n D) as T.
  destruct 1 as [b v|h v Ht|v|ctx call v|v v' Hv A B].
  - intros Hi. eapply (life_step_inv (H := host n) (laws := strict_close n)); [exact Hi|apply ls_close].
  - by apply (do_dispatch_steps base app keeps_life SR).
  - apply (flush_all_steps base app keeps_life SR n D T), life_close.
  - apply (run_api_steps base app keeps_life SR n D T), life_close.
  - by apply steady_life.
Qed.

Lemma app_steps_life n w w' : rtc (app_step n) w w' → keeps_life w w'.
Proof. induction 1 as [w|w v w' S _ IH]; [by intros Hi|]. intros Hi. by apply IH, (app_step_life n w v). Qed.

(** C11: one disconnect notification for every strict application.  Whatever the
    callbacks write, send, switch or close, in whatever hook and however deeply
    their calls nest - a close from the disconnect hook itself included - a
    connection is told of its end at most once, and exactly once when its slot
    is gone. *)
Theorem strict_disconnect_once n w0 w :
  phase w0 = Some (false, false) → settled w0 = 0 → rtc (app_step n) w0 w →
  settled w ≤ 1 ∧ (comm w = None → settled w = 1).
Proof.
  intros Hp Hs Hr. assert (life_inv w) as Hi.
  { apply (app_steps_life n w0 w Hr). unfold life_inv. by rewrite Hp. }
  unfold life_inv, phase in Hi. destruct (comm w) as [c|]; cbn in Hi; [|split; [lia|done]].
  split; [|done]. destruct (has_flag (flags c) C_CLOSING); [|lia].
  destruct (has_flag (flags c) C_DISCONNECT_PENDING); lia.
Qed.
End Laws.

(** ** Witnesses *)

(** Slot 5 over BIOs 1 and 2, with every hook registered. *)
Definition hooked_host : Host := {|
  host_slot := 5;
  dispatch := fun _ w => (w, DISPATCH_OK);
  busy := fun _ => false;
  hook_async := fun _ => false;
  has_hook := fun h => negb (bool_decide (h = HOOK_MESSAGE_OUTBOUND));
  bio_has_fd := fun b => b <? 10;
  file_inputs := false;
  tty_ok := true;
  host_write := fun _ => true;
  host_slots := {| alloc_ok := fun _ => true; unix_path := fun _ => None |}
|}.

(** It answers a message and hangs up; when told of the end it closes again and
    says goodbye. *)
Definition farewell : application := {|
  app_calls h := match hc_type h with
                 | HOOK_MESSAGE_INBOUND => [fun _ => ApiAddMessage (hc_data h); fun _ => ApiClose]
                 | HOOK_DISCONNECT => [fun _ => ApiClose; fun _ => ApiAddMessage [98; 121; 101]%Z]
                 | _ => []
                 end;
  app_return _ _ := 0%Z
|}.

Lemma strict_disconnect_once_witness :
  let host := strict_host hooked_host farewell 4 in
  let w := demo_world [] [] C_TRANSPORT_READY None [WrOk 4096; WrOk 4096; WrOk 4096] [] in
  let w' := (do_dispatch (H := host) {| hc_type := HOOK_MESSAGE_INBOUND; hc_msg := 5; hc_data := [104; 105]%Z |} id w).1 in
  comm w' = None ∧ sent w' = [104; 105; 98; 121; 101]%Z ∧ settled w' = 1.
Proof.
  intros host w w'. split; [vm_compute; reflexivity|]. split; [vm_compute; reflexivity|].
  refine (proj2 (strict_disconnect_once hooked_host farewell 4 w w' eq_refl eq_refl _) _); [|vm_compute; reflexivity].
  apply rtc_once. by apply as_hook.
Defined.
