(* ===== verification/Chatroom.v ===== *)
(** * The chat room (examples/chatroom)

    The sample application of the library: its users and their registry, the
    login, chat lines and slash commands, the menus, and the hooks that main.cpp
    registers.  User objects are shared by reference: they live in a store and
    the registry holds their numbers, since a close inside a handler lets the
    disconnect hook change the user that the handler goes on using.  Calls on
    the library are recorded in order.  In strict mode the hooks they dispatch
    run inside the call, otherwise they come as events of their own. *)

From stdpp Require Import gmap.
From stdpp Require pretty.
From S2P Require Import Prelude TextUtil.

(** ** Data *)

Inductive UserState := Disconnected | Connected | PreLogin | LoggedIn.
#[export] Instance UserState_eq_dec : EqDecision UserState.
Proof. solve_decision. Defined.

Record Menu := { title : list Z; options : list (list Z); selected_index : Z; cursor_position : Z }.

(** The member functions an inbound handler may point to. *)
Inductive handler := receiveUsername_h | receiveExitConfirmation_h.

Record User := {
  username : list Z;
  comm_slot : Z;
  state : UserState;
  idle_time : nat;
  inbound_handler : option handler;
  prompt_handler : bool;              (* set: [promptCurrentMenu] *)
  menu : option Menu
}.

(** Calls on the library. *)
Inductive chat_effect :=
  | XWrite (slot : Z) (buf : list Z)      (* comm_buffered_write *)
  | XMessage (slot : Z) (buf : list Z)    (* comm_add_message *)
  | XClose (slot : Z)
  | XCharInput (slot : Z)
  | XLineInput (slot : Z) (echo : bool)
  | XPrompt (slot : Z) (enable : bool)
  | XTerminal (slot : Z).

Record chat := {
  store : gmap nat User;
  fresh : nat;                        (* the next object *)
  registry : list (option nat);       (* [User::slots] *)
  open : gset Z;                      (* connections whose disconnect hook has not run *)
  now : nat;
  out : list chat_effect
}.

Definition chat_init : chat :=
  {| store := ∅; fresh := 0; registry := []; open := ∅; now := 0; out := [] |}.

Definition with_store (m : gmap nat User) (c : chat) : chat :=
  {| store := m; fresh := fresh c; registry := registry c; open := open c; now := now c; out := out c |}.
Definition with_registry (l : list (option nat)) (c : chat) : chat :=
  {| store := store c; fresh := fresh c; registry := l; open := open c; now := now c; out := out c |}.
Definition with_open (s : gset Z) (c : chat) : chat :=
  {| store := store c; fresh := fresh c; registry := registry c; open := s; now := now c; out := out c |}.
Definition emits (e : chat_effect) (c : chat) : chat :=
  {| store := store c; fresh := fresh c; registry := registry c; open := open c; now := now c; out := out c ++ [e] |}.

Definition set_comm_slot (s : Z) (u : User) : User :=
  {| username := username u; comm_slot := s; state := state u; idle_time := idle_time u;
     inbound_handler := inbound_handler u; prompt_handler := prompt_handler u; menu := menu u |}.
Definition set_state (s : UserState) (u : User) : User :=
  {| username := username u; comm_slot := comm_slot u; state := s; idle_time := idle_time u;
     inbound_handler := inbound_handler u; prompt_handler := prompt_handler u; menu := menu u |}.
Definition set_username (n : list Z) (u : User) : User :=
  {| username := n; comm_slot := comm_slot u; state := state u; idle_time := idle_time u;
     inbound_handler := inbound_handler u; prompt_handler := prompt_handler u; menu := menu u |}.
Definition set_idle_time (t : nat) (u : User) : User :=
  {| username := username u; comm_slot := comm_slot u; state := state u; idle_time := t;
     inbound_handler := inbound_handler u; prompt_handler := prompt_handler u; menu := menu u |}.
Definition set_inbound_handler (h : option handler) (u : User) : User :=
  {| username := username u; comm_slot := comm_slot u; state := state u; idle_time := idle_time u;
     inbound_handler := h; prompt_handler := prompt_handler u; menu := menu u |}.
Definition set_menu (p : bool) (m : option Menu) (u : User) : User :=
  {| username := username u; comm_slot := comm_slot u; state := state u; idle_time := idle_time u;
     inbound_handler := inbound_handler u; prompt_handler := p; menu := m |}.

(** [user->...]: the object as it is now. *)
Definition upd (f : User → User) (i : nat) (c : chat) : chat := with_store (alter f i (store c)) c.
Definition the (i : nat) (c : chat) : User :=
  default {| username := []; comm_slot := -1; state := Disconnected; idle_time := 0;
             inbound_handler := None; prompt_handler := false; menu := None |} (store c !! i).

(** ** The registry (user.cpp) *)

Definition new_user (slot : Z) (now : nat) : User :=
  {| username := []; comm_slot := slot; state := Disconnected; idle_time := now;
     inbound_handler := None; prompt_handler := false; menu := None |}.

Definition resize (n : nat) (l : list (option nat)) : list (option nat) :=
  take n l ++ replicate (n - length l) None.

(** [User::connect]. *)
Definition connect (slot : Z) (c : chat) : chat * option nat :=
  if (slot <? 0)%Z then (c, None)
  else
    let l := if (Z.of_nat (length (registry c)) <=? slot)%Z then resize (Z.to_nat slot + 32) (registry c) else registry c in
    let i := fresh c in
    ({| store := <[i := new_user slot (now c)]> (store c); fresh := S i;
        registry := <[Z.to_nat slot := Some i]> l; open := open c; now := now c; out := out c |}, Some i).

(** [User::find]. *)
Definition find (slot : Z) (c : chat) : option nat :=
  if (slot <? 0)%Z then None else mjoin (registry c !! Z.to_nat slot).

(** [User::take]: the slot is emptied by the move. *)
Definition take_user (slot : Z) (c : chat) : chat * option nat :=
  if (slot <? 0)%Z || (Z.of_nat (length (registry c)) <=? slot)%Z then (c, None)
  else (with_registry (<[Z.to_nat slot := None]> (registry c)) c, find slot c).

(** [User::snapshot], without its null entries. *)
Definition snapshot (c : chat) : list nat := omap id (registry c).

(** ** Menus (menu.cpp) *)

Definition CSI : list Z := [27; 91]%Z.
Definition CLR : list Z := CSI ++ [74]%Z.
Definition CUU : list Z := CSI ++ [65]%Z.
Definition CUD : list Z := CSI ++ [66]%Z.
Definition CUU_ (n : nat) : list Z := CSI ++ bytes_of_string (pretty.pretty (N.of_nat n)) ++ [65]%Z.
Definition RESET : list Z := CSI ++ bytes_of_string "0m".
Definition INV : list Z := CSI ++ bytes_of_string "7m".

Definition new_menu (title_ : list Z) (pos : Z) : Menu :=
  {| title := title_; options := []; selected_index := -1; cursor_position := pos |}.

Definition addOption (option : list Z) (m : Menu) : Menu :=
  {| title := title m; options := options m ++ [option]; selected_index := selected_index m;
     cursor_position := cursor_position m |}.

Definition menu_line (cursor : Z) (i : nat) (option : list Z) : list Z :=
  if (Z.of_nat i =? cursor)%Z then [32]%Z ++ INV ++ [32]%Z ++ option ++ [32]%Z ++ RESET ++ [10]%Z
  else [32; 32]%Z ++ option ++ [10]%Z.

(** The text of [Menu::writeMenu]. *)
Definition menu_text (m : Menu) : list Z :=
  CLR ++ [10]%Z ++ concat (imap (menu_line (cursor_position m)) (options m))
  ++ CUU_ (length (options m) + 1) ++ [13]%Z ++ title m.

Definition set_cursor (z : Z) (m : Menu) : Menu :=
  {| title := title m; options := options m; selected_index := selected_index m; cursor_position := z |}.
Definition set_selected (z : Z) (m : Menu) : Menu :=
  {| title := title m; options := options m; selected_index := z; cursor_position := cursor_position m |}.

(** The search for an option by its first character ([option[0]] of an empty
    string is its terminating zero). *)
Fixpoint option_index (input_char : Z) (l : list (list Z)) : option nat :=
  match l with
  | [] => None
  | o :: l' => if (tolower (default 0%Z (head o)) =? tolower input_char)%Z then Some 0 else S <$> option_index input_char l'
  end.

(** [Menu::receiveCharInput]. *)
Definition receiveCharInput (message : list Z) (m : Menu) : Menu :=
  if message =s CUU then if (0 <? cursor_position m)%Z then set_cursor (cursor_position m - 1) m else m
  else if message =s CUD then
    if (cursor_position m <? Z.of_nat (length (options m)) - 1)%Z then set_cursor (cursor_position m + 1) m else m
  else if (message =s [32]%Z) || (message =s [10]%Z) || (message =s [13]%Z) then set_selected (cursor_position m) m
  else match message with
  | [] => m
  | input_char :: _ =>
      match option_index input_char (options m) with
      | Some i => set_selected (Z.of_nat i) (set_cursor (Z.of_nat i) m)
      | None => m
      end
  end.

(** ** Users (user.cpp, user.hpp) *)

Section Chat.

(** Whether hooks run inside the call that dispatches them. *)
Context (strict : bool).

Definition isDoingMenu (i : nat) (c : chat) : bool := bool_decide (is_Some (menu (the i c))).

(** The clearing sequence as [on_message_outbound] writes it: five bytes of a
    four-byte literal. *)
Definition clear_line_write : list Z := [13]%Z ++ CLR ++ [0]%Z.

(** [on_message_outbound]. *)
Definition on_message_outbound (to_slot : Z) (data : list Z) (c : chat) : chat :=
  let c := match find to_slot c with
           | Some i => if isDoingMenu i c then emits (XWrite to_slot clear_line_write) c else c
           | None => c
           end in
  emits (XWrite to_slot data) c.

(** [comm_add_message]: nothing for an empty message, else the outbound hook. *)
Definition call_add_message (slot : Z) (data : list Z) (c : chat) : chat :=
  if length data =? 0 then c
  else if strict then on_message_outbound slot data c else emits (XMessage slot data) c.

(** [User::addMessage]. *)
Definition addMessage (i : nat) (message : list Z) (c : chat) : chat :=
  let slot := comm_slot (the i c) in
  if (0 <=? slot)%Z then call_add_message slot message c else c.

(** [User::disconnect]. *)
Definition disconnect (i : nat) (c : chat) : chat :=
  let c := addMessage i (bytes_of_string "Bye!" ++ [10]%Z) c in
  upd (fun u => set_comm_slot (-1) (set_state Disconnected u)) i c.

(** [on_disconnect]; the library calls it once for a connection. *)
Definition on_disconnect (slot : Z) (c : chat) : chat :=
  let c := with_open (open c ∖ {[slot]}) c in
  let '(c, user) := take_user slot c in
  match user with Some i => disconnect i c | None => c end.

(** [comm_close], and the hook it dispatches on the first call. *)
Definition call_close (slot : Z) (c : chat) : chat :=
  let c := emits (XClose slot) c in
  if strict && bool_decide (slot ∈ open c) then on_disconnect slot c else c.

(** [User::closeComm], [setCharInput], [setLineInput]. *)
Definition closeComm (i : nat) (c : chat) : chat :=
  let slot := comm_slot (the i c) in if (0 <=? slot)%Z then call_close slot c else c.
Definition setCharInput (i : nat) (c : chat) : chat :=
  let slot := comm_slot (the i c) in if (0 <=? slot)%Z then emits (XCharInput slot) c else c.

(** [User::doMenu]. *)
Definition doMenu (i : nat) (m : Menu) (h : handler) (c : chat) : chat :=
  setCharInput i (upd (fun u => set_inbound_handler (Some h) (set_menu true (Some m) u)) i c).

(** [User::logon]. *)
Definition logon (i : nat) (c : chat) : chat :=
  if (comm_slot (the i c) <? 0)%Z then c
  else
    let c := addMessage i (bytes_of_string "Please enter your username: ") c in
    upd (fun u => set_inbound_handler (Some receiveUsername_h) (set_state PreLogin u)) i c.

(** [User::prompt] with [promptCurrentMenu]. *)
Definition prompt (i : nat) (c : chat) : chat :=
  let u := the i c in
  if prompt_handler u then
    match menu u with Some m => emits (XWrite (comm_slot u) (menu_text m)) c | None => c end
  else if bool_decide (is_Some (inbound_handler u)) then c
  else if (comm_slot u <? 0)%Z then c
  else emits (XWrite (comm_slot u) (bytes_of_string "> ")) c.

(** [User::receiveUsername]. *)
Definition receiveUsername (i : nat) (name : list Z) (c : chat) : chat :=
  if (length name <? 3) || (16 <? length name)
  then addMessage i (bytes_of_string "Username must be between 3 and 16 characters. Please enter a valid username: ") c
  else
    let c := upd (fun u => set_inbound_handler None (set_state LoggedIn (set_username name u))) i c in
    let c := addMessage i (bytes_of_string "Welcome, " ++ name ++ bytes_of_string "!" ++ [10]%Z) c in
    let c := addMessage i (bytes_of_string "You are now logged in. Type your messages to chat with others." ++ [10]%Z) c in
    addMessage i (bytes_of_string "You can also use slash commands like /help, /quit, etc. to interact with the chatroom."
                  ++ [10]%Z) c.

(** [User::receiveExitConfirmation]. *)
Definition receiveExitConfirmation (i : nat) (message : list Z) (c : chat) : chat :=
  if (comm_slot (the i c) <? 0)%Z then c
  else match menu (the i c) with
  | None => c
  | Some m =>
      let m := receiveCharInput message m in
      let c := upd (fun u => set_menu (prompt_handler u) (Some m) u) i c in
      let clear := addMessage i ([13]%Z ++ CLR) in
      if (selected_index m =? 0)%Z then clear (closeComm i c)
      else if (selected_index m =? 1)%Z then
        let c := upd (fun u => set_inbound_handler None (set_menu false None u)) i c in
        clear (emits (XLineInput (comm_slot (the i c)) true) c)
      else emits (XCharInput (comm_slot (the i c))) c
  end.

(** ** Commands (command.cpp, command.hpp) *)

Definition help_message : list Z :=
  bytes_of_string "Welcome to the chatroom! Here are some commands you can use:" ++ [10]%Z
  ++ bytes_of_string "/help - Show this help message" ++ [10]%Z
  ++ bytes_of_string "/quit - Disconnect from the chatroom" ++ [10]%Z.

Definition command_help (i : nat) (c : chat) : chat := call_add_message (comm_slot (the i c)) help_message c.

Definition quit_menu : Menu :=
  addOption (bytes_of_string "No") (addOption (bytes_of_string "Yes")
    (new_menu (bytes_of_string "Are you sure you want to quit? (y/n)") 0)).

Definition command_quit (i : nat) (c : chat) : chat := doMenu i quit_menu receiveExitConfirmation_h c.

(** The part of the input before the first space. *)
Definition verb_of (input : list Z) : list Z :=
  match find_char 32 input with Some k => take k input | None => input end.

(** [Command::find_and_execute] with the commands of [Command::initialize]; [None]:
    not found. *)
Definition find_and_execute (input : list Z) (i : nat) (c : chat) : option chat :=
  if verb_of input =s bytes_of_string "help" then Some (command_help i c)
  else if verb_of input =s bytes_of_string "quit" then Some (command_quit i c)
  else None.

(** The loop that passes a line on, over the snapshot. *)
Definition broadcast (msg : list Z) (slot : Z) (users : list nat) (c : chat) : chat :=
  foldl (fun c j =>
    if bool_decide (state (the j c) = LoggedIn) && negb (comm_slot (the j c) =? slot)%Z
    then call_add_message (comm_slot (the j c)) msg c else c) c users.

Definition said (name message : list Z) : list Z := name ++ bytes_of_string " says: " ++ message ++ [13; 10]%Z.

(** [User::dispatchInboundMessage]. *)
Definition dispatchInboundMessage (i : nat) (message : list Z) (c : chat) : chat :=
  match inbound_handler (the i c) with
  | Some receiveUsername_h => receiveUsername i message c
  | Some receiveExitConfirmation_h => receiveExitConfirmation i message c
  | None =>
      if (comm_slot (the i c) <? 0)%Z then c
      else match message with
      | [] => c
      | front :: command =>
          if (front =? 47)%Z then
            match find_and_execute command i c with
            | Some c' => c'
            | None => addMessage i (bytes_of_string "Unknown slash command: " ++ message ++ [10]%Z) c
            end
          else
            let c := addMessage i (bytes_of_string "You said: " ++ message ++ [10]%Z) c in
            broadcast (said (username (the i c)) message) (comm_slot (the i c)) (snapshot c) c
      end
  end.

(** ** Hooks (main.cpp) *)

Definition on_transport_ready (slot : Z) (c : chat) : chat :=
  let '(c, user) := connect slot c in
  match user with
  | Some i =>
      logon i (emits (XLineInput slot true) (emits (XPrompt slot true) (emits (XTerminal slot) c)))
  | None => c
  end.

Definition on_message_inbound (slot : Z) (message : list Z) (c : chat) : chat :=
  match find slot c with
  | Some i => dispatchInboundMessage i message (upd (set_idle_time (now c)) i c)
  | None => c
  end.

Definition on_prompt (slot : Z) (c : chat) : chat :=
  match find slot c with Some i => prompt i c | None => c end.

(** [isIdleFor], in seconds. *)
Definition isIdleFor (timeout : nat) (i : nat) (c : chat) : bool :=
  (0 <=? comm_slot (the i c))%Z && (timeout <? now c - idle_time (the i c)).

Definition IDLE_TIMEOUT : nat := 180.

Definition on_garbage_collection (c : chat) : chat :=
  foldl (fun c i => if isIdleFor IDLE_TIMEOUT i c then closeComm i c else c) c (snapshot c).

(** What the library calls.  A connection becomes ready once, its input, prompts
    and outbound messages come while it lasts, and time passes. *)
Inductive chat_event :=
  | EvReady (slot : Z)
  | EvInbound (slot : Z) (message : list Z)
  | EvOutbound (slot : Z) (data : list Z)
  | EvPrompt (slot : Z)
  | EvCollect
  | EvDisconnect (slot : Z)
  | EvTime (seconds : nat).

Definition chat_step (c : chat) (e : chat_event) : chat :=
  match e with
  | EvReady slot =>
      if (0 <=? slot)%Z && negb (bool_decide (slot ∈ open c))
      then on_transport_ready slot (with_open ({[slot]} ∪ open c) c) else c
  | EvInbound slot message => on_message_inbound slot message c
  | EvOutbound slot data => on_message_outbound slot data c
  | EvPrompt slot => on_prompt slot c
  | EvCollect => on_garbage_collection c
  | EvDisconnect slot => if bool_decide (slot ∈ open c) then on_disconnect slot c else c
  | EvTime seconds =>
      {| store := store c; fresh := fresh c; registry := registry c; open := open c; now := now c + seconds; out := out c |}
  end.

Definition chat_run (c : chat) (es : list chat_event) : chat := foldl chat_step c es.

End Chat.

(** ** Transports (main.cpp) *)

Inductive Transport :=
  | Plaintext | Telnet | TlsTelnet | WebSocket | SecureWebSocket | WebSocketTelnet | SecureWebSocketTelnet.

(** What is enabled on the new connection. *)
Inductive enabled := EnTls | EnTelnet | EnWebSocket (preferred_protocols : list Z).

Definition telnet_protocols : list Z := bytes_of_string "telnet.ietf.org, telnet.mudstandards.org".

(** [configure_transport]; [ok] is the answer of [comm_enable_websocket]. *)
Definition configure_transport (ok : bool) (t : Transport) : list enabled * bool :=
  match t with
  | Plaintext => ([], true)
  | Telnet => ([EnTelnet], true)
  | TlsTelnet => ([EnTls; EnTelnet], true)
  | WebSocket => ([EnWebSocket []], ok)
  | SecureWebSocket => ([EnTls; EnWebSocket []], ok)
  | WebSocketTelnet => ([EnWebSocket telnet_protocols], ok)
  | SecureWebSocketTelnet => ([EnTls; EnWebSocket telnet_protocols], ok)
  end.

Definition parse_transport (name : list Z) : option Transport :=
  if name =s bytes_of_string "plaintext" then Some Plaintext
  else if name =s bytes_of_string "telnet" then Some Telnet
  else if name =s bytes_of_string "tls-telnet" then Some TlsTelnet
  else if name =s bytes_of_string "ws" then Some WebSocket
  else if name =s bytes_of_string "wss" then Some SecureWebSocket
  else if name =s bytes_of_string "ws-telnet" then Some WebSocketTelnet
  else if name =s bytes_of_string "wss-telnet" then Some SecureWebSocketTelnet
  else None.

(** [on_connect]: the console is left as it is. *)
Definition on_connect (ok : bool) (t : Transport) (entry_name : list Z) : list enabled * Z :=
  if entry_name =s bytes_of_string "console:tty" then ([], 0%Z)
  else let '(l, configured) := configure_transport ok t in (l, if configured then 0%Z else (-1)%Z).

(** The name of each transport on the command line. *)
Definition transport_name (t : Transport) : list Z :=
  bytes_of_string match t with
  | Plaintext => "plaintext" | Telnet => "telnet" | TlsTelnet => "tls-telnet" | WebSocket => "ws"
  | SecureWebSocket => "wss" | WebSocketTelnet => "ws-telnet" | SecureWebSocketTelnet => "wss-telnet"
  end.

(** A short session. *)
Example chat_session :
  let c := chat_run true chat_init
    [EvReady 3; EvReady 4; EvInbound 3 (bytes_of_string "alice"); EvInbound 4 (bytes_of_string "bob");
     EvInbound 3 (bytes_of_string "hi")] in
  drop 14 (out c) = [XWrite 3 (bytes_of_string "You said: hi" ++ [10]%Z); XWrite 4 (bytes_of_string "alice says: hi" ++ [13; 10]%Z)].
Proof. vm_compute. reflexivity. Qed.

(** ** Invariant *)

Definition menu_ok (m : Menu) : Prop :=
  (0 <= cursor_position m < Z.of_nat (length (options m)))%Z
  ∧ (-1 <= selected_index m < Z.of_nat (length (options m)))%Z.

(** A registered user: logging in, or logged in and either chatting or asked to
    confirm that it wants to leave. *)
Definition user_ok (slot : Z) (u : User) : Prop :=
  comm_slot u = slot ∧
  match state u with
  | PreLogin => inbound_handler u = Some receiveUsername_h ∧ prompt_handler u = false ∧ menu u = None
  | LoggedIn =>
      3 ≤ length (username u) ≤ 16
      ∧ (inbound_handler u = None ∧ prompt_handler u = false ∧ menu u = None
         ∨ inbound_handler u = Some receiveExitConfirmation_h ∧ prompt_handler u = true
           ∧ ∃ m, menu u = Some m ∧ menu_ok m ∧ options m = options quit_menu)
  | _ => False
  end.

(** The registry holds exactly one user for each open connection. *)
Record chat_ok (c : chat) : Prop := {
  ck_users : ∀ n i, registry c !! n = Some (Some i) →
    i < fresh c ∧ Z.of_nat n ∈ open c ∧ ∃ u, store c !! i = Some u ∧ user_ok (Z.of_nat n) u;
  ck_open : ∀ slot, slot ∈ open c → (0 <= slot)%Z ∧ is_Some (find slot c)
}.

(** ** Lemmas *)

Definition emits_all (l : list chat_effect) (c : chat) : chat :=
  {| store := store c; fresh := fresh c; registry := registry c; open := open c; now := now c; out := out c ++ l |}.

Lemma emits_one e c : emits e c = emits_all [e] c.
Proof. done. Qed.
Lemma emits_all_app l1 l2 c : emits_all l2 (emits_all l1 c) = emits_all (l1 ++ l2) c.
Proof. unfold emits_all. cbn. by rewrite <- app_assoc. Qed.
Lemma emits_all_nil c : emits_all [] c = c.
Proof. unfold emits_all. destruct c. cbn. by rewrite app_nil_r. Qed.

Lemma ok_emits_all l c : chat_ok c → chat_ok (emits_all l c).
Proof. by intros [A B]. Qed.

Lemma the_Some c i u : store c !! i = Some u → the i c = u.
Proof. unfold the. by intros ->. Qed.

Lemma find_spec slot c i : find slot c = Some i ↔ (0 <= slot)%Z ∧ registry c !! Z.to_nat slot = Some (Some i).
Proof.
  unfold find. destruct (Z.ltb_spec slot 0); [split; [done|lia]|].
  destruct (registry c !! _) as [[j|]|]; cbn; split; [|intros [_ ?]; congruence|done|intros [_ ?]; congruence|done|by intros [_ ?]].
  intros [= ->]. done.
Qed.

Lemma ok_find c slot i :
  chat_ok c → find slot c = Some i →
  i < fresh c ∧ slot ∈ open c ∧ store c !! i = Some (the i c) ∧ user_ok slot (the i c).
Proof.
  intros Hc [H0 F]%find_spec. destruct (ck_users c Hc _ _ F) as (A & B & u & E & U).
  rewrite Z2Nat.id in B, U by done. rewrite (the_Some _ _ _ E). done.
Qed.

(** A change of one registered user. *)
Lemma ok_upd c slot i f :
  chat_ok c → find slot c = Some i → user_ok slot (f (the i c)) → chat_ok (upd f i c).
Proof.
  intros Hc F Hf. destruct (ok_find c slot i Hc F) as (L & O & E & U). split; [|apply Hc].
  intros n j Hj. destruct (ck_users c Hc n j Hj) as (A & B & v & Ev & Uv). split_and!; [done..|].
  unfold upd, with_store. cbn [store]. destruct (decide (j = i)) as [->|N].
  - rewrite lookup_alter_eq, E. eexists. split; [done|].
    rewrite E in Ev. injection Ev as <-. by rewrite <- (proj1 Uv), (proj1 U).
  - rewrite lookup_alter_ne by done. by exists v.
Qed.

Lemma find_upd slot f i c : find slot (upd f i c) = find slot c.
Proof. done. Qed.

Lemma the_upd c i f : is_Some (store c !! i) → the i (upd f i c) = f (the i c).
Proof. intros [u E]. unfold the, upd. cbn [store with_store]. by rewrite lookup_alter_eq, E. Qed.

Section Emitted.
Context (strict : bool).

(** What sending a message calls. *)
Definition outbound_effects (c : chat) (slot : Z) (data : list Z) : list chat_effect :=
  match find slot c with
  | Some i => if isDoingMenu i c then [XWrite slot clear_line_write] else []
  | None => []
  end ++ [XWrite slot data].

Definition message_effects (c : chat) (slot : Z) (data : list Z) : list chat_effect :=
  if length data =? 0 then [] else if strict then outbound_effects c slot data else [XMessage slot data].

Lemma outbound_emits slot data c : on_message_outbound slot data c = emits_all (outbound_effects c slot data) c.
Proof.
  unfold on_message_outbound, outbound_effects. destruct (find slot c) as [i|]; [|done].
  destruct (isDoingMenu i c); [|done]. by rewrite !emits_one, emits_all_app.
Qed.

Lemma add_emits slot data c : call_add_message strict slot data c = emits_all (message_effects c slot data) c.
Proof.
  unfold call_add_message, message_effects. destruct (length data =? 0); [by rewrite emits_all_nil|].
  destruct strict; [apply outbound_emits|done].
Qed.

Lemma addMessage_emits i data c :
  addMessage strict i data c =
  emits_all (if (0 <=? comm_slot (the i c))%Z then message_effects c (comm_slot (the i c)) data else []) c.
Proof. unfold addMessage. destruct (0 <=? _)%Z; [apply add_emits|by rewrite emits_all_nil]. Qed.

(** A broadcast only sends, each message as the state before it says. *)
Lemma broadcast_emits msg slot users c :
  broadcast strict msg slot users c =
  emits_all (concat (map (fun j =>
    if bool_decide (state (the j c) = LoggedIn) && negb (comm_slot (the j c) =? slot)%Z
    then message_effects c (comm_slot (the j c)) msg else []) users)) c.
Proof.
  unfold broadcast. enough (G : ∀ l, foldl (fun c j => if bool_decide (state (the j c) = LoggedIn) && negb (comm_slot (the j c) =? slot)%Z
        then call_add_message strict (comm_slot (the j c)) msg c else c) (emits_all l c) users =
      emits_all (l ++ concat (map (fun j => if bool_decide (state (the j c) = LoggedIn) && negb (comm_slot (the j c) =? slot)%Z
        then message_effects c (comm_slot (the j c)) msg else []) users)) c).
  { specialize (G []). by rewrite emits_all_nil in G. }
  induction users as [|j users IH]; intros l; [by rewrite app_nil_r|]. cbn [foldl map concat].
  change (the j (emits_all l c)) with (the j c). destruct (_ && _); [|apply IH].
  rewrite add_emits, emits_all_app. change (message_effects (emits_all l c)) with (message_effects c).
  by rewrite IH, <- app_assoc.
Qed.
End Emitted.

Lemma option_index_bound ch l k : option_index ch l = Some k → k < length l.
Proof.
  revert k. induction l as [|o l IH]; intros k; cbn [option_index]; [done|].
  destruct (_ =? _)%Z; [intros [= <-]; cbn; lia|]. destruct (option_index ch l) as [j|]; [|done].
  intros [= <-]. specialize (IH j eq_refl). cbn. lia.
Qed.

(** A key leaves the menu in range, and its options alone. *)
Lemma receive_menu_ok message m :
  menu_ok m → menu_ok (receiveCharInput message m) ∧ options (receiveCharInput message m) = options m.
Proof.
  unfold menu_ok, receiveCharInput. intros [A B].
  destruct (bool_decide (message = CUU)).
  { destruct (Z.ltb_spec 0 (cursor_position m)); cbn [set_cursor cursor_position options selected_index]; [|done].
    split_and!; try done; lia. }
  destruct (bool_decide (message = CUD)).
  { destruct (Z.ltb_spec (cursor_position m) (Z.of_nat (length (options m)) - 1));
      cbn [set_cursor cursor_position options selected_index]; [|done]. split_and!; try done; lia. }
  destruct (_ || _); cbn [set_selected cursor_position options selected_index].
  { split_and!; try done; lia. }
  destruct message as [|ch message]; [done|].
  destruct (option_index ch (options m)) as [k|] eqn:E; [|done]. apply option_index_bound in E.
  cbn [set_selected set_cursor cursor_position options selected_index]. split_and!; try done; lia.
Qed.

Lemma quit_menu_ok : menu_ok quit_menu.
Proof. split; cbn; lia. Qed.

Section Invariant.
Context (strict : bool).

(** The slot of a user that leaves is emptied, and its object is no longer reached. *)
Lemma ok_disconnect slot c : chat_ok c → chat_ok (on_disconnect strict slot c).
Proof.
  intros Hc. unfold on_disconnect. set (c1 := with_open _ c). unfold take_user.
  destruct ((slot <? 0)%Z || _) eqn:E.
  { split; [|].
    - intros n i Hn. destruct (ck_users c Hc n i Hn) as (A & B & D). split_and!; try done. cbn [open c1 with_open].
      apply elem_of_difference. split; [done|]. rewrite elem_of_singleton. intros Hs.
      apply orb_true_iff in E as [E|E]; [lia|]. apply lookup_lt_Some in Hn. cbn [registry c1 with_open] in *. lia.
    - intros s Hs. cbn [open c1 with_open] in Hs. apply elem_of_difference in Hs as [Hs _]. apply (ck_open c Hc s Hs). }
  apply orb_false_iff in E as [E0 E1]. apply Z.ltb_ge in E0. apply Z.leb_gt in E1. cbn [registry c1 with_open] in *.
  assert (Hn : Z.of_nat (Z.to_nat slot) = slot) by lia. set (k := Z.to_nat slot) in *.
  assert (Len : k < length (registry c)) by lia.
  assert (U : ∀ n j, <[k := None]> (registry c) !! n = Some (Some j) → n ≠ k ∧ registry c !! n = Some (Some j)).
  { intros n j. destruct (decide (n = k)) as [->|N]; [by rewrite list_lookup_insert_eq|]. by rewrite list_lookup_insert_ne. }
  assert (O : ∀ s, s ∈ open c ∖ {[slot]} → (0 <= s)%Z ∧ is_Some (mjoin (<[k := None]> (registry c) !! Z.to_nat s))).
  { intros s [Hs Hd]%elem_of_difference. rewrite elem_of_singleton in Hd. destruct (ck_open c Hc s Hs) as [P Q]. split; [done|].
    unfold find in Q. rewrite (proj2 (Z.ltb_ge _ _)) in Q by done. rewrite list_lookup_insert_ne; [done|]. lia. }
  assert (F : ∀ s v, (0 <= s)%Z → registry v = <[k := None]> (registry c) →
            find s v = mjoin (<[k := None]> (registry c) !! Z.to_nat s)).
  { intros s v P R. unfold find. by rewrite (proj2 (Z.ltb_ge _ _)), R. }
  destruct (find slot c1) as [i|] eqn:Fi.
  - change (find slot c1) with (find slot c) in Fi. destruct (ok_find c slot i Hc Fi) as (_ & _ & Ei & Ui).
    unfold disconnect. rewrite addMessage_emits. set (c2 := emits_all _ _). split.
    + intros n j Hj. destruct (U n j Hj) as [N Hj']. destruct (ck_users c Hc n j Hj') as (A & B & v & Ev & Uv).
      cbn [upd with_store store fresh open c2 emits_all with_registry c1 with_open]. split_and!; [done| |].
      * apply elem_of_difference. split; [done|]. rewrite elem_of_singleton. lia.
      * exists v. split; [|done]. rewrite lookup_alter_ne; [done|]. intros <-. rewrite Ei in Ev. injection Ev as Ev. subst v.
        apply N. destruct Ui as [U1 _], Uv as [U2 _]. lia.
    + intros s Hs. destruct (O s Hs) as [P Q]. split; [done|]. by erewrite F.
  - split.
    + intros n j Hj. destruct (U n j Hj) as [N Hj']. destruct (ck_users c Hc n j Hj') as (A & B & D). split_and!; [done| |done].
      apply elem_of_difference. split; [done|]. rewrite elem_of_singleton. lia.
    + intros s Hs. destruct (O s Hs) as [P Q]. split; [done|]. by erewrite F.
Qed.

Lemma ok_close slot c : chat_ok c → chat_ok (call_close strict slot c).
Proof.
  intros Hc. unfold call_close. rewrite emits_one. destruct (_ && _); [by apply ok_disconnect, ok_emits_all|by apply ok_emits_all].
Qed.

Lemma ok_closeComm i c : chat_ok c → chat_ok (closeComm strict i c).
Proof. intros Hc. unfold closeComm. destruct (0 <=? _)%Z; [by apply ok_close|done]. Qed.

Lemma ok_addMessage i data c : chat_ok c → chat_ok (addMessage strict i data c).
Proof. intros Hc. rewrite addMessage_emits. by apply ok_emits_all. Qed.

(** A user logs in. *)
Lemma ok_receiveUsername slot i name c :
  chat_ok c → find slot c = Some i → state (the i c) = PreLogin → chat_ok (receiveUsername strict i name c).
Proof.
  intros Hc F S. unfold receiveUsername. destruct (_ || _) eqn:E; [by apply ok_addMessage|].
  apply orb_false_iff in E as [E1%Nat.ltb_ge E2%Nat.ltb_ge]. do 3 apply ok_addMessage. apply (ok_upd c slot); [done..|].
  destruct (ok_find c slot i Hc F) as (_ & _ & _ & U). unfold user_ok in *. rewrite S in U.
  destruct U as (U1 & _ & U2 & U3). cbn. split; [done|]. split; [lia|]. left. done.
Qed.

(** Confirmation of an exit. *)
Lemma ok_receiveExit slot i message c :
  chat_ok c → find slot c = Some i → state (the i c) = LoggedIn → chat_ok (receiveExitConfirmation strict i message c).
Proof.
  intros Hc F S. unfold receiveExitConfirmation. destruct (ok_find c slot i Hc F) as (_ & _ & E & U).
  destruct (comm_slot (the i c) <? 0)%Z; [done|]. destruct (menu (the i c)) as [m|] eqn:M; [|done].
  unfold user_ok in U. rewrite S, M in U. destruct U as (U1 & U2 & [(_ & _ & [=])|(U3 & U4 & m' & [= <-] & U5 & U6)]).
  destruct (receive_menu_ok message m U5) as [V1 V2]. set (m1 := receiveCharInput message m) in *.
  set (c1 := upd _ i c).
  assert (U7 : user_ok slot (set_menu (prompt_handler (the i c)) (Some m1) (the i c))).
  { unfold user_ok. cbn. rewrite S. split; [done|]. split; [done|]. right. split_and!; [done..|].
    exists m1. split_and!; [done..|]. by rewrite V2. }
  assert (Hc1 : chat_ok c1) by (by apply (ok_upd c slot)).
  assert (E1 : the i c1 = set_menu (prompt_handler (the i c)) (Some m1) (the i c)).
  { unfold c1. rewrite the_upd by (by eexists). done. }
  destruct (selected_index m1 =? 0)%Z; [by apply ok_addMessage, ok_closeComm|].
  destruct (selected_index m1 =? 1)%Z.
  - apply ok_addMessage. rewrite emits_one. apply ok_emits_all, (ok_upd c1 slot); [done..|].
    rewrite E1. unfold user_ok. cbn. rewrite S. split; [done|]. split; [done|]. by left.
  - rewrite emits_one. by apply ok_emits_all.
Qed.

Lemma ok_inbound_user slot i message c :
  chat_ok c → find slot c = Some i → chat_ok (dispatchInboundMessage strict i message c).
Proof.
  intros Hc F. destruct (ok_find c slot i Hc F) as (_ & _ & E & U). unfold dispatchInboundMessage.
  assert (U' := U). unfold user_ok in U'. destruct U' as [U1 U2].
  destruct (inbound_handler (the i c)) as [[]|] eqn:H.
  - apply (ok_receiveUsername slot); [done..|]. destruct (state (the i c)); try done. by destruct U2 as (_ & [(? & _)|(? & _)]).
  - apply (ok_receiveExit slot); [done..|]. destruct (state (the i c)); try done. by destruct U2.
  - destruct (comm_slot (the i c) <? 0)%Z; [done|]. destruct message as [|b message]; [done|].
    assert (Cmd : ∀ d, chat_ok match find_and_execute strict message i c with Some c' => c' | None => addMessage strict i d c end).
    { intros d. unfold find_and_execute. destruct (bool_decide _).
      { unfold command_help. rewrite add_emits. by apply ok_emits_all. }
      destruct (bool_decide _); [|by apply ok_addMessage]. unfold command_quit, doMenu, setCharInput.
      assert (K : chat_ok (upd (fun u => set_inbound_handler (Some receiveExitConfirmation_h) (set_menu true (Some quit_menu) u)) i c)).
      { apply (ok_upd c slot); [done..|]. unfold user_ok. cbn. split; [done|].
        destruct (state (the i c)) eqn:S; try done; [by destruct U2|]. destruct U2 as [L _]. split; [done|]. right. split_and!; try done.
        exists quit_menu. split_and!; try done; apply quit_menu_ok. }
      destruct (0 <=? _)%Z; [|done]. rewrite emits_one. by apply ok_emits_all. }
    destruct (b =? 47)%Z; [apply Cmd|]. rewrite broadcast_emits. by apply ok_emits_all, ok_addMessage.
Qed.

Lemma ok_ready slot c :
  chat_ok c → (0 <= slot)%Z → slot ∉ open c → chat_ok (on_transport_ready strict slot (with_open ({[slot]} ∪ open c) c)).
Proof.
  intros Hc H0 Ho. unfold on_transport_ready, connect. rewrite (proj2 (Z.ltb_ge _ _)) by done.
  cbn [registry with_open fresh store now open out]. set (l := if (Z.of_nat (length (registry c)) <=? slot)%Z then resize (Z.to_nat slot + 32) (registry c) else registry c).
  set (k := Z.to_nat slot). assert (Hk : Z.of_nat k = slot) by lia.
  assert (Ll : k < length l).
  { unfold l. destruct (Z.leb_spec (Z.of_nat (length (registry c))) slot); [|lia].
    unfold resize. rewrite length_app, length_take, length_replicate. lia. }
  assert (Sub : ∀ n o, l !! n = Some (Some o) ↔ registry c !! n = Some (Some o)).
  { intros n o. unfold l. destruct (Z.leb_spec (Z.of_nat (length (registry c))) slot); [|done].
    unfold resize. rewrite firstn_all2 by lia. destruct (decide (n < length (registry c))).
    - by rewrite lookup_app_l.
    - rewrite lookup_app_r, (lookup_ge_None_2 (registry c)) by lia. split; [|done]. intros Hr.
      by apply lookup_replicate in Hr as [? _]. }
  set (i := fresh c).
  set (c1 := {| store := <[i := new_user slot (now c)]> (store c); fresh := S i; registry := <[k := Some i]> l;
                open := {[slot]} ∪ open c; now := now c; out := out c |}).
  set (c2 := emits (XLineInput slot true) (emits (XPrompt slot true) (emits (XTerminal slot) c1))).
  assert (E2 : the i c2 = new_user slot (now c)) by (unfold the; cbn; by rewrite lookup_insert_eq).
  unfold logon. rewrite E2. cbn [comm_slot new_user]. rewrite (proj2 (Z.ltb_ge _ _)) by done.
  rewrite addMessage_emits. split.
  - intros n j Hj. cbn [registry upd with_store emits_all c2 emits c1] in Hj.
    cbn [fresh open store upd with_store emits_all c2 emits c1].
    destruct (decide (n = k)) as [->|N].
    + rewrite list_lookup_insert_eq in Hj by done. injection Hj as <-. split; [unfold i; lia|]. split.
      { rewrite Hk. set_solver. }
      rewrite lookup_alter_eq, lookup_insert_eq. eexists. split; [done|]. split; [by cbn|]. done.
    + rewrite list_lookup_insert_ne in Hj by done. apply Sub in Hj. destruct (ck_users c Hc n j Hj) as (A & B & u & Eu & Uu).
      split; [lia|]. split; [set_solver|]. exists u. split; [|done].
      rewrite lookup_alter_ne, lookup_insert_ne by (unfold i; lia). done.
  - intros s Hs. cbn [open upd with_store emits_all c2 emits c1] in Hs.
    unfold find. cbn [registry upd with_store emits_all c2 emits c1].
    apply elem_of_union in Hs as [->%elem_of_singleton|Hs].
    + split; [done|]. rewrite (proj2 (Z.ltb_ge _ _)) by done. fold k. by rewrite list_lookup_insert_eq.
    + destruct (ck_open c Hc s Hs) as [P [j [_ Q]%find_spec]]. split; [done|]. rewrite (proj2 (Z.ltb_ge _ _)) by done.
      rewrite list_lookup_insert_ne by (intros E; apply Ho; replace slot with s by lia; done).
      apply Sub in Q. rewrite Q. by eexists.
Qed.
End Invariant.

Lemma ok_collect strict c : chat_ok c → chat_ok (on_garbage_collection strict c).
Proof.
  intros Hc. unfold on_garbage_collection. generalize (snapshot c). intros l. revert c Hc.
  induction l as [|i l IH]; intros c Hc; [done|]. cbn [foldl]. apply IH.
  destruct (isIdleFor _ i c); [by apply ok_closeComm|done].
Qed.

Lemma ok_step strict c e : chat_ok c → chat_ok (chat_step strict c e).
Proof.
  intros Hc. destruct e as [slot|slot message|slot data|slot| |slot|t]; cbn [chat_step].
  - destruct (Z.leb_spec 0 slot); [|done]. destruct (bool_decide (slot ∈ open c)) eqn:E; [done|].
    apply bool_decide_eq_false in E. by apply ok_ready.
  - unfold on_message_inbound. destruct (find slot c) as [i|] eqn:F; [|done].
    apply (ok_inbound_user strict slot); [|done]. apply (ok_upd c slot); [done..|].
    destruct (ok_find c slot i Hc F) as (_ & _ & _ & U). exact U.
  - rewrite outbound_emits. by apply ok_emits_all.
  - unfold on_prompt. destruct (find slot c) as [i|]; [|done]. unfold prompt. destruct (prompt_handler _).
    { destruct (menu _); [rewrite emits_one; by apply ok_emits_all|done]. }
    destruct (bool_decide _); [done|]. destruct (_ <? 0)%Z; [done|]. rewrite emits_one. by apply ok_emits_all.
  - by apply ok_collect.
  - destruct (bool_decide _); [by apply ok_disconnect|done].
  - by destruct Hc.
Qed.

Lemma chat_init_ok : chat_ok chat_init.
Proof. split; [done|]. intros slot Hs. set_solver. Qed.

Lemma ok_run strict c es : chat_ok c → chat_ok (chat_run strict c es).
Proof. revert c. induction es as [|e es IH]; intros c Hc; [done|]. by apply IH, ok_step. Qed.

(** ** Chat lines *)

Definition logged_in (c : chat) (s : Z) : bool :=
  match find s c with Some j => bool_decide (state (the j c) = LoggedIn) | None => false end.

(** The slots of the other users in the room, in order. *)
Definition others (c : chat) (slot : Z) : list Z :=
  filter (fun s => logged_in c s = true ∧ s ≠ slot) (map Z.of_nat (seq 0 (length (registry c)))).

Lemma find_nat c n : find (Z.of_nat n) c = mjoin (registry c !! n).
Proof. unfold find. rewrite (proj2 (Z.ltb_ge _ _)) by lia. by rewrite Nat2Z.id. Qed.

(** A pass over the snapshot is a pass over the slots. *)
Definition user_slots (c : chat) : list Z := map Z.of_nat (seq 0 (length (registry c))).
Definition holds (c : chat) (P : nat → bool) (s : Z) : bool := match find s c with Some j => P j | None => false end.

Lemma snapshot_slots {A} c (P : nat → bool) (G : Z → list A) :
  chat_ok c →
  concat (map (fun j => if P j then G (comm_slot (the j c)) else []) (snapshot c))
  = concat (map G (filter (fun s => holds c P s = true) (user_slots c))).
Proof.
  intros Hc. unfold snapshot, user_slots.
  enough (K : ∀ l n, (∀ k o, l !! k = Some o → registry c !! (n + k) = Some o) →
    concat (map (fun j => if P j then G (comm_slot (the j c)) else []) (omap id l))
    = concat (map G (filter (fun s => holds c P s = true) (map Z.of_nat (seq n (length l)))))) by (by apply K).
  induction l as [|o l IH]; intros n Hl; [done|]. cbn [length seq map].
  assert (Hn : registry c !! n = Some o) by (rewrite <- (Nat.add_0_r n); by apply Hl).
  rewrite filter_cons. specialize (IH (S n)).
  assert (IHn := IH ltac:(intros k x Hk; replace (S n + k) with (n + S k) by lia; by apply Hl)). clear IH.
  destruct o as [j|].
  - change (omap id (Some j :: l)) with (j :: omap id l). cbn [map concat].
    assert (F : find (Z.of_nat n) c = Some j) by (by rewrite find_nat, Hn).
    destruct (ok_find c _ j Hc F) as (_ & _ & _ & [U1 _]). assert (Hh : holds c P (Z.of_nat n) = P j) by (unfold holds; by rewrite F). rewrite U1.
    destruct (P j); [rewrite decide_True by done|rewrite decide_False by (by rewrite Hh); exact IHn].
    cbn [map concat]. by rewrite IHn.
  - change (omap id (None :: l)) with (omap id l). 
    rewrite decide_False by (unfold holds; by rewrite find_nat, Hn). exact IHn.
Qed.

Lemma snapshot_others c slot (G : Z → list chat_effect) :
  chat_ok c →
  concat (map (fun j => if bool_decide (state (the j c) = LoggedIn) && negb (comm_slot (the j c) =? slot)%Z
                        then G (comm_slot (the j c)) else []) (snapshot c)) = concat (map G (others c slot)).
Proof.
  intros Hc. rewrite (snapshot_slots c (fun j => bool_decide (state (the j c) = LoggedIn) && negb (comm_slot (the j c) =? slot)%Z) G Hc).
  unfold others. fold (user_slots c). do 2 f_equal. apply list_filter_iff. intros s. unfold holds, logged_in.
  destruct (find s c) as [j|] eqn:F; [|by split; [|intros [? _]]].
  destruct (ok_find c s j Hc F) as (_ & _ & _ & [U1 _]). rewrite U1, andb_true_iff, negb_true_iff, Z.eqb_neq. done.
Qed.

(** What a chat line sends. *)
Lemma chat_line strict c slot i message :
  chat_ok c → find slot c = Some i → inbound_handler (the i c) = None →
  message ≠ [] → head message ≠ Some 47%Z →
  dispatchInboundMessage strict i message c =
  emits_all
    (message_effects strict c slot (bytes_of_string "You said: " ++ message ++ [10]%Z)
     ++ concat (map (fun s => message_effects strict c s (said (username (the i c)) message)) (others c slot))) c.
Proof.
  intros Hc F Hh Hm Hs. destruct (ok_find c slot i Hc F) as (_ & _ & E & [U1 _]).
  assert (H0 : (0 <= slot)%Z) by (by apply find_spec in F as [? _]).
  unfold dispatchInboundMessage. rewrite Hh, U1, (proj2 (Z.ltb_ge _ _)) by done.
  destruct message as [|b m]; [done|]. destruct (Z.eqb_spec b 47) as [->|_]; [done|]. cbn zeta.
  rewrite addMessage_emits, U1, (proj2 (Z.leb_le _ _)) by done. set (l := message_effects strict c slot _).
  rewrite broadcast_emits, emits_all_app. change (the i (emits_all l c)) with (the i c). rewrite U1. f_equal. f_equal.
  exact (snapshot_others c slot (fun s => message_effects strict c s (said (username (the i c)) (b :: m))) Hc).
Qed.

(** Activity changes nothing that is shown. *)
Lemma the_idle c i t j : is_Some (store c !! i) →
  the j (upd (set_idle_time t) i c) = if decide (j = i) then set_idle_time t (the i c) else the j c.
Proof.
  intros Hs. destruct (decide (j = i)) as [->|N]; [by apply the_upd|].
  unfold the, upd. cbn [store with_store]. by rewrite lookup_alter_ne.
Qed.

Lemma message_effects_idle strict c i t slot data : is_Some (store c !! i) →
  message_effects strict (upd (set_idle_time t) i c) slot data = message_effects strict c slot data.
Proof.
  intros Hs. unfold message_effects, outbound_effects, isDoingMenu. rewrite find_upd.
  destruct (find slot c) as [j|]; [|done]. rewrite the_idle by done. by destruct (decide (j = i)) as [->|].
Qed.

Lemma others_idle c i t slot : is_Some (store c !! i) → others (upd (set_idle_time t) i c) slot = others c slot.
Proof.
  intros Hs. unfold others. change (registry (upd _ i c)) with (registry c). apply list_filter_iff.
  intros s. unfold logged_in. rewrite find_upd. destruct (find s c) as [j|]; [|done]. rewrite the_idle by done.
  by destruct (decide (j = i)) as [->|].
Qed.

(** ** Whose connection a call is about *)

Definition effect_slot (e : chat_effect) : Z :=
  match e with
  | XWrite s _ | XMessage s _ | XClose s | XCharInput s | XLineInput s _ | XPrompt s _ | XTerminal s => s
  end.

(** A step that makes calls about one slot only. *)
Definition own (slot : Z) (c c' : chat) : Prop :=
  ∃ l, out c' = out c ++ l ∧ Forall (fun e => effect_slot e = slot) l.

#[export] Instance own_preorder slot : PreOrder (own slot).
Proof.
  split.
  - intros c. exists []. by rewrite app_nil_r.
  - intros c d e (l1 & E1 & F1) (l2 & E2 & F2). exists (l1 ++ l2). rewrite E2, E1, app_assoc. split; [done|].
    by apply Forall_app.
Qed.

Section Own.
Context (strict : bool).

Lemma own_emits_all slot l c : Forall (fun e => effect_slot e = slot) l → own slot c (emits_all l c).
Proof. intros F. by exists l. Qed.

Lemma own_emit e c : own (effect_slot e) c (emits e c).
Proof. exists [e]. split; [done|]. by constructor. Qed.

Lemma own_upd slot f i c : own slot c (upd f i c).
Proof. exists []. by rewrite app_nil_r. Qed.

Lemma message_effects_own c slot data : Forall (fun e => effect_slot e = slot) (message_effects strict c slot data).
Proof.
  unfold message_effects, outbound_effects. destruct (_ =? 0); [done|].
  destruct strict; [|by repeat constructor]. apply Forall_app. split; [|by repeat constructor].
  destruct (find slot c); [|done]. destruct (isDoingMenu _ _); by repeat constructor.
Qed.

(** What a user's object does concerns the user's slot, if it still has one. *)
Lemma own_addMessage slot i data c :
  comm_slot (the i c) = slot ∨ (comm_slot (the i c) < 0)%Z → own slot c (addMessage strict i data c).
Proof.
  intros Hs. rewrite addMessage_emits. apply own_emits_all. destruct (Z.leb_spec 0 (comm_slot (the i c))); [|done].
  destruct Hs as [<-|]; [apply message_effects_own|lia].
Qed.

Lemma own_close slot c : chat_ok c → own slot c (call_close strict slot c).
Proof.
  intros Hc. unfold call_close. etransitivity; [apply (own_emit (XClose slot))|]. cbn zeta.
  destruct (strict && _); [|done]. unfold on_disconnect. set (c1 := with_open _ _).
  assert (own slot (emits (XClose slot) c) c1) by (exists []; by rewrite app_nil_r). etransitivity; [done|].
  unfold take_user. destruct (_ || _) eqn:E; [done|]. set (c2 := with_registry _ c1).
  assert (own slot c1 c2) by (exists []; by rewrite app_nil_r). etransitivity; [done|].
  destruct (find slot c1) as [i|] eqn:F; [|done]. unfold disconnect. etransitivity; [|apply own_upd].
  apply own_addMessage. left. change (the i c2) with (the i c).
  change (find slot c1) with (find slot c) in F. by destruct (ok_find c slot i Hc F) as (_ & _ & _ & [U _]).
Qed.

(** After a close the user has the slot it had, or none. *)
Lemma close_comm_slot i slot c :
  comm_slot (the i c) = slot →
  comm_slot (the i (call_close strict slot c)) = slot ∨ (comm_slot (the i (call_close strict slot c)) < 0)%Z.
Proof.
  intros Hi. unfold call_close. destruct (strict && _); [|by left]. unfold on_disconnect, take_user.
  destruct (_ || _); [by left|]. destruct (find slot _) as [j|]; [|by left]. unfold disconnect. rewrite addMessage_emits.
  set (f := fun u => set_comm_slot (-1) (set_state Disconnected u)). set (c' := upd f j _).
  assert (E : store c' = alter f j (store c)) by done. unfold the. rewrite E.
  destruct (decide (j = i)) as [->|N].
  - rewrite lookup_alter_eq. right. by destruct (store c !! i).
  - rewrite lookup_alter_ne by done. by left.
Qed.

Lemma own_exit slot i message c :
  chat_ok c → find slot c = Some i → state (the i c) = LoggedIn → own slot c (receiveExitConfirmation strict i message c).
Proof.
  intros Hc F S. unfold receiveExitConfirmation. destruct (ok_find c slot i Hc F) as (_ & _ & E & U).
  destruct (comm_slot (the i c) <? 0)%Z eqn:E0; [done|]. destruct (menu (the i c)) as [m|] eqn:M; [|done].
  assert (Us := proj1 U). unfold user_ok in U. rewrite S, M in U.
  destruct U as (_ & U2 & [(_ & _ & [=])|(U3 & U4 & m' & [= <-] & U5 & U6)]).
  destruct (receive_menu_ok message m U5) as [V1 V2]. set (m1 := receiveCharInput message m) in *.
  set (c1 := upd _ i c).
  assert (Hc1 : chat_ok c1).
  { apply (ok_upd c slot); [done..|]. unfold user_ok. cbn. rewrite S. split; [done|]. split; [done|]. right.
    split_and!; [done..|]. exists m1. split_and!; [done..|]. by rewrite V2. }
  assert (E1 : comm_slot (the i c1) = slot).
  { unfold c1. rewrite the_upd by (by eexists). exact Us. }
  transitivity c1; [apply own_upd|]. destruct (selected_index m1 =? 0)%Z.
  - unfold closeComm. rewrite E1. destruct (0 <=? slot)%Z; [|by apply own_addMessage; left].
    etransitivity; [by apply own_close|]. by apply own_addMessage, close_comm_slot.
  - destruct (selected_index m1 =? 1)%Z.
    + set (c2 := upd _ i c1).
      assert (E2 : comm_slot (the i c2) = slot).
      { unfold c2. rewrite the_upd; [exact E1|]. unfold c1, upd. cbn [store with_store]. by rewrite lookup_alter_eq, E. }
      transitivity c2; [apply own_upd|]. rewrite E2.
      etransitivity; [apply (own_emit (XLineInput slot true))|]. apply own_addMessage. by left.
    + rewrite E1. apply (own_emit (XCharInput slot)).
Qed.

Lemma own_username slot i name c :
  chat_ok c → find slot c = Some i → own slot c (receiveUsername strict i name c).
Proof.
  intros Hc F. destruct (ok_find c slot i Hc F) as (_ & _ & E & [U _]). unfold receiveUsername.
  destruct (_ || _); [by apply own_addMessage; left|]. cbn zeta. set (c1 := upd _ i c).
  assert (E1 : comm_slot (the i c1) = slot) by (unfold c1; rewrite the_upd by (by eexists); exact U).
  transitivity c1; [apply own_upd|]. rewrite !addMessage_emits.
  repeat (etransitivity; [|apply own_emits_all]); [reflexivity|..];
    (match goal with |- context [comm_slot (the i ?x)] => change (the i x) with (the i c1) end); rewrite E1;
    (destruct (0 <=? slot)%Z; [apply message_effects_own|done]).
Qed.

Lemma own_command slot i command c d :
  chat_ok c → find slot c = Some i →
  own slot c match find_and_execute strict command i c with Some c' => c' | None => addMessage strict i d c end.
Proof.
  intros Hc F. destruct (ok_find c slot i Hc F) as (_ & _ & E & [U _]). unfold find_and_execute.
  destruct (bool_decide _).
  { unfold command_help. rewrite add_emits, U. apply own_emits_all, message_effects_own. }
  destruct (bool_decide _); [|by apply own_addMessage; left]. unfold command_quit, doMenu, setCharInput.
  set (c1 := upd _ i c).
  assert (E1 : comm_slot (the i c1) = slot) by (unfold c1; rewrite the_upd by (by eexists); exact U).
  transitivity c1; [apply own_upd|]. rewrite E1. destruct (0 <=? slot)%Z; [|done].
  apply (own_emit (XCharInput slot)).
Qed.
End Own.

(** ** Collection of idle users *)

Definition closes (l : list chat_effect) : list Z := omap (fun e => match e with XClose s => Some s | _ => None end) l.

Lemma closes_message strict c slot data : closes (message_effects strict c slot data) = [].
Proof.
  unfold message_effects, outbound_effects. destruct (_ =? 0); [done|]. destruct strict; [|done].
  destruct (find slot c); [|done]. by destruct (isDoingMenu _ _).
Qed.

(** A close changes the user of its slot only. *)
Lemma close_frame strict c slot j :
  find slot c = Some j →
  let c' := call_close strict slot c in
  closes (out c') = closes (out c) ++ [slot] ∧ now c' = now c
  ∧ (∀ k, k ≠ j → the k c' = the k c) ∧ (∀ s, s ≠ slot → find s c' = find s c).
Proof.
  intros F. unfold call_close. assert (K : closes (out c ++ [XClose slot]) = closes (out c) ++ [slot]).
  { unfold closes. by rewrite omap_app. }
  destruct (strict && _); [|by split_and!]. unfold on_disconnect, take_user. set (c1 := with_open _ _).
  change (find slot c1) with (find slot c). rewrite F.
  destruct (_ || _) eqn:E; [by split_and!|]. unfold disconnect. rewrite addMessage_emits.
  match goal with |- context [emits_all ?x _] => set (l := x) end. set (f := fun u => set_comm_slot (-1) (set_state Disconnected u)).
  assert (L : closes l = []) by (unfold l; destruct (0 <=? _)%Z; [apply closes_message|done]). clearbody l.
  set (c2 := upd f j _). assert (St : store c2 = alter f j (store c)) by done. split_and!; [|done|..].
  - change (out c2) with ((out c ++ [XClose slot]) ++ l). unfold closes at 1. rewrite omap_app.
    fold (closes (out c ++ [XClose slot])) (closes l). by rewrite K, L, app_nil_r.
  - intros k Hk. unfold the. by rewrite St, lookup_alter_ne.
  - intros s Hs. unfold find. change (registry c2) with (<[Z.to_nat slot := None]> (registry c)).
    destruct (Z.ltb_spec s 0); [done|]. apply find_spec in F as [? _]. by rewrite list_lookup_insert_ne by lia.
Qed.

Definition idle_slot (c : chat) (j : nat) : option Z :=
  if isIdleFor IDLE_TIMEOUT j c then Some (comm_slot (the j c)) else None.

Lemma collect_fold strict c js c' :
  NoDup js → (∀ j, j ∈ js → find (comm_slot (the j c)) c' = Some j ∧ the j c' = the j c) → now c' = now c →
  closes (out (foldl (fun c i => if isIdleFor IDLE_TIMEOUT i c then closeComm strict i c else c) c' js))
  = closes (out c') ++ omap (idle_slot c) js.
Proof.
  revert c'. induction js as [|j js IH]; intros c' Hn Hj Ht; [by rewrite app_nil_r|].
  apply NoDup_cons in Hn as [Nj Hn]. destruct (Hj j) as [Fj Ej]; [by left|]. cbn [foldl].
  change (omap (idle_slot c) (j :: js)) with (match idle_slot c j with Some b => b :: omap (idle_slot c) js | None => omap (idle_slot c) js end).
  assert (Ei : isIdleFor IDLE_TIMEOUT j c' = isIdleFor IDLE_TIMEOUT j c) by (unfold isIdleFor; by rewrite Ej, Ht).
  assert (Hi : idle_slot c j = if isIdleFor IDLE_TIMEOUT j c then Some (comm_slot (the j c)) else None) by done.
  rewrite Ei, Hi. clear Hi. destruct (isIdleFor IDLE_TIMEOUT j c) eqn:I.
  - unfold closeComm. rewrite Ej. unfold isIdleFor in I. apply andb_true_iff in I as [I0 _]. rewrite I0.
    destruct (close_frame strict c' _ j Fj) as (A & B & C & D). rewrite IH; [|done| |congruence].
    + by rewrite A, <- app_assoc.
    + intros k Hk. destruct (Hj k) as [Fk Ek]; [by right|]. assert (k ≠ j) by (by intros ->). split.
      * rewrite D; [done|]. intros E. rewrite E, Fj in Fk. by injection Fk.
      * by rewrite C.
  - apply IH; [done| |done]. intros k Hk. apply Hj. by right.
Qed.

Lemma snapshot_registered c j : j ∈ snapshot c ↔ ∃ n, registry c !! n = Some (Some j).
Proof.
  unfold snapshot. rewrite list_elem_of_omap. split.
  - intros (o & Ho & E). apply list_elem_of_lookup in Ho as [n Hn]. exists n. by rewrite Hn, <- E.
  - intros [n Hn]. exists (Some j). split; [|done]. by eapply list_elem_of_lookup_2.
Qed.

Lemma omap_id_nodup (l : list (option nat)) :
  (∀ n m j, l !! n = Some (Some j) → l !! m = Some (Some j) → n = m) → NoDup (omap id l).
Proof.
  induction l as [|o l IH]; intros H; [constructor|].
  assert (NoDup (omap id l)).
  { apply IH. intros n m j A B. assert (S n = S m) by (by apply (H (S n) (S m) j)). lia. }
  destruct o as [j|]; [|done]. change (omap id (Some j :: l)) with (j :: omap id l). constructor; [|done].
  rewrite list_elem_of_omap. intros (o & Ho & E). cbn in E. subst o. apply list_elem_of_lookup in Ho as [n Hn].
  specialize (H 0 (S n) j eq_refl Hn). lia.
Qed.

Lemma closes_collect strict c :
  chat_ok c → closes (out (on_garbage_collection strict c)) = closes (out c) ++ omap (idle_slot c) (snapshot c).
Proof.
  intros Hc. unfold on_garbage_collection. apply collect_fold; [| |done].
  - apply omap_id_nodup. intros n m j A B. destruct (ck_users c Hc n j A) as (_ & _ & u & Eu & [Uu _]).
    destruct (ck_users c Hc m j B) as (_ & _ & v & Ev & [Uv _]). rewrite Eu in Ev. injection Ev as <-. lia.
  - intros j [n Hn]%snapshot_registered. split; [|done]. destruct (ck_users c Hc n j Hn) as (_ & _ & u & Eu & [Uu _]).
    rewrite (the_Some _ _ _ Eu), Uu, find_nat, Hn. done.
Qed.

Lemma omap_concat {A B} (f : A → option B) l : omap f l = concat (map (fun x => match f x with Some y => [y] | None => [] end) l).
Proof. induction l as [|x l IH]; [done|]. cbn. destruct (f x); cbn; by rewrite <- IH. Qed.

(** ** Theorems *)

(** C38: the registry of the chat room is right after any sequence of hooks, inline or
    queued: it holds exactly one user for each open connection, under that
    connection's slot; every user is either logging in or logged in with a name
    of 3 to 16 bytes; and a user has a menu exactly while its input and prompt
    go to that menu, whose cursor and selection are in range. *)
Theorem chat_registry_ok strict es : chat_ok (chat_run strict chat_init es).
Proof. apply ok_run, chat_init_ok. Qed.

(** A chat line reaches the room.  The speaker, who is logged in, gets it back,
    and each other user who is logged in gets it once with the speaker's name, in
    the order of their slots; nobody else gets anything and no user changes apart
    from the speaker's idle time. *)
Theorem chat_line_delivered strict c slot i message :
  chat_ok c → find slot c = Some i → inbound_handler (the i c) = None →
  message ≠ [] → head message ≠ Some 47%Z →
  on_message_inbound strict slot message c =
  emits_all
    (message_effects strict c slot (bytes_of_string "You said: " ++ message ++ [10]%Z)
     ++ concat (map (fun s => message_effects strict c s (said (username (the i c)) message)) (others c slot)))
    (upd (set_idle_time (now c)) i c).
Proof.
  intros Hc F Hh Hm Hs. destruct (ok_find c slot i Hc F) as (_ & _ & E & U).
  assert (Is : is_Some (store c !! i)) by (by eexists).
  unfold on_message_inbound. rewrite F. set (c1 := upd _ i c).
  assert (T : the i c1 = set_idle_time (now c) (the i c)) by (unfold c1; by apply the_upd).
  rewrite (chat_line strict c1 slot); [|by apply (ok_upd c slot)|done|by rewrite T|done|done].
  rewrite T. cbn [username set_idle_time]. unfold c1 at 1 2 3. rewrite others_idle, message_effects_idle by done.
  do 3 f_equal. apply map_ext. intros x. by apply message_effects_idle.
Qed.

(** Nothing but a chat line leaves its connection: what a user types while it
    logs in or answers a menu, an empty line and a slash command cause calls about
    the user's own slot only, a close and its farewell included. *)
Theorem chat_private strict c slot i message :
  chat_ok c → find slot c = Some i →
  inbound_handler (the i c) ≠ None ∨ message = [] ∨ head message = Some 47%Z →
  own slot c (on_message_inbound strict slot message c).
Proof.
  intros Hc F Hp. destruct (ok_find c slot i Hc F) as (_ & _ & E & U).
  unfold on_message_inbound. rewrite F. set (c1 := upd _ i c).
  assert (T : the i c1 = set_idle_time (now c) (the i c)) by (unfold c1; apply the_upd; by eexists).
  assert (Hc1 : chat_ok c1) by (by apply (ok_upd c slot)).
  transitivity c1; [apply own_upd|]. unfold dispatchInboundMessage. rewrite T.
  cbn [inbound_handler set_idle_time comm_slot]. destruct (inbound_handler (the i c)) as [[]|] eqn:H.
  - by apply own_username.
  - apply own_exit; [done..|]. rewrite T. cbn. destruct U as [_ U]. destruct (state (the i c)); try done.
    by destruct U as [U _]; rewrite H in U.
  - destruct (_ <? 0)%Z; [done|]. destruct Hp as [|[->|Hp]]; [done..|]. destruct message as [|b m]; [done|].
    cbn in Hp. injection Hp as ->. rewrite Z.eqb_refl. by apply own_command.
Qed.

(** A line cleared for a user in a menu ends with a zero byte: the outbound hook
    writes five bytes of a literal that has four, so the terminating zero is sent
    to the client, unlike the same sequence when the menu is left. *)
Theorem menu_clear_sends_nul strict c slot i m data :
  find slot c = Some i → menu (the i c) = Some m →
  on_message_outbound slot data c = emits_all [XWrite slot ([13; 27; 91; 74] ++ [0])%Z; XWrite slot data] c
  ∧ addMessage strict i ([13]%Z ++ CLR) = addMessage strict i [13; 27; 91; 74]%Z.
Proof.
  intros F M. split; [|done]. rewrite outbound_emits. unfold outbound_effects, isDoingMenu. by rewrite F, M.
Qed.

(** A menu stays in range whatever keys arrive: the cursor and the selection are
    always positions of the menu, and a letter selects the first option that
    starts with it, whatever its case. *)
Theorem menu_keys_bounded keys m :
  menu_ok m →
  let m' := foldl (fun m k => receiveCharInput k m) m keys in
  menu_ok m' ∧ options m' = options m
  ∧ ∀ ch k rest, ch ∉ [27; 32; 10; 13]%Z → option_index ch (options m) = Some k →
      selected_index (receiveCharInput (ch :: rest) m') = Z.of_nat k.
Proof.
  intros Hm m'. assert (K : menu_ok m' ∧ options m' = options m).
  { unfold m'. clear m'. revert m Hm. induction keys as [|k keys IH]; intros m Hm; [done|]. cbn [foldl].
    destruct (receive_menu_ok k m Hm) as [A B]. destruct (IH _ A) as [C D]. split; [done|]. congruence. }
  destruct K as [K1 K2]. split; [done|]. split; [done|]. intros ch k rest Hch Hk.
  rewrite !not_elem_of_cons in Hch. destruct Hch as (N1 & N2 & N3 & N4 & _). unfold receiveCharInput, CUU, CUD, CSI.
  cbn [app]. rewrite !bool_decide_eq_false_2 by congruence. cbn [orb]. by rewrite K2, Hk.
Qed.

(** The collection closes exactly the idle connections: those, in the order of
    their slots, whose user has been silent for more than three minutes, each
    once, whether or not the disconnect hooks of the closed ones run meanwhile. *)
Theorem collection_closes_idle strict c :
  chat_ok c →
  closes (out (on_garbage_collection strict c)) =
  closes (out c) ++ filter (fun s => holds c (fun j => isIdleFor IDLE_TIMEOUT j c) s = true) (user_slots c).
Proof.
  intros Hc. rewrite closes_collect by done. f_equal. rewrite omap_concat.
  transitivity (concat (map (fun j => if isIdleFor IDLE_TIMEOUT j c then [comm_slot (the j c)] else []) (snapshot c))).
  { f_equal. apply map_ext. intros j. unfold idle_slot. by destruct (isIdleFor _ j c). }
  rewrite (snapshot_slots c (fun j => isIdleFor IDLE_TIMEOUT j c) (fun s => [s]) Hc).
  induction (filter _ _) as [|x l IH]; [done|]. cbn. by rewrite IH.
Qed.

(** The command line selects what it says: each transport is selected by its own
    name and by no other, the secure ones and no others enable TLS, before
    anything else and not on the console, and a connection is refused exactly when a
    WebSocket was asked for and cannot be enabled. *)
Theorem transport_selected ok name t entry_name :
  (parse_transport name = Some t ↔ name = transport_name t)
  ∧ (head (on_connect ok t entry_name).1 = Some EnTls ↔
       entry_name ≠ bytes_of_string "console:tty" ∧ t ∈ [TlsTelnet; SecureWebSocket; SecureWebSocketTelnet])
  ∧ ((on_connect ok t entry_name).2 = (-1)%Z ↔
       ok = false ∧ entry_name ≠ bytes_of_string "console:tty" ∧ ∃ p, EnWebSocket p ∈ (on_connect ok t entry_name).1).
Proof.
  split_and!.
  - unfold parse_transport. split.
    + do 7 (case_bool_decide as E; [intros [= <-]; exact E|clear E]). done.
    + intros ->. by destruct t.
  - unfold on_connect. rewrite list_elem_of_In. case_bool_decide as E.
    + split; [done|]. by intros [N _].
    + destruct t; cbn; intuition discriminate.
  - unfold on_connect. destruct (bool_decide (entry_name = _)) eqn:E.
    + apply bool_decide_eq_true in E. split; [done|]. intros (_ & N & _). done.
    + apply bool_decide_eq_false in E.
      destruct t, ok; cbn; (split; [intros H|intros (H1 & _ & p & Hp)]); try done.
      1-3: apply list_elem_of_In in Hp; cbn in Hp; intuition discriminate.
      all: split_and!; [done..|]; eexists; repeat first [apply list_elem_of_here | apply list_elem_of_further].
Qed.

(** ** Witnesses *)

(** Two users in the room, one still logging in, one asked whether to quit. *)
Definition room : chat :=
  chat_run true chat_init
    [EvReady 3; EvReady 4; EvReady 6; EvReady 7;
     EvInbound 3 (bytes_of_string "alice"); EvInbound 4 (bytes_of_string "bob"); EvInbound 7 (bytes_of_string "carol");
     EvInbound 7 (bytes_of_string "/quit"); EvTime 200; EvInbound 4 (bytes_of_string "/help")].

Lemma room_ok : chat_ok room.
Proof. apply ok_run, chat_init_ok. Qed.

Lemma chat_line_delivered_witness :
  drop (length (out room)) (out (on_message_inbound true 3 (bytes_of_string "hi") room)) =
    [XWrite 3 (bytes_of_string "You said: hi" ++ [10]%Z); XWrite 4 (bytes_of_string "alice says: hi" ++ [13; 10]%Z);
     XWrite 7 clear_line_write; XWrite 7 (bytes_of_string "alice says: hi" ++ [13; 10]%Z)].
Proof.
  rewrite (chat_line_delivered true room 3 0 (bytes_of_string "hi") room_ok); [|vm_compute; reflexivity..|done|done].
  vm_compute. reflexivity.
Defined.

Lemma chat_private_witness : own 7 room (on_message_inbound true 7 (bytes_of_string "y") room).
Proof. apply (chat_private true room 7 3 (bytes_of_string "y") room_ok); [vm_compute; reflexivity|left; vm_compute; done]. Defined.

Lemma menu_clear_sends_nul_witness :
  on_message_outbound 7 [104]%Z room = emits_all [XWrite 7 [13; 27; 91; 74; 0]%Z; XWrite 7 [104]%Z] room.
Proof.
  refine (proj1 (menu_clear_sends_nul true room 7 3 quit_menu [104]%Z _ _)); vm_compute; reflexivity.
Defined.

Lemma menu_keys_bounded_witness :
  selected_index (receiveCharInput (bytes_of_string "n") (foldl (fun m k => receiveCharInput k m) quit_menu [CUD; CUD; CUD; CUU])) = 1%Z.
Proof.
  refine (proj2 (proj2 (menu_keys_bounded [CUD; CUD; CUD; CUU] quit_menu quit_menu_ok)) 110%Z 1 [] _ _);
    [set_solver|vm_compute; reflexivity].
Defined.

Lemma collection_closes_idle_witness :
  closes (out (on_garbage_collection true room)) = [3; 6; 7]%Z.
Proof. rewrite (collection_closes_idle true room room_ok). vm_compute. reflexivity. Defined.
