(* ===== verification/ConsoleSetup.v ===== *)
(** * Console set-up and the console types (lib/comm/console.cpp,
      lib/comm/abstract.cpp, lib/async/console_worker.cpp)

    How the console is connected and given up again: the line queue, the reader
    (ConsoleWorker.v), the BIOs over standard input and output and their slot
    (Abstract.v), on every failure path; what standard input is taken for; and
    the reader of the Windows port.  The answers of the system are arguments. *)

From stdpp Require Import gmap.
From S2P Require Import Prelude InBuf OutBuf Abstract Utf8 ConsoleWorker.

(** ** Files as a slot *)

(** [comm_abstract_add_file]: the live BIOs, the table and the slot; [bio_in] and
    [bio_out] are the BIOs over the two files, [None] when one cannot be opened. *)
Definition comm_abstract_add_file `{SlotEnv} (bio_in bio_out : option nat) (slot fl : Z) (bios : gset nat) (t : table)
    : gset nat * table * Z :=
  match bio_in with
  | None => (bios, t, (-1)%Z)
  | Some i =>
      let bios1 := {[i]} ∪ bios in
      match bio_out with
      | None => (bios1 ∖ {[i]}, t, (-1)%Z)
      | Some o =>
          let bios2 := {[o]} ∪ bios1 in
          match comm_abstract_add_bio t (Some i) (Some o) slot fl with
          | (t', None) => ((bios2 ∖ {[i]}) ∖ {[o]}, t', (-1)%Z)
          | (t', Some s) => (bios2, t', s)
          end
      end
  end.

(** [comm_abstract_disconnect]: the BIOs that are reset. *)
Definition comm_abstract_disconnect (t : table) (slot : Z) : list nat * Z :=
  match resolve_slot t slot with
  | None => ([], (-1)%Z)
  | Some c =>
      (match rbio c with Some b => [b] | None => [] end
       ++ match wbio c with Some b => if bool_decide (wbio c = rbio c) then [] else [b] | None => [] end, 0%Z)
  end.

(** Descriptors of BIOs: [comm_bio_fd_to_socket_fd] and [comm_socket_fd_to_bio_fd] of
    both ports, and [comm_bio_get_socket_fd], where [get_fd] is [BIO_get_fd]. *)
Definition INVALID_SOCKET_FD (win : bool) : Z := if win then (2 ^ 64 - 1)%Z else (-1)%Z.
Definition comm_bio_fd_to_socket_fd (win : bool) (bio_fd : Z) : Z := if win then u32 bio_fd else bio_fd.
Definition comm_socket_fd_to_bio_fd (win : bool) (fd : Z) : option Z :=
  if (fd =? INVALID_SOCKET_FD win)%Z then None
  else if win && (2 ^ 31 - 1 <? fd)%Z then None
  else Some fd.
Definition comm_bio_get_socket_fd (win : bool) (get_fd : nat → Z) (b : option nat) : option Z :=
  match b with
  | None => None
  | Some b =>
      if (get_fd b <? 0)%Z then None
      else let fd := comm_bio_fd_to_socket_fd win (get_fd b) in
           if (fd =? INVALID_SOCKET_FD win)%Z then None else Some fd
  end.
Definition comm_abstract_get_rbio_fd (win : bool) (get_fd : nat → Z) (t : table) (slot : Z) : option Z :=
  c ← resolve_slot t slot; comm_bio_get_socket_fd win get_fd (rbio c).
Definition comm_abstract_get_wbio_fd (win : bool) (get_fd : nat → Z) (t : table) (slot : Z) : option Z :=
  c ← resolve_slot t slot; comm_bio_get_socket_fd win get_fd (wbio c).

(** ** The console's type *)

Inductive console_type := CONSOLE_TYPE_NONE | CONSOLE_TYPE_TTY | CONSOLE_TYPE_PIPE | CONSOLE_TYPE_FILE.
#[export] Instance console_type_eq_dec : EqDecision console_type.
Proof. solve_decision. Defined.

Definition console_type_str (t : console_type) : list Z :=
  bytes_of_string match t with
  | CONSOLE_TYPE_NONE => "console:none" | CONSOLE_TYPE_TTY => "console:tty"
  | CONSOLE_TYPE_PIPE => "console:pipe" | CONSOLE_TYPE_FILE => "console:file"
  end.

(** [console_detect_type] from [isatty] and [fstat]. *)
Definition console_detect_type (tty fstat_ok fifo : bool) : console_type :=
  if tty then CONSOLE_TYPE_TTY
  else if fstat_ok then if fifo then CONSOLE_TYPE_PIPE else CONSOLE_TYPE_FILE
  else CONSOLE_TYPE_NONE.

(** ... and from the standard handle of the Windows port. *)
Inductive file_type := FILE_TYPE_PIPE | FILE_TYPE_DISK | FILE_TYPE_OTHER.
Definition console_detect_type_win (handle_ok console_mode : bool) (f : file_type) : console_type :=
  if negb handle_ok then CONSOLE_TYPE_NONE
  else if console_mode then CONSOLE_TYPE_TTY
  else match f with
  | FILE_TYPE_PIPE => CONSOLE_TYPE_PIPE
  | FILE_TYPE_DISK => CONSOLE_TYPE_FILE
  | FILE_TYPE_OTHER => CONSOLE_TYPE_NONE
  end.

(** ** Starting and stopping the console *)

Record console_setup := {
  cz_queue : bool;                        (* [console_queue] is there *)
  cz_ctx : option console_worker;         (* [console_ctx] *)
  cz_pending : bool;                      (* [console_disconnect_pending] *)
  cz_bios : gset nat;
  cz_table : table;
  cz_connects : nat;                      (* calls of [comm_invoke_connect] *)
  cz_line_modes : nat                     (* calls of [comm_set_line_input] with echo *)
}.

(** The system's answers to a start. *)
Record console_env := {
  ce_queue : bool; ce_event : bool; ce_thread : bool; ce_type : console_type;
  ce_in : option nat; ce_out : option nat
}.

Definition comm_init_console `{SlotEnv} (env : console_env) (s : console_setup) : console_setup * bool :=
  let ret queue ctx bios t connects ok :=
    ({| cz_queue := queue; cz_ctx := ctx; cz_pending := false; cz_bios := bios; cz_table := t;
        cz_connects := connects; cz_line_modes := cz_line_modes s |}, ok) in
  if negb (cz_queue s || ce_queue env) then ret false (cz_ctx s) (cz_bios s) (cz_table s) (cz_connects s) false
  else
    match console_worker_init (ce_event env) (bool_decide (ce_type env = CONSOLE_TYPE_NONE)) (ce_thread env) with
    | None => ret false None (cz_bios s) (cz_table s) (cz_connects s) false
    | Some ctx =>
        match resolve_slot (cz_table s) COMM_SLOT_CONSOLE with
        | Some _ => ret true (Some ctx) (cz_bios s) (cz_table s) (S (cz_connects s)) true
        | None =>
            let '(bios, t, slot) :=
              comm_abstract_add_file (ce_in env) (ce_out env) COMM_SLOT_CONSOLE C_LINE_INPUT (cz_bios s) (cz_table s) in
            if (slot <? 0)%Z then ret false None bios t (cz_connects s) false
            else ret true (Some ctx) bios t (S (cz_connects s)) true
        end
    end.

(** [comm_signal_console_eof]. *)
Definition comm_signal_console_eof (s : console_setup) : console_setup :=
  {| cz_queue := cz_queue s; cz_ctx := console_worker_set_eof <$> cz_ctx s; cz_pending := cz_pending s;
     cz_bios := cz_bios s; cz_table := cz_table s; cz_connects := cz_connects s; cz_line_modes := cz_line_modes s |}.

(** [comm_shutdown_console]; the wait for the reader is the one of ConsoleWorker.v. *)
Definition comm_shutdown_console (s : console_setup) : console_setup :=
  {| cz_queue := false; cz_ctx := None; cz_pending := false; cz_bios := cz_bios s; cz_table := cz_table s;
     cz_connects := cz_connects s;
     cz_line_modes := match cz_ctx s with Some _ => S (cz_line_modes s) | None => cz_line_modes s end |}.

(** ** The reader of the Windows port *)

Inductive win_wait := WaitStdin | WaitStop | WaitFailed.

(** The system's answers in one turn of [console_worker_proc_win32]: whether a stop is
    seen at the loop condition, the wait, and what the reads give ([None]: they
    fail, with a broken pipe or otherwise). *)
Record win_turn := {
  wt_stop : bool;
  wt_wait : win_wait;
  wt_broken_pipe : bool;
  wt_wide : option (list Z);              (* [ReadConsoleW]: UTF-16 units *)
  wt_available : option nat;              (* [PeekNamedPipe] *)
  wt_bytes : option (list Z)              (* [ReadFile] *)
}.

(** What a turn does: go on, or leave the loop; the end of input, and a line for
    the queue. *)
Inductive win_result := WinGoOn | WinLine (bytes : list Z) | WinEnd (eof : bool).

Section Windows.
(** [WideCharToMultiByte] with [CP_UTF8]: its result fits the buffer or it returns 0. *)
Context (to_utf8 : list Z → list Z).

(** The whole line is ^Z, CR and LF, and starts with ^Z. *)
Definition is_ctrl_z (line : list Z) : bool :=
  match line with
  | [] => false
  | first :: _ => (first =? 26)%Z && forallb (fun b => existsb (Z.eqb b) [26; 13; 10]%Z) line
  end.

(** The end of a turn that has read [data], [None] when the read failed. *)
Definition win_deliver (broken : bool) (data : option (list Z)) : win_result :=
  match data with
  | None => WinEnd broken
  | Some [] => WinEnd true
  | Some line => if is_ctrl_z line then WinEnd true else WinLine (line ++ [0%Z])
  end.

Definition console_turn_win32 (t : console_type) (a : win_turn) : win_result :=
  if wt_stop a then WinEnd false
  else match wt_wait a with
  | WaitStop | WaitFailed => WinEnd false
  | WaitStdin =>
      match t with
      | CONSOLE_TYPE_TTY =>
          match wt_wide a with
          | None => win_deliver (wt_broken_pipe a) None
          | Some [] => WinGoOn
          | Some wide =>
              if (default 0%Z (last wide) =? 27)%Z then WinGoOn
              else
                let line := to_utf8 wide in
                if (length line =? 0) || (CONSOLE_MAX_LINE - 1 <? length line) then WinGoOn
                else win_deliver (wt_broken_pipe a) (Some line)
          end
      | CONSOLE_TYPE_PIPE =>
          match wt_available a with
          | None => WinEnd (wt_broken_pipe a)
          | Some 0 => WinGoOn
          | Some n => win_deliver (wt_broken_pipe a) (take (Nat.min n (CONSOLE_MAX_LINE - 1)) <$> wt_bytes a)
          end
      | _ => win_deliver (wt_broken_pipe a) (take (CONSOLE_MAX_LINE - 1) <$> wt_bytes a)
      end
  end.

(** [console_worker_proc_win32]: the lines it queues, and [Some] when it leaves its
    loop, with whether it recorded the end of input. *)
Fixpoint console_worker_proc_win32 (t : console_type) (turns : list win_turn) : list (list Z) * option bool :=
  match turns with
  | [] => ([], None)
  | a :: rest =>
      match console_turn_win32 t a with
      | WinGoOn => console_worker_proc_win32 t rest
      | WinLine line => let '(lines, e) := console_worker_proc_win32 t rest in (line :: lines, e)
      | WinEnd eof => ([], Some eof)
      end
  end.

End Windows.

(** ** Lemmas *)

Section Setup.
Context `{SlotEnv}.

(** The console's slot is the one that is asked for. *)
Lemma add_console_slot t i o fl t' s :
  table_ok t → comm_abstract_add_bio t (Some i) (Some o) COMM_SLOT_CONSOLE fl = (t', Some s) → s = COMM_SLOT_CONSOLE.
Proof.
  intros Hok E. unfold comm_abstract_add_bio in E. cbn [bool_decide] in E.
  rewrite bool_decide_eq_false_2 in E by done. cbn [andb] in E.
  destruct (ensure_capacity t 2) as [t1 ok] eqn:EC. destruct (ensure_capacity_spec _ _ _ _ Hok EC) as (_ & _ & O3 & _).
  destruct ok; cbn [negb] in E; [|done]. destruct (O3 eq_refl) as [_ Hm]. unfold prepare_slot in E.
  rewrite (proj2 (orb_false_iff _ _)) in E by (split; unfold COMM_SLOT_CONSOLE; [done|apply Z.leb_gt; lia]).
  destruct (resolve_slot t1 COMM_SLOT_CONSOLE); (destruct (slot_ptr _ _); [|done]); by injection E as _ <-.
Qed.

(** A file pair is added whole or not at all. *)
Lemma add_file_spec bio_in bio_out fl bios t :
  table_ok t → resolve_slot t COMM_SLOT_CONSOLE = None →
  (∀ i, bio_in = Some i → i ∉ bios) → (∀ o, bio_out = Some o → o ∉ bios) → (bio_in = None ∨ bio_in ≠ bio_out) →
  let '(bios', t', s) := comm_abstract_add_file bio_in bio_out COMM_SLOT_CONSOLE fl bios t in
  (s = (-1)%Z ∧ bios' = bios)
  ∨ (s = COMM_SLOT_CONSOLE ∧ ∃ i o c, bio_in = Some i ∧ bio_out = Some o ∧ bios' = {[i; o]} ∪ bios
       ∧ resolve_slot t' s = Some c ∧ rbio c = Some i ∧ wbio c = Some o ∧ flags c = fl).
Proof.
  intros Hok Hn Hi Ho Hd. unfold comm_abstract_add_file. destruct bio_in as [i|]; [|by left].
  destruct bio_out as [o|]; [|left; split; [done|]; specialize (Hi i eq_refl); set_solver].
  specialize (Hi i eq_refl). specialize (Ho o eq_refl).
  destruct (comm_abstract_add_bio t (Some i) (Some o) COMM_SLOT_CONSOLE fl) as [t' [s|]] eqn:E; [|left; split; [done|]; set_solver].
  right. pose proof (add_console_slot _ _ _ _ _ _ Hok E) as ->. split; [done|].
  destruct (add_bio_fresh _ _ _ _ _ _ _ Hok E) as (_ & (c & R & A & B & F & _) & _).
  exists i, o, c. split_and!; try done. set_solver.
Qed.
End Setup.

(** ** Theorems *)

(** The console starts whole or not at all.  A start that fails leaves no queue,
    no reader, no BIO and no connection behind and tells nobody; one that succeeds
    has all of them, the slot over the two BIOs it opened (or over those it
    already had), and has called the connect hook once. *)
Theorem console_start_all_or_nothing `{SlotEnv} env s :
  table_ok (cz_table s) → cz_queue s = false → cz_ctx s = None →
  (∀ i, ce_in env = Some i → i ∉ cz_bios s) → (∀ o, ce_out env = Some o → o ∉ cz_bios s) →
  (ce_in env = None ∨ ce_in env ≠ ce_out env) →
  let '(s', ok) := comm_init_console env s in
  cz_pending s' = false ∧
  if ok then cz_queue s' = true ∧ is_Some (cz_ctx s') ∧ cz_connects s' = S (cz_connects s)
    ∧ ∃ c, resolve_slot (cz_table s') COMM_SLOT_CONSOLE = Some c
        ∧ (resolve_slot (cz_table s) COMM_SLOT_CONSOLE = Some c ∧ cz_bios s' = cz_bios s
           ∨ ∃ i o, rbio c = Some i ∧ wbio c = Some o ∧ cz_bios s' = {[i; o]} ∪ cz_bios s)
  else cz_queue s' = false ∧ cz_ctx s' = None ∧ cz_connects s' = cz_connects s ∧ cz_bios s' = cz_bios s.
Proof.
  intros Hok Hq Hc Hi Ho Hd. unfold comm_init_console. rewrite Hq, Hc. cbn [orb].
  destruct (ce_queue env); cbn [negb]; [|by split_and!].
  destruct (console_worker_init _ _ _) as [ctx|]; [|by split_and!].
  destruct (resolve_slot (cz_table s) COMM_SLOT_CONSOLE) as [c|] eqn:R.
  { split_and!; try done. exists c. split; [done|]. by left. }
  pose proof (add_file_spec (ce_in env) (ce_out env) C_LINE_INPUT (cz_bios s) (cz_table s) Hok R Hi Ho Hd) as A.
  destruct (comm_abstract_add_file _ _ _ _ _ _) as [[bios t] slot].
  destruct A as [(-> & ->)|(-> & i & o & c & _ & _ & -> & Rc & A1 & A2 & _)]; cbn; split_and!; try done.
  exists c. split; [done|]. right. by exists i, o.
Qed.

(** A console can be given up and taken again: a shutdown frees the queue and the
    reader, restores line input exactly when there was a reader, and keeps the
    slot, so that the next start opens nothing and is told of one new connection. *)
Theorem console_restart `{SlotEnv} env s c :
  ce_queue env = true → ce_event env = true → ce_thread env = true →
  resolve_slot (cz_table s) COMM_SLOT_CONSOLE = Some c →
  let s1 := comm_shutdown_console s in
  let '(s2, ok) := comm_init_console env s1 in
  cz_queue s1 = false ∧ cz_ctx s1 = None
  ∧ cz_line_modes s1 = cz_line_modes s + match cz_ctx s with Some _ => 1 | None => 0 end
  ∧ ok = true ∧ cz_table s2 = cz_table s ∧ cz_bios s2 = cz_bios s ∧ cz_connects s2 = S (cz_connects s).
Proof.
  intros E1 E2 E3 R. unfold comm_init_console, comm_shutdown_console, console_worker_init.
  cbn [cz_queue cz_ctx cz_bios cz_table cz_connects cz_line_modes cz_pending]. rewrite E1, E2, E3, R. cbn.
  destruct (bool_decide _); split_and!; try done; destruct (cz_ctx s); lia.
Qed.

(** What the Windows reader queues fits the queue: every line is a read of at
    least one byte, not an end-of-file mark, with its terminating zero, and at
    most 4096 bytes long, for each type of console and whatever the system
    answers. *)
Theorem win_lines_bounded to_utf8 t turns :
  Forall (fun line => ∃ data, line = data ++ [0%Z] ∧ 0 < length data ∧ is_ctrl_z data = false
                              ∧ length line ≤ CONSOLE_MAX_LINE)
    (console_worker_proc_win32 to_utf8 t turns).1.
Proof.
  assert (D : ∀ broken data line, win_deliver broken data = WinLine line →
            ∃ x, data = Some x ∧ line = x ++ [0%Z] ∧ 0 < length x ∧ is_ctrl_z x = false).
  { intros broken [[|b x]|] line; cbn; try done. destruct (_ && _) eqn:Z; intros [= <-]. exists (b :: x).
    split_and!; try done. cbn. lia. }
  assert (L : ∀ a line, console_turn_win32 to_utf8 t a = WinLine line →
            ∃ x, line = x ++ [0%Z] ∧ 0 < length x ∧ is_ctrl_z x = false ∧ length x ≤ CONSOLE_MAX_LINE - 1).
  { intros a line. unfold console_turn_win32. destruct (wt_stop a); [done|]. destruct (wt_wait a); try done.
    destruct t.
    - intros (x & E & -> & ? & ?)%D. apply fmap_Some in E as (y & _ & ->). exists (take (CONSOLE_MAX_LINE - 1) y).
      split_and!; try done. rewrite length_take. lia.
    - destruct (wt_wide a) as [[|u wide]|]; try done. destruct (_ =? 27)%Z; [done|].
      destruct (_ || _) eqn:E; [done|]. apply orb_false_iff in E as [_ E%Nat.ltb_ge].
      intros (x & [= <-] & -> & ? & ?)%D. eexists. by split_and!.
    - destruct (wt_available a) as [[|n]|]; try done. intros (x & E & -> & ? & ?)%D.
      apply fmap_Some in E as (y & _ & ->). eexists. split_and!; try done. rewrite length_take. lia.
    - intros (x & E & -> & ? & ?)%D. apply fmap_Some in E as (y & _ & ->). eexists. split_and!; try done.
      rewrite length_take. lia. }
  induction turns as [|a turns IH]; [done|]. cbn [console_worker_proc_win32].
  destruct (console_turn_win32 to_utf8 t a) as [|line|eof] eqn:E; [done| |done].
  destruct (console_worker_proc_win32 to_utf8 t turns) as [lines e]. cbn in *. constructor; [|done].
  destruct (L a line E) as (x & -> & ? & ? & B). exists x. split_and!; try done.
  rewrite length_app. cbn. unfold CONSOLE_MAX_LINE in *. lia.
Qed.

(** A long line typed on the Windows console is lost whole: the conversion buffer
    holds 4095 bytes, a line of 4095 units may need three times as many, and when
    it does not fit nothing is queued and nothing is reported. *)
Theorem win_long_line_dropped to_utf8 wide broken rest :
  wide ≠ [] → last wide ≠ Some 27%Z → CONSOLE_MAX_LINE - 1 < length (to_utf8 wide) →
  let turn := {| wt_stop := false; wt_wait := WaitStdin; wt_broken_pipe := broken; wt_wide := Some wide;
                 wt_available := None; wt_bytes := None |} in
  console_worker_proc_win32 to_utf8 CONSOLE_TYPE_TTY (turn :: rest)
  = console_worker_proc_win32 to_utf8 CONSOLE_TYPE_TTY rest.
Proof.
  intros Hw Hl Hn turn. cbn [console_worker_proc_win32]. unfold console_turn_win32. cbn [turn wt_stop wt_wait wt_wide].
  destruct wide as [|u wide]; [done|]. destruct (Z.eqb_spec (default 0%Z (last (u :: wide))) 27) as [E|_].
  - destruct (last (u :: wide)); [|done]. cbn in E. by subst.
  - by rewrite (proj2 (Nat.ltb_lt _ _) Hn), orb_true_r.
Qed.

(** A socket that is given to a BIO is found again: the descriptor read back from
    the BIO is the socket, on both ports, for every socket the conversion accepts. *)
Theorem socket_fd_roundtrip win fd bio_fd get_fd b :
  (0 <= fd < 2 ^ 64)%Z → comm_socket_fd_to_bio_fd win fd = Some bio_fd → get_fd b = bio_fd →
  comm_bio_get_socket_fd win get_fd (Some b) = Some fd.
Proof.
  intros Hf E Hb. unfold comm_bio_get_socket_fd, comm_bio_fd_to_socket_fd. rewrite Hb.
  unfold comm_socket_fd_to_bio_fd in E. destruct (Z.eqb_spec fd (INVALID_SOCKET_FD win)) as [|N]; [done|].
  destruct (win && (2 ^ 31 - 1 <? fd)%Z) eqn:W; [done|]. injection E as <-.
  rewrite (proj2 (Z.ltb_ge _ _)) by lia. destruct win; cbn [andb] in W.
  - apply Z.ltb_ge in W. unfold u32. rewrite Z.mod_small by lia. by rewrite (proj2 (Z.eqb_neq _ _) N).
  - by rewrite (proj2 (Z.eqb_neq _ _) N).
Qed.

(** ** Witnesses *)

Definition console_down : console_setup :=
  {| cz_queue := false; cz_ctx := None; cz_pending := true; cz_bios := {[6]}; cz_table := sample_table;
     cz_connects := 0; cz_line_modes := 0 |}.
Definition tty_env (out : option nat) : console_env :=
  {| ce_queue := true; ce_event := true; ce_thread := true; ce_type := CONSOLE_TYPE_TTY; ce_in := Some 8; ce_out := out |}.

Lemma console_start_all_or_nothing_witness :
  (comm_init_console (H := sample_env) (tty_env None) console_down).2 = false
  ∧ cz_bios (comm_init_console (H := sample_env) (tty_env None) console_down).1 = {[6]}.
Proof.
  split; [vm_compute; reflexivity|].
  pose proof (console_start_all_or_nothing (H := sample_env) (tty_env None) console_down sample_table_ok eq_refl eq_refl) as T.
  destruct (comm_init_console (H := sample_env) (tty_env None) console_down) as [s ok] eqn:E.
  assert (ok = false) as -> by (by vm_compute in E; injection E).
  apply T; [by intros i [= <-]; vm_compute|done|by right].
Defined.

Definition console_up : console_setup := (comm_init_console (H := sample_env) (tty_env (Some 9)) console_down).1.

Lemma console_restart_witness :
  cz_connects (comm_init_console (H := sample_env) (tty_env None) (comm_shutdown_console console_up)).1 = 2.
Proof.
  assert (∃ c, resolve_slot (cz_table console_up) COMM_SLOT_CONSOLE = Some c) as [c R] by (eexists; vm_compute; reflexivity).
  pose proof (console_restart (H := sample_env) (tty_env None) console_up c eq_refl eq_refl eq_refl R) as T. cbn zeta in T.
  destruct (comm_init_console (H := sample_env) (tty_env None) (comm_shutdown_console console_up)) as [s2 ok].
  destruct T as (_ & _ & _ & _ & _ & _ & T). exact T.
Defined.

(** Ideographs, each three bytes of UTF-8. *)
Definition bmp_utf8 (wide : list Z) : list Z := concat (map utf8_encode wide).

Lemma win_long_line_dropped_witness :
  console_worker_proc_win32 bmp_utf8 CONSOLE_TYPE_TTY
    [{| wt_stop := false; wt_wait := WaitStdin; wt_broken_pipe := false; wt_wide := Some (repeat 0x4e00%Z 1366);
        wt_available := None; wt_bytes := None |}] = ([], None).
Proof.
  refine (win_long_line_dropped bmp_utf8 (repeat 0x4e00%Z 1366) false [] _ _ _); [done|vm_compute; done|].
  apply Nat.ltb_lt. vm_compute. reflexivity.
Defined.

Lemma socket_fd_roundtrip_witness : comm_bio_get_socket_fd true (fun _ => 640%Z) (Some 3) = Some 640%Z.
Proof. apply (socket_fd_roundtrip true 640 640 (fun _ => 640%Z) 3); [lia|reflexivity|reflexivity]. Defined.
