(* ===== verification/LoopTurn.v ===== *)
(** * A turn of the event loop over every slot (src/mudmux.cpp, lib/comm/inbound.cpp)

    The body of the loop of [mudmux_run] for a whole server: the routing of the
    events of one wait to registered events, listening slots and connections,
    the retained readiness of registered events, and the passes over all slots
    that end a turn.  [EventLoop] says what happens to one connection; here the
    passes run slot by slot in the order of the code, the slots share the flag for
    deferred input, and the hooks called for one slot may change others.  Events
    are registered before the loop runs.  The last section interleaves the pass
    over deferred input with workers. *)

From stdpp Require Import gmap.
From S2P Require Import Prelude InBuf OutBuf Abstract Execution WsFrame HttpUpgrade WsConn World.
From S2P Require Import Outbound InputMode Inbound EventLoop EventReg.

(** ** Registered events *)

(** An [event_registration_t] of the running server. *)
Record registration := { rg_reg : event_registration; rg_timer : bool; rg_pending : bool }.

Definition set_pending_flag (b : bool) (r : registration) : registration :=
  {| rg_reg := rg_reg r; rg_timer := rg_timer r; rg_pending := b |}.

(** The answers to one attempt: whether an execution is in flight, and what
    dispatching says. *)
Record reg_attempt := { at_busy : bool; at_result : dispatch_result }.

(** [dispatch_registered_event]: the registration, the timer mask, and the message
    that was dispatched; [timer_hook] is the registered timer hook. *)
Definition dispatch_registered_event (timer_hook : nat) (a : reg_attempt) (mask : Z) (r : registration)
    : registration * Z * option Z :=
  if negb (rg_pending r) || at_busy a then (r, mask, None)
  else
    let hook_func := if er_hook (rg_reg r) =? 0 then timer_hook else er_hook (rg_reg r) in
    let r := set_pending_flag false r in
    if hook_func =? 0 then (r, mask, None)
    else
      let flags := if rg_timer r then mask else 0%Z in
      let mask := if rg_timer r then 0%Z else mask in
      if rg_timer r && (flags =? 0)%Z then (r, mask, None)
      else
        let msg := if rg_timer r then flags else (-1)%Z in
        match at_result a with
        | DISPATCH_QUEUE_FULL => (set_pending_flag true r, if rg_timer r then Z.lor mask flags else mask, Some msg)
        | _ => (r, mask, Some msg)
        end.

(** ** The server *)

(** [event.context]: a registration, null, or a slot number. *)
Inductive context := CtxRegistration (i : nat) | CtxNull | CtxSlot (slot : Z).

(** What the loop calls beside the functions on one slot, in order. *)
Inductive loop_call :=
  | LConsole                                                  (* comm_process_console_input *)
  | LFileInput                                                (* comm_process_file_input *)
  | LAccept (slot : Z)                                        (* comm_process_listener_event *)
  | LEvent (i : nat) (msg : Z) (r : dispatch_result)          (* mudmux_execution_dispatch *)
  | LHooks (slot : Z)                                         (* the hooks called while a slot is served *)
  | LCollect.                                                 (* HOOK_GARBAGE_COLLECTION *)

(** The slots, and [has_deferred_input], which all of them share. *)
Abbreviation slots_state := (gmap Z world * bool)%type.

Record loop_server := {
  sv_slots : slots_state;
  sv_regs : list registration;
  sv_mask : Z;                      (* [timer_pending_flags] *)
  sv_attempts : list reg_attempt;       (* the answers still to come *)
  sv_calls : list loop_call
}.

Definition set_slots (s : loop_server) (m : slots_state) : loop_server :=
  {| sv_slots := m; sv_regs := sv_regs s; sv_mask := sv_mask s; sv_attempts := sv_attempts s; sv_calls := sv_calls s |}.
Definition set_reg (i : nat) (r : registration) (s : loop_server) : loop_server :=
  {| sv_slots := sv_slots s; sv_regs := <[i := r]> (sv_regs s); sv_mask := sv_mask s; sv_attempts := sv_attempts s;
     sv_calls := sv_calls s |}.

Section Loop.
Context (hosts : Z → Host) `{MultiByte, WsCrypto} (timer_hook : nat).

(** What a call does to the slots is said elsewhere (Accept.v, Console.v, FileInput.v)
    or is the application's: hooks may write to and close other slots than the
    one they are called for.  Here it is any function of the slots. *)
Context (outside : loop_call → slots_state → slots_state).

(** [0 .. comm_max_slot() - 1]. *)
Context (slots_up : gmap Z world → list Z).

Definition calls (c : loop_call) (s : loop_server) : loop_server :=
  {| sv_slots := outside c (sv_slots s); sv_regs := sv_regs s; sv_mask := sv_mask s; sv_attempts := sv_attempts s;
     sv_calls := sv_calls s ++ [c] |}.

(** One attempt at the [i]th registration. *)
Definition try_registration (i : nat) (s : loop_server) : loop_server :=
  match sv_regs s !! i with
  | None => s
  | Some r =>
      let '(a, rest) := match sv_attempts s with
                        | [] => ({| at_busy := false; at_result := DISPATCH_OK |}, [])
                        | a :: rest => (a, rest)
                        end in
      let '(r', mask, msg) := dispatch_registered_event timer_hook a (sv_mask s) r in
      let s := {| sv_slots := sv_slots s; sv_regs := <[i := r']> (sv_regs s); sv_mask := mask; sv_attempts := rest;
                  sv_calls := sv_calls s |} in
      match msg with Some m => calls (LEvent i m (at_result a)) s | None => s end
  end.

(** A function on the slot record, where there is one, and what the hooks it calls do
    to other slots, taken together at its end. *)
Definition on_slot {A} (none : A) (f : Host → world → option (world * A)) (slot : Z) (s : loop_server)
    : option (loop_server * A) :=
  let '(m, has_deferred) := sv_slots s in
  match m !! slot with
  | None => Some (s, none)
  | Some w =>
      '(w', a) ← f (hosts slot) (with_deferred w has_deferred);
      Some (calls (LHooks slot) (set_slots s (<[slot := w']> m, deferred w')), a)
  end.

(** The same without a result. *)
Definition serve (f : Host → world → option world) (slot : Z) (s : loop_server) : option loop_server :=
  fst <$> on_slot tt (fun h w => (fun w' => (w', tt)) <$> f h w) slot s.

(** One event of the batch; [None] when a flush runs out of fuel. *)
Definition route_event (s : loop_server) (c : context) (ev : io_event) : option loop_server :=
  match c with
  | CtxRegistration i =>
      Some (try_registration i
        match sv_regs s !! i with Some r => set_reg i (set_pending_flag true r) s | None => s end)
  | CtxNull => Some s
  | CtxSlot slot =>
      match (sv_slots s).1 !! slot with
      | None => Some s
      | Some w =>
          if bool_decide (is_Some (comm w)) && flag w C_SOCKET_LISTENING then Some (calls (LAccept slot) s)
          else serve (fun h => handle_event (H := h) ev) slot s
      end
  end.

Fixpoint route_all (s : loop_server) (evs : list (context * io_event)) : option loop_server :=
  match evs with
  | [] => Some s
  | (c, ev) :: rest => s' ← route_event s c ev; route_all s' rest
  end.

(** [comm_resume_deferred_input] over the slots; what it found is stored at its end,
    over whatever was stored meanwhile. *)
Fixpoint resume_all (order : list Z) (any_deferred : bool) (s : loop_server) : option loop_server :=
  match order with
  | [] => Some (set_slots s ((sv_slots s).1, any_deferred))
  | slot :: rest =>
      '(s, still) ← on_slot false (fun h w => Some (comm_resume_deferred_input (H := h) w)) slot s;
      resume_all rest (any_deferred || still) s
  end.

Definition pass_resume (s : loop_server) : option loop_server :=
  if (sv_slots s).2 then resume_all (slots_up (sv_slots s).1) false s else Some s.

(** The other passes of the end of a turn, for one slot. *)
Definition pass_flush (h : Host) (w : world) : option world := comm_flush (H := h) 3 w.
Definition pass_progress (h : Host) (w : world) : option world :=
  Some (if flag w C_CLOSING && negb (flag w C_AWAITING_HOOK) then (comm_close (H := h) w).1 else w).
Definition pass_prompt (h : Host) (w : world) : option world := Some (comm_invoke_prompt (H := h) w).

Fixpoint pass (f : Host → world → option world) (order : list Z) (s : loop_server) : option loop_server :=
  match order with
  | [] => Some s
  | slot :: rest => s' ← serve f slot s; pass f rest s'
  end.

(** A turn after the wait: console and file input, the events, the registered events
    that are still pending, the deferred input of every slot upwards, the
    collection, the flushes and the progress of closes downwards, the prompts
    upwards. *)
Definition server_turn (console files : bool) (evs : list (context * io_event)) (s : loop_server) : option loop_server :=
  let s := if console then calls LConsole s else s in
  let s := if files then calls LFileInput s else s in
  s ← route_all s evs;
  let s := foldl (fun s i => try_registration i s) s (seq 0 (length (sv_regs s))) in
  s ← pass_resume s;
  let s := calls LCollect s in
  s ← pass pass_flush (reverse (slots_up (sv_slots s).1)) s;
  s ← pass pass_progress (reverse (slots_up (sv_slots s).1)) s;
  pass pass_prompt (slots_up (sv_slots s).1) s.

(** ** Lemmas *)

(** Serving slots leaves the registrations alone, and the calls are added to. *)
Definition adds_calls (s s' : loop_server) : Prop :=
  sv_regs s' = sv_regs s ∧ ∃ l, sv_calls s' = sv_calls s ++ l.

#[local] Instance adds_calls_preorder : PreOrder adds_calls.
Proof.
  split.
  - intros s. split; [done|]. exists []. by rewrite app_nil_r.
  - intros s1 s2 s3 [A1 [l1 B1]] [A2 [l2 B2]]. split; [congruence|]. exists (l1 ++ l2). by rewrite B2, B1, app_assoc.
Qed.

Lemma calls_adds c s : adds_calls s (calls c s).
Proof. split; [done|]. by exists [c]. Qed.

Lemma set_slots_adds m s : adds_calls s (set_slots s m).
Proof. split; [done|]. exists []. by rewrite app_nil_r. Qed.

Lemma on_slot_adds {A} (none : A) f slot s s' a : on_slot none f slot s = Some (s', a) → adds_calls s s'.
Proof.
  unfold on_slot. destruct (sv_slots s) as [m d]. destruct (m !! slot) as [w|]; [|by intros [= <- _]].
  destruct (f (hosts slot) (with_deferred w d)) as [[w' x]|]; [|done]. intros [= <- _].
  etransitivity; [apply set_slots_adds|apply calls_adds].
Qed.

Lemma serve_adds f slot s s' : serve f slot s = Some s' → adds_calls s s'.
Proof.
  unfold serve. intros E. apply fmap_Some in E as ([s1 u] & E & ->). by eapply on_slot_adds.
Qed.

Lemma pass_adds f order s s' : pass f order s = Some s' → adds_calls s s'.
Proof.
  revert s. induction order as [|slot order IH]; intros s; cbn [pass]; [by intros [= <-]|].
  destruct (serve f slot s) as [s1|] eqn:E; [|done]. cbn. intros P. etransitivity; [by eapply serve_adds|by apply IH].
Qed.

Lemma resume_adds order any s s' : resume_all order any s = Some s' → adds_calls s s'.
Proof.
  revert any s. induction order as [|slot order IH]; intros any s; cbn [resume_all].
  - intros [= <-]. apply set_slots_adds.
  - destruct (on_slot _ _ slot s) as [[s1 still]|] eqn:E; [|done]. cbn. intros P.
    etransitivity; [by eapply on_slot_adds|by eapply IH].
Qed.

(** *** Registered events *)

(** A registration with its own hook is pending, or was handed over and not refused
    as busy after the first [n] calls. *)
Record kept (n i : nat) (reg : event_registration) (s : loop_server) : Prop := {
  kp_known : ∃ r, sv_regs s !! i = Some r ∧ rg_reg r = reg ∧ rg_timer r = false
    ∧ (rg_pending r = true ∨ ∃ m res, LEvent i m res ∈ drop n (sv_calls s) ∧ res ≠ DISPATCH_QUEUE_FULL);
  kp_calls : n ≤ length (sv_calls s)
}.

(** The same without the readiness. *)
Definition known (n i : nat) (reg : event_registration) (s : loop_server) : Prop :=
  (∃ r, sv_regs s !! i = Some r ∧ rg_reg r = reg ∧ rg_timer r = false) ∧ n ≤ length (sv_calls s).

Lemma elem_drop_app {A} (x : A) n l k : x ∈ drop n l → x ∈ drop n (l ++ k).
Proof. intros Hx. rewrite drop_app. apply elem_of_app. by left. Qed.

Lemma elem_drop_last {A} (x : A) n l : n ≤ length l → x ∈ drop n (l ++ [x]).
Proof.
  intros Hn. rewrite drop_app_le by done. apply elem_of_app. right. by apply list_elem_of_singleton.
Qed.

Lemma adds_kept n i reg s s' : adds_calls s s' → kept n i reg s → kept n i reg s'.
Proof.
  intros [Er [l El]] [(r & R1 & R2 & R3 & K) L]. split; [|rewrite El, length_app; lia].
  exists r. rewrite Er, El. split_and!; try done. destruct K as [K|(m & res & K1 & K2)]; [by left|].
  right. exists m, res. split; [by apply elem_drop_app|done].
Qed.

Lemma adds_known n i reg s s' : adds_calls s s' → known n i reg s → known n i reg s'.
Proof. intros [Er [l El]] [K L]. unfold known. rewrite Er, El, length_app. split; [done|lia]. Qed.

Lemma try_kept n i reg j s : er_hook reg ≠ 0 → kept n i reg s → kept n i reg (try_registration j s).
Proof.
  intros Hh [(r & Er & Rg & Rt & K) L]. unfold try_registration.
  destruct (sv_regs s !! j) as [q|] eqn:Eq; [|by split; [exists r|]].
  destruct (match sv_attempts s with [] => _ | _ :: _ => _ end) as [a rest].
  destruct (dispatch_registered_event timer_hook a (sv_mask s) q) as [[q' mask] msg] eqn:D. cbn zeta.
  set (s1 := {| sv_slots := sv_slots s; sv_regs := <[j := q']> (sv_regs s); sv_mask := mask; sv_attempts := rest;
                sv_calls := sv_calls s |}).
  assert (A : adds_calls s1 match msg with Some m => calls (LEvent j m (at_result a)) s1 | None => s1 end)
    by (destruct msg; [apply calls_adds|done]).
  destruct (decide (j = i)) as [->|N].
  2:{ eapply adds_kept; [exact A|]. split; [|done]. exists r. cbn. by rewrite list_lookup_insert_ne. }
  rewrite Er in Eq. injection Eq as <-.
  assert (El : sv_regs s1 !! i = Some q') by (cbn; by rewrite list_lookup_insert_eq by (by eapply lookup_lt_Some)).
  unfold dispatch_registered_event in D. rewrite Rg in D. cbn zeta in D. cbn [rg_timer set_pending_flag] in D. rewrite ?Rt in D.
  destruct (rg_pending r) eqn:P; cbn [negb orb] in D.
  - destruct (at_busy a). { injection D as <- _ <-. split; [|done]. exists r. split_and!; try done. by left. }
    rewrite (proj2 (Nat.eqb_neq _ _) Hh) in D. cbn iota in D. rewrite ?(proj2 (Nat.eqb_neq _ _) Hh) in D. cbn [andb] in D.
    destruct (at_result a) eqn:R; injection D as <- _ <-;
      (split; [|cbn; rewrite length_app; lia]); eexists; (split; [exact El|]); cbn; split_and!; try done;
      [right|right|by left|right]; exists (-1)%Z; eexists; (split; [by apply elem_drop_last|done]).
  - injection D as <- _ <-. destruct K as [K|K]; [congruence|]. split; [|done]. exists r. split_and!; try done. by right.
Qed.

Lemma try_all_kept n i reg l s :
  er_hook reg ≠ 0 → kept n i reg s → kept n i reg (foldl (fun s i => try_registration i s) s l).
Proof. intros Hh. revert s. induction l as [|j l IH]; intros s K; [done|]. cbn. by apply IH, try_kept. Qed.

Lemma try_known n i reg j s : known n i reg s → known n i reg (try_registration j s).
Proof.
  intros [(r & Er & Rg & Rt) L]. unfold try_registration. destruct (sv_regs s !! j) as [q|] eqn:Eq; [|by split; [exists r|]].
  destruct (match sv_attempts s with [] => _ | _ :: _ => _ end) as [a rest].
  destruct (dispatch_registered_event timer_hook a (sv_mask s) q) as [[q' mask] msg] eqn:D. cbn zeta.
  set (s1 := {| sv_slots := sv_slots s; sv_regs := <[j := q']> (sv_regs s); sv_mask := mask; sv_attempts := rest;
                sv_calls := sv_calls s |}).
  apply (adds_known n i reg s1); [destruct msg; [apply calls_adds|done]|].
  assert (Q : rg_reg q' = rg_reg q ∧ rg_timer q' = rg_timer q).
  { unfold dispatch_registered_event in D. repeat case_match; simplify_eq; done. }
  split; [|done]. cbn. destruct (decide (j = i)) as [->|N].
  - rewrite list_lookup_insert_eq by (by eapply lookup_lt_Some). exists q'. rewrite Er in Eq. injection Eq as <-.
    destruct Q. split_and!; congruence.
  - rewrite list_lookup_insert_ne by done. by exists r.
Qed.

(** A reported registration is pending before the attempt. *)
Lemma report_kept n i reg j s :
  known n i reg s → (j = i ∨ kept n i reg s) →
  kept n i reg match sv_regs s !! j with Some r => set_reg j (set_pending_flag true r) s | None => s end.
Proof.
  intros [(r & Er & Rg & Rt) L] Hj. destruct (sv_regs s !! j) as [q|] eqn:Eq; [|by destruct Hj as [->|]; [congruence|]].
  split; [|done]. cbn. destruct (decide (j = i)) as [->|N].
  - rewrite list_lookup_insert_eq by (by eapply lookup_lt_Some). rewrite Er in Eq. injection Eq as <-.
    eexists. split; [done|]. cbn. split_and!; try done. by left.
  - rewrite list_lookup_insert_ne by done. destruct Hj as [->|[K _]]; done.
Qed.

Lemma report_known n i reg j s :
  known n i reg s → known n i reg match sv_regs s !! j with Some r => set_reg j (set_pending_flag true r) s | None => s end.
Proof.
  intros [(r & Er & Rg & Rt) L]. destruct (sv_regs s !! j) as [q|] eqn:Eq; [|by split; [exists r|]]. split; [|done]. cbn.
  destruct (decide (j = i)) as [->|N].
  - rewrite list_lookup_insert_eq by (by eapply lookup_lt_Some). rewrite Er in Eq. injection Eq as <-. by eexists.
  - rewrite list_lookup_insert_ne by done. by exists r.
Qed.

Lemma route_kept n i reg s evs s' :
  er_hook reg ≠ 0 → known n i reg s → (kept n i reg s ∨ CtxRegistration i ∈ map fst evs) →
  route_all s evs = Some s' → kept n i reg s'.
Proof.
  intros Hh. revert s. induction evs as [|[c ev] evs IH]; intros s Kn Hr; cbn [route_all].
  { intros [= <-]. destruct Hr as [|Hr]; [done|]. by apply not_elem_of_nil in Hr. }
  destruct (route_event s c ev) as [s1|] eqn:E; [|done]. cbn. intros R.
  assert (Same : adds_calls s s1 → c ≠ CtxRegistration i → kept n i reg s').
  { intros Ad Hc. apply (IH s1); [by eapply adds_known| |done].
    destruct Hr as [K|Hr]; [left; by eapply adds_kept|].
    right. cbn in Hr. apply elem_of_cons in Hr as [Hr|Hr]; [congruence|done]. }
  destruct c as [j| |slot]; cbn [route_event] in E.
  - injection E as <-. revert R. apply IH; [by apply try_known, report_known|].
    destruct Hr as [K|Hr]; [left; apply try_kept, report_kept; [done|done|by right]|].
    cbn in Hr. apply elem_of_cons in Hr as [[= ->]|Hr]; [|by right].
    left. apply try_kept, report_kept; [done|done|by left].
  - injection E as <-. by apply Same.
  - destruct ((sv_slots s).1 !! slot) as [w|]; [|injection E as <-; by apply Same].
    destruct (bool_decide _ && _); [injection E as <-; apply Same; [apply calls_adds|done]|].
    apply Same; [by eapply serve_adds|done].
Qed.

(** ** Theorems *)

(** C40: the readiness of a registered event is not lost in a turn.  An event other
    than the timer that has a hook of its own and is reported in a turn, or was
    left pending by an earlier one, is at the end of the turn either still
    pending, to be tried again, or was dispatched in this turn and not refused
    for lack of room: it is with its hook, unless the dispatch answered with an
    error.  Whatever the calls of the turn do to the slots. *)
Theorem registered_readiness_kept console files evs s s' i r :
  sv_regs s !! i = Some r → rg_timer r = false → er_hook (rg_reg r) ≠ 0 →
  rg_pending r = true ∨ CtxRegistration i ∈ map fst evs →
  server_turn console files evs s = Some s' →
  ∃ r', sv_regs s' !! i = Some r' ∧ rg_reg r' = rg_reg r
    ∧ (rg_pending r' = true
       ∨ ∃ m res, LEvent i m res ∈ drop (length (sv_calls s)) (sv_calls s') ∧ res ≠ DISPATCH_QUEUE_FULL).
Proof.
  intros Er Rt Hh Hr. unfold server_turn. cbn zeta.
  set (n := length (sv_calls s)). set (s0 := if files then _ else _).
  assert (A0 : adds_calls s s0).
  { unfold s0. destruct console, files; try done; repeat (etransitivity; [|apply calls_adds]); done. }
  assert (Kn : known n i (rg_reg r) s0) by (eapply adds_known; [exact A0|split; [by exists r|done]]).
  destruct (route_all s0 evs) as [s1|] eqn:R; [|done]. cbn [mbind option_bind].
  assert (K1 : kept n i (rg_reg r) s1).
  { apply (route_kept n i (rg_reg r) s0 evs s1); [done|done| |done].
    destruct Hr as [P|]; [|by right]. left. eapply adds_kept; [exact A0|]. split; [|done].
    exists r. split_and!; try done. by left. }
  apply (try_all_kept n i (rg_reg r) (seq 0 (length (sv_regs s1)))) in K1; [|done].
  set (s2 := foldl _ s1 _) in *. unfold pass_resume.
  destruct (if (sv_slots s2).2 then _ else _) as [s3|] eqn:E3; [|done]. cbn.
  assert (A3 : adds_calls s2 s3) by (destruct (sv_slots s2).2; [by eapply resume_adds|by injection E3 as <-]).
  destruct (pass pass_flush _ _) as [s4|] eqn:E4; [|done]. cbn.
  destruct (pass pass_progress _ _) as [s5|] eqn:E5; [|done]. cbn. intros E6.
  assert (A : adds_calls s2 s').
  { etransitivity; [exact A3|]. etransitivity; [apply (calls_adds LCollect)|].
    etransitivity; [by eapply pass_adds|]. etransitivity; [by eapply pass_adds|by eapply pass_adds]. }
  destruct (adds_kept n i _ _ _ A K1) as [(r' & R1 & R2 & _ & K) _]. by exists r'.
Qed.

End Loop.

(** Two connections, the second one dropped by its peer, and a registered event. *)
Definition two_slots : loop_server := {|
  sv_slots := (<[5%Z := eof_world true false false false false true 1]>
                (<[6%Z := eof_world true true false true false true 1]> ∅), false);
  sv_regs := [{| rg_reg := {| er_event := 1; er_hook := 2 |}; rg_timer := false; rg_pending := false |}];
  sv_mask := 0;
  sv_attempts := [{| at_busy := false; at_result := DISPATCH_QUEUE_FULL |}; {| at_busy := true; at_result := DISPATCH_OK |}];
  sv_calls := []
|}.

Definition demo_events : list (context * io_event) := [(CtxRegistration 0, read_event); (CtxSlot 6, read_event)].

Definition demo_turn : option loop_server :=
  server_turn (H := ascii_mbrlen) (H0 := sample_crypto) tty_host 1 (fun _ m => m) (fun _ => [5; 6]%Z)
    false false demo_events two_slots.

Lemma demo_turn_runs : is_Some demo_turn.
Proof. vm_compute. by eexists. Qed.

(** The queue was full at the first attempt, and the next one found the hook busy. *)
Lemma registered_readiness_kept_witness : ∃ s' r', demo_turn = Some s' ∧ sv_regs s' !! 0 = Some r'
  ∧ (rg_pending r' = true ∨ ∃ m res, LEvent 0 m res ∈ drop 0 (sv_calls s') ∧ res ≠ DISPATCH_QUEUE_FULL).
Proof.
  destruct demo_turn_runs as [s' E].
  destruct (registered_readiness_kept (H := ascii_mbrlen) (H0 := sample_crypto) tty_host 1 (fun _ m => m) (fun _ => [5; 6]%Z)
    false false demo_events two_slots s' 0
    {| rg_reg := {| er_event := 1; er_hook := 2 |}; rg_timer := false; rg_pending := false |}
    eq_refl eq_refl (ltac:(discriminate)) (or_intror (list_elem_of_here _ _)) E) as (r' & A & _ & B).
  exists s', r'. split; [exact E|]. split; [exact A|exact B].
Defined.

(** ** The pass over deferred input, interleaved with workers *)

(** The loop visits the slots one by one, taking the table's lock for each, and
    stores what it found at the end; hooks on workers set the same flags when
    they complete. *)
Record deferral := {
  df_flag : list bool;                  (* C_DEFERRED_INBOUND of each slot *)
  df_busy : list bool;                  (* a hook of the slot is in flight *)
  df_has : bool;                        (* [has_deferred_input] *)
  df_pass : option (nat * bool)         (* in the pass: next slot, [any_deferred] *)
}.

Inductive deferral_label :=
  | DEnter                              (* [comm_has_deferred_input] is true *)
  | DVisit (again busy : bool)          (* the next slot; input may be deferred again, a hook dispatched *)
  | DStore                              (* the end of the pass *)
  | DDispatch (slot : nat) (defers : bool)   (* the loop queues a hook, an inbound one defers its slot *)
  | DComplete (slot : nat)              (* its completion, on the worker, defers the slot *)
  | DFinish (slot : nat).

Definition deferral_step (s : deferral) (l : deferral_label) : option deferral :=
  let put f b h p := Some {| df_flag := f; df_busy := b; df_has := h; df_pass := p |} in
  match l, df_pass s with
  | DEnter, None => if df_has s then put (df_flag s) (df_busy s) (df_has s) (Some (0, false)) else None
  | DVisit again busy, Some (k, any) =>
      match df_flag s !! k, df_busy s !! k with
      | Some false, Some _ => put (df_flag s) (df_busy s) (df_has s) (Some (S k, any))
      | Some true, Some true => put (df_flag s) (df_busy s) (df_has s) (Some (S k, true))
      | Some true, Some false =>
          put (<[k := again]> (df_flag s)) (<[k := busy]> (df_busy s)) (df_has s || again) (Some (S k, any || again))
      | _, _ => None
      end
  | DStore, Some (k, any) => if k =? length (df_flag s) then put (df_flag s) (df_busy s) any None else None
  | DDispatch k defers, None =>
      match df_busy s !! k with
      | Some false => put (if defers then <[k := true]> (df_flag s) else df_flag s) (<[k := true]> (df_busy s))
                        (df_has s || defers) None
      | _ => None
      end
  | DComplete k, p =>
      match df_busy s !! k with
      | Some true => put (<[k := true]> (df_flag s)) (df_busy s) true p
      | _ => None
      end
  | DFinish k, p =>
      match df_busy s !! k with
      | Some true => put (df_flag s) (<[k := false]> (df_busy s)) (df_has s) p
      | _ => None
      end
  | _, _ => None
  end.

Definition deferral_init (n : nat) : deferral :=
  {| df_flag := replicate n false; df_busy := replicate n false; df_has := false; df_pass := None |}.

Fixpoint deferral_run (s : deferral) (ls : list deferral_label) : option deferral :=
  match ls with [] => Some s | l :: rest => s' ← deferral_step s l; deferral_run s' rest end.

(** Only hooks that deferred their slot when they were queued. *)
Definition inbound_only (l : deferral_label) : Prop :=
  match l with
  | DDispatch _ defers => defers = true
  | DVisit again busy => busy = true → again = true
  | _ => True
  end.

Record deferral_inv (s : deferral) : Prop := {
  di_busy : ∀ k, df_busy s !! k = Some true → df_flag s !! k = Some true;
  di_has : ∀ k, df_flag s !! k = Some true → df_has s = true;
  di_pass : ∀ k any j, df_pass s = Some (k, any) → j < k → df_flag s !! j = Some true → any = true;
  di_len : ∀ k any, df_pass s = Some (k, any) → k ≤ length (df_flag s);
  di_wid : length (df_busy s) = length (df_flag s)
}.

Lemma insert_true (l : list bool) k b j x : <[k := b]> l !! j = Some x → (j = k ∧ x = b) ∨ l !! j = Some x.
Proof.
  destruct (decide (j = k)) as [->|N]; [|rewrite list_lookup_insert_ne by done; by right].
  intros E. assert (k < length l) by (rewrite <- (length_insert l k b); by eapply lookup_lt_Some).
  rewrite list_lookup_insert_eq in E by done. injection E as <-. by left.
Qed.

Lemma insert_keeps_true (l : list bool) k j : l !! j = Some true → <[k := true]> l !! j = Some true.
Proof.
  intros E. destruct (decide (j = k)) as [->|N]; [|by rewrite list_lookup_insert_ne].
  rewrite list_lookup_insert_eq; [done|]. by eapply lookup_lt_Some.
Qed.

Lemma deferral_step_inv s l s' : inbound_only l → deferral_inv s → deferral_step s l = Some s' → deferral_inv s'.
Proof.
  intros Hl [B Hs P L W] E. unfold deferral_step in E. destruct l as [|again busy| |k defers|k|k].
  - destruct (df_pass s) as [[]|] eqn:Ep; [done|]. destruct (df_has s) eqn:Eh; [|done]. injection E as <-.
    split; cbn; try done; [intros ? ? ? [= <- <-]; lia|intros ? ? [= <- <-]; lia].
  - destruct (df_pass s) as [[k any]|] eqn:Ep; [|done].
    destruct (df_flag s !! k) as [[]|] eqn:Ef; [destruct (df_busy s !! k) as [[]|] eqn:Eb|destruct (df_busy s !! k) as [b|] eqn:Eb|];
      try done; injection E as <-; assert (k < length (df_flag s)) by (by eapply lookup_lt_Some).
    + split; cbn; try done; [by intros ? ? ? [= <- <-]|intros ? ? [= <- <-]; lia].
    + split; cbn.
      * intros j [[-> Hj]|Hj]%insert_true.
        -- rewrite list_lookup_insert_eq by done. by rewrite Hl.
        -- assert (j ≠ k) by (by intros ->; congruence). rewrite list_lookup_insert_ne by done. by apply B.
      * intros j [[_ <-]|Hj]%insert_true; [by rewrite orb_true_r|]. by rewrite (Hs j Hj).
      * intros k' any' j [= <- <-] Hj Hf. destruct (decide (j = k)) as [->|N].
        -- rewrite list_lookup_insert_eq in Hf by done. injection Hf as ->. apply orb_true_r.
        -- rewrite list_lookup_insert_ne in Hf by done. rewrite (P k any j eq_refl ltac:(lia) Hf). done.
      * intros k' any' [= <- <-]. rewrite length_insert. lia.
      * by rewrite !length_insert.
    + split; cbn; try done; [|intros ? ? [= <- <-]; lia]. intros ? ? j [= <- <-] Hj Hf.
      apply (P k any j eq_refl); [|done]. assert (j ≠ k) by congruence. lia.
  - destruct (df_pass s) as [[k any]|] eqn:Ep; [|done]. destruct (k =? _) eqn:Ek; [|done]. apply Nat.eqb_eq in Ek.
    injection E as <-. split; cbn; try done. intros j Hj. apply (P k any j eq_refl); [|done]. rewrite Ek. by eapply lookup_lt_Some.
  - cbn in Hl. subst defers. destruct (df_pass s) as [[]|] eqn:Ep; [done|]. destruct (df_busy s !! k) as [[]|] eqn:Eb; try done.
    injection E as <-. split; cbn; try done; [|intros; apply orb_true_r|by rewrite !length_insert].
    intros j [[-> _]|Hj]%insert_true; [|by apply insert_keeps_true, B].
    destruct (lookup_lt_is_Some_2 (df_flag s) k) as [b Hb].
    { rewrite <- W. by eapply lookup_lt_Some. }
    by rewrite list_lookup_insert_eq by (by eapply lookup_lt_Some).
  - destruct (df_busy s !! k) as [[]|] eqn:Eb; try done. injection E as <-. pose proof (B k Eb) as Hk.
    split; cbn; rewrite ?(list_insert_id _ _ _ Hk); done.
  - destruct (df_busy s !! k) as [[]|] eqn:Eb; try done. injection E as <-. split; cbn; rewrite ?length_insert; try done.
    intros j [[_ [=]]|Hj]%insert_true. by apply B.
Qed.

Lemma deferral_run_inv s ls s' : Forall inbound_only ls → deferral_inv s → deferral_run s ls = Some s' → deferral_inv s'.
Proof.
  intros Hl. revert s. induction Hl as [|l ls Hl _ IH]; intros s I; cbn; [by intros [= <-]|].
  destruct (deferral_step s l) as [s1|] eqn:E; [|done]. apply IH. by eapply deferral_step_inv.
Qed.

Lemma deferral_init_inv n : deferral_inv (deferral_init n).
Proof. split; cbn; rewrite ?length_replicate; try done; intros k []%lookup_replicate; done. Qed.

(** Input deferred behind an inbound hook is not forgotten.  Whatever the order in
    which the loop goes over the slots and workers complete hooks, as long as
    every hook in flight deferred its slot when it was queued, the next turn
    looks for deferred input whenever a slot has some. *)
Theorem deferred_kept n ls s k :
  Forall inbound_only ls → deferral_run (deferral_init n) ls = Some s → df_flag s !! k = Some true → df_has s = true.
Proof. intros Hl R. by apply di_has, (deferral_run_inv (deferral_init n) ls), R; [|apply deferral_init_inv]. Qed.

Definition kept_trace : list deferral_label :=
  [DDispatch 0 true; DEnter; DVisit false false; DVisit false false; DComplete 0; DStore; DFinish 0].

Lemma deferred_kept_witness : ∃ s, deferral_run (deferral_init 2) kept_trace = Some s ∧ df_flag s !! 0 = Some true ∧ df_has s = true.
Proof.
  eexists. split; [vm_compute; reflexivity|]. split; [reflexivity|].
  apply (deferred_kept 2 kept_trace _ 0); [repeat constructor; done|vm_compute; reflexivity|reflexivity].
Defined.

(** A transport-ready or connect hook does not defer its slot when it is queued,
    and then the deferral its completion records can be lost: completed after
    the pass went by the slot and before the pass stores its result, it leaves
    the slot's input deferred, no hook in flight, and the flag that makes the
    loop look for deferred input false. *)
Theorem deferred_lost :
  ∃ ls s, deferral_run (deferral_init 2) ls = Some s
    ∧ df_flag s !! 0 = Some true ∧ df_busy s = [false; false] ∧ df_pass s = None ∧ df_has s = false.
Proof.
  exists [DDispatch 0 false; DDispatch 1 true; DFinish 1; DEnter; DVisit false false; DVisit false false;
          DComplete 0; DStore; DFinish 0].
  eexists. split; [vm_compute; reflexivity|]. repeat split.
Qed.
