(* ===== verification/WinInputMode.v ===== *)
(** * Console modes of the Windows port (lib/comm/input_mode.cpp, console.cpp)

    The same three operations as in [InputMode], over the console's mode word
    instead of termios.  The theorems relate the slot's flags to the console's
    mode and the two ports to each other. *)

From S2P Require Import Prelude InBuf OutBuf Abstract Execution WsFrame WsConn World Outbound InputMode.

(** ** The console *)

Definition ENABLE_PROCESSED_INPUT : Z := 0x1.
Definition ENABLE_LINE_INPUT : Z := 0x2.
Definition ENABLE_ECHO_INPUT : Z := 0x4.
Definition ENABLE_VIRTUAL_TERMINAL_INPUT : Z := 0x200.

(** The mode of the console behind the standard input, [None] when there is none
    ([GetStdHandle] or [GetConsoleMode] fails), and the keys injected into its
    input buffer. *)
Record win_console := { wc_mode : option Z; wc_keys : list Z }.

Section WinModes.
Context `{Host} (SetConsoleMode : Z → bool).

Definition get_console_input_mode (k : win_console) : option Z := wc_mode k.

Definition VK_ESCAPE : Z := 0x1B.

Definition set_console_input_mode (set_bits clear_bits : Z) (k : win_console) : win_console * bool :=
  match get_console_input_mode k with
  | None => (k, false)
  | Some current_mode =>
      let new_mode := Z.ldiff (Z.lor current_mode set_bits) clear_bits in
      if SetConsoleMode new_mode then
        ({| wc_mode := Some new_mode;
            wc_keys := wc_keys k ++
              if has_flag clear_bits ENABLE_LINE_INPUT && has_flag current_mode ENABLE_LINE_INPUT
              then [VK_ESCAPE] else [] |}, true)
      else (k, false)
  end.

Definition comm_set_echo_win (echo : bool) (w : world) (k : win_console) : world * win_console * bool :=
  match comm w with
  | None => (w, k, false)
  | Some _ =>
      if is_console then
        let '(k, result) := if echo then set_console_input_mode ENABLE_ECHO_INPUT 0 k
                            else set_console_input_mode 0 ENABLE_ECHO_INPUT k in
        (set_client_echo echo w, k, result)
      else (set_client_echo echo (on_conn (negotiate_echo echo) w), k, true)
  end.

Definition line_set_bits (echo : bool) : Z :=
  Z.lor (Z.lor ENABLE_LINE_INPUT ENABLE_PROCESSED_INPUT) (if echo then ENABLE_ECHO_INPUT else 0).
Definition line_clear_bits (echo : bool) : Z :=
  Z.lor ENABLE_VIRTUAL_TERMINAL_INPUT (if echo then 0 else ENABLE_ECHO_INPUT).

Definition comm_set_line_input_win (echo : bool) (w : world) (k : win_console) : world * win_console * bool :=
  match comm w with
  | None => (w, k, false)
  | Some c =>
      if has_flag (flags c) C_LINE_INPUT then comm_set_echo_win echo w k
      else if is_console then
        let '(k, ok) := set_console_input_mode (line_set_bits echo) (line_clear_bits echo) k in
        if ok then comm_set_echo_win echo (raise C_LINE_INPUT w) k else (w, k, false)
      else
        let w := if has_flag (flags c) C_ENABLE_TELNET
                 then on_conn (negotiate_telnet_line_input true) w else w in
        comm_set_echo_win echo (raise C_LINE_INPUT w) k
  end.

Definition comm_set_char_input_win (w : world) (k : win_console) : world * win_console * bool :=
  match comm w with
  | None =>
      if is_console then
        let '(k, ok) := set_console_input_mode (Z.lor ENABLE_PROCESSED_INPUT ENABLE_VIRTUAL_TERMINAL_INPUT)
                          (Z.lor ENABLE_LINE_INPUT ENABLE_ECHO_INPUT) k in (w, k, ok)
      else (w, k, false)
  | Some c =>
      if is_console then
        let '(k, ok) := set_console_input_mode (Z.lor ENABLE_PROCESSED_INPUT ENABLE_VIRTUAL_TERMINAL_INPUT)
                          (Z.lor ENABLE_LINE_INPUT ENABLE_ECHO_INPUT) k in
        if ok then (lower (Z.lor C_LINE_INPUT C_CLIENT_ECHO) w, k, true) else (w, k, false)
      else
        let w := if has_flag (flags c) C_ENABLE_TELNET
                 then on_conn (negotiate_telnet_line_input false) w else w in
        (lower (Z.lor C_LINE_INPUT C_CLIENT_ECHO) w, k, true)
  end.

(** ** Calls *)

Inductive mode_call := SetLineInput (echo : bool) | SetCharInput | SetEcho (echo : bool).

Definition mode_step (m : mode_call) (w : world) (k : win_console) : world * win_console * bool :=
  match m with
  | SetLineInput echo => comm_set_line_input_win echo w k
  | SetCharInput => comm_set_char_input_win w k
  | SetEcho echo => comm_set_echo_win echo w k
  end.

(** A run of calls, and whether all of them succeeded. *)
Fixpoint mode_run (ms : list mode_call) (w : world) (k : win_console) : world * win_console * bool :=
  match ms with
  | [] => (w, k, true)
  | m :: rest =>
      let '(w, k, ok) := mode_step m w k in
      let '(w, k, all) := mode_run rest w k in (w, k, ok && all)
  end.

(** What the console reads and what the slot believes agree. *)
Record modes_agree (w : world) (m : Z) : Prop := {
  ma_line : has_flag m ENABLE_LINE_INPUT = flag w C_LINE_INPUT;
  ma_echo : has_flag m ENABLE_ECHO_INPUT = flag w C_CLIENT_ECHO;
  ma_keys : has_flag m ENABLE_VIRTUAL_TERMINAL_INPUT = negb (flag w C_LINE_INPUT);
  ma_proc : has_flag m ENABLE_PROCESSED_INPUT = true
}.

(** The bits of the console's mode that the operations change. *)
Definition console_bits : Z :=
  Z.lor (Z.lor ENABLE_PROCESSED_INPUT ENABLE_LINE_INPUT) (Z.lor ENABLE_ECHO_INPUT ENABLE_VIRTUAL_TERMINAL_INPUT).

(** The changes from line input to character input in a run of calls. *)
Fixpoint switches (line : bool) (ms : list mode_call) : nat :=
  match ms with
  | [] => 0
  | SetLineInput _ :: rest => switches true rest
  | SetCharInput :: rest => (if line then 1 else 0) + switches false rest
  | SetEcho _ :: rest => switches line rest
  end.

(** ** Lemmas *)

Lemma has_flag_bit f n : (0 ≤ n)%Z → has_flag f (2 ^ n) = Z.testbit f n.
Proof.
  intros Hn. unfold has_flag. apply eq_true_iff_eq. rewrite negb_true_iff, Z.eqb_neq. split.
  - intros N. apply not_false_iff_true. intros E. apply N. apply Z.bits_inj'. intros i Hi.
    rewrite Z.land_spec, Z.bits_0, Z.pow2_bits_eqb by done. destruct (Z.eqb_spec n i) as [<-|]; [by rewrite E|by rewrite andb_false_r].
  - intros E N. apply (f_equal (fun x => Z.testbit x n)) in N.
    rewrite Z.land_spec, Z.bits_0, Z.pow2_bits_true, E in N by done. done.
Qed.

(** One change of the console's mode, bit by bit. *)
Lemma set_mode_spec set_bits clear_bits k k' m :
  wc_mode k = Some m → set_console_input_mode set_bits clear_bits k = (k', true) →
  ∃ m', wc_mode k' = Some m'
    ∧ (∀ n, (0 ≤ n)%Z → has_flag m' (2 ^ n) = (has_flag m (2 ^ n) || Z.testbit set_bits n) && negb (Z.testbit clear_bits n))
    ∧ (Z.land set_bits console_bits = set_bits → Z.land clear_bits console_bits = clear_bits →
       Z.ldiff m' console_bits = Z.ldiff m console_bits)
    ∧ wc_keys k' = wc_keys k ++
        if has_flag clear_bits ENABLE_LINE_INPUT && has_flag m ENABLE_LINE_INPUT then [VK_ESCAPE] else [].
Proof.
  intros M E. unfold set_console_input_mode, get_console_input_mode in E. rewrite M in E.
  destruct (SetConsoleMode _); [|done]. injection E as <-. eexists. split; [reflexivity|]. split_and!; [| |done].
  - intros n Hn. by rewrite !has_flag_bit, Z.ldiff_spec, Z.lor_spec.
  - intros <- <-. apply Z.bits_inj'. intros n Hn. rewrite !Z.ldiff_spec, Z.lor_spec, !Z.land_spec.
    by destruct (Z.testbit m n), (Z.testbit set_bits n), (Z.testbit clear_bits n), (Z.testbit console_bits n).
Qed.

Lemma flag_set_client_echo echo w : comm w ≠ None →
  flag (set_client_echo echo w) C_CLIENT_ECHO = echo ∧ flag (set_client_echo echo w) C_LINE_INPUT = flag w C_LINE_INPUT
  ∧ comm (set_client_echo echo w) ≠ None.
Proof. intros Hc. by destruct (set_client_echo_spec echo w Hc) as (A & B & _ & D). Qed.

(** The state after a successful call on the console: mode and flags agree, [line] says
    how the slot is left, foreign bits are kept and [keys] were injected. *)
Definition console_result (line : bool) (keys : list Z) (m : Z) (k : win_console) (w' : world) (k' : win_console) : Prop :=
  ∃ m', wc_mode k' = Some m' ∧ modes_agree w' m' ∧ flag w' C_LINE_INPUT = line ∧ comm w' ≠ None
    ∧ Z.ldiff m' console_bits = Z.ldiff m console_bits ∧ wc_keys k' = wc_keys k ++ keys.

(** The bits of the new mode from those of the old one. *)
Ltac mode_bits Hb :=
  change ENABLE_LINE_INPUT with (2 ^ 1)%Z in *; change ENABLE_ECHO_INPUT with (2 ^ 2)%Z in *;
  change ENABLE_VIRTUAL_TERMINAL_INPUT with (2 ^ 9)%Z in *; change ENABLE_PROCESSED_INPUT with (2 ^ 0)%Z in *;
  rewrite Hb by done.
Ltac solve_bits :=
  repeat match goal with |- context [has_flag ?m ?b] => destruct (has_flag m b) | |- context [flag ?w ?b] => destruct (flag w b) end;
  vm_compute; reflexivity.

Context (Hcon : host_slot = COMM_SLOT_CONSOLE).

Lemma console_slot : is_console = true.
Proof using Hcon. unfold is_console. by rewrite Hcon. Qed.

(** From any mode whose echo bit is open. *)
Lemma echo_step echo w k w' k' m :
  comm w ≠ None → wc_mode k = Some m →
  has_flag m ENABLE_LINE_INPUT = flag w C_LINE_INPUT →
  has_flag m ENABLE_VIRTUAL_TERMINAL_INPUT = negb (flag w C_LINE_INPUT) → has_flag m ENABLE_PROCESSED_INPUT = true →
  comm_set_echo_win echo w k = (w', k', true) → console_result (flag w C_LINE_INPUT) [] m k w' k'.
Proof using Hcon.
  intros Hc M Hl Hv Hp. unfold comm_set_echo_win. destruct (comm w) eqn:E; [|done]. rewrite <- E in Hc.
  rewrite console_slot. destruct (if echo then _ else _) as [k1 ok] eqn:S. intros [= <- -> ->].
  destruct (flag_set_client_echo echo w Hc) as (F1 & F2 & F3).
  destruct echo; destruct (set_mode_spec _ _ _ _ _ M S) as (m' & M' & Hb & Hf & Hk);
    exists m'; (split_and!; [done| |done|done|by apply Hf|by rewrite Hk]);
    (split; rewrite ?F1, ?F2; mode_bits Hb; rewrite ?Hl, ?Hv, ?Hp); solve_bits.
Qed.

Lemma mode_step_result c w k w' k' m :
  comm w ≠ None → wc_mode k = Some m → modes_agree w m → mode_step c w k = (w', k', true) →
  console_result match c with SetLineInput _ => true | SetCharInput => false | SetEcho _ => flag w C_LINE_INPUT end
    match c with SetCharInput => if flag w C_LINE_INPUT then [VK_ESCAPE] else [] | _ => [] end m k w' k'.
Proof using Hcon.
  intros Hc M [Hl He Hv Hp]. destruct c as [echo| |echo]; cbn [mode_step]; [..|by apply echo_step].
  - unfold comm_set_line_input_win. destruct (comm w) as [c|] eqn:E; [|done]. rewrite <- E in Hc.
    assert (L : flag w C_LINE_INPUT = has_flag (flags c) C_LINE_INPUT) by (unfold flag, flags_of; by rewrite E).
    rewrite <- L. destruct (flag w C_LINE_INPUT) eqn:Fl.
    { intros R. pose proof (echo_step echo w k w' k' m Hc M) as Q. rewrite Fl in Q. by apply Q. }
    rewrite console_slot. destruct (set_console_input_mode _ _ k) as [k1 [|]] eqn:S; [|done].
    destruct (set_mode_spec _ _ _ _ _ M S) as (m1 & M1 & Hb & Hf & Hk). intros R.
    assert (Fr : flag (raise C_LINE_INPUT w) C_LINE_INPUT = true) by (rewrite flag_raise by done; by apply has_flag_set_same).
    apply (echo_step echo _ _ _ _ m1) in R; [|by apply raise_live|done|..].
    2-4: rewrite ?Fr; mode_bits Hb; rewrite ?Hp; destruct echo; solve_bits.
    destruct R as (m' & A1 & A2 & A3 & A4 & A5 & A6). rewrite Fr in A3. exists m'. split_and!; try done.
    + rewrite A5. apply Hf; by destruct echo.
    + rewrite A6, Hk. by destruct echo; rewrite !app_nil_r.
  - unfold comm_set_char_input_win. destruct (comm w) as [c|] eqn:E; [|done]. rewrite <- E in Hc. rewrite console_slot.
    destruct (set_console_input_mode _ _ k) as [k1 [|]] eqn:S; [|done]. intros [= <- <-].
    destruct (set_mode_spec _ _ _ _ _ M S) as (m' & M' & Hb & Hf & Hk). exists m'.
    assert (F1 : flag (lower (Z.lor C_LINE_INPUT C_CLIENT_ECHO) w) C_LINE_INPUT = false)
      by (rewrite flag_lower by done; by apply has_flag_clear_part).
    assert (F2 : flag (lower (Z.lor C_LINE_INPUT C_CLIENT_ECHO) w) C_CLIENT_ECHO = false)
      by (rewrite flag_lower by done; by apply has_flag_clear_part).
    split_and!; [done| |done|by apply lower_live|by apply Hf|by rewrite Hk, Hl].
    split; rewrite ?F1, ?F2; mode_bits Hb; rewrite ?Hp, ?Hv; solve_bits.
Qed.

Lemma mode_run_result ms w k w' k' m :
  comm w ≠ None → wc_mode k = Some m → modes_agree w m → mode_run ms w k = (w', k', true) →
  ∃ m', wc_mode k' = Some m' ∧ modes_agree w' m' ∧ Z.ldiff m' console_bits = Z.ldiff m console_bits
    ∧ wc_keys k' = wc_keys k ++ replicate (switches (flag w C_LINE_INPUT) ms) VK_ESCAPE.
Proof using Hcon.
  revert w k m. induction ms as [|c ms IH]; intros w k m Hc M A.
  { cbn. intros [= <- <-]. exists m. rewrite app_nil_r. by split_and!. }
  cbn [mode_run]. destruct (mode_step c w k) as [[w1 k1] ok] eqn:S. destruct (mode_run ms w1 k1) as [[w2 k2] all] eqn:R.
  intros [= <- <- B]. apply andb_true_iff in B as [-> ->].
  destruct (mode_step_result c w k w1 k1 m Hc M A S) as (m1 & M1 & A1 & F1 & C1 & D1 & K1).
  destruct (IH w1 k1 m1 C1 M1 A1 R) as (m' & M' & A' & D' & K'). exists m'. split_and!; [done|done|by rewrite D'|].
  rewrite K', K1, <- app_assoc, F1. f_equal. cbn [switches]. destruct c as [echo| |echo]; [done| |done].
  rewrite replicate_add. f_equal. by destruct (flag w C_LINE_INPUT).
Qed.

End WinModes.

Section WinTheorems.
Context `{Host} (SetConsoleMode : Z → bool).

(** On the Windows console the slot's flags say what the console does.  After any
    calls that all succeeded, line input, echo and the translation of special
    keys are set in the console exactly as the slot records them, bits that are
    none of ours keep their values, and the reader blocked in a line read was
    woken once for each change from line to character input. *)
Theorem win_console_agrees ms w k w' k' m :
  host_slot = COMM_SLOT_CONSOLE → comm w ≠ None → wc_mode k = Some m → modes_agree w m →
  mode_run SetConsoleMode ms w k = (w', k', true) →
  ∃ m', wc_mode k' = Some m' ∧ modes_agree w' m' ∧ Z.ldiff m' console_bits = Z.ldiff m console_bits
    ∧ wc_keys k' = wc_keys k ++ replicate (switches (flag w C_LINE_INPUT) ms) VK_ESCAPE.
Proof. intros Hcon. by apply mode_run_result. Qed.

(** A failed change of the Windows console's echo is recorded as if it had
    succeeded: the call reports failure and leaves the console alone, yet the
    slot's echo flag has the new value; the POSIX port leaves the flag alone. *)
Theorem win_echo_failure echo w k :
  host_slot = COMM_SLOT_CONSOLE → comm w ≠ None → wc_mode k = None →
  (let '(w', k', ok) := comm_set_echo_win SetConsoleMode echo w k in
   ok = false ∧ k' = k ∧ flag w' C_CLIENT_ECHO = echo)
  ∧ (tty_ok = false → comm_set_echo echo w = (w, false)).
Proof.
  intros Hcon Hc M. unfold comm_set_echo_win, comm_set_echo, is_console. rewrite Hcon, Z.eqb_refl.
  destruct (comm w) eqn:E; [|done]. rewrite <- E in Hc. split; [|by intros ->].
  unfold set_console_input_mode, get_console_input_mode. rewrite M.
  destruct (flag_set_client_echo echo w Hc) as (F & _). by destruct echo.
Qed.

(** A connection that does not speak telnet is not negotiated with. *)
Lemma negotiate_echo_off echo w c :
  comm w = Some c → has_flag (flags c) C_ENABLE_TELNET = false → on_conn (negotiate_echo echo) w = w.
Proof. intros E T. unfold on_conn, negotiate_echo. rewrite E. cbn [cn]. rewrite T. destruct w. cbn in *. by subst. Qed.

Lemma clear_clear f a b : clear_flag (clear_flag f a) b = clear_flag f (Z.lor a b).
Proof. unfold clear_flag. by rewrite Z.ldiff_ldiff_l. Qed.

Lemma clear_unset f a : has_flag f a = false → clear_flag f a = f.
Proof.
  unfold has_flag, clear_flag. rewrite negb_false_iff, Z.eqb_eq. intros E. apply Z.bits_inj'. intros n Hn.
  apply (f_equal (fun x => Z.testbit x n)) in E. rewrite Z.land_spec, Z.bits_0 in E. rewrite Z.ldiff_spec.
  by destruct (Z.testbit f n), (Z.testbit a n).
Qed.

(** For network connections the two ports are one: line input and echo act alike,
    and so does character input, except that the Windows port negotiates again
    with a telnet client that is in character input already. *)
Theorem win_ports_agree echo w k :
  host_slot ≠ COMM_SLOT_CONSOLE →
  comm_set_echo_win SetConsoleMode echo w k = ((comm_set_echo echo w).1, k, (comm_set_echo echo w).2)
  ∧ comm_set_line_input_win SetConsoleMode echo w k = ((comm_set_line_input echo w).1, k, (comm_set_line_input echo w).2)
  ∧ (flag w C_LINE_INPUT = true ∨ flag w C_ENABLE_TELNET = false →
     comm_set_char_input_win SetConsoleMode w k = ((comm_set_char_input w).1, k, (comm_set_char_input w).2)).
Proof.
  intros Hs. assert (Ic : is_console = false) by (unfold is_console; by apply Z.eqb_neq).
  assert (E1 : ∀ w, comm_set_echo_win SetConsoleMode echo w k = ((comm_set_echo echo w).1, k, (comm_set_echo echo w).2)).
  { intros v. unfold comm_set_echo_win, comm_set_echo. by destruct (comm v); rewrite ?Ic. }
  split_and!; [apply E1|..].
  - unfold comm_set_line_input_win, comm_set_line_input. destruct (comm w) as [c|]; [|done]. rewrite Ic.
    by destruct (has_flag (flags c) C_LINE_INPUT); rewrite E1.
  - unfold comm_set_char_input_win, comm_set_char_input, comm_set_echo, flag, flags_of. destruct (comm w) as [c|] eqn:E; [|by rewrite Ic].
    rewrite Ic. destruct (has_flag (flags c) C_LINE_INPUT) eqn:L; cbn [negb].
    + intros _. destruct (has_flag (flags c) C_ENABLE_TELNET) eqn:T; [done|].
      assert (Cl : comm (lower C_LINE_INPUT w) = Some (set_flags c (clear_flag (flags c) C_LINE_INPUT)))
        by (unfold lower, set_flags_w; by rewrite E).
      rewrite Cl. rewrite (negotiate_echo_off _ _ _ Cl) by (cbn; by rewrite has_flag_clear_other).
      unfold set_client_echo, lower, set_flags_w. rewrite E. cbn. by rewrite clear_clear.
    + intros [|T]; [done|]. rewrite T. rewrite (negotiate_echo_off _ _ _ E T). cbn. unfold lower, set_flags_w. rewrite E.
      by rewrite <- clear_clear, (clear_unset _ _ L).
Qed.
End WinTheorems.

(** ** The virtual terminal (lib/comm/console.cpp) *)

Definition ENABLE_PROCESSED_OUTPUT : Z := 0x1.
Definition ENABLE_WRAP_AT_EOL_OUTPUT : Z := 0x2.
Definition ENABLE_VIRTUAL_TERMINAL_PROCESSING : Z := 0x4.

Definition comm_enable_virtual_terminal (w : world) : world * bool :=
  match comm w with Some _ => (raise C_ENABLE_ANSI w, true) | None => (w, false) end.

(** The Windows port: [out] is the mode of the console behind the standard output,
    whichever slot is meant. *)
Definition comm_enable_virtual_terminal_win (SetConsoleMode : Z → bool) (w : world) (out : option Z) : world * option Z * bool :=
  match out with
  | None => (w, out, false)
  | Some mode =>
      let mode' := Z.lor mode (Z.lor (Z.lor ENABLE_VIRTUAL_TERMINAL_PROCESSING ENABLE_PROCESSED_OUTPUT) ENABLE_WRAP_AT_EOL_OUTPUT) in
      if negb (SetConsoleMode mode') then (w, out, false)
      else match comm w with
           | Some _ => (raise C_ENABLE_ANSI w, Some mode', true)
           | None => (w, Some mode', false)
           end
  end.

(** On Windows a slot can only be given ANSI output when the server itself runs on
    a console that takes the mode: the call then does what the POSIX one does,
    and otherwise, for a network connection too, it fails and changes no slot. *)
Theorem win_ansi_needs_console (SetConsoleMode : Z → bool) (w : world) (out : option Z) :
  let '(w', out', ok) := comm_enable_virtual_terminal_win SetConsoleMode w out in
  if match out with Some m => SetConsoleMode (Z.lor m 7) | None => false end
  then (w', ok) = comm_enable_virtual_terminal w ∧ out' = (fun m => Z.lor m 7) <$> out
  else w' = w ∧ out' = out ∧ ok = false.
Proof.
  unfold comm_enable_virtual_terminal_win, comm_enable_virtual_terminal. destruct out as [m|]; [|done].
  change (Z.lor (Z.lor ENABLE_VIRTUAL_TERMINAL_PROCESSING ENABLE_PROCESSED_OUTPUT) ENABLE_WRAP_AT_EOL_OUTPUT) with 7%Z.
  destruct (SetConsoleMode (Z.lor m 7)); cbn [negb]; [|done]. by destruct (comm w).
Qed.

(** ** Witnesses *)

(** A console in line input with quick editing on. *)
Definition cooked_console : win_console := {| wc_mode := Some 0x47%Z; wc_keys := [] |}.
Definition console_calls : list mode_call := [SetCharInput; SetLineInput false; SetEcho true; SetCharInput].

Lemma win_console_agrees_witness : ∃ w' k',
  mode_run (H := tty_host 0) (fun _ => true) console_calls (mode_world (Z.lor C_LINE_INPUT C_CLIENT_ECHO)) cooked_console = (w', k', true)
  ∧ ∃ m', wc_mode k' = Some m' ∧ modes_agree w' m' ∧ Z.ldiff m' console_bits = Z.ldiff 0x47 console_bits
      ∧ wc_keys k' = [] ++ replicate 2 VK_ESCAPE.
Proof.
  eexists _, _. split; [vm_compute; reflexivity|].
  refine (win_console_agrees (H := tty_host 0) (fun _ => true) console_calls
    (mode_world (Z.lor C_LINE_INPUT C_CLIENT_ECHO)) cooked_console _ _ 0x47 eq_refl _ eq_refl _ _); [done|by split|].
  vm_compute. reflexivity.
Defined.

Lemma win_echo_failure_witness :
  let '(w', k', ok) := comm_set_echo_win (H := tty_host 0) (fun _ => true) true (mode_world 0) {| wc_mode := None; wc_keys := [] |} in
  ok = false ∧ k' = {| wc_mode := None; wc_keys := [] |} ∧ flag w' C_CLIENT_ECHO = true.
Proof.
  refine (proj1 (win_echo_failure (H := tty_host 0) (fun _ => true) true (mode_world 0) {| wc_mode := None; wc_keys := [] |} eq_refl _ eq_refl)).
  done.
Defined.

Lemma win_ports_agree_witness :
  comm_set_char_input_win (H := tty_host 3) (fun _ => true) (mode_world (Z.lor C_LINE_INPUT C_ENABLE_TELNET)) cooked_console
  = ((comm_set_char_input (H := tty_host 3) (mode_world (Z.lor C_LINE_INPUT C_ENABLE_TELNET))).1, cooked_console,
     (comm_set_char_input (H := tty_host 3) (mode_world (Z.lor C_LINE_INPUT C_ENABLE_TELNET))).2).
Proof.
  refine (proj2 (proj2 (win_ports_agree (H := tty_host 3) (fun _ => true) true _ cooked_console _)) (or_introl _)); [done|reflexivity].
Defined.
