(* ===== verification/Listener.v ===== *)
(** * Where a connection comes from (lib/comm/accept.cpp, lib/comm/inbound.cpp)

    The names of listeners and the entry name a connect hook gets, the accept
    path of the Windows port, on which the runtime delivers a socket that is
    already accepted, and its first read. *)

From stdpp Require Import gmap pretty.
From S2P Require Import Prelude InBuf OutBuf Abstract Execution WsFrame WsConn World Outbound InputMode Inbound.
From S2P Require Import Accept ConsoleSetup.

(** ** Names *)

(** What [getsockname] tells. *)
Inductive sockaddr := SockUnix (path : list Z) | SockOther.

Section Names.
Context (win : bool) (get_fd : nat → Z) (getsockname : Z → option sockaddr).
Context (BIO_get_accept_name BIO_get_accept_port : nat → option (list Z)).

Definition unix_address (b : option nat) : option (list Z) :=
  fd ← comm_bio_get_socket_fd win get_fd b;
  match getsockname fd with Some (SockUnix path) => Some path | _ => None end.

Definition listener_is_unix_socket (b : option nat) : bool := bool_decide (is_Some (unix_address b)).

Definition colon : Z := 58.

Definition comm_listener_name (listener : option comm_abstract) : list Z :=
  match listener with
  | None => []
  | Some c =>
      match rbio c with
      | None => []
      | Some b =>
          match (if win then None else unix_address (Some b)) with
          | Some path => unix_scheme ++ path
          | None =>
              match BIO_get_accept_name b, BIO_get_accept_port b with
              | Some host, Some port => tcp_scheme ++ host ++ colon :: port
              | _, _ => []
              end
          end
      end
  end.

(** The name [comm_invoke_connect] passes to the hook. *)
Definition entry_name (console : console_type) (t : table) (entry_slot : Z) : list Z :=
  let name :=
    if (entry_slot =? COMM_SLOT_CONSOLE)%Z then console_type_str console
    else match resolve_slot t entry_slot with
         | Some c => if has_flag (flags c) C_SOCKET_LISTENING then comm_listener_name (Some c) else []
         | None => []
         end in
  if length name =? 0 then bytes_of_string ("x-unknown:" ++ pretty entry_slot) else name.

(** ** Sources *)

Inductive source := FromConsole (k : console_type) | FromUnix (path : list Z) | FromTcp (host port : list Z) | FromSlot (slot : Z).

Definition source_name (s : source) : list Z :=
  match s with
  | FromConsole k => console_type_str k
  | FromUnix path => unix_scheme ++ path
  | FromTcp host port => tcp_scheme ++ host ++ colon :: port
  | FromSlot slot => bytes_of_string ("x-unknown:" ++ pretty slot)
  end.

(** Where a connection through [entry_slot] comes from. *)
Definition source_of (console : console_type) (t : table) (entry_slot : Z) : source :=
  if (entry_slot =? COMM_SLOT_CONSOLE)%Z then FromConsole console
  else
    match (c ← resolve_slot t entry_slot; if has_flag (flags c) C_SOCKET_LISTENING then rbio c else None) with
    | None => FromSlot entry_slot
    | Some b =>
        match (if win then None else unix_address (Some b)), BIO_get_accept_name b, BIO_get_accept_port b with
        | Some path, _, _ => FromUnix path
        | None, Some host, Some port => FromTcp host port
        | None, _, _ => FromSlot entry_slot
        end
    end.

(** Ports are numbers or service names. *)
Definition source_ok (s : source) : Prop :=
  match s with FromTcp _ port => colon ∉ port | _ => True end.

Lemma bytes_of_string_inj a b : bytes_of_string a = bytes_of_string b → a = b.
Proof.
  intros E. unfold bytes_of_string in E.
  rewrite <- (string_of_list_ascii_of_string a), <- (string_of_list_ascii_of_string b). f_equal.
  revert E. generalize (list_ascii_of_string a) (list_ascii_of_string b). intros l. induction l as [|x l IH]; intros [|y l']; try done.
  cbn. intros [= Exy El]. f_equal; [|by apply IH]. apply N2Z.inj in Exy.
  by rewrite <- (ascii_N_embedding x), <- (ascii_N_embedding y), Exy.
Qed.

Lemma split_last (h1 h2 p1 p2 : list Z) (x : Z) :
  x ∉ p1 → x ∉ p2 → h1 ++ x :: p1 = h2 ++ x :: p2 → h1 = h2 ∧ p1 = p2.
Proof.
  intros N1 N2. revert h2. induction h1 as [|a h1 IH]; intros [|b h2] E; simplify_eq/=; [done|..].
  - destruct N1. apply elem_of_app. right. apply list_elem_of_here.
  - destruct N2. apply elem_of_app. right. apply list_elem_of_here.
  - by destruct (IH h2) as [-> ->].
Qed.

Lemma unknown_bytes (slot : Z) : bytes_of_string ("x-unknown:" ++ pretty slot) = bytes_of_string "x-unknown:" ++ bytes_of_string (pretty slot).
Proof. done. Qed.

Lemma source_name_inj s1 s2 : source_ok s1 → source_ok s2 → source_name s1 = source_name s2 → s1 = s2.
Proof.
  destruct s1 as [k1|p1|h1 p1|n1], s2 as [k2|p2|h2 p2|n2]; intros O1 O2; cbn [source_name source_ok] in *;
    try (destruct k1; discriminate); try (destruct k2; discriminate); try discriminate.
  - by destruct k1, k2.
  - intros E. by apply app_inv_head in E as ->.
  - intros E. apply app_inv_head in E. by destruct (split_last h1 h2 p1 p2 colon O1 O2 E) as [-> ->].
  - rewrite !unknown_bytes. intros E. apply app_inv_head, bytes_of_string_inj in E. f_equal. by apply (inj pretty).
Qed.

Lemma entry_source console t slot : entry_name console t slot = source_name (source_of console t slot).
Proof.
  unfold entry_name, source_of. destruct (slot =? COMM_SLOT_CONSOLE)%Z; [by destruct console|].
  destruct (resolve_slot t slot) as [c|]; [|done]. cbn [mbind option_bind]. destruct (has_flag (flags c) _); [|done].
  unfold comm_listener_name. destruct (rbio c) as [b|]; [|done]. set (u := if win then None else unix_address (Some b)).
  destruct u as [path|]; [by destruct path|]. by destruct (BIO_get_accept_name b), (BIO_get_accept_port b).
Qed.

(** The entry name tells the connect hook where a connection comes from: it is
    never empty, and two connections get the same name only when they came from
    the same kind of entry with the same address, port, terminal type or slot. *)
Theorem entry_name_tells_source c1 c2 t1 t2 s1 s2 :
  source_ok (source_of c1 t1 s1) → source_ok (source_of c2 t2 s2) →
  entry_name c1 t1 s1 ≠ []
  ∧ (entry_name c1 t1 s1 = entry_name c2 t2 s2 → source_of c1 t1 s1 = source_of c2 t2 s2).
Proof.
  intros O1 O2. rewrite !entry_source. split; [|by apply source_name_inj].
  by destruct (source_of c1 t1 s1) as [[]| | |].
Qed.

(** The name of a listener is an accept name: what [comm_accept] would make of it
    is a listener on the same address. *)
Theorem listener_name_reopens c b :
  rbio c = Some b → win = false →
  (∀ path, unix_address (Some b) = Some path → path ≠ [] →
     parse_accept_name (comm_listener_name (Some c)) = AcceptUnix path)
  ∧ (∀ host port, unix_address (Some b) = None → BIO_get_accept_name b = Some host → BIO_get_accept_port b = Some port →
     parse_accept_name (comm_listener_name (Some c)) = AcceptTcp (host ++ colon :: port)).
Proof.
  intros R W. unfold comm_listener_name. rewrite R, W. split.
  - intros path -> Hp. unfold parse_accept_name. change (length (unix_scheme ++ path) =? 0) with false.
    rewrite (proj2 (starts_with_app _ _)) by eauto. rewrite drop_app_length. by destruct path.
  - intros host port -> -> ->. unfold parse_accept_name.
    change (starts_with unix_scheme (tcp_scheme ++ host ++ colon :: port)) with false.
    rewrite (proj2 (starts_with_app tcp_scheme _)) by eauto. rewrite drop_app_length.
    rewrite length_app. by destruct host.
Qed.
End Names.

(** ** Accepting on Windows *)

Section WinAccept.
Context `{SlotEnv}.

Definition set_socket_nonblocking (win nbio_ok : bool) (fd : Z) : bool :=
  match comm_socket_fd_to_bio_fd win fd with
  | None => false
  | Some _ => nbio_ok
  end.

(** The answers for an accepted socket: non-blocking mode, a BIO, the runtime. *)
Record win_accept_env := { wa_nbio : bool; wa_bio : option nat; wa_watch : bool }.

(** The socket [fd] of an accept completion. *)
Definition accept_event_socket (env : win_accept_env) (fd : Z) (n : net) : net * option Z :=
  if negb (set_socket_nonblocking true (wa_nbio env) fd) then (close_fd fd n, None)
  else match comm_socket_fd_to_bio_fd true fd with
  | None => (close_fd fd n, None)
  | Some bio_fd =>
      match wa_bio env with
      | None => (close_fd fd n, None)
      | Some b =>
          match add_slot (new_bio b (Some fd) n) (Some b) (Some b) C_SOCKET_READABLE with
          | (n, None) => (free_bio b n, None)
          | (n, Some s) => (n, Some s)
          end
      end
  end.

(** [_accept_new_comm]; [te] are the answers of the accept call without a socket. *)
Definition accept_new_comm_win (env : win_accept_env) (te : accept_env) (listener fd : Z) (n : net) : net * option Z :=
  match resolve_slot (n_slots n) listener with
  | Some c =>
      if bool_decide (is_Some (rbio c)) && has_flag (flags c) C_SOCKET_LISTENING then
        if (fd =? INVALID_SOCKET_FD true)%Z then accept_tcp_listener te n else accept_event_socket env fd n
      else (n, None)
  | None => (n, None)
  end.

Definition comm_process_listener_event_win (env : win_accept_env) (te : accept_env) (listener fd : Z) (n : net)
    : net * option Z :=
  match accept_new_comm_win env te listener fd n with
  | (n, None) => (n, None)
  | (n, Some s) =>
      match async_poll_read (wa_watch env) n s with
      | None => (remove_slot_n n s, None)
      | Some n => (n, Some s)
      end
  end.

(** The loop on an accept completion for the slot [listener], when that is a listener
    or gone. *)
Definition listener_event_win (env : win_accept_env) (te : accept_env) (listener fd : Z) (n : net) : net * option Z :=
  match resolve_slot (n_slots n) listener with
  | None => (n, None)
  | Some _ => comm_process_listener_event_win env te listener fd n
  end.

Lemma event_socket_spec env fd n :
  table_ok (n_slots n) → fd ∉ n_fds n → fresh_bio n (wa_bio env) →
  match accept_event_socket env fd (open_fd fd n) with
  | (n', None) => balanced n n'
  | (n', Some s) => ∃ b, accepted_on n n' b fd s
  end.
Proof.
  intros Ht Hf Hb. unfold accept_event_socket.
  assert (C : balanced n (close_fd fd (open_fd fd n))) by (apply balanced_fds; try done; by apply open_close).
  destruct (set_socket_nonblocking _ _ _); cbn [negb]; [|done].
  destruct (comm_socket_fd_to_bio_fd true fd); [|done]. destruct (wa_bio env) as [b|] eqn:Eb; [|done].
  pose proof (add_connection_spec n _ b fd (holds_new n b fd Hf (Hb b eq_refl)) eq_refl Ht) as P.
  destruct (add_slot _ _ _ _) as [n1 [s|]]; [|done]. by exists b.
Qed.

(** An accepted socket delivered to a listening slot becomes a connection over one
    new BIO, watched by the runtime, or is closed with everything that was made
    for it; this holds for every answer of the system, sockets too large for a
    BIO included. *)
Theorem win_accept_all_or_nothing env te listener fd n c :
  table_ok (n_slots n) → fd ∉ n_fds n → fresh_bio n (wa_bio env) → fd ≠ INVALID_SOCKET_FD true →
  resolve_slot (n_slots n) listener = Some c → is_Some (rbio c) → has_flag (flags c) C_SOCKET_LISTENING = true →
  match listener_event_win env te listener fd (open_fd fd n) with
  | (n', None) => balanced n n'
  | (n', Some slot) => published n n' C_SOCKET_READABLE is_Some fd slot
  end.
Proof.
  intros Ht Hf Hb Hi Hl Hr Hs. unfold listener_event_win, comm_process_listener_event_win, accept_new_comm_win.
  cbn [n_slots open_fd with_fds]. rewrite Hl, bool_decide_eq_true_2, Hs by done. cbn [andb].
  rewrite (proj2 (Z.eqb_neq _ _) Hi). pose proof (event_socket_spec env fd n Ht Hf Hb) as P.
  destruct (accept_event_socket env fd (open_fd fd n)) as [n1 [s|]]; [|done]. destruct P as [b P].
  pose proof (register_accepted n n1 b fd s (wa_watch env) P) as R. by destruct (async_poll_read _ _ _).
Qed.

(** A socket whose listener was removed before the completion is handled is left
    open and belongs to nothing. *)
Theorem win_orphan_socket env te listener fd n :
  resolve_slot (n_slots n) listener = None →
  let '(n', r) := listener_event_win env te listener fd (open_fd fd n) in
  r = None ∧ fd ∈ n_fds n' ∧ n_bios n' = n_bios n ∧ n_watch n' = n_watch n.
Proof. intros Hl. unfold listener_event_win. cbn [n_slots open_fd with_fds]. rewrite Hl. cbn. split_and!; [done|set_solver|done..]. Qed.
End WinAccept.

(** ** The first read on Windows *)

Section WinConnect.
Context `{Host} (posted : bool).

(** [posted]: [async_runtime_post_read] succeeds. *)
Definition post_initial_socket_read_after_connect (w : world) : world :=
  if (host_slot <=? COMM_SLOT_CONSOLE)%Z then w
  else match comm w with
  | Some c =>
      match rbio c with
      | Some b => if bio_has_fd b then if posted then w else remove_slot (emit w (ERemoveFd b)) else w
      | None => w
      end
  | None => w
  end.

Definition finish_connect_configuration_win (w : world) : world :=
  post_initial_socket_read_after_connect (comm_invoke_transport_ready w).

Definition resume_input_after_connect_hook_win (w : world) : world :=
  match comm w with
  | None => w
  | Some _ =>
      let w := if flag w C_CLOSING then w else lower C_AWAITING_HOOK w in
      let w := finish_connect_configuration_win w in
      deref w (fun _ => defer w)
  end.

Definition comm_invoke_connect_win (name : list Z) (w : world) : world * dispatch_result :=
  let await := hook_async HOOK_CONNECT in
  let w := if await then raise C_AWAITING_HOOK w else w in
  let '(w, r) := do_dispatch {| hc_type := HOOK_CONNECT; hc_msg := host_slot; hc_data := name |}
                   (if await then resume_input_after_connect_hook_win else id) w in
  let w := if await && negb (mudmux_dispatch_accepted r) then lower C_AWAITING_HOOK w else w in
  (if await then w else finish_connect_configuration_win w, r).

(** When the first read of an accepted connection cannot be posted, the slot is
    removed without its disconnect hook, and the completion of a queued connect
    hook then uses the removed slot; when it can be posted the ports agree. *)
Theorem win_initial_read_failure w w1 c c1 b :
  comm w = Some c → (COMM_SLOT_CONSOLE < host_slot)%Z →
  w1 = comm_invoke_transport_ready (if flag w C_CLOSING then w else lower C_AWAITING_HOOK w) →
  comm w1 = Some c1 → rbio c1 = Some b → bio_has_fd b = true →
  if posted then resume_input_after_connect_hook_win w = resume_input_after_connect_hook w
  else comm (resume_input_after_connect_hook_win w) = None ∧ fault (resume_input_after_connect_hook_win w) = true
    ∧ log (resume_input_after_connect_hook_win w) = log w1 ++ [ERemoveFd b; ERemoved (removal_events c1)].
Proof.
  intros Hc Hs Ew Hc1 Hr Hb. unfold resume_input_after_connect_hook_win, resume_input_after_connect_hook. rewrite Hc.
  unfold finish_connect_configuration_win. cbn zeta. rewrite <- Ew. unfold post_initial_socket_read_after_connect.
  rewrite (proj2 (Z.leb_gt _ _) Hs), Hc1, Hr, Hb. destruct posted; [done|].
  unfold remove_slot. cbn [emit comm]. rewrite Hc1. cbn. split_and!; [done..|]. by rewrite <- app_assoc.
Qed.
End WinConnect.

(** ** Witnesses *)

Definition listening_table : table := n_slots demo_listening.
Definition plain_names (port : list Z) : table → Z → list Z :=
  entry_name false (fun _ => 6%Z) (fun _ => Some SockOther) (fun _ => Some [49%Z]) (fun _ => Some port) CONSOLE_TYPE_TTY.

Lemma entry_name_tells_source_witness : plain_names [50%Z] listening_table 1 ≠ [].
Proof.
  refine (proj1 (entry_name_tells_source false (fun _ => 6%Z) (fun _ => Some SockOther) (fun _ => Some [49%Z])
    (fun _ => Some [50%Z]) CONSOLE_TYPE_TTY CONSOLE_TYPE_TTY listening_table listening_table 1 1 _ _));
    vm_compute; intros E; by repeat (apply elem_of_cons in E as [E|E]; [discriminate E|]); apply not_elem_of_nil in E.
Defined.

Definition demo_listener : comm_abstract := mk_comm (Some 3) None None [] [] [] None 1 C_SOCKET_LISTENING no_capabilities.

Lemma listener_name_reopens_witness :
  parse_accept_name (comm_listener_name false (fun _ => 6%Z) (fun _ => Some (SockUnix [47; 115]%Z)) (fun _ => None) (fun _ => None)
    (Some demo_listener)) = AcceptUnix [47; 115]%Z.
Proof.
  refine (proj1 (listener_name_reopens false (fun _ => 6%Z) (fun _ => Some (SockUnix [47; 115]%Z)) (fun _ => None) (fun _ => None)
    demo_listener 3 eq_refl eq_refl) [47; 115]%Z eq_refl _). done.
Defined.

Definition win_env : win_accept_env := {| wa_nbio := true; wa_bio := Some 4; wa_watch := true |}.
Definition no_accept : accept_env := {| ae_fd := None; ae_bio := None; ae_nbio := true; ae_watch := true |}.
#[local] Instance win_slots : SlotEnv := {| alloc_ok := fun _ => true; unix_path := fun _ => None |}.

Lemma win_accept_all_or_nothing_witness :
  let '(n', r) := listener_event_win win_env no_accept 1 9 (open_fd 9 demo_listening) in
  r = Some 2%Z ∧ published demo_listening n' C_SOCKET_READABLE is_Some 9 2.
Proof.
  assert (X : (listener_event_win win_env no_accept 1 9 (open_fd 9 demo_listening)).2 = Some 2%Z) by (vm_compute; reflexivity).
  assert (R : ∃ c, resolve_slot (n_slots demo_listening) 1 = Some c ∧ is_Some (rbio c) ∧ has_flag (flags c) C_SOCKET_LISTENING = true)
    by (eexists; split; [vm_compute; reflexivity|]; split; [by eexists|reflexivity]).
  destruct R as (c & R1 & R2 & R3).
  assert (F : 9%Z ∉ n_fds demo_listening)
    by (assert (F : n_fds demo_listening = {[6; 0; 1]}%Z) by (vm_compute; reflexivity); rewrite F; set_solver).
  pose proof (win_accept_all_or_nothing win_env no_accept 1 9 demo_listening c demo_listening_ok F) as P.
  destruct (listener_event_win win_env no_accept 1 9 (open_fd 9 demo_listening)) as [n' r]. cbn in X. subst r.
  split; [done|]. apply P; try done. intros b [= <-]. vm_compute. reflexivity.
Defined.

Lemma win_orphan_socket_witness :
  let '(n', r) := listener_event_win win_env no_accept 7 9 (open_fd 9 demo_net) in
  r = None ∧ 9%Z ∈ n_fds n' ∧ n_bios n' = n_bios demo_net ∧ n_watch n' = n_watch demo_net.
Proof. apply (win_orphan_socket win_env no_accept 7 9 demo_net). reflexivity. Defined.

Lemma win_initial_read_failure_witness :
  let w := mode_world (Z.lor C_AWAITING_HOOK C_TRANSPORT_READY) in
  comm (resume_input_after_connect_hook_win (H := tty_host 5) false w) = None
  ∧ fault (resume_input_after_connect_hook_win (H := tty_host 5) false w) = true.
Proof.
  intros w. pose proof (win_initial_read_failure (H := tty_host 5) false w _
    (mk_comm (Some 1) (Some 2) None [] [] [] None 1 (Z.lor C_AWAITING_HOOK C_TRANSPORT_READY) no_capabilities)
    (mk_comm (Some 1) (Some 2) None [] [] [] None 1 C_TRANSPORT_READY no_capabilities) 1
    eq_refl ltac:(done) eq_refl ltac:(vm_compute; reflexivity) eq_refl eq_refl) as P.
  destruct P as (P1 & P2 & _). by split.
Defined.
