(* ===== verification/Handles.v ===== *)
(** * Handles of events and runtimes (lib/async/async_event.cpp, async_runtime_epoll.cpp,
      async_runtime_poll.cpp)

    Creation and destruction on the descriptors of the process: the event over
    an eventfd, a pipe or a Windows handle, the epoll runtime with the global
    pointer to the current one, and the creation of the poll() runtime with its
    memory.  [AsyncEvent], [EpollRuntime] and [PollRuntime] say what the objects
    do in between. *)

From stdpp Require Import gmap.
From S2P Require Import Prelude ConsoleSetup.

(** ** System calls *)

(** One answer of [read] or [write]: interrupted, failed, or a number of bytes. *)
Inductive io_answer := Interrupted | Failed | Moved (n : Z).
#[export] Instance io_answer_eq_dec : EqDecision io_answer.
Proof. solve_decision. Defined.

(** [do ... while (result < 0 && errno == EINTR)]; [None] while it still retries. *)
Fixpoint retry (answers : list io_answer) : option Z :=
  match answers with
  | [] => None
  | Interrupted :: rest => retry rest
  | Failed :: _ => Some (-1)%Z
  | Moved n :: _ => Some n
  end.

Inductive platform := Linux | OtherPosix | Windows.

(** The size of a signal: the counter of an eventfd, a byte of a pipe. *)
Definition signal_size (p : platform) : Z := match p with Linux => 8 | _ => 1 end.

Definition read_signal_once (p : platform) (answers : list io_answer) : option bool :=
  r ← retry answers; Some (r =? signal_size p)%Z.
Definition write_signal_once (p : platform) (answers : list io_answer) : option bool :=
  r ← retry answers; Some (r =? signal_size p)%Z.

(** ** Descriptors *)

Definition O_NONBLOCK : Z := 0x800.
Definition FD_CLOEXEC : Z := 1.

(** The open descriptors with their status flags and descriptor flags. *)
Abbreviation fdtable := (gmap Z (Z * Z)).

(** [set_fd_flags]; the answers of its four [fcntl] calls. *)
Definition set_fd_flags (a : bool * bool * bool * bool) (fd : Z) (t : fdtable) : fdtable * bool :=
  let '(getfl, setfl, getfd, setfd) := a in
  match t !! fd with
  | None => (t, false)
  | Some (st, de) =>
      if negb getfl then (t, false)
      else if negb setfl then (t, false)
      else
        let t := <[fd := (Z.lor st O_NONBLOCK, de)]> t in
        if negb getfd then (t, false)
        else if negb setfd then (t, false)
        else (<[fd := (Z.lor st O_NONBLOCK, Z.lor de FD_CLOEXEC)]> t, true)
  end.

(** ** Events *)

Inductive event_handles := HEventFd (event_fd : Z) | HPipe (read_fd write_fd : Z) | HEvent (event : Z).

Record event_object := { eo_handles : event_handles; eo_manual_reset : bool }.

(** The answers of [async_event_init]: the new descriptors, [fcntl] on each, the
    initial write (which ends), all for one platform. *)
Record event_env := {
  ee_platform : platform;
  ee_fds : option (Z * Z);
  ee_fcntl : (bool * bool * bool * bool) * (bool * bool * bool * bool);
  ee_write : list io_answer
}.

Definition initial_signal (env : event_env) (initial_state : bool) : bool :=
  if initial_state then default false (write_signal_once (ee_platform env) (ee_write env)) else true.

Definition close_fds (fds : list Z) (t : fdtable) : fdtable := foldr delete t fds.

Definition event_create (env : event_env) (manual_reset initial_state : bool) (t : fdtable) : fdtable * option event_object :=
  match ee_fds env with
  | None => (t, None)
  | Some (fd, fd2) =>
      let made h := Some {| eo_handles := h; eo_manual_reset := manual_reset |} in
      match ee_platform env with
      | Windows => (<[fd := (0, 0)%Z]> t, made (HEvent fd))
      | Linux =>
          let t := <[fd := (O_NONBLOCK, FD_CLOEXEC)]> t in
          if initial_signal env initial_state then (t, made (HEventFd fd)) else (close_fds [fd] t, None)
      | OtherPosix =>
          let t := <[fd := (0, 0)%Z]> (<[fd2 := (0, 0)%Z]> t) in
          let '(t, ok1) := set_fd_flags (fst (ee_fcntl env)) fd t in
          if negb ok1 then (close_fds [fd; fd2] t, None)
          else
            let '(t, ok2) := set_fd_flags (snd (ee_fcntl env)) fd2 t in
            if negb ok2 then (close_fds [fd; fd2] t, None)
            else if initial_signal env initial_state then (t, made (HPipe fd fd2)) else (close_fds [fd; fd2] t, None)
      end
  end.

Definition event_fds (h : event_handles) : list Z :=
  match h with HEventFd fd => [fd] | HPipe r w => [r; w] | HEvent h => [h] end.

Definition event_destroy (e : event_object) (t : fdtable) : fdtable := close_fds (event_fds (eo_handles e)) t.

Definition async_event_is_manual_reset (e : option event_object) : bool :=
  match e with Some e => eo_manual_reset e | None => false end.

Definition ASYNC_INVALID_WAIT_HANDLE : Z := -1.

Definition get_poll_fd (h : event_handles) : Z :=
  match h with HEventFd fd => fd | HPipe r _ => r | HEvent h => h end.

Definition async_event_get_wait_handle (e : option event_object) : Z :=
  match e with Some e => get_poll_fd (eo_handles e) | None => ASYNC_INVALID_WAIT_HANDLE end.

(** ** The epoll runtime *)

Record runtime := { rt_context : nat; rt_epoll_fd : Z; rt_event_fd : Z; rt_console : console_type }.

Record runtimes := {
  rs_live : gmap nat runtime;          (* allocated objects by address *)
  rs_fds : fdtable;
  rs_current : option nat              (* [current_runtime] *)
}.

(** [async_runtime_init] and [async_runtime_deinit].  The answers: the allocation, the two descriptors,
    [epoll_ctl], and what the console is. *)
Record epoll_env := { re_alloc : option nat; re_epoll : option Z; re_eventfd : option Z; re_ctl : bool; re_console : console_type }.

Definition epoll_runtime_init (env : epoll_env) (context : nat) (s : runtimes) : runtimes * option nat :=
  match re_alloc env with
  | None => (s, None)
  | Some a =>
      match re_epoll env with
      | None => (s, None)
      | Some ep =>
          let t := <[ep := (0, 0)%Z]> (rs_fds s) in
          match re_eventfd env with
          | None => ({| rs_live := rs_live s; rs_fds := close_fds [ep] t; rs_current := rs_current s |}, None)
          | Some ev =>
              let t := <[ev := (O_NONBLOCK, 0%Z)]> t in
              if negb (re_ctl env)
              then ({| rs_live := rs_live s; rs_fds := close_fds [ep] (close_fds [ev] t); rs_current := rs_current s |}, None)
              else
                let r := {| rt_context := context; rt_epoll_fd := ep; rt_event_fd := ev; rt_console := re_console env |} in
                ({| rs_live := <[a := r]> (rs_live s); rs_fds := t; rs_current := Some a |}, Some a)
          end
      end
  end.

Definition epoll_runtime_deinit (a : nat) (s : runtimes) : runtimes :=
  match rs_live s !! a with
  | None => s
  | Some r =>
      {| rs_live := delete a (rs_live s);
         rs_fds := close_fds [rt_epoll_fd r] (close_fds [rt_event_fd r] (rs_fds s));
         rs_current := if decide (rs_current s = Some a) then None else rs_current s |}
  end.

Definition async_get_current_runtime (s : runtimes) : option nat := rs_current s.
Definition async_runtime_get_context (s : runtimes) (a : option nat) : option nat := a ← a; rt_context <$> rs_live s !! a.
Definition async_runtime_get_console_type (s : runtimes) (a : option nat) : console_type :=
  match (a ← a; rs_live s !! a) with Some r => rt_console r | None => CONSOLE_TYPE_NONE end.
Definition async_runtime_get_event_loop_handle (s : runtimes) (a : option nat) : Z :=
  match (a ← a; rs_live s !! a) with Some r => rt_event_fd r | None => (-1)%Z end.

(** ** The poll() runtime *)

(** Blocks of the heap, open descriptors, and the current runtime. *)
Record poll_world := { pw_blocks : gset nat; pw_fds : fdtable; pw_current : option nat }.

(** A runtime: its block and those of its two arrays, its pipe, its context. *)
Record poll_object := { pr_block : nat; pr_pollfds : nat; pr_mappings : nat; pr_pipe : Z * Z; pr_context : nat; pr_console : console_type }.

(** The answers of [calloc], of the two [malloc]s and of [pipe]. *)
Record poll_env := { pe_runtime : option nat; pe_pollfds : option nat; pe_mappings : option nat; pe_pipe : option (Z * Z); pe_console : console_type }.

Definition block (o : option nat) : gset nat := match o with Some b => {[b]} | None => ∅ end.

Definition poll_runtime_init (env : poll_env) (context : nat) (s : poll_world) : poll_world * option poll_object :=
  let give_back blocks := {| pw_blocks := blocks; pw_fds := pw_fds s; pw_current := pw_current s |} in
  match pe_runtime env with
  | None => (s, None)
  | Some o =>
      let heap := {[o]} ∪ pw_blocks s in
      let heap := block (pe_pollfds env) ∪ (block (pe_mappings env) ∪ heap) in
      match pe_pollfds env, pe_mappings env with
      | Some p, Some m =>
          match pe_pipe env with
          | None => (give_back (((heap ∖ {[p]}) ∖ {[m]}) ∖ {[o]}), None)
          | Some (r, w) =>
              let fds := <[r := (O_NONBLOCK, 0%Z)]> (<[w := (0, 0)%Z]> (pw_fds s)) in
              ({| pw_blocks := heap; pw_fds := fds; pw_current := Some o |},
               Some {| pr_block := o; pr_pollfds := p; pr_mappings := m; pr_pipe := (r, w); pr_context := context;
                       pr_console := pe_console env |})
          end
      | _, _ => (give_back (((heap ∖ block (pe_pollfds env)) ∖ block (pe_mappings env)) ∖ {[o]}), None)
      end
  end.

(** The memory and descriptors a runtime holds. *)
Definition poll_runtime_blocks (r : poll_object) : gset nat := {[pr_block r; pr_pollfds r; pr_mappings r]}.

(** Creations and destructions in any order; the system hands out fresh addresses
    and descriptors, and only live runtimes are destroyed. *)
Inductive runtime_op := RInit (env : epoll_env) (context : nat) | RDeinit (a : nat).

Definition fresh_answers (env : epoll_env) (s : runtimes) : bool :=
  match re_alloc env with Some a => bool_decide (rs_live s !! a = None) | None => true end
  && match re_epoll env with Some fd => bool_decide (rs_fds s !! fd = None) | None => true end
  && match re_eventfd env with Some fd => bool_decide (rs_fds s !! fd = None) | None => true end
  && negb (bool_decide (re_epoll env = re_eventfd env ∧ re_epoll env ≠ None)).

Definition runtime_step (s : runtimes) (o : runtime_op) : option runtimes :=
  match o with
  | RInit env context => if fresh_answers env s then Some (epoll_runtime_init env context s).1 else None
  | RDeinit a => match rs_live s !! a with Some _ => Some (epoll_runtime_deinit a s) | None => None end
  end.

Fixpoint runtime_run (s : runtimes) (os : list runtime_op) : option runtimes :=
  match os with [] => Some s | o :: rest => s' ← runtime_step s o; runtime_run s' rest end.

(** ** Lemmas *)

Lemma retry_interrupts n a rest : a ≠ Interrupted → retry (replicate n Interrupted ++ a :: rest) = retry [a].
Proof. intros Ha. induction n as [|n IH]; [by destruct a|done]. Qed.

Lemma set_fd_flags_spec a fd t t' ok : set_fd_flags a fd t = (t', ok) →
  (∀ fd', fd' ≠ fd → t' !! fd' = t !! fd') ∧ (t !! fd = None → t' = t)
  ∧ (ok = true → ∃ st de, t !! fd = Some (st, de) ∧ t' !! fd = Some (Z.lor st O_NONBLOCK, Z.lor de FD_CLOEXEC)).
Proof.
  destruct a as [[[getfl setfl] getfd] setfd]. unfold set_fd_flags. destruct (t !! fd) as [[st de]|] eqn:E; [|intros [= <- <-]; done].
  destruct getfl, setfl, getfd, setfd; cbn [negb]; intros [= <- <-]; (split_and!; [|done|]); try done;
    try (intros fd' N; by rewrite ?lookup_insert_ne by done).
  intros _. exists st, de. by rewrite lookup_insert_eq.
Qed.

Lemma close_two fd fd2 (t t' : fdtable) : t !! fd = None → t !! fd2 = None →
  (∀ x, x ≠ fd → x ≠ fd2 → t' !! x = t !! x) → close_fds [fd; fd2] t' = t.
Proof.
  intros E1 E2 Ho. apply map_eq. intros x. cbn. destruct (decide (x = fd)) as [->|N1]; [by rewrite lookup_delete_eq|].
  rewrite lookup_delete_ne by done. destruct (decide (x = fd2)) as [->|N2]; [by rewrite lookup_delete_eq|].
  rewrite lookup_delete_ne by done. by apply Ho.
Qed.

(** What a new event is. *)
Record event_made (p : platform) (manual : bool) (t t' : fdtable) (e : event_object) : Prop := {
  em_release : event_destroy e t' = t;
  em_manual : async_event_is_manual_reset (Some e) = manual;
  em_handle : is_Some (t' !! async_event_get_wait_handle (Some e));
  em_flags : p ≠ Windows → ∀ fd, fd ∈ event_fds (eo_handles e) → t' !! fd = Some (O_NONBLOCK, FD_CLOEXEC)
}.

(** The pipe branch. *)
Lemma pipe_init_spec env manual initial t fd fd2 :
  ee_platform env = OtherPosix → ee_fds env = Some (fd, fd2) → t !! fd = None → t !! fd2 = None → fd ≠ fd2 →
  match event_create env manual initial t with
  | (t', None) => t' = t
  | (t', Some e) => event_made OtherPosix manual t t' e
  end.
Proof.
  intros Hp Hf F1 F2 N. unfold event_create. rewrite Hf, Hp.
  set (t0 := <[fd := (0, 0)%Z]> (<[fd2 := (0, 0)%Z]> t)).
  assert (L0 : ∀ x, x ≠ fd → x ≠ fd2 → t0 !! x = t !! x) by (intros x X1 X2; unfold t0; by rewrite !lookup_insert_ne).
  destruct (set_fd_flags (ee_fcntl env).1 fd t0) as [t1 ok1] eqn:S1. destruct (set_fd_flags_spec _ _ _ _ _ S1) as (A1 & _ & C1).
  assert (L1 : ∀ x, x ≠ fd → x ≠ fd2 → t1 !! x = t !! x) by (intros x X1 X2; rewrite A1 by done; by apply L0).
  destruct ok1; cbn [negb]; [|by apply close_two]. destruct (C1 eq_refl) as (st & de & D1 & E1).
  unfold t0 in D1. rewrite lookup_insert_eq in D1. injection D1 as <- <-.
  destruct (set_fd_flags (ee_fcntl env).2 fd2 t1) as [t2 ok2] eqn:S2. destruct (set_fd_flags_spec _ _ _ _ _ S2) as (A2 & _ & C2).
  assert (L2 : ∀ x, x ≠ fd → x ≠ fd2 → t2 !! x = t !! x) by (intros x X1 X2; rewrite A2 by done; by apply L1).
  destruct ok2; cbn [negb]; [|by apply close_two]. destruct (C2 eq_refl) as (st & de & D2 & E2).
  rewrite A1 in D2 by done. unfold t0 in D2. rewrite lookup_insert_ne, lookup_insert_eq in D2 by done. injection D2 as <- <-.
  assert (Ef : t2 !! fd = Some (O_NONBLOCK, FD_CLOEXEC)) by (by rewrite A2).
  destruct (initial_signal env initial); [|by apply close_two].
  split; [by apply close_two|done|cbn; by rewrite Ef|]. intros _ x. cbn. rewrite !elem_of_cons. intros [->|[->|Hx]]; [done|done|].
  by apply not_elem_of_nil in Hx.
Qed.

(** ** Theorems *)

(** Creating an event is all or nothing on every platform.  On failure the
    descriptors of the process are those from before; on success the handle to
    wait for is open, on POSIX every descriptor of the event is non-blocking and
    closed on exec, and destroying the event closes exactly what was opened. *)
Theorem event_handles_balanced env manual initial t fd fd2 :
  ee_fds env = Some (fd, fd2) → t !! fd = None → t !! fd2 = None → fd ≠ fd2 →
  match event_create env manual initial t with
  | (t', None) => t' = t
  | (t', Some e) => event_made (ee_platform env) manual t t' e
  end.
Proof.
  intros Hf F1 F2 N. destruct (ee_platform env) eqn:Hp; [| by apply (pipe_init_spec _ _ _ _ fd fd2) |]; unfold event_create; rewrite Hf, Hp.
  - destruct (initial_signal env initial); [|cbn; by apply delete_insert_id].
    split; cbn; [by apply delete_insert_id|done|by rewrite lookup_insert_eq|].
    intros _ x Hx. apply list_elem_of_singleton in Hx as ->. by rewrite lookup_insert_eq.
  - split; cbn; [by apply delete_insert_id|done|by rewrite lookup_insert_eq|done].
Qed.

(** An interrupted call is invisible: however often the system interrupts the
    read or write of a signal, the result is that of the first call that was
    not interrupted, and it is true exactly when a whole signal was moved. *)
Theorem signal_interrupts_invisible p n a rest :
  a ≠ Interrupted →
  write_signal_once p (replicate n Interrupted ++ a :: rest) = Some (bool_decide (a = Moved (signal_size p)))
  ∧ read_signal_once p (replicate n Interrupted ++ a :: rest) = Some (bool_decide (a = Moved (signal_size p))).
Proof.
  intros Ha. unfold write_signal_once, read_signal_once. rewrite !retry_interrupts by done.
  assert (E : retry [a] ≫= (fun r => Some (r =? signal_size p)%Z) = Some (bool_decide (a = Moved (signal_size p)))); [|done].
  destruct a as [| |m]; [done| |]; cbn.
  - rewrite bool_decide_eq_false_2 by done. by destruct p.
  - f_equal. apply eq_true_iff_eq. rewrite Z.eqb_eq, bool_decide_eq_true. split; [by intros ->|by intros [= ->]].
Qed.

(** *** Runtimes *)

Definition rt_owns (r : runtime) (fd : Z) : Prop := fd = rt_epoll_fd r ∨ fd = rt_event_fd r.

(** The descriptors beyond [base] are those of the live runtimes, each owned once. *)
Record runtimes_ok (base : fdtable) (s : runtimes) : Prop := {
  ro_base : ∀ fd, is_Some (base !! fd) → rs_fds s !! fd = base !! fd;
  ro_owned : ∀ fd, base !! fd = None → is_Some (rs_fds s !! fd) → ∃ a r, rs_live s !! a = Some r ∧ rt_owns r fd;
  ro_open : ∀ a r fd, rs_live s !! a = Some r → rt_owns r fd → base !! fd = None ∧ is_Some (rs_fds s !! fd);
  ro_once : ∀ a r a' r' fd, rs_live s !! a = Some r → rs_live s !! a' = Some r' → rt_owns r fd → rt_owns r' fd → a = a';
  ro_current : ∀ a, rs_current s = Some a → is_Some (rs_live s !! a)
}.

Definition no_runtimes (base : fdtable) : runtimes := {| rs_live := ∅; rs_fds := base; rs_current := None |}.

Lemma no_runtimes_ok base : runtimes_ok base (no_runtimes base).
Proof. split; cbn; try done. intros fd -> []. done. Qed.

Lemma init_cases env context s base :
  fresh_answers env s = true → runtimes_ok base s →
  (∃ cur, (epoll_runtime_init env context s).1 = {| rs_live := rs_live s; rs_fds := rs_fds s; rs_current := cur |} ∧ cur = rs_current s
     ∧ (epoll_runtime_init env context s).2 = None)
  ∨ ∃ a ep ev r, rs_live s !! a = None ∧ rs_fds s !! ep = None ∧ rs_fds s !! ev = None ∧ ep ≠ ev
     ∧ (∀ fd, rt_owns r fd ↔ fd = ep ∨ fd = ev)
     ∧ (epoll_runtime_init env context s).1 = {| rs_live := <[a := r]> (rs_live s);
          rs_fds := <[ev := (O_NONBLOCK, 0%Z)]> (<[ep := (0, 0)%Z]> (rs_fds s)); rs_current := Some a |}.
Proof.
  unfold fresh_answers, epoll_runtime_init. rewrite !andb_true_iff, negb_true_iff, bool_decide_eq_false.
  destruct (re_alloc env) as [a|]; [|intros; left; destruct s; by eexists].
  destruct (re_epoll env) as [ep|]; [|intros; left; destruct s; by eexists].
  destruct (re_eventfd env) as [ev|].
  - rewrite !bool_decide_eq_true. intros [[[F1 F2] F3] F4] _.
    assert (ep ≠ ev) by (intros ->; by apply F4). destruct (re_ctl env); cbn [negb].
    + right. eexists a, ep, ev, _. split_and!; [done..| |reflexivity]. by intros fd.
    + left. eexists. split; [|done]. cbn. f_equal. apply map_eq. intros x.
      destruct (decide (x = ep)) as [->|]; [by rewrite lookup_delete_eq|]. rewrite lookup_delete_ne by done.
      destruct (decide (x = ev)) as [->|]; [by rewrite lookup_delete_eq|]. rewrite lookup_delete_ne by done.
      by rewrite !lookup_insert_ne.
  - rewrite !bool_decide_eq_true. intros [[[F1 F2] _] _] _. left. eexists. split; [|done]. cbn. f_equal. by apply delete_insert_id.
Qed.

Lemma runtime_init_ok env context s base :
  fresh_answers env s = true → runtimes_ok base s → runtimes_ok base (epoll_runtime_init env context s).1.
Proof.
  intros F I. destruct (init_cases env context s base F I) as [(cur & -> & -> & _)|(a & ep & ev & r & A & E1 & E2 & N & Ho & ->)];
    [by destruct I|]. destruct I as [I1 I2 I3 I4 I5].
  assert (B : ∀ fd, rs_fds s !! fd = None → base !! fd = None).
  { intros fd E. destruct (base !! fd) eqn:Eb; [|done]. rewrite I1 in E by (by rewrite Eb). congruence. }
  split; cbn.
  - intros fd Hb. rewrite !lookup_insert_ne; [by apply I1|..]; intros ->; rewrite B in Hb by done; by destruct Hb.
  - intros fd Hb. destruct (decide (fd = ev)) as [->|N1]; [exists a, r; rewrite lookup_insert_eq; split; [done|]; apply Ho; by right|].
    destruct (decide (fd = ep)) as [->|N2]; [exists a, r; rewrite lookup_insert_eq; split; [done|]; apply Ho; by left|].
    rewrite !lookup_insert_ne by done. intros Hs. destruct (I2 fd Hb Hs) as (a' & r' & L & O). exists a', r'.
    split; [|done]. rewrite lookup_insert_ne; [done|]. intros ->. congruence.
  - intros a' r' fd L O. destruct (decide (a' = a)) as [->|Na].
    + rewrite lookup_insert_eq in L. injection L as <-. apply Ho in O as [->| ->]; (split; [by apply B|]).
      * rewrite lookup_insert_ne, lookup_insert_eq by done. done.
      * by rewrite lookup_insert_eq.
    + rewrite lookup_insert_ne in L by done. destruct (I3 a' r' fd L O) as [H1 H2]. split; [done|].
      destruct (decide (fd = ev)) as [->|]; [by rewrite lookup_insert_eq|]. rewrite lookup_insert_ne by done.
      destruct (decide (fd = ep)) as [->|]; [by rewrite lookup_insert_eq|]. by rewrite lookup_insert_ne.
  - assert (Old : ∀ a' r' fd, rs_live s !! a' = Some r' → rt_owns r' fd → rt_owns r fd → False).
    { intros a' r' fd L O O'. destruct (I3 a' r' fd L O) as [_ H2]. apply Ho in O' as [->| ->]; [rewrite E1 in H2|rewrite E2 in H2]; by destruct H2. }
    intros a1 r1 a2 r2 fd L1 L2 O1 O2.
    apply lookup_insert_Some in L1 as [[<- <-]|[N1 L1]]; apply lookup_insert_Some in L2 as [[<- <-]|[N2 L2]]; try done;
      [destruct (Old a2 r2 fd)|destruct (Old a1 r1 fd)|]; try done. by apply (I4 a1 r1 a2 r2 fd).
  - intros a' [= <-]. by rewrite lookup_insert_eq.
Qed.

Lemma close_pair_lookup ep ev (t : fdtable) fd :
  close_fds [ep] (close_fds [ev] t) !! fd = if decide (fd = ep ∨ fd = ev) then None else t !! fd.
Proof.
  cbn. destruct (decide (fd = ep)) as [->|N1]; [rewrite lookup_delete_eq, decide_True by (by left); done|].
  rewrite lookup_delete_ne by done. destruct (decide (fd = ev)) as [->|N2]; [rewrite lookup_delete_eq, decide_True by (by right); done|].
  rewrite lookup_delete_ne by done. rewrite decide_False; [done|]. by intros [|].
Qed.

Lemma runtime_deinit_ok a s base : runtimes_ok base s → runtimes_ok base (epoll_runtime_deinit a s).
Proof.
  intros [I1 I2 I3 I4 I5]. unfold epoll_runtime_deinit. destruct (rs_live s !! a) as [r|] eqn:L; [|done].
  split; cbn [rs_live rs_fds rs_current]; intros *.
  - intros Hb. rewrite close_pair_lookup. rewrite decide_False; [by apply I1|]. intros O.
    destruct (I3 a r fd L O) as [Hn _]. rewrite Hn in Hb. by destruct Hb.
  - rewrite close_pair_lookup. intros Hb. destruct (decide _) as [|N]; [by intros []|]. intros Hs.
    destruct (I2 fd Hb Hs) as (a' & r' & L' & O). exists a', r'. split; [|done].
    rewrite lookup_delete_ne; [done|]. intros <-. rewrite L in L'. injection L' as <-. by apply N.
  - intros L' O. apply lookup_delete_Some in L' as [Na L']. destruct (I3 _ _ _ L' O) as [H1 H2]. split; [done|].
    rewrite close_pair_lookup, decide_False; [done|]. intros O'. by apply Na, (I4 a r a0 r0 fd).
  - intros [_ L1]%lookup_delete_Some [_ L2]%lookup_delete_Some. by apply I4.
  - destruct (decide (rs_current s = Some a)) as [|N]; [done|]. intros E. rewrite lookup_delete_ne; [by apply I5|congruence].
Qed.

Lemma runtime_run_ok base s os s' : runtimes_ok base s → runtime_run s os = Some s' → runtimes_ok base s'.
Proof.
  revert s. induction os as [|o os IH]; intros s I; cbn; [by intros [= <-]|].
  destruct (runtime_step s o) as [s1|] eqn:E; [|done]. apply IH. destruct o as [env context|a]; cbn in E.
  - destruct (fresh_answers env s) eqn:F; [|done]. injection E as <-. by apply runtime_init_ok.
  - destruct (rs_live s !! a); [|done]. injection E as <-. by apply runtime_deinit_ok.
Qed.

(** Runtimes can be created and destroyed in any order, with any failures in
    between: the current runtime is always a live one or none, every descriptor
    that was opened belongs to one live runtime, and when the last runtime is
    gone the process has exactly the descriptors it started with. *)
Theorem runtimes_own_descriptors base os s :
  runtime_run (no_runtimes base) os = Some s →
  (∀ a, async_get_current_runtime s = Some a → is_Some (async_runtime_get_context s (Some a)))
  ∧ (∀ a r fd, rs_live s !! a = Some r → rt_owns r fd → base !! fd = None ∧ is_Some (rs_fds s !! fd))
  ∧ (rs_live s = ∅ → rs_fds s = base).
Proof.
  intros R. destruct (runtime_run_ok base _ _ _ (no_runtimes_ok base) R) as [I1 I2 I3 I4 I5]. split_and!; [|done|].
  - intros a E. destruct (I5 a E) as [r Hr]. unfold async_runtime_get_context. cbn. rewrite Hr. by eexists.
  - intros E. apply map_eq. intros fd. destruct (base !! fd) as [x|] eqn:B; [rewrite I1 by (by rewrite B); done|].
    destruct (rs_fds s !! fd) eqn:F; [|done]. destruct (I2 fd B) as (a & r & L & _); [by rewrite F|]. by rewrite E in L.
Qed.

(** Answers that are new to the process. *)
Definition poll_fresh (env : poll_env) (s : poll_world) : Prop :=
  block (pe_runtime env) ## pw_blocks s ∧ block (pe_pollfds env) ## pw_blocks s ∧ block (pe_mappings env) ## pw_blocks s
  ∧ ∀ r w, pe_pipe env = Some (r, w) → r ≠ w ∧ pw_fds s !! r = None ∧ pw_fds s !! w = None.

(** Creating a poll() runtime is all or nothing: whichever allocation or call
    fails, heap, descriptors and current runtime are those from before; on
    success the runtime is current, the read end of its pipe does not block, and
    exactly its three blocks and two descriptors were added. *)
Theorem poll_init_all_or_nothing env context s : poll_fresh env s →
  match poll_runtime_init env context s with
  | (s', None) => pw_blocks s' = pw_blocks s ∧ pw_fds s' = pw_fds s ∧ pw_current s' = pw_current s
  | (s', Some r) => pw_current s' = Some (pr_block r) ∧ pw_fds s' !! (pr_pipe r).1 = Some (O_NONBLOCK, 0%Z)
      ∧ pw_blocks s' = poll_runtime_blocks r ∪ pw_blocks s
      ∧ close_fds [(pr_pipe r).1; (pr_pipe r).2] (pw_fds s') = pw_fds s
  end.
Proof.
  intros (F1 & F2 & F3 & F4). unfold poll_runtime_init. destruct (pe_runtime env) as [o|]; [|done]. cbn [block] in F1.
  destruct (pe_pollfds env) as [p|], (pe_mappings env) as [m|]; cbn [block] in *;
    try (split_and!; [cbn [pw_blocks]; set_solver|done|done]).
  destruct (pe_pipe env) as [[r w]|]; [|split_and!; [cbn [pw_blocks]; set_solver|done|done]].
  destruct (F4 r w eq_refl) as (N & R & W). cbn [pw_current pw_fds pw_blocks pr_block pr_pipe fst snd poll_runtime_blocks pr_pollfds pr_mappings].
  split_and!; [done|by rewrite lookup_insert_eq|set_solver|].
  apply close_two; [done|done|]. intros x X1 X2. by rewrite !lookup_insert_ne.
Qed.

(** ** Witnesses *)

Lemma poll_init_all_or_nothing_witness :
  let env := {| pe_runtime := Some 1; pe_pollfds := Some 2; pe_mappings := None; pe_pipe := None; pe_console := CONSOLE_TYPE_TTY |} in
  let s := {| pw_blocks := {[7]}; pw_fds := ∅; pw_current := None |} in
  pw_blocks (poll_runtime_init env 5 s).1 = pw_blocks s.
Proof.
  intros env s. refine (proj1 (poll_init_all_or_nothing env 5 s _)). split_and!; cbn; set_solver.
Defined.

Definition pipe_env : event_env := {|
  ee_platform := OtherPosix; ee_fds := Some (5, 6)%Z;
  ee_fcntl := ((true, true, true, true), (true, true, true, true)); ee_write := [Interrupted; Moved 1]
|}.

Lemma event_handles_balanced_witness : ∃ t' e, event_create pipe_env true true ∅ = (t', Some e) ∧ event_made OtherPosix true ∅ t' e.
Proof.
  pose proof (event_handles_balanced pipe_env true true ∅ 5 6 eq_refl eq_refl eq_refl ltac:(done)) as P.
  assert (X : is_Some (event_create pipe_env true true ∅).2) by (vm_compute; by eexists).
  destruct (event_create pipe_env true true ∅) as [t' [e|]]; [|by destruct X]. by exists t', e.
Defined.

Lemma signal_interrupts_invisible_witness :
  write_signal_once Linux (replicate 3 Interrupted ++ [Moved 8]) = Some (bool_decide (Moved 8 = Moved (signal_size Linux))).
Proof. refine (proj1 (signal_interrupts_invisible Linux 3 (Moved 8) [] _)). done. Defined.

Definition demo_env (a : nat) (ep ev : Z) : epoll_env :=
  {| re_alloc := Some a; re_epoll := Some ep; re_eventfd := Some ev; re_ctl := true; re_console := CONSOLE_TYPE_TTY |}.

Lemma runtimes_own_descriptors_witness : ∃ s,
  runtime_run (no_runtimes {[0%Z := (0, 0)%Z]}) [RInit (demo_env 1 3 4) 7; RInit (demo_env 2 5 6) 8; RDeinit 1; RDeinit 2] = Some s
  ∧ rs_fds s = {[0%Z := (0, 0)%Z]}.
Proof.
  eexists. split; [vm_compute; reflexivity|].
  refine (proj2 (proj2 (runtimes_own_descriptors {[0%Z := (0, 0)%Z]}
    [RInit (demo_env 1 3 4) 7; RInit (demo_env 2 5 6) 8; RDeinit 1; RDeinit 2] _ _)) _); vm_compute; reflexivity.
Defined.
