(* ===== verification/RelaxedInput.v ===== *)
(** * Input with hooks on workers (lib/comm/inbound.cpp, src/mudmux.cpp)

    Line input of one connection when the inbound hook runs on a worker: the loop
    reads and parses, hands one line over and defers the rest; the worker runs the
    hook, its completion defers the slot again, and the loop goes on.  Loop and
    worker are interleaved in any order; the functions are those of [Inbound] and
    [EventLoop], under a host whose slot is busy from the dispatch of a message
    until the worker has finished with it. *)

From S2P Require Import Prelude TextUtil InBuf OutBuf Abstract Execution WsFrame HttpUpgrade WsConn World.
From S2P Require Import Outbound InputMode Inbound EventLoop FileInput.

(** ** Model *)

(** The host of a slot whose first [finished] messages have been dealt with. *)
Definition relaxed_host (slot : Z) (finished : nat) : Host := {|
  host_slot := slot;
  dispatch := fun _ w => (w, DISPATCH_QUEUED);
  busy := fun w => negb (length (messages w) =? finished);
  hook_async := fun _ => true;
  has_hook := fun _ => true;
  bio_has_fd := fun _ => true;
  file_inputs := false;
  tty_ok := true;
  host_write := fun _ => true;
  host_slots := {| alloc_ok := fun _ => true; unix_path := fun _ => None |}
|}.

Record relaxed := {
  rx_world : world;
  rx_ran : list (list Z);      (* the messages the hook was called with *)
  rx_completed : nat;          (* completions that have run *)
  rx_finished : nat            (* executions after which the slot was released *)
}.

Inductive relaxed_label :=
  | RxEvent                    (* the loop: the socket is readable *)
  | RxResume                   (* the loop: its pass over deferred input *)
  | RxRun                      (* the worker: calls the hook *)
  | RxComplete                 (* the worker: the completion of the hook *)
  | RxFinish.                  (* the worker: releases the slot *)

Section Relaxed.
Context `{MultiByte, WsCrypto} (slot : Z).

Definition set_world (s : relaxed) (w : world) : relaxed :=
  {| rx_world := w; rx_ran := rx_ran s; rx_completed := rx_completed s; rx_finished := rx_finished s |}.

Definition resume_pass (finished : nat) (w : world) : world :=
  let '(w, still) := comm_resume_deferred_input (H := relaxed_host slot finished) w in with_deferred w still.

Definition relaxed_step (s : relaxed) (l : relaxed_label) : option relaxed :=
  let w := rx_world s in
  match l with
  | RxEvent => set_world s <$> handle_event (H := relaxed_host slot (rx_finished s)) read_event w
  | RxResume => if deferred w then Some (set_world s (resume_pass (rx_finished s) w)) else None
  | RxRun =>
      m ← messages w !! length (rx_ran s);
      Some {| rx_world := w; rx_ran := rx_ran s ++ [m]; rx_completed := rx_completed s; rx_finished := rx_finished s |}
  | RxComplete =>
      if rx_completed s <? length (rx_ran s)
      then Some {| rx_world := resume_input_after_inbound_hook w; rx_ran := rx_ran s;
                   rx_completed := S (rx_completed s); rx_finished := rx_finished s |}
      else None
  | RxFinish =>
      if rx_finished s <? rx_completed s
      then Some {| rx_world := w; rx_ran := rx_ran s; rx_completed := rx_completed s; rx_finished := S (rx_finished s) |}
      else None
  end.

Fixpoint relaxed_run (s : relaxed) (ls : list relaxed_label) : option relaxed :=
  match ls with [] => Some s | l :: rest => s' ← relaxed_step s l; relaxed_run s' rest end.

(** ** Slots *)

Definition idle_bits : Z :=
  Z.lor (Z.lor C_ENABLE_TELNET C_AWAITING_HOOK) (Z.lor (Z.lor C_ENABLE_WEBSOCKET M_WEBSOCKET_STATE) C_CLOSING).

(** A plain connection in line input; a hook may be in flight. *)
Record input_slot (w : world) (c : comm_abstract) (b : inbound_buffer) : Prop := {
  is_comm : comm w = Some c;
  is_inbound : inbound c = [b];
  is_band : is_data b = true;
  is_ok : ib_ok b;
  is_ssl : ssl c = None;
  is_line : has_flag (flags c) C_LINE_INPUT = true;
  is_idle : has_flag (flags c) idle_bits = false
}.

Lemma idle_split f : has_flag f idle_bits = false →
  has_flag f C_ENABLE_TELNET = false ∧ has_flag f C_AWAITING_HOOK = false ∧ has_flag f C_ENABLE_WEBSOCKET = false
  ∧ C_WEBSOCKET_IS_READY f = false ∧ has_flag f C_CLOSING = false.
Proof. unfold idle_bits. rewrite !has_flag_lor, !orb_false_iff. by intros [[] [[] ]]. Qed.

(** Flag changes that leave a plain connection one. *)
Lemma input_slot_flags w c b f :
  input_slot w c b → has_flag (f (flags c)) C_LINE_INPUT = true → has_flag (f (flags c)) idle_bits = false →
  input_slot (set_flags_w f w) (set_flags c (f (flags c))) b.
Proof. intros [] Hl Hi. split; try done. unfold set_flags_w. by rewrite is_comm0. Qed.

Lemma input_slot_lower w c b bits :
  input_slot w c b → Z.land bits (Z.lor C_LINE_INPUT idle_bits) = 0%Z →
  input_slot (lower bits w) (set_flags c (clear_flag (flags c) bits)) b.
Proof.
  intros Hs. rewrite Z.land_lor_distr_r. intros [E1 E2]%Z.lor_eq_0_iff. pose proof Hs as [].
  apply (input_slot_flags w c b (fun f => clear_flag f bits)); [done|..]; by rewrite has_flag_clear_other.
Qed.

Lemma input_slot_defer w c b : input_slot w c b → input_slot (defer w) (set_flags c (set_flag (flags c) C_DEFERRED_INBOUND)) b.
Proof.
  intros Hs. pose proof Hs as []. assert (R : input_slot (raise C_DEFERRED_INBOUND w) (set_flags c (set_flag (flags c) C_DEFERRED_INBOUND)) b).
  { apply (input_slot_flags w c b (fun f => set_flag f C_DEFERRED_INBOUND)); [done|..]; by rewrite has_flag_set_other. }
  destruct R. by split.
Qed.

Lemma input_slot_inbound w c b b' : input_slot w c b → is_data b' = true → ib_ok b' → input_slot (with_inbound w [b']) (set_inbound c [b']) b'.
Proof. intros [] Hd Hb. split; try done. unfold with_inbound. by rewrite is_comm0. Qed.

Lemma input_slot_plain w c b finished :
  input_slot w c b → length (messages w) = finished → plain_slot (H := relaxed_host slot finished) w c b.
Proof.
  intros [] Hm. apply idle_split in is_idle0 as (F1 & F2 & F3 & F4 & F5). split; [|done|done]. split; try done.
  cbn. by rewrite Hm, Nat.eqb_refl.
Qed.

(** ** Lines across reads *)

(** The terminator of a line is not cut by the boundary between [p] and [u]. *)
Definition clean (p u : list Z) : Prop := last p = Some 13%Z → hd_error u ≠ Some 10%Z ∧ hd_error u ≠ Some 0%Z.

Lemma scan_partial b u ls tail :
  ib_ok b → framed (ib_pending b ++ u) ls tail → clean (ib_pending b) u →
  match find_newline_and_strip b with
  | None => find_newline (ib_pending b) = None
  | Some (ret, len, b') => ∃ line ls', ls = line :: ls' ∧ take len (ib_pending b') = trim_ascii line ∧ ib_ok (line_at ret b')
      ∧ framed (ib_pending (line_at ret b') ++ u) ls' tail ∧ ib_band b' = ib_band b ∧ ib_ok b'
      ∧ ∃ q, ib_pending b = q ++ ib_pending (line_at ret b')
  end.
Proof.
  intros Hb Hf Hc. pose proof (find_newline_and_strip_spec b Hb) as Sp.
  destruct (find_newline_and_strip b) as [[[ret len] b']|]; [|done].
  destruct Sp as (line & nl & rest & E & L & T & C & -> & Hline & Hrest & He & Hband & Hr).
  assert (P : ib_pending (line_at (ib_start b + length line + length nl) b') = rest) by exact Hrest.
  assert (E' : ib_pending b ++ u = line ++ nl ++ (rest ++ u)) by (rewrite E, <- !app_assoc; done).
  assert (C' : nl = [13]%Z → hd_error (rest ++ u) ≠ Some 10%Z ∧ hd_error (rest ++ u) ≠ Some 0%Z).
  { intros ->. destruct rest as [|x rest]; [|by apply C]. apply Hc. rewrite E, app_nil_r. apply last_snoc. }
  inversion Hf as [t Ht Et|line1 nl1 rest1 ls' t H1 H2 H3 Hf' E1]; subst.
  - exfalso. rewrite E' in Ht. apply Forall_app in Ht as [_ Ht]. apply Forall_app in Ht as [Ht _].
    destruct (terminator_hd _ T) as (x & n & -> & Hx). inversion Ht. congruence.
  - rewrite E' in E1. destruct (framed_unique _ _ _ _ _ _ E1 H1 L H2 T H3 C') as (-> & -> & ->).
    exists line, ls'. rewrite P. split_and!; try done.
    + unfold ib_ok, line_at, ib_end in *. cbn [ib_start ib_data]. lia.
    + unfold ib_ok in *. lia.
    + exists (line ++ nl). by rewrite E, app_assoc.
Qed.
(** ** One pass of the loop *)

(** What parsing leaves: at most one line was handed over, the rest is still in
    frame, and the slot is deferred if a line was handed over. *)
Record parsed (w w' : world) (b : inbound_buffer) (u : list Z) (ls : list (list Z)) (tail : list Z) (idle : Prop) : Prop := {
  pa_slot : ∃ c' b', input_slot w' c' b'
    ∧ (∃ q, ib_pending b = q ++ ib_pending b')
    ∧ ∃ given ls', ls = given ++ ls' ∧ messages w' = messages w ++ map trim_ascii given
        ∧ framed (ib_pending b' ++ u) ls' tail
        ∧ (given = [] ∧ find_newline (ib_pending b') = None ∧ idle
           ∨ length given = 1 ∧ flag w' C_DEFERRED_INBOUND = true ∧ deferred w' = true);
  pa_reads : reads w' = reads w
}.

Lemma parsed_growth w w' b u ls tail (P : Prop) :
  parsed w w' b u ls tail P → messages w' = messages w ∧ P ∨ length (messages w') = S (length (messages w)).
Proof.
  intros [(c' & b' & _ & _ & given & ls' & _ & G2 & _ & G4) _]. destruct G4 as [(-> & _ & G4)|(G4 & _)].
  - left. by rewrite G2, app_nil_r.
  - right. rewrite G2, length_app, length_map, G4. lia.
Qed.

Lemma invoke_relaxed finished data w c b :
  input_slot w c b → ∃ w' c', comm_invoke_inbound_message (H := relaxed_host slot finished) data w = (w', DISPATCH_QUEUED)
    ∧ input_slot w' c' b ∧ messages w' = messages w ++ [data] ∧ reads w' = reads w
    ∧ flag w' C_DEFERRED_INBOUND = true ∧ deferred w' = true.
Proof.
  intros Hs. unfold comm_invoke_inbound_message. rewrite (is_comm _ _ _ Hs). cbn [hook_async relaxed_host].
  pose proof (input_slot_defer _ _ _ (input_slot_lower w c b C_INVOKED_PROMPT Hs eq_refl)) as S1.
  set (w1 := defer (lower C_INVOKED_PROMPT w)) in *.
  assert (M1 : messages w1 = messages w) by (unfold w1, defer, messages; cbn [with_deferred log]; unfold raise, lower, set_flags_w;
    rewrite (is_comm _ _ _ Hs); done).
  assert (R1 : reads w1 = reads w) by (unfold w1, defer, raise, lower, set_flags_w; rewrite (is_comm _ _ _ Hs); done).
  assert (F1 : flag w1 C_DEFERRED_INBOUND = true).
  { unfold flag, flags_of. rewrite (is_comm _ _ _ S1). cbn [set_flags flags]. by apply has_flag_set_same. }
  cbn zeta. unfold do_dispatch. cbn [dispatch relaxed_host hook_async]. eexists _, _. split; [reflexivity|].
  split_and!; [destruct S1; by split| |done|done|done]. rewrite !messages_emit, M1. cbn. by rewrite app_nil_r.
Qed.

Lemma line_loop_relaxed finished fuel w c b u ls tail :
  input_slot w c b → length (messages w) = finished → framed (ib_pending b ++ u) ls tail → clean (ib_pending b) u →
  parsed w (line_loop (H := relaxed_host slot finished) (S fuel) None 0 w).1 b u ls tail
    ((line_loop (H := relaxed_host slot finished) (S fuel) None 0 w).1 = w).
Proof.
  intros Hs Hm Hf Hc. cbn [line_loop]. pose proof Hs as [Hco Hi Hd Hb _ _ Hq].
  assert (Io : inbound_of w = [b]) by (unfold inbound_of; by rewrite Hco). rewrite Io. cbn [below_max negb].
  pose proof (scan_partial b u ls tail Hb Hf Hc) as Sc.
  assert (Stop : find_newline (ib_pending b) = None → parsed w w b u ls tail (w = w)).
  { intros Fn. split; [|done]. exists c, b. split; [done|]. split; [by exists []|]. exists [], ls. rewrite app_nil_r. split_and!; try done.
    by left. }
  destruct (ib_end b <=? ib_start b) eqn:E0.
  { apply Stop. apply Nat.leb_le in E0. unfold ib_pending. by rewrite drop_ge. }
  destruct (find_newline_and_strip b) as [[[ret len] b']|].
  2:{ destruct (_ =? kInboundSize); [by apply Stop|]. unfold pull_next. rewrite Io. by apply Stop. }
  destruct Sc as (line & ls' & -> & Hline & Hok & Hfr & Hband & Hb' & q & Hq').
  assert (Hd' : is_data b' = true) by (unfold is_data in *; by rewrite Hband). cbn zeta.
  pose proof (input_slot_inbound w c b b' Hs Hd' Hb') as S1.
  assert (T1 : flag (with_inbound w [b']) C_ENABLE_TELNET = false).
  { unfold flag, flags_of. rewrite (is_comm _ _ _ S1). by apply idle_split in Hq as (? & _). }
  rewrite T1. cbn [andb]. destruct (invoke_relaxed finished (take len (ib_pending b')) _ _ _ S1) as (w2 & c2 & -> & S2 & M2 & R2 & F2 & D2).
  assert (I2 : inbound_of w2 = [b']) by (unfold inbound_of; rewrite (is_comm _ _ _ S2); by apply S2).
  rewrite I2. cbn [set_head_start]. fold (line_at ret b').
  assert (Hd2 : is_data (line_at ret b') = true) by exact Hd'.
  pose proof (input_slot_inbound w2 c2 b' (line_at ret b') S2 Hd2 Hok) as S3.
  assert (E3 : with_inbound w2 [line_at ret b'] = with_comm w2 (Some (set_inbound c2 [line_at ret b'])))
    by (unfold with_inbound; by rewrite (is_comm _ _ _ S2)).
  assert (M3 : messages (with_inbound w2 [line_at ret b']) = messages w ++ [trim_ascii line]).
  { rewrite E3. change (messages w2 = messages w ++ [trim_ascii line]). rewrite M2, Hline. f_equal. unfold with_inbound. by rewrite Hco. }
  rewrite bool_decide_eq_false_2 by (by rewrite (is_comm _ _ _ S3)). cbn [busy relaxed_host orb].
  rewrite M3, length_app, Hm. cbn [length]. rewrite (proj2 (Nat.eqb_neq _ _)) by lia. cbn [negb fst].
  split; [|rewrite E3; cbn [reads with_comm]; rewrite R2; unfold with_inbound; by rewrite Hco].
  eexists _, _. split; [exact S3|]. split; [by exists q|]. exists [line], ls'. split_and!; try done.
  right. split; [done|]. split; [|by rewrite E3]. unfold flag, flags_of in *. rewrite (is_comm _ _ _ S3). by rewrite (is_comm _ _ _ S2) in F2.
Qed.
Lemma process_relaxed finished w c b u ls tail :
  input_slot w c b → length (messages w) = finished → framed (ib_pending b ++ u) ls tail → clean (ib_pending b) u →
  ∃ w' r, comm_process_input (H := relaxed_host slot finished) None w = (w', r) ∧ (r = PROCESS_OK ∨ r = PROCESS_DEFERRED)
    ∧ parsed w w' b u ls tail (flag w' C_DEFERRED_INBOUND = false ∧ deferred w' = deferred w).
Proof.
  intros Hs Hm Hf Hc. pose proof Hs as [Hco Hi Hd Hb _ Hl Hq]. apply idle_split in Hq as (Q1 & Q2 & Q3 & Q4 & Q5).
  unfold comm_process_input, begin_pass. rewrite Hco, Q2. cbn [orb busy relaxed_host]. rewrite Hm, Nat.eqb_refl. cbn [negb].
  pose proof (input_slot_lower w c b C_DEFERRED_INBOUND Hs eq_refl) as S1. set (w1 := lower C_DEFERRED_INBOUND w) in *.
  assert (I1 : inbound_of w1 = [b]) by (unfold inbound_of; rewrite (is_comm _ _ _ S1); exact Hi).
  rewrite I1. cbn [skip_non_data]. rewrite Hd.
  assert (E2 : with_ipool (with_inbound w1 [b]) (ipool w1) = w1).
  { unfold with_inbound. rewrite (is_comm _ _ _ S1). unfold with_comm, with_ipool. cbn. rewrite <- Hi.
    pose proof (is_comm _ _ _ S1) as E. clearbody w1. destruct w1, c. cbn in *. by subst. }
  rewrite E2. pose proof S1 as [C1 _ _ _ _ L1 Q']. apply idle_split in Q' as (_ & _ & P3 & P4 & _).
  assert (Fl : flags_of w1 = clear_flag (flags c) C_DEFERRED_INBOUND) by (unfold flags_of; by rewrite C1).
  rewrite Fl. cbn [set_flags flags] in P3, P4. unfold upgrade_pending. rewrite P3. cbn [andb]. cbv iota beta. rewrite ?Fl, P4.
  unfold input_pass, flag at 1. rewrite Fl. cbn [set_flags flags] in L1. rewrite L1. rewrite I1.
  assert (M1 : messages w1 = messages w) by apply messages_flags.
  assert (R1 : reads w1 = reads w ∧ deferred w1 = deferred w) by (unfold w1, lower, set_flags_w; by rewrite Hco).
  pose proof (line_loop_relaxed finished (2 * (length (in_content [b]) + length [b])) w1 _ b u ls tail S1 ltac:(by rewrite M1) Hf Hc) as [Ps Pr].
  change (line_fuel [b]) with (S (2 * (length (in_content [b]) + length [b]))).
  set (w2 := (line_loop _ None 0 w1).1) in *.
  destruct Ps as (c' & b' & S2 & Hsuf & given & ls' & G1 & G2 & G3 & G4).
  unfold pass_result. rewrite (is_comm _ _ _ S2). eexists _, _. split; [reflexivity|].
  split; [destruct (has_flag (flags c') _); [by right|by left]|].
  split; [|rewrite Pr; apply R1]. exists c', b'. split_and!; [done..|]. exists given, ls'. rewrite <- M1. split_and!; try done.
  destruct G4 as [(G4 & G5 & G6)|G4]; [left|by right]. rewrite G6. split_and!; try done; [|apply R1].
  unfold flag. rewrite Fl. apply has_flag_clear_same.
Qed.
(** ** Invariant *)

(** The transport's answers for the chunks [ms]. *)
Definition arrives (ms : list (list Z)) : list read_answer := map (fun m => RdData m false) ms.

(** The next read finds room in the slot's buffer. *)
Definition next_fits (w : world) : Prop :=
  match reads w, inbound_of w with
  | RdData m _ :: _, [b] => length m ≤ ib_free b
  | _, _ => True
  end.

(** A step that reads, reads into a buffer with room; a busy slot is not read. *)
Definition step_fits (s : relaxed) (l : relaxed_label) : Prop :=
  l = RxEvent → length (messages (rx_world s)) = rx_finished s → next_fits (rx_world s).

(** No read ends between the two characters of a line end. *)
Definition unsplit (all : list (list Z)) : Prop := ∀ pre post, all = pre ++ post → clean (concat pre) (concat post).

(** Of the chunks [pre ++ post] the first have been read; the lines [ls] are still to
    be handed over. *)
Record pending_input (all ls0 : list (list Z)) (tail : list Z) (w : world) (c : comm_abstract) (b : inbound_buffer)
    (pre post ls : list (list Z)) : Prop := {
  pi_slot : input_slot w c b;
  pi_split : all = pre ++ post;
  pi_reads : reads w = arrives post;
  pi_suffix : ∃ q, concat pre = q ++ ib_pending b;
  pi_framed : framed (ib_pending b ++ concat post) ls tail;
  pi_lines : messages w ++ map trim_ascii ls = map trim_ascii ls0
}.

Record relaxed_ok (all ls0 : list (list Z)) (tail : list Z) (s : relaxed) : Prop := {
  rk_input : ∃ c b pre post ls, pending_input all ls0 tail (rx_world s) c b pre post ls
    ∧ (find_newline (ib_pending b) = None ∨ flag (rx_world s) C_DEFERRED_INBOUND = true);
  rk_deferred : flag (rx_world s) C_DEFERRED_INBOUND = true → deferred (rx_world s) = true;
  rk_ran : ∃ rest, messages (rx_world s) = rx_ran s ++ rest;
  rk_counts : rx_finished s ≤ rx_completed s ≤ length (rx_ran s) ∧ length (rx_ran s) ≤ length (messages (rx_world s)) ≤ S (rx_finished s)
}.

Lemma clean_suffix q p u : clean (q ++ p) u → clean p u.
Proof.
  intros Hc E. apply Hc. destruct p as [|x p] using rev_ind; [done|]. rewrite app_assoc, last_snoc. by rewrite last_snoc in E.
Qed.

(** A pass of the loop over a slot that is not busy. *)
Lemma pass_ok all ls0 tail s w c b pre post ls w' :
  relaxed_ok all ls0 tail s → length (messages (rx_world s)) = rx_finished s →
  pending_input all ls0 tail w c b pre post ls → messages w = messages (rx_world s) →
  parsed w w' b (concat post) ls tail (flag w' C_DEFERRED_INBOUND = false ∧ deferred w' = deferred w) →
  relaxed_ok all ls0 tail (set_world s w').
Proof.
  intros [_ _ [rest R] C] Hm [I1 I2 I3 [q0 I4] I5 I6] Mw [(c' & b' & S' & [q Hq] & given & ls' & -> & G2 & G3 & G4) Pr].
  split; cbn [set_world rx_world rx_ran rx_completed rx_finished].
  - exists c', b', pre, post, ls'. split; [split; try done|].
    + by rewrite Pr.
    + exists (q0 ++ q). by rewrite I4, Hq, app_assoc.
    + rewrite G2, <- I6, map_app, app_assoc. done.
    + destruct G4 as [(_ & G4 & _)|(_ & G4 & _)]; [by left|by right].
  - destruct G4 as [(_ & _ & -> & _)|(_ & _ & ->)]; done.
  - exists (rest ++ map trim_ascii given). by rewrite G2, Mw, R, app_assoc.
  - rewrite G2, Mw, length_app, length_map. destruct G4 as [(-> & _)|(-> & _)]; cbn [length]; lia.
Qed.

(** Reading a chunk. *)
Lemma refill_relaxed all ls0 tail finished w c b pre post ls :
  next_fits w → length (messages w) = finished →
  pending_input all ls0 tail w c b pre post ls →
  ∃ w1 c1 b1 pre1 post1, comm_refill_inbound_buffers (H := relaxed_host slot finished) w = (w1, true)
    ∧ pending_input all ls0 tail w1 c1 b1 pre1 post1 ls
    ∧ messages w1 = messages w ∧ deferred w1 = deferred w ∧ length post1 = length post - 1.
Proof.
  intros Hcap Hm [I1 I2 I3 [q0 I4] I5 I6]. unfold comm_refill_inbound_buffers.
  rewrite (is_comm _ _ _ I1), (is_ssl _ _ _ I1), I3. destruct post as [|m post]; cbn [arrives map].
  { exists w, c, b, pre, []. split; [done|]. split; [|done]. split; try done. by exists q0. }
  fold (arrives post). set (w0 := with_reads w (arrives post)).
  assert (S0 : input_slot w0 c b) by (destruct I1; by split).
  destruct (length m =? 0) eqn:Em.
  { apply Nat.eqb_eq, nil_length_inv in Em as ->. exists w0, c, b, (pre ++ [[]]), post. split; [done|]. split; [|split_and!; [done..|cbn; lia]].
    split; try done; [by rewrite <- app_assoc|]. exists q0. by rewrite concat_app, I4, !app_nil_r. }
  destruct (refill_plain (H := relaxed_host slot finished) m w0 c b (input_slot_plain w0 c b finished S0 Hm)) as (b1 & E1 & B1 & D1 & P1).
  assert (Hfit : length m ≤ ib_free b).
  { unfold next_fits, inbound_of in Hcap. by rewrite I3, (is_comm _ _ _ I1), (is_inbound _ _ _ I1) in Hcap. }
  rewrite take_ge in P1 by done. rewrite E1, (proj2 (Nat.leb_le _ _)) by done.
  exists (with_inbound w0 [b1]), (set_inbound c [b1]), b1, (pre ++ [m]), post. split; [done|].
  assert (E2 : with_inbound w0 [b1] = with_comm w0 (Some (set_inbound c [b1]))) by (unfold with_inbound; by rewrite (is_comm _ _ _ S0)).
  split; [|rewrite E2; split_and!; [done..|cbn; lia]].
  split; [by apply (input_slot_inbound w0 c b b1)|by rewrite <- app_assoc|by rewrite E2| |..].
  - exists q0. rewrite concat_app, I4, P1. cbn. by rewrite app_nil_r, app_assoc.
  - rewrite P1, <- app_assoc. exact I5.
  - rewrite E2. exact I6.
Qed.
Section Steps.
Context (all ls0 : list (list Z)) (tail : list Z).
Context (Hun : unsplit all).

Lemma pending_clean w c b pre post ls : pending_input all ls0 tail w c b pre post ls → clean (ib_pending b) (concat post).
Proof using Hun. intros [_ E _ [q Eq] _ _]. apply (clean_suffix q). rewrite <- Eq. by apply Hun. Qed.

(** The loop on a readable socket, when the slot is not busy. *)
Lemma event_pass s :
  relaxed_ok all ls0 tail s → length (messages (rx_world s)) = rx_finished s → next_fits (rx_world s) →
  ∃ w', handle_event (H := relaxed_host slot (rx_finished s)) read_event (rx_world s) = Some w'
    ∧ relaxed_ok all ls0 tail (set_world s w') ∧ length (reads w') = length (reads (rx_world s)) - 1
    ∧ (messages w' = messages (rx_world s) ∧ flag w' C_DEFERRED_INBOUND = false
       ∨ length (messages w') = S (length (messages (rx_world s)))).
Proof using Hun.
  intros Ho Hm Hcap. pose proof Ho as [(c & b & pre & post & ls & I & _) Df R C].
  pose proof (pi_slot _ _ _ _ _ _ _ _ _ I) as [Hc _ _ _ _ _ Q]. apply idle_split in Q as (_ & Q & _).
  unfold handle_event. rewrite Hc. cbn [ev_read read_event busy relaxed_host]. rewrite Q, Hm, Nat.eqb_refl. cbn [negb orb].
  destruct (refill_relaxed all ls0 tail (rx_finished s) _ c b pre post ls Hcap Hm I) as (w1 & c1 & b1 & pre1 & post1 & -> & I1 & M1 & D1 & L1).
  pose proof (pi_slot _ _ _ _ _ _ _ _ _ I1) as S1.
  destruct (process_relaxed (rx_finished s) w1 c1 b1 (concat post1) ls tail S1 ltac:(by rewrite M1)
    (pi_framed _ _ _ _ _ _ _ _ _ I1) (pending_clean _ _ _ _ _ _ I1)) as (w2 & r & -> & Hr & P).
  pose proof P as [(c2 & b2 & S2 & _ & given & ls' & _ & _ & _ & G) Pr].
  rewrite (is_comm _ _ _ S2). assert (F : (negb true || match r with PROCESS_ERROR | PROCESS_CLOSED => true | _ => false end) = false)
    by (by destruct Hr as [->| ->]). rewrite F. unfold finish_event. cbn [ev_write ev_close read_event mbind option_bind].
  pose proof (is_idle _ _ _ S2) as Q2. apply idle_split in Q2 as (_ & _ & _ & _ & Q2).
  unfold deref. rewrite (is_comm _ _ _ S2), Q2. exists w2. split; [done|]. split_and!.
  - by apply (pass_ok all ls0 tail s w1 c1 b1 pre1 post1 ls w2).
  - rewrite Pr, (pi_reads _ _ _ _ _ _ _ _ _ I1), (pi_reads _ _ _ _ _ _ _ _ _ I). unfold arrives. by rewrite !length_map.
  - rewrite <- Hm, <- M1. apply parsed_growth in P as [(-> & -> & _)|P]; [by left|by right].
Qed.

(** The pass over deferred input, when the slot is deferred and not busy. *)
Lemma resume_ok s :
  relaxed_ok all ls0 tail s → flag (rx_world s) C_DEFERRED_INBOUND = true → length (messages (rx_world s)) = rx_finished s →
  relaxed_ok all ls0 tail (set_world s (resume_pass (rx_finished s) (rx_world s)))
  ∧ reads (resume_pass (rx_finished s) (rx_world s)) = reads (rx_world s)
  ∧ (messages (resume_pass (rx_finished s) (rx_world s)) = messages (rx_world s)
       ∧ flag (resume_pass (rx_finished s) (rx_world s)) C_DEFERRED_INBOUND = false
     ∨ length (messages (resume_pass (rx_finished s) (rx_world s))) = S (length (messages (rx_world s)))).
Proof using Hun.
  intros Ho Fd Hm. pose proof Ho as [(c & b & pre & post & ls & I & _) Df R C].
  pose proof (pi_slot _ _ _ _ _ _ _ _ _ I) as S0. unfold resume_pass, comm_resume_deferred_input.
  unfold flag, flags_of in Fd. rewrite (is_comm _ _ _ S0) in Fd |- *. rewrite Fd. cbn [negb busy relaxed_host].
  rewrite Hm, Nat.eqb_refl. cbn [negb].
  pose proof (input_slot_lower _ c b C_DEFERRED_INBOUND S0 eq_refl) as S1.
  set (w1 := lower C_DEFERRED_INBOUND (rx_world s)) in *.
  assert (M1 : messages w1 = messages (rx_world s)) by apply messages_flags.
  assert (R1 : reads w1 = reads (rx_world s)) by (unfold w1, lower, set_flags_w; by rewrite (is_comm _ _ _ S0)).
  assert (I1 : pending_input all ls0 tail w1 (set_flags c (clear_flag (flags c) C_DEFERRED_INBOUND)) b pre post ls).
  { destruct I. split; rewrite ?M1, ?R1; done. }
  destruct (process_relaxed (rx_finished s) w1 _ b (concat post) ls tail S1 ltac:(by rewrite M1)
    (pi_framed _ _ _ _ _ _ _ _ _ I1) (pending_clean _ _ _ _ _ _ I1)) as (w2 & r & -> & Hr & P).
  assert (E : match r with PROCESS_CLOSED | PROCESS_ERROR => ((comm_close (H := relaxed_host slot (rx_finished s)) w2).1, false)
              | _ => (w2, flag w2 C_DEFERRED_INBOUND) end = (w2, flag w2 C_DEFERRED_INBOUND)) by (by destruct Hr as [->| ->]).
  rewrite E. pose proof (pass_ok all ls0 tail s w1 _ b pre post ls w2 Ho Hm I1 M1 P) as [(c' & b' & pre' & post' & ls' & I' & N') D' R' C'].
  cbn [set_world rx_world rx_ran rx_completed rx_finished] in *. split_and!.
  - split; cbn [set_world rx_world rx_ran rx_completed rx_finished]; try done.
    exists c', b', pre', post', ls'. split; [|done]. destruct I' as [[] ]. by split; [split|..].
  - destruct P as [_ Pr]. cbn [with_deferred reads]. by rewrite Pr.
  - change (messages (with_deferred w2 _)) with (messages w2). rewrite <- Hm, <- M1.
    apply parsed_growth in P as [(-> & P & _)|P]; [by left|by right].
Qed.

Lemma relaxed_step_ok s l s' : relaxed_ok all ls0 tail s → step_fits s l → relaxed_step s l = Some s' → relaxed_ok all ls0 tail s'.
Proof using Hun.
  intros Ho Hfit. pose proof Ho as [(c & b & pre & post & ls & I & N) Df [rest R] C]. pose proof (pi_slot _ _ _ _ _ _ _ _ _ I) as S0.
  assert (Id : set_world s (rx_world s) = s) by (by destruct s). destruct l; cbn [relaxed_step].
  - destruct (decide (length (messages (rx_world s)) = rx_finished s)) as [Hm|Hm].
    + destruct (event_pass s Ho Hm (Hfit eq_refl Hm)) as (w' & -> & Ho' & _). by intros [= <-].
    + unfold handle_event. rewrite (is_comm _ _ _ S0). cbn [ev_read read_event busy relaxed_host].
      rewrite (proj2 (Nat.eqb_neq _ _) Hm), orb_true_r. intros [= <-]. by rewrite Id.
  - destruct (deferred (rx_world s)) eqn:D; [|done]. intros [= <-].
    destruct (flag (rx_world s) C_DEFERRED_INBOUND) eqn:Fd.
    + destruct (decide (length (messages (rx_world s)) = rx_finished s)) as [Hm|Hm]; [by apply resume_ok|].
      unfold resume_pass, comm_resume_deferred_input. unfold flag, flags_of in Fd. rewrite (is_comm _ _ _ S0) in Fd |- *.
      rewrite Fd. cbn [negb busy relaxed_host]. rewrite (proj2 (Nat.eqb_neq _ _) Hm). cbn [negb].
      assert (with_deferred (rx_world s) true = rx_world s) as ->; [|by rewrite Id].
      clear -D. destruct (rx_world s). cbn in *. by subst.
    + unfold resume_pass, comm_resume_deferred_input. pose proof Fd as Fd'. unfold flag, flags_of in Fd. rewrite (is_comm _ _ _ S0) in Fd |- *.
      rewrite Fd. cbn [negb]. split; cbn [set_world rx_world rx_ran rx_completed rx_finished]; [|by rewrite <- Fd'|by exists rest|done].
      exists c, b, pre, post, ls. destruct N as [N|N]; [|congruence]. split; [|by left]. destruct I as [[] ]. by split; [split|..].
  - destruct (messages (rx_world s) !! length (rx_ran s)) as [m|] eqn:E; [|done]. intros [= <-].
    rewrite R, lookup_app_r, Nat.sub_diag in E by done. destruct rest as [|m' rest]; [done|]. injection E as ->.
    split; cbn [rx_world rx_ran rx_completed rx_finished]; [by exists c, b, pre, post, ls|done|exists rest; by rewrite R, <- app_assoc|].
    rewrite R, !length_app in *. cbn [length] in *. lia.
  - destruct (_ <? _) eqn:E; [|done]. apply Nat.ltb_lt in E. intros [= <-]. unfold resume_input_after_inbound_hook. rewrite (is_comm _ _ _ S0).
    assert (M1 : messages (defer (rx_world s)) = messages (rx_world s)) by exact (messages_flags _ (rx_world s)).
    assert (R1 : reads (defer (rx_world s)) = reads (rx_world s)) by (unfold defer, raise, set_flags_w; by rewrite (is_comm _ _ _ S0)).
    split; cbn [rx_world rx_ran rx_completed rx_finished]; rewrite ?M1; [|done|by exists rest|lia].
    pose proof (input_slot_defer _ c b S0) as S1. exists (set_flags c (set_flag (flags c) C_DEFERRED_INBOUND)), b, pre, post, ls. split.
    + destruct I. split; rewrite ?M1, ?R1; done.
    + right. unfold flag, flags_of. rewrite (is_comm _ _ _ S1). cbn [set_flags flags]. by apply has_flag_set_same.
  - destruct (_ <? _) eqn:E; [|done]. apply Nat.ltb_lt in E. intros [= <-].
    split; cbn [rx_world rx_ran rx_completed rx_finished]; [by exists c, b, pre, post, ls|done|by exists rest|lia].
Qed.

(** The runs in which every read finds room. *)
Fixpoint roomy_run (s : relaxed) (ls : list relaxed_label) : Prop :=
  match ls with
  | [] => True
  | l :: rest => step_fits s l ∧ match relaxed_step s l with Some s' => roomy_run s' rest | None => True end
  end.

Lemma relaxed_run_ok s ls s' :
  relaxed_ok all ls0 tail s → roomy_run s ls → relaxed_run s ls = Some s' → relaxed_ok all ls0 tail s'.
Proof using Hun.
  revert s. induction ls as [|l ls IH]; intros s Ho; cbn; [by intros _ [= <-]|]. intros [Hf Hr].
  destruct (relaxed_step s l) as [s1|] eqn:E; [|done]. apply IH; [by eapply relaxed_step_ok|done].
Qed.

(** Every read fits behind the beginning of a line left by those before it. *)
Definition roomy_chunks : Prop := ∀ pre m post q p,
  all = pre ++ m :: post → concat pre = q ++ p → find_newline p = None → length p + length m ≤ kInboundSize.

(** *** Progress *)

(** Nothing is left to do: everything was read and parsed, and no hook is in flight. *)
Definition quiescent (s : relaxed) : Prop :=
  length (reads (rx_world s)) = 0 ∧ flag (rx_world s) C_DEFERRED_INBOUND = false ∧ length (messages (rx_world s)) = rx_finished s.

(** The steps that are still useful. *)
Definition work_left (s : relaxed) : nat :=
  6 * (length ls0 - length (messages (rx_world s))) + length (reads (rx_world s))
  + (if flag (rx_world s) C_DEFERRED_INBOUND then 1 else 0)
  + 4 * (length (messages (rx_world s)) - length (rx_ran s)) + 3 * (length (rx_ran s) - rx_completed s)
  + (rx_completed s - rx_finished s).

Lemma messages_bound s : relaxed_ok all ls0 tail s → length (messages (rx_world s)) ≤ length ls0.
Proof.
  intros [(c & b & pre & post & ls & I & _) _ _ _]. pose proof (pi_lines _ _ _ _ _ _ _ _ _ I) as E.
  apply (f_equal length) in E. rewrite length_app, !length_map in E. lia.
Qed.

Lemma flag_le w b : (if flag w b then 1 else 0) ≤ 1.
Proof. destruct (flag w b); lia. Qed.

(** A pass that hands a line over, or clears the deferral or a read. *)
Lemma pass_work s w' :
  relaxed_ok all ls0 tail s → relaxed_ok all ls0 tail (set_world s w') →
  length (messages (rx_world s)) = rx_finished s → length (reads w') ≤ length (reads (rx_world s)) →
  (messages w' = messages (rx_world s) ∧ flag w' C_DEFERRED_INBOUND = false
     ∧ (length (reads w') < length (reads (rx_world s)) ∨ flag (rx_world s) C_DEFERRED_INBOUND = true)
   ∨ length (messages w') = S (length (messages (rx_world s)))) →
  work_left (set_world s w') < work_left s.
Proof.
  intros Ho Ho' Hm Hr Hc. pose proof (messages_bound _ Ho') as B. pose proof (rk_counts _ _ _ _ Ho) as C.
  unfold work_left. cbn [set_world rx_world rx_ran rx_completed rx_finished] in *. pose proof (flag_le w' C_DEFERRED_INBOUND).
  destruct Hc as [(-> & -> & [Hr'| ->])|Hc]; [destruct (flag (rx_world s) _); lia|lia|].
  rewrite Hc in *. destruct (flag (rx_world s) _); lia.
Qed.

(** A slot that is not deferred holds no complete line, so the next read fits. *)
Lemma roomy_fits s :
  relaxed_ok all ls0 tail s → flag (rx_world s) C_DEFERRED_INBOUND = false → roomy_chunks → next_fits (rx_world s).
Proof using Type.
  intros [(c & b & pre & post & ls & I & N) _ _ _] Fd Hroom. destruct N as [N|N]; [|congruence].
  pose proof (pi_slot _ _ _ _ _ _ _ _ _ I) as S0. destruct (pi_suffix _ _ _ _ _ _ _ _ _ I) as [q Hq].
  unfold next_fits, inbound_of. rewrite (is_comm _ _ _ S0), (is_inbound _ _ _ S0), (pi_reads _ _ _ _ _ _ _ _ _ I).
  destruct post as [|m post]; [done|]. cbn [arrives map].
  pose proof (Hroom pre m post q (ib_pending b) (pi_split _ _ _ _ _ _ _ _ _ I) Hq N). unfold ib_free. lia.
Qed.

Lemma progress_step s : relaxed_ok all ls0 tail s → ¬ quiescent s → roomy_chunks →
  ∃ l s', relaxed_step s l = Some s' ∧ step_fits s l ∧ work_left s' < work_left s.
Proof using Hun.
  intros Ho Nq Hroom. pose proof Ho as [_ Df [rest R] C]. pose proof (flag_le (defer (rx_world s)) C_DEFERRED_INBOUND) as L.
  destruct (decide (length (messages (rx_world s)) = rx_finished s)) as [Hm|Hm].
  - destruct (flag (rx_world s) C_DEFERRED_INBOUND) eqn:Fd.
    + destruct (resume_ok s Ho Fd Hm) as (Ho' & Rd & G). eexists RxResume, _. cbn [relaxed_step]. rewrite (Df eq_refl). split; [done|].
      split; [done|]. apply pass_work; try done; [by rewrite Rd|]. destruct G as [[G1 G2]|G]; [left|by right]. split_and!; [done..|by right].
    + assert (Hfit : next_fits (rx_world s)) by by apply roomy_fits.
      destruct (event_pass s Ho Hm Hfit) as (w' & E & Ho' & Rd & G). eexists RxEvent, _. cbn [relaxed_step]. rewrite E. split; [done|].
      split; [by intros _ _|]. destruct (reads (rx_world s)) as [|a rs] eqn:Er; [destruct Nq; unfold quiescent; by rewrite Er|].
      cbn [length] in Rd. apply pass_work; try done; rewrite Er; cbn [length]; [lia|].
      destruct G as [[G1 G2]|G]; [left|by right]. split_and!; [done..|left; lia].
  - destruct (decide (length (rx_ran s) = length (messages (rx_world s)))) as [E1|E1].
    2:{ destruct rest as [|m rest]; [rewrite R, app_nil_r in E1; done|]. eexists RxRun, _. cbn [relaxed_step].
        rewrite R, lookup_app_r, Nat.sub_diag by done. cbn [lookup list_lookup mbind option_bind]. split; [done|]. split; [done|].
        unfold work_left. cbn [rx_world rx_ran rx_completed rx_finished]. rewrite R, !length_app in *. cbn [length] in *. lia. }
    destruct (decide (rx_completed s = length (rx_ran s))) as [E2|E2].
    + eexists RxFinish, _. cbn [relaxed_step]. rewrite (proj2 (Nat.ltb_lt _ _)) by lia. split; [done|]. split; [done|].
      unfold work_left. cbn [rx_world rx_ran rx_completed rx_finished]. lia.
    + eexists RxComplete, _. cbn [relaxed_step]. rewrite (proj2 (Nat.ltb_lt _ _)) by lia. split; [done|]. split; [done|].
      destruct Ho as [(c & b & pre & post & ls & I & _) _ _ _]. pose proof (pi_slot _ _ _ _ _ _ _ _ _ I) as S0.
      unfold work_left, resume_input_after_inbound_hook. cbn [rx_world rx_ran rx_completed rx_finished]. rewrite (is_comm _ _ _ S0).
      assert (M1 : messages (defer (rx_world s)) = messages (rx_world s)) by exact (messages_flags _ (rx_world s)).
      assert (R1 : reads (defer (rx_world s)) = reads (rx_world s)) by (unfold defer, raise, set_flags_w; by rewrite (is_comm _ _ _ S0)).
      rewrite M1, R1. lia.
Qed.

Lemma settles n s : roomy_chunks → work_left s ≤ n → relaxed_ok all ls0 tail s →
  ∃ labels s', length labels ≤ n ∧ roomy_run s labels ∧ relaxed_run s labels = Some s' ∧ quiescent s'.
Proof using Hun.
  intros Hroom. revert s. induction n as [|n IH]; intros s Hw Ho.
  - destruct (decide (quiescent s)) as [Q|Q]; [by exists [], s|]. destruct (progress_step s Ho Q Hroom) as (l & s' & _ & _ & L). lia.
  - destruct (decide (quiescent s)) as [Q|Q]; [exists [], s; split; [cbn; lia|done]|].
    destruct (progress_step s Ho Q Hroom) as (l & s1 & E & F & L).
    destruct (IH s1) as (labels & s' & A & A' & B & D); [lia|by eapply relaxed_step_ok|].
    exists (l :: labels), s'. split; [cbn; lia|]. cbn [relaxed_run roomy_run]. by rewrite E.
Qed.

(** A quiescent state has handed everything over. *)
Lemma quiescent_done s : relaxed_ok all ls0 tail s → quiescent s →
  rx_ran s = map trim_ascii ls0 ∧ ∃ b, inbound_of (rx_world s) = [b] ∧ ib_pending b = tail.
Proof.
  intros [(c & b & pre & post & ls & I & N) _ [rest R] C] (Q1 & Q2 & Q3). destruct N as [N|N]; [|congruence].
  pose proof (pi_slot _ _ _ _ _ _ _ _ _ I) as S0. pose proof (pi_framed _ _ _ _ _ _ _ _ _ I) as F.
  pose proof (pi_reads _ _ _ _ _ _ _ _ _ I) as Rd. apply nil_length_inv in Q1. rewrite Q1 in Rd. symmetry in Rd. apply map_eq_nil in Rd as ->.
  cbn [concat] in F. rewrite app_nil_r in F. inversion F as [t Ht Et|line nl rest1 ls' t H1 H2 H3 Hf E]; subst.
  - pose proof (pi_lines _ _ _ _ _ _ _ _ _ I) as L. cbn [map] in L. rewrite app_nil_r in L. rewrite R, length_app in *.
    assert (rest = []) as -> by (apply nil_length_inv; lia). rewrite app_nil_r in L. split; [done|]. exists b. split; [|done].
    unfold inbound_of. rewrite (is_comm _ _ _ S0). apply S0.
  - exfalso. destruct (terminator_hd _ H2) as (x & n & -> & Hx). rewrite <- E in N. cbn [app] in N.
    by rewrite (find_newline_app line x (n ++ rest1)) in N.
Qed.
End Steps.
End Relaxed.

(** ** Theorems *)

Definition start (w : world) : relaxed := {| rx_world := w; rx_ran := []; rx_completed := 0; rx_finished := 0 |}.

(** An idle connection on which the chunks [all] are about to arrive. *)
Record fresh_input (all : list (list Z)) (w : world) (c : comm_abstract) (b : inbound_buffer) : Prop := {
  fi_slot : input_slot w c b;
  fi_empty : ib_pending b = [];
  fi_log : messages w = [];
  fi_reads : reads w = arrives all;
  fi_idle : flag w C_DEFERRED_INBOUND = false
}.

Lemma start_ok all ls tail w c b : fresh_input all w c b → framed (concat all) ls tail → relaxed_ok all ls tail (start w).
Proof.
  intros [S E M R F] Hf. split; cbn [start rx_world rx_ran rx_completed rx_finished]; rewrite ?F, ?M; [|done|by exists []|cbn; lia].
  exists c, b, [], all, ls. split; [|left; by rewrite E]. split; try done; rewrite ?E, ?M; try done. by exists [].
Qed.

Section Theorems.
Context `{MultiByte, WsCrypto} (slot : Z).

(** C6: with hooks on workers, lines reach the application one at a time and in
    order.  On a plain connection in line input, whose reads do not end inside a
    CR LF or CR NUL and find room in the slot's buffer: however reads, passes of
    the loop, the hook, its completion and the release of the slot are
    interleaved, the hook has been called with the first lines of the stream,
    each once, trimmed and in the order received, also where a line spans
    several reads, and at most one line is in flight. *)
Theorem relaxed_lines_in_order all ls tail w c b labels s :
  fresh_input all w c b → unsplit all → framed (concat all) ls tail →
  roomy_run slot (start w) labels → relaxed_run slot (start w) labels = Some s →
  (∃ rest, map trim_ascii ls = rx_ran s ++ rest)
  ∧ rx_finished s ≤ length (rx_ran s) ≤ length (messages (rx_world s)) ≤ S (rx_finished s).
Proof.
  intros Hi Hun Hf Hr R. pose proof (relaxed_run_ok slot all ls tail Hun _ _ _ (start_ok all ls tail w c b Hi Hf) Hr R) as Ho.
  pose proof Ho as [(c' & b' & pre & post & ls' & I & _) _ [rest E] C]. split; [|lia].
  exists (rest ++ map trim_ascii ls'). rewrite <- (pi_lines _ _ _ _ _ _ _ _ _ I), E. by rewrite app_assoc.
Qed.

(** C7: with hooks on workers, no input is stranded.  On a plain connection in line
    input, whose reads do not end inside a CR LF or CR NUL and each fit into the
    slot's buffer behind the beginning of a line: from every state the loop and
    the worker reach without overfilling the buffer, a bounded number of such
    steps leads to one in which nothing is left to do, and in every such state
    the hook has been called with all lines of the stream, and the incomplete
    last one is kept. *)
Theorem relaxed_lines_settle all ls tail w c b labels s :
  fresh_input all w c b → unsplit all → roomy_chunks all → framed (concat all) ls tail →
  roomy_run slot (start w) labels → relaxed_run slot (start w) labels = Some s →
  (∃ labels' s', length labels' ≤ work_left ls s ∧ roomy_run slot s labels'
     ∧ relaxed_run slot s labels' = Some s' ∧ quiescent s')
  ∧ (quiescent s → rx_ran s = map trim_ascii ls ∧ ∃ b', inbound_of (rx_world s) = [b'] ∧ ib_pending b' = tail).
Proof.
  intros Hi Hun Hroom Hf Hr R. pose proof (relaxed_run_ok slot all ls tail Hun _ _ _ (start_ok all ls tail w c b Hi Hf) Hr R) as Ho.
  split; [by apply (settles slot all ls tail Hun)|by apply (quiescent_done all ls tail)].
Qed.
End Theorems.

(** ** Witnesses *)

(** Two lines in two reads, the second line cut between them. *)
Definition typed_chunks : list (list Z) := [[97; 13; 10; 98]; [10; 99]]%Z.
Definition typed_world : world :=
  with_reads (input_world C_LINE_INPUT [data_buffer []]) (arrives typed_chunks).

Lemma typed_unsplit : unsplit typed_chunks.
Proof. intros [|a [|a' [|a'' pre]]] post [=]; subst; cbn; by intros [=]. Qed.

Lemma typed_framed : framed (concat typed_chunks) [[97]; [98]]%Z [99]%Z.
Proof.
  change (concat typed_chunks) with ([97] ++ [13; 10] ++ [98] ++ [10] ++ [99])%Z.
  apply framed_line; [by repeat constructor|right; by left|done|].
  apply framed_line; [by repeat constructor|left; by exists 10%Z|done|]. apply framed_tail. by repeat constructor.
Qed.

Lemma typed_fresh : fresh_input typed_chunks typed_world (demo_comm (data_buffer [])) (data_buffer []).
Proof. split; try done. split; try done. unfold ib_ok, ib_end. cbn. lia. Qed.

Lemma typed_roomy : roomy_chunks typed_chunks.
Proof.
  intros pre m post q p E Ep _.
  assert (length (concat typed_chunks) ≤ kInboundSize) as Hl by (apply Nat.leb_le; vm_compute; reflexivity).
  apply (f_equal length) in Ep. rewrite E, concat_app, length_app in Hl. cbn [concat] in Hl.
  rewrite length_app in Hl, Ep. lia.
Qed.

Definition one_line_labels : list relaxed_label := [RxEvent; RxRun; RxEvent; RxComplete; RxResume].
Definition all_lines_labels : list relaxed_label :=
  [RxEvent; RxRun; RxEvent; RxComplete; RxResume; RxFinish; RxEvent; RxRun; RxComplete; RxFinish; RxResume].

(** Both runs read only into a buffer with room. *)
Fixpoint roomy_test (s : relaxed) (ls : list relaxed_label) : bool :=
  match ls with
  | [] => true
  | l :: rest =>
      match l, reads (rx_world s), inbound_of (rx_world s) with
      | RxEvent, RdData m _ :: _, [b] => length m <=? ib_free b
      | _, _, _ => true
      end
      && match relaxed_step (H := ascii_mbrlen) (H0 := sample_crypto) 5 s l with Some s' => roomy_test s' rest | None => true end
  end.

Lemma roomy_test_run s ls :
  roomy_test s ls = true → roomy_run (H := ascii_mbrlen) (H0 := sample_crypto) 5 s ls.
Proof.
  revert s. induction ls as [|l ls IH]; intros s; [done|]. cbn [roomy_test roomy_run]. intros [A B]%andb_true_iff. split.
  - intros -> _. unfold next_fits. destruct (reads (rx_world s)) as [|[m ?| |] ?]; [done| |done..].
    destruct (inbound_of (rx_world s)) as [|b []]; [done| |done]. by apply Nat.leb_le.
  - destruct (relaxed_step _ s l); [by apply IH|done].
Qed.

Lemma one_line_roomy : roomy_run (H := ascii_mbrlen) (H0 := sample_crypto) 5 (start typed_world) one_line_labels.
Proof. apply roomy_test_run. vm_compute. reflexivity. Qed.
Lemma all_lines_roomy : roomy_run (H := ascii_mbrlen) (H0 := sample_crypto) 5 (start typed_world) all_lines_labels.
Proof. apply roomy_test_run. vm_compute. reflexivity. Qed.

Lemma relaxed_lines_in_order_witness : ∃ s,
  relaxed_run (H := ascii_mbrlen) (H0 := sample_crypto) 5 (start typed_world) one_line_labels = Some s
  ∧ (∃ rest, [[97]; [98]]%Z = rx_ran s ++ rest)
  ∧ rx_finished s ≤ length (rx_ran s) ≤ length (messages (rx_world s)) ≤ S (rx_finished s).
Proof.
  eexists. split; [vm_compute; reflexivity|].
  refine (relaxed_lines_in_order (H := ascii_mbrlen) (H0 := sample_crypto) 5 typed_chunks [[97]; [98]]%Z [99]%Z typed_world _ _
    one_line_labels _ typed_fresh typed_unsplit typed_framed one_line_roomy _). vm_compute. reflexivity.
Defined.

Lemma relaxed_lines_settle_witness : ∃ s,
  relaxed_run (H := ascii_mbrlen) (H0 := sample_crypto) 5 (start typed_world) all_lines_labels = Some s
  ∧ rx_ran s = [[97]; [98]]%Z ∧ ∃ b', inbound_of (rx_world s) = [b'] ∧ ib_pending b' = [99]%Z.
Proof.
  eexists. split; [vm_compute; reflexivity|].
  refine (proj2 (relaxed_lines_settle (H := ascii_mbrlen) (H0 := sample_crypto) 5 typed_chunks [[97]; [98]]%Z [99]%Z typed_world _ _
    all_lines_labels _ typed_fresh typed_unsplit typed_roomy typed_framed all_lines_roomy _) _); [vm_compute; reflexivity|].
  vm_compute. by split_and!.
Defined.
