(* ===== verification/MemTls.v ===== *)
(** * TLS over a memory BIO (lib/comm/inbound.cpp, comm_refill_inbound_buffers)

    Where the transport is read by completions, a slot's TLS session reads its
    ciphertext from a memory BIO that [comm_refill_inbound_buffers] fills: from
    the bytes of a completion, or by reading the slot's transport until it has
    no more.  The handshake is then stepped while ciphertext is left, and what
    the session decrypts goes to the input chain.  What OpenSSL does with
    ciphertext is a parameter. *)

From S2P Require Import Prelude InBuf OutBuf Abstract Execution Telnet Utf8 WsFrame TextUtil.
From S2P Require Import HttpUpgrade WsConn World Outbound InputMode Inbound.

(** [BIO_write] on the memory BIO: bytes taken, or none with or without
    [BIO_should_retry]. *)
Inductive mem_write := MwWritten (n : nat) | MwRetry | MwFail.

(** The TLS session behind [comm->ssl].  Each operation sees the ciphertext
    queued in the memory BIO and says how much of it was consumed;
    [ssl_buffered] is the number of bytes the session still holds inside. *)
Class TlsSession := {
  session : Type;
  mem_answer : list Z → session → mem_write;
  do_handshake : list Z → session → nat * tls_answer * session;
  ssl_read : list Z → session → nat * read_answer * session;
  ssl_buffered : session → nat
}.

Section MemTls.
Context `{Host, MultiByte, WsCrypto, TlsSession}.

(** The memory BIO and its session; [taken] and [steps] record the ciphertext the
    session consumed and how often its handshake was stepped. *)
Record mem_tls := mk_mem {
  queued : list Z;
  engine : session;
  taken : list Z;
  steps : nat
}.

(** The session consumed [n] queued bytes and is now [e]. *)
Definition consume_mem (n : nat) (e : session) (m : mem_tls) : mem_tls :=
  mk_mem (drop n (queued m)) e (taken m ++ take n (queued m)) (steps m).

Definition count_step (m : mem_tls) : mem_tls :=
  mk_mem (queued m) (engine m) (taken m) (S (steps m)).

(** [BIO_write(tls_rbio, ...)]: [None] for a failure, else whether it took bytes. *)
Definition write_mem (data : list Z) (m : mem_tls) : mem_tls * option bool :=
  match mem_answer data (engine m) with
  | MwWritten n => (mk_mem (queued m ++ take (S n) data) (engine m) (taken m) (steps m), Some true)
  | MwRetry => (m, Some false)
  | MwFail => (m, None)
  end.

(** The loop that moves transport bytes into the memory BIO.  Every turn uses an
    answer of the transport. *)
Fixpoint feed_transport (rs : list read_answer) (fed : bool) (m : mem_tls)
    : list read_answer * mem_tls * option bool :=
  match rs with
  | [] => ([], m, Some fed)
  | RdRetry :: rest => (rest, m, Some fed)
  | RdClosed :: rest => (rest, m, None)
  | RdData bytes _ :: rest =>
      if length bytes =? 0 then (rest, m, Some fed)
      else
        let '(m, r) := write_mem bytes m in
        match r with
        | None => (rest, m, None)
        | Some b => feed_transport rest (fed || b) m
        end
  end.

(** Ciphertext from the caller or from the transport; [None] returns [false]. *)
Definition feed_ciphertext (src : option (list Z)) (w : world) (m : mem_tls)
    : world * mem_tls * option bool :=
  match src with
  | Some bytes =>
      if 0 <? length bytes then let '(m, r) := write_mem bytes m in (w, m, r) else (w, m, Some false)
  | None => let '(rs, m, r) := feed_transport (reads w) false m in (with_reads w rs, m, r)
  end.

(** [comm_tls_handshake_step]: the session is asked while it is not established. *)
Definition handshake_step (w : world) (m : mem_tls) : world * mem_tls * Z :=
  match comm w with
  | Some c =>
      if bool_decide (ssl c = None) || has_flag (flags c) C_TLS_ESTABLISHED
      then let '(w, hs) := comm_tls_handshake_step w in (w, m, hs)
      else
        let '(n, a, e) := do_handshake (queued m) (engine m) in
        let '(w, hs) := comm_tls_handshake_step (with_tls w (a :: tls w)) in
        (w, count_step (consume_mem n e m), hs)
  | None => (w, m, (-1)%Z)
  end.

Inductive hs_exit := HsReturn (ok : bool) | HsReady.

(** The handshake loop; [None] when the fuel is used up. *)
Fixpoint handshake_loop (fuel : nat) (w : world) (m : mem_tls) : option (world * mem_tls * hs_exit) :=
  match fuel with
  | 0 => None
  | S f =>
      let '(w, m, hs) := handshake_step w m in
      if (hs <? 0)%Z then Some (w, m, HsReturn false)
      else if (hs =? 1)%Z then Some (w, m, HsReady)
      else
        let w := deref w (fun c => match wbio c with Some _ => emit w EFlush | None => w end) in
        if length (queued m) =? 0 then Some (w, m, HsReturn true)
        else handshake_loop f w m
  end.

(** The loop of [SSL_read_ex]. *)
Fixpoint read_mem (fuel : nat) (w : world) (m : mem_tls) : option (world * mem_tls * bool) :=
  match fuel with
  | 0 => None
  | S f =>
      match comm w with
      | None => Some (fails w, m, false)
      | Some _ =>
          let '(n, a, e) := ssl_read (queued m) (engine m) in
          let m := consume_mem n e m in
          match a with
          | RdRetry => Some (w, m, true)
          | RdClosed => Some (w, m, false)
          | RdData bytes more =>
              if length bytes =? 0 then Some (w, m, true)
              else
                let '(w, ok) := refill_from_src bytes w in
                if negb ok then Some (w, m, false)
                else if more then read_mem f w m else Some (w, m, true)
          end
      end
  end.

(** The bytes a session has not delivered yet. *)
Definition undelivered (m : mem_tls) : nat := length (queued m) + ssl_buffered (engine m).

(** [comm_refill_inbound_buffers(comm, src, size)] of a slot whose session reads
    from a memory BIO; [None] when a loop outlives its fuel. *)
Definition refill_mem (src : option (list Z)) (w : world) (m : mem_tls)
    : option (world * mem_tls * bool) :=
  match comm w with
  | None => Some (w, m, false)
  | Some c =>
      match ssl c with
      | None =>
          match src with
          | Some bytes => let '(w, ok) := refill_from_src bytes w in Some (w, m, ok)
          | None => let '(w, ok) := comm_refill_inbound_buffers w in Some (w, m, ok)
          end
      | Some _ =>
          let '(w, m, fed) := feed_ciphertext src w m in
          match fed with
          | None => Some (w, m, false)
          | Some fed =>
              let established := has_flag (flags c) C_TLS_ESTABLISHED in
              if negb fed && bool_decide (src = None) && negb established then Some (w, m, true)
              else
                let go w m := read_mem (S (undelivered m)) w m in
                if established then go w m
                else
                  match handshake_loop (S (length (queued m))) w m with
                  | None => None
                  | Some (w, m, HsReturn ok) => Some (w, m, ok)
                  | Some (w, m, HsReady) => go w m
                  end
          end
      end
  end.

(** ** The ciphertext stream *)

(** All the ciphertext that entered the memory BIO, in order. *)
Definition ciphertext (m : mem_tls) : list Z := taken m ++ queued m.

Lemma consume_stream n e m : ciphertext (consume_mem n e m) = ciphertext m.
Proof. unfold ciphertext, consume_mem. cbn [taken queued]. by rewrite <- app_assoc, take_drop. Qed.

Lemma write_mem_stream data m m' : write_mem data m = (m', Some true) →
  ∃ n, ciphertext m' = ciphertext m ++ take (S n) data.
Proof.
  unfold write_mem. destruct (mem_answer data (engine m)) as [n| |]; [|done|done].
  intros [= <-]. exists n. unfold ciphertext. cbn [taken queued]. by rewrite app_assoc.
Qed.

Lemma handshake_step_stream w m : ciphertext (handshake_step w m).1.2 = ciphertext m.
Proof.
  unfold handshake_step. destruct (comm w) as [c|]; [|done].
  destruct (bool_decide _ || _).
  - by destruct (comm_tls_handshake_step w).
  - destruct (do_handshake (queued m) (engine m)) as [[n a] e].
    destruct (comm_tls_handshake_step _). apply (consume_stream n e m).
Qed.

Lemma handshake_loop_stream fuel w m w' m' x :
  handshake_loop fuel w m = Some (w', m', x) → ciphertext m' = ciphertext m.
Proof.
  revert w m. induction fuel as [|f IH]; intros w m; [done|]. cbn [handshake_loop].
  pose proof (handshake_step_stream w m) as Hs.
  destruct (handshake_step w m) as [[w1 m1] hs]. cbn [fst snd] in Hs.
  repeat case_match; intros E; simplify_eq; try done; rewrite <- Hs; exact (IH _ _ E).
Qed.

Lemma read_mem_stream fuel w m w' m' ok :
  read_mem fuel w m = Some (w', m', ok) → ciphertext m' = ciphertext m.
Proof.
  revert w m. induction fuel as [|f IH]; intros w m; [done|]. cbn [read_mem].
  destruct (comm w); [|by intros [= _ -> _]].
  destruct (ssl_read (queued m) (engine m)) as [[n a] e].
  rewrite <- (consume_stream n e m).
  repeat case_match; intros E; simplify_eq; try done; exact (IH _ _ E).
Qed.

(** ** What OpenSSL promises *)

(** A memory BIO takes a write whole; a handshake asks for more input only when
    its input is used up; a decrypted record leaves less to deliver. *)
Class TlsLaws := {
  law_whole : ∀ data e n, mem_answer data e = MwWritten n → length data ≤ S n;
  law_want_read : ∀ p e n e', do_handshake p e = (n, TlsWantRead, e') → length p ≤ n;
  law_read : ∀ p e n bytes more e', ssl_read p e = (n, RdData bytes more, e') → bytes ≠ [] →
    length (drop n p) + ssl_buffered e' < length p + ssl_buffered e
}.

Section Laws.
Context {laws : TlsLaws}.

(** The transport takes what the handshake writes: a step that waits for the
    write side has consumed input first. *)
Definition writes_flow : Prop := ∀ p e n e',
  do_handshake p e = (n, TlsWantWrite, e') → p = [] ∨ 0 < n.

(** A step in progress comes from a session that wants to read or to write. *)
Lemma handshake_step_progress w m w' m' hs :
  handshake_step w m = (w', m', hs) → (hs <? 0)%Z = false → (hs =? 1)%Z = false →
  ∃ n a e, do_handshake (queued m) (engine m) = (n, a, e) ∧ (a = TlsWantRead ∨ a = TlsWantWrite)
    ∧ queued m' = drop n (queued m).
Proof.
  unfold handshake_step. destruct (comm w) as [c|] eqn:Hc; [|by intros [= <- <- <-]].
  destruct (bool_decide (ssl c = None) || has_flag (flags c) C_TLS_ESTABLISHED) eqn:He.
  - unfold comm_tls_handshake_step. rewrite Hc, He. by intros [= <- <- <-].
  - destruct (do_handshake (queued m) (engine m)) as [[n a] e].
    unfold comm_tls_handshake_step. cbn [comm with_tls tls]. rewrite Hc, He.
    intros E Hlt Hne. exists n, a, e. destruct a; simplify_eq; eauto 6.
Qed.

Lemma handshake_loop_returns fuel w m :
  writes_flow → length (queued m) < fuel → is_Some (handshake_loop fuel w m).
Proof using laws.
  intros Hf. revert w m. induction fuel as [|f IH]; intros w m Hl; [lia|]. cbn [handshake_loop].
  destruct (handshake_step w m) as [[w1 m1] hs] eqn:Hs.
  destruct (hs <? 0)%Z eqn:H0'; [eauto|]. destruct (hs =? 1)%Z eqn:H1'; [eauto|].
  destruct (Nat.eqb_spec (length (queued m1)) 0) as [|Hq]; [eauto|].
  apply IH. destruct (handshake_step_progress _ _ _ _ _ Hs H0' H1') as (n & a & e & Hd & Ha & Hm).
  rewrite Hm, length_drop in *. destruct Ha as [-> | ->].
  - apply law_want_read in Hd. lia.
  - apply Hf in Hd as [Hd | Hd]; [rewrite Hd in Hq; cbn in Hq; lia | lia].
Qed.

(** The reading loop gives each record a turn. *)
Lemma read_mem_returns fuel w m : undelivered m < fuel → is_Some (read_mem fuel w m).
Proof using laws.
  revert w m. induction fuel as [|f IH]; intros w m Hl; [lia|]. cbn [read_mem].
  destruct (comm w); [|eauto].
  destruct (ssl_read (queued m) (engine m)) as [[n a] e] eqn:Hr.
  destruct a as [bytes more| |]; [|eauto|eauto].
  destruct (Nat.eqb_spec (length bytes) 0) as [|Hb]; [eauto|].
  destruct (refill_from_src bytes w) as [w1 ok]. destruct (negb ok); [eauto|].
  destruct more; [|eauto]. apply IH.
  apply law_read in Hr; [|by intros ->]. unfold undelivered in *. cbn [consume_mem queued engine]. lia.
Qed.

(** An unfinished handshake has consumed every byte that was queued. *)
Lemma handshake_loop_drains fuel w m w' m' :
  handshake_loop fuel w m = Some (w', m', HsReturn true) → queued m' = [].
Proof.
  revert w m. induction fuel as [|f IH]; intros w m; [done|]. cbn [handshake_loop].
  destruct (handshake_step w m) as [[w1 m1] hs].
  destruct (hs <? 0)%Z; [done|]. destruct (hs =? 1)%Z; [done|].
  destruct (Nat.eqb_spec (length (queued m1)) 0) as [Hq|]; [|apply IH].
  intros [= _ <-]. by apply length_zero_iff_nil.
Qed.

(** ** Feeding *)

(** The memory BIO has room. *)
Definition mem_accepts : Prop := ∀ data e, ∃ n, mem_answer data e = MwWritten n.

(** What a transport gives before it has no more, is closed or reads nothing. *)
Fixpoint transport_bytes (rs : list read_answer) : list Z :=
  match rs with
  | RdData b _ :: rest => if length b =? 0 then [] else b ++ transport_bytes rest
  | _ => []
  end.

(** The ciphertext offered to a refill: the caller's, or the transport's. *)
Definition offered (src : option (list Z)) (w : world) : list Z :=
  match src with Some b => b | None => transport_bytes (reads w) end.

Lemma write_mem_whole data m : mem_accepts →
  ∃ m', write_mem data m = (m', Some true) ∧ ciphertext m' = ciphertext m ++ data.
Proof using laws.
  intros Ha. unfold write_mem. destruct (Ha data (engine m)) as [n Hn]. rewrite Hn.
  apply law_whole in Hn. eexists. split; [done|]. unfold ciphertext. cbn [taken queued].
  by rewrite take_ge, app_assoc.
Qed.

Lemma feed_transport_stream rs fed m : mem_accepts →
  ∃ rs' m' r, feed_transport rs fed m = (rs', m', r) ∧ ciphertext m' = ciphertext m ++ transport_bytes rs.
Proof using laws.
  intros Ha. revert fed m. induction rs as [|a rs IH]; intros fed m; cbn [feed_transport transport_bytes].
  - eexists _, _, _. by rewrite app_nil_r.
  - destruct a as [b more| |]; [|eexists _, _, _; by rewrite app_nil_r..].
    destruct (length b =? 0); [eexists _, _, _; by rewrite app_nil_r|].
    destruct (write_mem_whole b m Ha) as (m1 & -> & Hs).
    destruct (IH (fed || true) m1) as (rs' & m' & r & -> & Hm). eexists _, _, _. split; [done|].
    by rewrite Hm, Hs, <- app_assoc.
Qed.

Lemma feed_ciphertext_stream src w m : mem_accepts →
  ∃ w' m' r, feed_ciphertext src w m = (w', m', r) ∧ ciphertext m' = ciphertext m ++ offered src w.
Proof using laws.
  intros Ha. destruct src as [b|]; cbn [feed_ciphertext offered].
  - destruct (Nat.ltb_spec 0 (length b)) as [Hb|Hb].
    + destruct (write_mem_whole b m Ha) as (m1 & -> & Hs). eauto.
    + assert (b = []) as -> by (apply length_zero_iff_nil; lia). eexists _, _, _. by rewrite app_nil_r.
  - destruct (feed_transport_stream (reads w) false m Ha) as (rs & m1 & r & -> & Hs). eauto.
Qed.

Lemma refill_loops_stream w m (established : bool) : established = true ∨ writes_flow →
  ∃ w' m' ok,
    (if established then read_mem (S (undelivered m)) w m
     else match handshake_loop (S (length (queued m))) w m with
          | None => None
          | Some (w, m, HsReturn ok) => Some (w, m, ok)
          | Some (w, m, HsReady) => read_mem (S (undelivered m)) w m
          end) = Some (w', m', ok) ∧ ciphertext m' = ciphertext m.
Proof using laws.
  intros Hf.
  assert (Hr : ∀ w m, ∃ w' m' ok, read_mem (S (undelivered m)) w m = Some (w', m', ok)
    ∧ ciphertext m' = ciphertext m).
  { intros w0 m0. destruct (read_mem_returns (S (undelivered m0)) w0 m0) as [[[w1 m1] ok] E]; [lia|].
    eexists _, _, _. split; [exact E | exact (read_mem_stream _ _ _ _ _ _ E)]. }
  destruct established; [apply Hr|]. destruct Hf as [|Hf]; [done|].
  destruct (handshake_loop_returns (S (length (queued m))) w m Hf) as [[[w1 m1] x] E]; [lia|].
  rewrite E. apply handshake_loop_stream in E. rewrite <- E. destruct x; [eauto|apply Hr].
Qed.

(** C27: a refill over a memory BIO returns, the handshake and decrypting loops
    ending within the bytes they have, when the session is established, or the
    transport takes what the handshake writes: a handshake that waits for the
    write side has then consumed input first.  And where the memory BIO takes
    what it is given, every byte of ciphertext offered by the completion or the
    transport enters the session's stream once and in order. *)
Theorem refill_mem_delivers src w m c :
  comm w = Some c → ssl c ≠ None → has_flag (flags c) C_TLS_ESTABLISHED = true ∨ writes_flow →
  ∃ w' m' ok, refill_mem src w m = Some (w', m', ok)
    ∧ (mem_accepts → ciphertext m' = ciphertext m ++ offered src w).
Proof using laws.
  intros Hc Hs Hf. unfold refill_mem. rewrite Hc. destruct (ssl c); [|done].
  pose proof (feed_ciphertext_stream src w m) as Hfeed.
  destruct (feed_ciphertext src w m) as [[w1 m1] r].
  assert (Hm : mem_accepts → ciphertext m1 = ciphertext m ++ offered src w).
  { intros Ha. destruct (Hfeed Ha) as (? & ? & ? & [= <- <- <-] & ?). done. }
  destruct r as [fed|]; [|eauto]. destruct (negb fed && _ && _); [eauto|].
  destruct (refill_loops_stream w1 m1 (has_flag (flags c) C_TLS_ESTABLISHED) Hf) as (w' & m' & ok & E & Hs').
  eexists _, _, _. split; [exact E|]. intros Ha. by rewrite Hs', Hm.
Qed.

(** A session that is not established is left alone when the transport has
    nothing for it. *)
Theorem idle_refill_leaves_session w m c s rest : comm w = Some c → ssl c = Some s →
  has_flag (flags c) C_TLS_ESTABLISHED = false → reads w = RdRetry :: rest →
  refill_mem None w m = Some (with_reads w rest, m, true).
Proof.
  intros Hc Hs He Hr. unfold refill_mem. rewrite Hc, Hs. cbn [feed_ciphertext]. rewrite Hr.
  cbn [feed_transport negb andb]. by rewrite bool_decide_eq_true_2, He by done.
Qed.

End Laws.

(** ** A write side that does not take the handshake's bytes *)

(** The session waits to write and consumes nothing meanwhile. *)
Definition write_blocked : Prop := ∀ p e, do_handshake p e = (0, TlsWantWrite, e).

Lemma blocked_step w m c s : write_blocked → comm w = Some c → ssl c = Some s →
  has_flag (flags c) C_TLS_ESTABLISHED = false →
  ∃ w', handshake_step w m = (w', count_step (consume_mem 0 (engine m) m), 0%Z) ∧ comm w' = Some c.
Proof.
  intros Hb Hc Hs He. unfold handshake_step. rewrite Hc, Hs, bool_decide_eq_false_2, He, Hb by done.
  cbn [orb]. unfold comm_tls_handshake_step. cbn [comm with_tls tls].
  rewrite Hc, Hs, bool_decide_eq_false_2, He by done. cbn [orb].
  unfold update_slot_event_interest. cbn [comm with_tls]. rewrite Hc.
  eexists. split; [done|]. by destruct (get_socket_fd _).
Qed.

(** The handshake loop runs on while ciphertext is queued even when the step
    waits for the write side: with a transport that accepts nothing it never
    returns to the event loop, whose writable event it waits for. *)
Theorem blocked_write_spins fuel w m c s : write_blocked → comm w = Some c → ssl c = Some s →
  has_flag (flags c) C_TLS_ESTABLISHED = false → queued m ≠ [] →
  handshake_loop fuel w m = None.
Proof.
  intros Hb. revert w m. induction fuel as [|f IH]; intros w m Hc Hs He Hq; [done|].
  cbn [handshake_loop]. destruct (blocked_step w m c s Hb Hc Hs He) as (w1 & -> & Hc1).
  change (0 <? 0)%Z with false. change (0 =? 1)%Z with false. cbn iota.
  assert (Hl : (length (queued (count_step (consume_mem 0 (engine m) m))) =? 0) = false).
  { cbn [count_step consume_mem queued drop]. apply Nat.eqb_neq. by rewrite length_zero_iff_nil. }
  rewrite Hl. apply IH; try done.
  unfold deref. rewrite Hc1. by destruct (wbio c).
Qed.

End MemTls.

(** ** Witnesses *)

#[local] Instance byte_mbrlen : MultiByte :=
  fun s => match s with [] => MbIncomplete | _ => MbLen 1 end.
#[local] Instance plain_crypto : WsCrypto :=
  {| SHA1 := fun l => Some (take 20 (l ++ replicate 20 0%Z)); EVP_EncodeBlock := fun l => l |}.

(** A session whose handshake takes a number of bytes and which then decrypts one
    byte at a time to itself. *)
Definition short_session : TlsSession := {|
  session := nat;
  mem_answer := fun data _ => MwWritten (length data);
  do_handshake := fun p e =>
    if e <=? length p then (e, TlsDone, 0) else (length p, TlsWantRead, e - length p);
  ssl_read := fun p e =>
    match p with [] => (0, RdRetry, e) | b :: p' => (1, RdData [b] (0 <? length p'), e) end;
  ssl_buffered := fun _ => 0
|}.

Lemma short_session_laws : TlsLaws (H2 := short_session).
Proof.
  split.
  - intros data e n [= <-]. lia.
  - intros p e n e'. cbn. destruct (e <=? length p); [done|]. intros [= <- _]. lia.
  - intros p e n bytes more e' Hr _. destruct p; cbn in Hr; simplify_eq. simpl. rewrite drop_0. lia.
Qed.

Definition tls_comm : comm_abstract :=
  mk_comm (Some 1) (Some 2) (Some 3) [] [] [] None 1 C_LINE_INPUT no_capabilities.

Definition tls_world (rs : list read_answer) : world :=
  mk_world (Some tls_comm) [] [] false rs [] [] [] [] false.

Definition fresh_mem : mem_tls (H2 := short_session) :=
  mk_mem (H2 := short_session) [] 3 [] 0.

Lemma refill_mem_delivers_witness :
  ∃ w' m' ok, refill_mem (H := recording_host) (H2 := short_session) None
      (tls_world [RdData [1; 2]%Z false; RdData [3; 104; 105]%Z false; RdRetry]) fresh_mem
      = Some (w', m', ok)
    ∧ ciphertext (H2 := short_session) m' = [1; 2; 3; 104; 105]%Z.
Proof.
  destruct (refill_mem_delivers (H := recording_host) (laws := short_session_laws) None
    (tls_world [RdData [1; 2]%Z false; RdData [3; 104; 105]%Z false; RdRetry]) fresh_mem tls_comm)
    as (w' & m' & ok & E & S).
  - reflexivity.
  - discriminate.
  - right. intros p e n e'. cbn. by destruct (e <=? length p).
  - exists w', m', ok. split; [exact E|]. apply S. intros data e. by exists (length data).
Defined.

(** The two decrypted bytes behind the handshake reach the input chain. *)
Example refill_mem_decrypts : ∃ w' m',
  refill_mem (H := recording_host) (H2 := short_session) None
    (tls_world [RdData [1; 2]%Z false; RdData [3; 104; 105]%Z false; RdRetry]) fresh_mem
    = Some (w', m', true)
  ∧ map ib_data (inbound_of w') = [[104; 105]%Z] ∧ flag w' C_TLS_ESTABLISHED = true.
Proof. eexists _, _. split; [vm_compute; reflexivity|]. split; vm_compute; reflexivity. Qed.

(** A session whose peer does not read. *)
Definition blocked_session : TlsSession := {|
  session := unit;
  mem_answer := fun data _ => MwWritten (length data);
  do_handshake := fun _ e => (0, TlsWantWrite, e);
  ssl_read := fun _ e => (0, RdRetry, e);
  ssl_buffered := fun _ => 0
|}.

Lemma blocked_write_spins_witness :
  handshake_loop (H := recording_host) (H2 := blocked_session) 1000 (tls_world [])
    (mk_mem (H2 := blocked_session) [22]%Z tt [] 0) = None.
Proof.
  apply (blocked_write_spins (H := recording_host) (H2 := blocked_session) 1000 (tls_world [])
    (mk_mem (H2 := blocked_session) [22]%Z tt [] 0) tls_comm 3);
    [intros p e; reflexivity | reflexivity | reflexivity | vm_compute; reflexivity | discriminate].
Defined.
