(* ===== verification/RelaxedClose.v ===== *)
(** * Closing with hooks on workers (lib/comm/outbound.cpp, src/execution.cpp)

    The end of one connection when hooks run on workers: the event loop, hooks on
    workers and timers close the slot, flush it, send to it and hand it further
    hooks in any order, while a worker takes the accepted hooks one after the
    other - the disconnect hook among them - runs each, its completion, and
    releases the slot.  The functions are those of [Outbound], [Inbound] and
    [AppHost], under a host that answers as [mudmux_execution_enqueue] does. *)

From stdpp Require Import relations.
From S2P Require Import Prelude TextUtil InBuf OutBuf Abstract Execution Telnet Utf8 WsFrame HttpUpgrade WsConn.
From S2P Require Import World Outbound InputMode Inbound AppHost.

(** ** Model *)

(** Which hooks may wait behind the one under way. *)
Definition may_wait (t : hook_type) : bool :=
  negb (bool_decide (t = HOOK_MESSAGE_INBOUND)) && negb (bool_decide (t = HOOK_TELNET_SUBNEG)).

(** [mudmux_execution_enqueue] with a running pool: the slot is free, or the hook
    may wait and the backlog has room. *)
Definition enqueue_answer (backlog finished : nat) (h : hook_call) (w : world) : dispatch_result :=
  let inflight := length (accepted_hooks w) - finished in
  if (inflight =? 0) || (may_wait (hc_type h) && (inflight - 1 <? backlog))
  then DISPATCH_QUEUED else DISPATCH_QUEUE_FULL.

(** ** The answers are the scheduler's *)

(** A slot's scheduler state with [n] hooks accepted and not finished. *)
Definition in_flight (st : slot_execution_state) (n : nat) : Prop :=
  active st = (0 <? n) ∧ length (pending st) = n - 1.

(** Counting the accepted and the finished hooks simulates the sections of
    [Execution]: an enqueue is answered as the count says and adds the hooks it
    accepts, a finish takes one off, and the slot is idle when none is left. *)
Theorem counts_simulate_scheduler backlog finished h w st t :
  se_hook t = hc_type h → finished ≤ length (accepted_hooks w) →
  let n := length (accepted_hooks w) - finished in
  in_flight st n →
  (match enqueue_section backlog st t true with
   | inl (r, st') => r = enqueue_answer backlog finished h w
       ∧ in_flight st' (if mudmux_dispatch_accepted r then S n else n)
   | inr st' => enqueue_answer backlog finished h w = DISPATCH_QUEUED ∧ in_flight st' (S n)
   end)
  ∧ (0 < n → in_flight (finish_section st).2 (n - 1)).
Proof.
  intros Ht Hf n Hin. pose proof Hin as [Ha Hp]. split.
  - unfold enqueue_section, enqueue_answer. fold n. rewrite Ht, Ha.
    destruct (Nat.ltb_spec 0 n) as [Hn|Hn].
    + rewrite (proj2 (Nat.eqb_neq n 0)) by lia. cbn [orb].
      assert (Hm : (if decide (hc_type h = HOOK_MESSAGE_INBOUND ∨ hc_type h = HOOK_TELNET_SUBNEG) then false else true)
        = may_wait (hc_type h)) by (by destruct (hc_type h)).
      rewrite Hm. destruct (may_wait (hc_type h)); cbn [negb orb andb]; [|by split].
      rewrite Hp. destruct (Nat.leb_spec backlog (n - 1)), (Nat.ltb_spec (n - 1) backlog); try lia; [by split|].
      split; [done|]. split; cbn [set_pending active pending]; [done|].
      rewrite length_app, Hp. cbn. lia.
    + assert (n = 0) as E by lia. rewrite E in *. cbn [Nat.eqb orb]. split; [done|]. split; [done|]. cbn [set_active pending]. lia.
  - intros Hn. unfold finish_section. destruct (pending st) as [|u rest] eqn:Eq; cbn [length] in Hp; split; cbn.
    + assert (n = 1) as -> by lia. done.
    + rewrite Eq. cbn. lia.
    + rewrite Ha, <- Hp. by apply Nat.ltb_lt.
    + lia.
Qed.

Section Relaxed.
Context (base : Host) (backlog : nat).

(** The host when [finished] of the accepted hooks have been dealt with. *)
Definition pool_host (finished : nat) : Host := {|
  host_slot := host_slot;
  dispatch := fun h w => (w, enqueue_answer backlog finished h w);
  busy := fun w => finished <? length (accepted_hooks w);
  hook_async := should_dispatch_async true;
  has_hook := has_hook;
  bio_has_fd := bio_has_fd;
  file_inputs := file_inputs;
  tty_ok := tty_ok;
  host_write := host_write;
  host_slots := host_slots
|}.

(** The slot, and how far the worker is with the accepted hooks. *)
Record closing := mk_closing {
  rc_world : world;
  rc_invoked : list hook_call;  (* the hooks the application was called with *)
  rc_taken : nat;               (* executions begun *)
  rc_completed : nat;           (* executions past their completion *)
  rc_finished : nat             (* executions after which the slot was released *)
}.

(** The completion callback of each hook. *)
Definition completion_of (H : Host) (h : hook_call) (w : world) : world :=
  match hc_type h with
  | HOOK_DISCONNECT => disconnect_hook_complete w
  | HOOK_TRANSPORT_READY => resume_input_after_transport_ready_hook w
  | HOOK_MESSAGE_INBOUND => resume_input_after_inbound_hook w
  | HOOK_CONNECT => resume_input_after_connect_hook w
  | _ => w
  end.

Inductive closing_label :=
  | RcClose                                      (* [comm_close] *)
  | RcFlush                                      (* [comm_flush_all] *)
  | RcMessage (data : list Z)                    (* [comm_invoke_inbound_message] *)
  | RcSubneg (n : comm_telnet_negotiation)       (* [comm_dispatch_telnet_subnegotiation] *)
  | RcPrompt                                     (* [comm_invoke_prompt] *)
  | RcApi (ctx : hook_ctx) (call : comm_call)    (* an API call of a callback *)
  | RcTake                                       (* the worker: [run_slot_execution] up to the hook *)
  | RcComplete                                   (* ... its completion *)
  | RcFinish.                                    (* ... [finish_slot_execution] *)

Definition in_world (s : closing) (w : world) : closing :=
  mk_closing w (rc_invoked s) (rc_taken s) (rc_completed s) (rc_finished s).

Definition closing_step (s : closing) (l : closing_label) : option closing :=
  let w := rc_world s in
  let host := pool_host (rc_finished s) in
  match l with
  | RcClose => Some (in_world s (comm_close (H := host) w).1)
  | RcFlush => Some (in_world s (flush_all host w))
  | RcMessage data => Some (in_world s (comm_invoke_inbound_message (H := host) data w).1)
  | RcSubneg n => Some (in_world s (comm_dispatch_telnet_subnegotiation (H := host) n w).1)
  | RcPrompt => Some (in_world s (comm_invoke_prompt (H := host) w))
  | RcApi ctx call => Some (in_world s (run_api host ctx call w))
  | RcTake =>
      if rc_taken s =? rc_finished s then
        h ← accepted_hooks w !! rc_taken s;
        Some (mk_closing w (rc_invoked s ++ match comm w with Some _ => [h] | None => [] end)
                (S (rc_taken s)) (rc_completed s) (rc_finished s))
      else None
  | RcComplete =>
      if rc_completed s <? rc_taken s then
        h ← accepted_hooks w !! rc_completed s;
        Some (mk_closing (match comm w with Some _ => completion_of host h w | None => w end)
                (rc_invoked s) (rc_taken s) (S (rc_completed s)) (rc_finished s))
      else None
  | RcFinish =>
      if rc_finished s <? rc_completed s
      then Some (mk_closing w (rc_invoked s) (rc_taken s) (rc_completed s) (S (rc_finished s)))
      else None
  end.

(** Steps of the model, and steps of the rest of the program, which neither
    remove the slot nor touch the close protocol. *)
Inductive close_run : closing → closing → Prop :=
  | cr_step s l s' : closing_step s l = Some s' → close_run s s'
  | cr_other s w' : steady (rc_world s) w' → close_run s (in_world s w').

Fixpoint run_labels (s : closing) (ls : list closing_label) : option closing :=
  match ls with [] => Some s | l :: rest => s' ← closing_step s l; run_labels s' rest end.

(** ** Steps that leave the notification alone *)

Definition is_disconnect (h : hook_call) : bool := bool_decide (hc_type h = HOOK_DISCONNECT).
Definition notices (l : list hook_call) : nat := length (List.filter is_disconnect l).

Lemma phase_pending w b p : phase w = Some (b, p) → has_flag (flags_of w) C_DISCONNECT_PENDING = p.
Proof. unfold phase, flags_of. destruct (comm w); [|done]. cbn. by intros [= _ ->]. Qed.

Lemma notices_app l1 l2 : notices (l1 ++ l2) = notices l1 + notices l2.
Proof. unfold notices. by rewrite List.filter_app, length_app. Qed.

Lemma notices_take k l : notices (take k l) ≤ notices l.
Proof. rewrite <- (take_drop k l) at 2. rewrite notices_app. lia. Qed.

(** The close protocol is left alone and no disconnect hook is accepted. *)
Record carries (w w' : world) : Prop := {
  ca_phase : phase w' = phase w;
  ca_awaiting : flag w C_CLOSING = true → flag w' C_AWAITING_HOOK = flag w C_AWAITING_HOOK;
  ca_accepted : ∃ l, accepted_hooks w' = accepted_hooks w ++ l ∧ notices l = 0
}.

#[export] Instance carries_preorder : PreOrder carries.
Proof.
  split.
  - intros w. split; [done..|]. exists []. by rewrite app_nil_r.
  - intros u v w [A1 A2 (l & A3 & A4)] [B1 B2 (k & B3 & B4)]. split; [congruence| |].
    + intros Hc. rewrite B2, A2; [done..|]. by rewrite phase_closing, A1, <- phase_closing.
    + exists (l ++ k). rewrite B3, A3, app_assoc, notices_app. split; [done|lia].
Qed.

Lemma steady_carries w w' : steady w w' → carries w w'.
Proof. intros []. split; [done..|]. exists []. by rewrite app_nil_r. Qed.
#[local] Hint Resolve steady_carries : steady.
#[local] Hint Extern 1 (steady _ (emit _ _)) => apply steady_emit; reflexivity : steady.

Section Finished.
Context (finished : nat).
Abbreviation host := (pool_host finished).

(** An asynchronous dispatch of another hook, with any flags raised before it. *)
Lemma dispatch_carries h k w :
  hc_type h ≠ HOOK_DISCONNECT → hook_async (Host := host) (hc_type h) = true →
  carries w (do_dispatch (H := host) h k w).1.
Proof.
  intros Hd Ha. unfold do_dispatch. rewrite Ha. cbn [dispatch pool_host fst].
  assert (Hs : settles (EAnswer h (enqueue_answer backlog finished h (emit w (EDispatch h)))) = false)
    by (cbn [settles]; by rewrite bool_decide_eq_false_2).
  split; [done..|]. rewrite accepted_emit, accepted_emit. cbn [queued_hook]. rewrite app_nil_r.
  eexists. split; [done|]. destruct (enqueue_answer _ _ _ _); try done.
  unfold notices, is_disconnect. cbn. by rewrite bool_decide_eq_false_2.
Qed.

(** Flag changes of a slot that is not closing. *)
Lemma carries_open f w :
  flag w C_CLOSING = false →
  (∀ z, has_flag (f z) C_CLOSING = has_flag z C_CLOSING
        ∧ has_flag (f z) C_DISCONNECT_PENDING = has_flag z C_DISCONNECT_PENDING) →
  carries w (set_flags_w f w).
Proof.
  intros Ho Hf. split; [by apply phase_flags|by rewrite Ho|]. exists []. rewrite app_nil_r. split; [|done].
  unfold set_flags_w, accepted_hooks. by destruct (comm w).
Qed.

Lemma carries_closing w w' : carries w w' → flag w' C_CLOSING = flag w C_CLOSING.
Proof. intros [E _ _]. by rewrite !phase_closing, E. Qed.

Lemma carries_deferred w b : carries w (with_deferred w b).
Proof. apply steady_carries. done. Qed.

Lemma carries_defer w : carries w (defer w).
Proof.
  unfold defer. etransitivity; [|apply carries_deferred]. apply steady_carries, steady_raise. reflexivity.
Qed.

Lemma ready_carries w : carries w (comm_invoke_transport_ready (H := host) w).
Proof.
  unfold comm_invoke_transport_ready. destruct (comm w) as [c|] eqn:Hc; [|done].
  destruct (has_flag (flags c) _) eqn:Hf; [done|]. rewrite has_flag_lor in Hf. apply orb_false_iff in Hf as [Hcl _].
  destruct (tls_pending w); [done|]. destruct (upgrade_pending _); [done|]. cbn zeta.
  change (hook_async HOOK_TRANSPORT_READY) with true. cbn iota.
  set (v := raise C_AWAITING_HOOK (raise C_TRANSPORT_READY w)).
  assert (Ho : flag w C_CLOSING = false) by (unfold flag, flags_of; by rewrite Hc).
  assert (Hv : carries w v).
  { assert (R : carries w (raise C_TRANSPORT_READY w)) by (apply steady_carries, steady_raise; reflexivity).
    etransitivity; [exact R|]. apply carries_open; [by rewrite (carries_closing _ _ R)|]. intros z. by flag_simpl. }
  pose proof (dispatch_carries (slot_hook HOOK_TRANSPORT_READY) resume_input_after_transport_ready_hook v) as D.
  destruct (do_dispatch _ _ v) as [w1 r]. cbn [fst] in D.
  assert (Hw : carries w w1) by (etransitivity; [exact Hv|by apply D]).
  destruct (mudmux_dispatch_accepted r); [done|]. etransitivity; [exact Hw|].
  unfold deref. destruct (comm w1); [|apply steady_carries, steady_fails].
  apply carries_open; [by rewrite (carries_closing _ _ Hw)|]. intros z. by flag_simpl.
Qed.

Lemma flush_carries w : carries w (default w (comm_flush (H := host) 3 w)).
Proof.
  destruct (comm_flush 3 w) as [v|] eqn:E; [|done].
  by apply (flush_steps (H := host) carries steady_carries ready_carries 3).
Qed.

Lemma message_carries data w : carries w (comm_invoke_inbound_message (H := host) data w).1.
Proof.
  unfold comm_invoke_inbound_message. destruct (comm w); [|done].
  change (hook_async HOOK_MESSAGE_INBOUND) with true. cbn iota zeta.
  etransitivity; [|by apply dispatch_carries]. etransitivity; [|apply carries_defer].
  apply steady_carries, steady_lower. reflexivity.
Qed.

Lemma subneg_carries n w : carries w (comm_dispatch_telnet_subnegotiation (H := host) n w).1.
Proof.
  unfold comm_dispatch_telnet_subnegotiation. destruct (_ =? 0); [done|]. destruct (negb _); [done|]. cbn zeta.
  set (h := Build_hook_call _ _ _).
  pose proof (dispatch_carries h id w ltac:(done) eq_refl) as D.
  destruct (do_dispatch h id w) as [w1 r]. cbn [fst] in D.
  destruct r; [done..| |done]. cbn [fst]. etransitivity; [exact D|].
  unfold deref. destruct (comm w1); [apply carries_defer|apply steady_carries, steady_fails].
Qed.

Lemma prompt_carries w : carries w (comm_invoke_prompt (H := host) w).
Proof.
  unfold comm_invoke_prompt. destruct (comm w) as [c|]; [|done].
  destruct (_ || has_flag (flags c) C_INVOKED_PROMPT); [done|]. destruct (_ || busy w); [done|].
  pose proof (dispatch_carries (slot_hook HOOK_PROMPT) id w ltac:(done) eq_refl) as D.
  destruct (do_dispatch _ id w) as [w1 r]. cbn [fst] in D.
  destruct (mudmux_dispatch_accepted r); [|done]. etransitivity; [exact D|].
  unfold deref. destruct (comm w1); [|apply steady_carries, steady_fails].
  apply steady_carries, steady_raise. reflexivity.
Qed.

(** Every API call but a close. *)
Lemma api_carries ctx call w : call ≠ ApiClose → carries w (run_api host ctx call w).
Proof.
  intros Hc. destruct call as [buf|buf| |echo| |echo|[]]; cbn [run_api].
  - apply steady_carries, steady_write.
  - unfold comm_add_message. destruct (_ =? 0); [done|]. destruct (output_hook _); [done|].
    destruct (has_hook _); [by apply dispatch_carries|apply steady_carries, steady_write].
  - done.
  - apply steady_carries, steady_line.
  - apply steady_carries, steady_char.
  - apply steady_carries, steady_echo.
  - apply steady_carries, steady_raise. reflexivity.
  - apply steady_carries, steady_lower. reflexivity.
Qed.

(** The completion of another hook: on a closing slot it leaves the flag of the
    disconnect hook alone. *)
Lemma completion_carries h w : is_disconnect h = false → carries w (completion_of host h w).
Proof.
  assert (Open : ∀ v, carries v (if flag v C_CLOSING then v else lower C_AWAITING_HOOK v)).
  { intros v. destruct (flag v C_CLOSING) eqn:E; [done|]. apply carries_open; [done|]. intros z. by flag_simpl. }
  unfold is_disconnect, completion_of. destruct (hc_type h) eqn:Ht; try done; intros _.
  - unfold resume_input_after_connect_hook. destruct (comm w); [|done]. cbn zeta.
    etransitivity; [apply Open|]. etransitivity; [apply ready_carries|].
    unfold deref. destruct (comm _); [apply carries_defer|apply steady_carries, steady_fails].
  - unfold resume_input_after_inbound_hook. destruct (comm w); [apply carries_defer|done].
  - unfold resume_input_after_transport_ready_hook. destruct (comm w); [|done].
    etransitivity; [apply Open|apply carries_defer].
Qed.

(** ** The close itself *)

(** Whether a close asks for the disconnect hook. *)
Definition asks (w : world) : bool :=
  match phase w with Some (closing, pending) => negb closing || pending | None => false end.

Lemma tail_accepted b w : accepted_hooks (close_tail (H := host) b w).1 = accepted_hooks w.
Proof.
  unfold close_tail. destruct (comm w) as [c|] eqn:Hc; [|done]. cbn zeta.
  assert (Hr : ∀ v, accepted_hooks (remove_slot (H := host) v) = accepted_hooks v).
  { intros v. unfold remove_slot. destruct (comm v); [|done]. cbn zeta.
    unfold accepted_hooks. cbn [emit log with_comm with_opool with_ipool]. rewrite omap_app. cbn. by rewrite app_nil_r. }
  assert (Hf : ∀ v, accepted_hooks (lower C_BUFFERED_WRITE (comm_free_outbound_buffers v)) = accepted_hooks v).
  { intros v. unfold comm_free_outbound_buffers, lower, set_flags_w, accepted_hooks. destruct (comm v) eqn:E; cbn; by rewrite ?E. }
  assert (Ho : ∀ f v, accepted_hooks (on_conn f v) = accepted_hooks v).
  { intros f v. unfold on_conn. by destruct (comm v). }
  assert (Hd : ∀ v o, accepted_hooks match o with
      | Some n => if bio_has_fd (Host := host) n then emit v (ERemoveFd n) else v | None => v end = accepted_hooks v).
  { intros v [n|]; [|done]. destruct (bio_has_fd n); [|done]. by rewrite accepted_emit, app_nil_r. }
  destruct (has_flag (flags c) C_AWAITING_HOOK); [done|].
  destruct (host_slot =? COMM_SLOT_CONSOLE)%Z.
  { destruct file_inputs; cbn [fst]; [by rewrite accepted_emit, app_nil_r, Hr, Hf|].
    destruct b; [by rewrite accepted_emit, app_nil_r, Hf|apply Hf]. }
  destruct (has_flag (flags c) C_BUFFERED_WRITE && negb (tls_pending w)); [done|].
  set (w1 := if has_flag (flags c) C_BUFFERED_WRITE then _ else w).
  assert (H1 : accepted_hooks w1 = accepted_hooks w) by (unfold w1; destruct (has_flag _ _); [apply Hf|done]).
  destruct (C_WEBSOCKET_IS_READY (flags c) && _ && _); cbn [fst]; [by rewrite Ho|].
  destruct (C_WEBSOCKET_IS_READY (flags c) && _); cbn [fst]; [done|].
  rewrite Hr, !Hd. destruct (_ && _); [by rewrite accepted_emit, app_nil_r|done].
Qed.

(** A close that does not remove the slot leaves the hook flag lowered. *)
Lemma tail_awaiting b w : flag w C_AWAITING_HOOK = false → (close_tail (H := host) b w).2 = false →
  flag (close_tail (H := host) b w).1 C_AWAITING_HOOK = false.
Proof.
  intros Ha. unfold close_tail. destruct (comm w) as [c|] eqn:Hc; [|done]. cbn zeta.
  destruct (has_flag (flags c) C_AWAITING_HOOK); [done|].
  assert (Hf : flag (lower C_BUFFERED_WRITE (comm_free_outbound_buffers w)) C_AWAITING_HOOK = false).
  { unfold flag, flags_of, lower, set_flags_w, comm_free_outbound_buffers in *. rewrite Hc in *.
    cbn [with_opool with_comm comm set_flags set_barrier set_outbound flags]. by flag_simpl. }
  destruct (host_slot =? COMM_SLOT_CONSOLE)%Z; [destruct file_inputs; [done|]; by destruct b|].
  destruct (has_flag (flags c) C_BUFFERED_WRITE && negb (tls_pending w)); [done|].
  set (w1 := if has_flag (flags c) C_BUFFERED_WRITE then _ else w).
  assert (H1 : flag w1 C_AWAITING_HOOK = false) by (unfold w1; by destruct (has_flag _ _)). clearbody w1.
  destruct (C_WEBSOCKET_IS_READY (flags c) && _ && _); cbn [fst].
  { intros _. unfold flag, flags_of, on_conn in *. destruct (comm w1) eqn:E1; [|by rewrite E1].
    cbn [with_opool with_comm comm]. by rewrite queue_close_flag. }
  by destruct (C_WEBSOCKET_IS_READY (flags c) && _).
Qed.

(** A close that asks for the hook hands it over, or keeps the request. *)
Lemma close_asks w : asks w = true →
  let w' := (comm_close (H := host) w).1 in
  flag w' C_AWAITING_HOOK = negb (has_flag (flags_of w') C_DISCONNECT_PENDING)
  ∧ (phase w' = Some (true, false) ∧ accepted_hooks w' = accepted_hooks w ++ [slot_hook (H := host) HOOK_DISCONNECT]
     ∨ phase w' = Some (true, true) ∧ accepted_hooks w' = accepted_hooks w
       ∧ enqueue_answer backlog finished (slot_hook (H := host) HOOK_DISCONNECT) w = DISPATCH_QUEUE_FULL).
Proof.
  unfold asks, phase, comm_close, comm_close_impl. destruct (comm w) as [c|] eqn:Hc; [|done]. cbn [mbind option_bind].
  intros ->. cbn zeta. unfold do_dispatch. cbn [dispatch pool_host hook_async slot_hook hc_type should_dispatch_async andb].
  set (w1 := raise C_AWAITING_HOOK _). set (h := slot_hook (H := host) HOOK_DISCONNECT).
  assert (A1 : accepted_hooks (emit w1 (EDispatch h)) = accepted_hooks w).
  { rewrite accepted_emit, app_nil_r. unfold w1, raise, lower, set_flags_w, accepted_hooks. rewrite Hc.
    cbn [emit with_comm comm log]. rewrite omap_app. cbn. by rewrite app_nil_r. }
  assert (C1 : comm w1 = Some (set_flags c (set_flag (clear_flag (set_flag (flags c) C_CLOSING) C_DISCONNECT_PENDING) C_AWAITING_HOOK))).
  { unfold w1, raise, lower, set_flags_w. rewrite Hc. reflexivity. }
  assert (E1 : enqueue_answer backlog finished h (emit w1 (EDispatch h)) = enqueue_answer backlog finished h w)
    by (unfold enqueue_answer; by rewrite A1).
  fold h. rewrite E1. clearbody w1.
  destruct (enqueue_answer backlog finished h w) eqn:Eq.
  1-2: unfold enqueue_answer in Eq; destruct (_ || _) in Eq; done.
  - unfold deref. cbn [emit comm]. rewrite C1. cbn [fst]. unfold flag, flags_of, phase, lower, raise, set_flags_w.
    cbn [emit comm with_comm]. rewrite C1. cbn [comm with_comm set_flags flags mbind option_bind]. flag_simpl.
    split; [done|]. right. split; [done|]. split; [|done].
    cbn [emit comm with_comm]. unfold accepted_hooks in *. cbn [emit log with_comm] in *. rewrite omap_app, A1. cbn. by rewrite app_nil_r.
  - unfold deref. cbn [emit comm]. rewrite C1. cbn [fst]. unfold flag, flags_of, phase, lower, raise, set_flags_w.
    cbn [emit comm with_comm]. rewrite C1. cbn [comm with_comm set_flags flags mbind option_bind]. flag_simpl.
    split; [done|]. left. split; [done|].
    unfold accepted_hooks in *. cbn [emit log with_comm] in *. by rewrite omap_app, A1.
Qed.

(** A close whose hook was asked for before waits for it, or goes on. *)
Lemma close_goes_on w : asks w = false →
  let w' := (comm_close (H := host) w).1 in
  accepted_hooks w' = accepted_hooks w
  ∧ (w' = w ∨ phase w = Some (true, false) ∧ flag w C_AWAITING_HOOK = false
              ∧ (comm w' = None ∨ phase w' = phase w ∧ flag w' C_AWAITING_HOOK = false)).
Proof.
  unfold asks, phase at 1, comm_close, comm_close_impl. destruct (comm w) as [c|] eqn:Hc; [|intros _; by eauto].
  cbn [mbind option_bind]. intros Ha. rewrite Ha. cbn zeta. split; [apply tail_accepted|].
  apply orb_false_iff in Ha as [Hcl%negb_false_iff Hp].
  destruct (has_flag (flags c) C_AWAITING_HOOK) eqn:E.
  - left. unfold close_tail. by rewrite Hc, E.
  - right. unfold phase at 1, flag, flags_of. rewrite Hc. cbn [mbind option_bind]. rewrite Hcl, Hp. split_and!; [done..|].
    destruct (close_tail_spec (H := host) true w c Hc) as (_ & B & _).
    pose proof (tail_awaiting true w) as T. unfold flag at 1, flags_of in T. rewrite Hc in T.
    destruct (close_tail true w) as [w' [|]]; cbn [fst snd] in *; by eauto.
Qed.
End Finished.

(** ** The invariant *)

(** What the flags say of the notification: not asked for, kept, under way, or
    completed; a slot that is gone was told before. *)
Definition told (w : world) (completed : nat) : Prop :=
  let done := notices (take completed (accepted_hooks w)) in
  match phase w with
  | None => notices (accepted_hooks w) = 1 ∧ done = 1
  | Some (true, false) => notices (accepted_hooks w) = 1 ∧ flag w C_AWAITING_HOOK = negb (done =? 1)
  | Some (true, true) => notices (accepted_hooks w) = 0 ∧ flag w C_AWAITING_HOOK = false
  | Some (false, pending) => pending = false ∧ notices (accepted_hooks w) = 0
  end.

Record closing_inv (s : closing) : Prop := {
  ci_order : rc_finished s ≤ rc_completed s ≤ rc_taken s ∧ rc_taken s ≤ S (rc_finished s);
  ci_taken : rc_taken s ≤ length (accepted_hooks (rc_world s));
  ci_told : told (rc_world s) (rc_completed s);
  ci_invoked : notices (rc_invoked s) = notices (take (rc_taken s) (accepted_hooks (rc_world s)))
}.

(** A larger world with the same notices so far. *)
Lemma inv_world s w' l : closing_inv s → told w' (rc_completed s) →
  accepted_hooks w' = accepted_hooks (rc_world s) ++ l → closing_inv (in_world s w').
Proof.
  intros [A B C D] Ht Hl. split; cbn [in_world rc_world rc_finished rc_completed rc_taken rc_invoked]; try done.
  - rewrite Hl, length_app. lia.
  - by rewrite Hl, take_app_le.
Qed.

Lemma told_carries w w' k : k ≤ length (accepted_hooks w) → carries w w' → told w k → told w' k.
Proof.
  intros Hk [A B (l & E & N)]. unfold told. rewrite A, E, take_app_le, notices_app, N, Nat.add_0_r by done.
  destruct (phase w) as [[[] []]|] eqn:Hp; try done; intros [C D]; (split; [done|]);
    (rewrite B; [done|]); by rewrite phase_closing, Hp.
Qed.

Lemma inv_carries s w' : closing_inv s → carries (rc_world s) w' → closing_inv (in_world s w').
Proof.
  intros Hi Hc. pose proof Hi as [A B C _]. destruct (ca_accepted _ _ Hc) as (l & E & _).
  apply (inv_world s w' l Hi); [|done]. by apply (told_carries (rc_world s)); [lia|..].
Qed.

Lemma inv_close s : closing_inv s → closing_inv (in_world s (comm_close (H := pool_host (rc_finished s)) (rc_world s)).1).
Proof.
  intros Hi. pose proof Hi as [A B C D]. set (w := rc_world s) in *. destruct (asks w) eqn:Ha.
  - destruct (close_asks (rc_finished s) w Ha) as [F G]. cbn zeta in F, G. set (w' := (comm_close w).1) in *.
    assert (N0 : notices (accepted_hooks w) = 0).
    { unfold told, asks in *. by destruct (phase w) as [[[] []]|]; try done; destruct C. }
    destruct G as [[P E]|(P & E & _)].
    + eapply (inv_world s w'); [exact Hi| |exact E]. unfold told. rewrite P, E, notices_app, N0. split; [done|].
      rewrite take_app_le by lia. pose proof (notices_take (rc_completed s) (accepted_hooks w)).
      assert (notices (take (rc_completed s) (accepted_hooks w)) = 0) as -> by lia.
      rewrite F. by rewrite (phase_pending _ _ _ P).
    + apply (inv_world s w' [] Hi); [|by rewrite app_nil_r]. unfold told. rewrite P, E, N0, F.
      by rewrite (phase_pending _ _ _ P).
  - destruct (close_goes_on (rc_finished s) w Ha) as [E G]. cbn zeta in E, G. set (w' := (comm_close w).1) in *.
    apply (inv_world s w' [] Hi); [|by rewrite app_nil_r].
    destruct G as [->|(P & W & G)]; [done|]. unfold told in *. rewrite P, W in C. destruct C as [C1 C2].
    symmetry in C2. apply negb_false_iff, Nat.eqb_eq in C2.
    rewrite E. destruct G as [G|[G F]]; [unfold phase; rewrite G; by split|]. rewrite G, P, F, C2. done.
Qed.

Lemma inv_take s h : closing_inv s → rc_taken s = rc_finished s →
  accepted_hooks (rc_world s) !! rc_taken s = Some h →
  closing_inv (mk_closing (rc_world s) (rc_invoked s ++ match comm (rc_world s) with Some _ => [h] | None => [] end)
                 (S (rc_taken s)) (rc_completed s) (rc_finished s)).
Proof.
  intros [A B C D] Ht Hh. pose proof (lookup_lt_Some _ _ _ Hh).
  split; cbn [rc_world rc_finished rc_completed rc_taken rc_invoked]; [lia|lia|done|].
  rewrite (take_S_r _ _ _ Hh), !notices_app, D. f_equal.
  destruct (comm (rc_world s)) eqn:Hc; [done|].
  (* a slot that is gone was told before, so this is another hook *)
  unfold told, phase in C. rewrite Hc in C. cbn in C. destruct C as [C1 C2].
  assert (rc_completed s = rc_taken s) as Hct by lia. rewrite Hct in C2.
  rewrite <- (take_drop_middle _ _ _ Hh), notices_app, C2 in C1.
  change (h :: drop (S (rc_taken s)) (accepted_hooks (rc_world s)))
    with ([h] ++ drop (S (rc_taken s)) (accepted_hooks (rc_world s))) in C1.
  rewrite notices_app in C1. cbn [notices List.filter length] in *. lia.
Qed.

Lemma inv_complete s h : closing_inv s → rc_completed s < rc_taken s →
  accepted_hooks (rc_world s) !! rc_completed s = Some h →
  closing_inv (mk_closing (match comm (rc_world s) with
                           | Some _ => completion_of (pool_host (rc_finished s)) h (rc_world s)
                           | None => rc_world s end)
                 (rc_invoked s) (rc_taken s) (S (rc_completed s)) (rc_finished s)).
Proof.
  intros Hi Ht Hh. pose proof Hi as [A B C D]. set (w := rc_world s) in *.
  assert (Later : ∀ k, told w k → told w (S k) ∨ notices (take (S k) (accepted_hooks w)) ≠ notices (take k (accepted_hooks w))).
  { intros k Hk. destruct (decide (notices (take (S k) (accepted_hooks w)) = notices (take k (accepted_hooks w)))) as [E|]; [|by right].
    left. unfold told in *. by rewrite E. }
  assert (Step : notices (take (S (rc_completed s)) (accepted_hooks w))
    = notices (take (rc_completed s) (accepted_hooks w)) + (if is_disconnect h then 1 else 0)).
  { rewrite (take_S_r _ _ _ Hh), notices_app. f_equal. unfold notices. cbn. by destruct (is_disconnect h). }
  assert (Keep : ∀ w' l, accepted_hooks w' = accepted_hooks w ++ l → told w' (S (rc_completed s)) →
    closing_inv (mk_closing w' (rc_invoked s) (rc_taken s) (S (rc_completed s)) (rc_finished s))).
  { intros w' l E T. split; cbn [rc_world rc_finished rc_completed rc_taken rc_invoked]; [lia|rewrite E, length_app; lia|done|].
    by rewrite E, take_app_le. }
  destruct (is_disconnect h) eqn:Hd.
  - (* its notice is in the accepted hooks, so the slot is still there *)
    pose proof (notices_take (S (rc_completed s)) (accepted_hooks w)) as Total.
    unfold told in C. destruct (phase w) as [[[] []]|] eqn:Hp; [destruct C; lia|destruct C as [N1 _]|destruct C; lia..].
    assert (completion_of (pool_host (rc_finished s)) h w = lower C_AWAITING_HOOK w) as ->.
    { unfold completion_of. unfold is_disconnect in Hd. apply bool_decide_eq_true in Hd. by rewrite Hd. }
    destruct (comm w) eqn:Hc; [|unfold phase in Hp; by rewrite Hc in Hp].
    assert (E : accepted_hooks (lower C_AWAITING_HOOK w) = accepted_hooks w)
      by (unfold lower, set_flags_w, accepted_hooks; by rewrite Hc).
    apply (Keep _ []); [by rewrite app_nil_r|].
    unfold told. rewrite (proj1 (phase_lower C_AWAITING_HOOK w eq_refl)), Hp, E. split; [done|].
    assert (notices (take (S (rc_completed s)) (accepted_hooks w)) = 1) as -> by lia.
    unfold flag, flags_of, lower, set_flags_w. rewrite Hc. cbn [with_comm comm set_flags flags]. by flag_simpl.
  - assert (T : told w (S (rc_completed s))) by (destruct (Later _ C) as [|N]; [done|lia]).
    destruct (comm w); [|by apply (Keep w []); [rewrite app_nil_r|]].
    pose proof (completion_carries (rc_finished s) h w Hd) as K. destruct (ca_accepted _ _ K) as (l & E & _).
    apply (Keep _ l E). by apply (told_carries w); [lia|..].
Qed.

Lemma step_inv s l s' : closing_inv s → closing_step s l = Some s' → closing_inv s'.
Proof.
  intros Hi E. destruct l as [| |data|n| |ctx call| | |]; cbn [closing_step] in E.
  - injection E as <-. by apply inv_close.
  - injection E as <-. unfold flush_all. cbn zeta.
    set (v := default _ _). assert (Hv : closing_inv (in_world s v)) by (apply inv_carries; [done|apply flush_carries]).
    destruct (_ && _); [apply (inv_close _ Hv)|done].
  - injection E as <-. apply inv_carries; [done|apply message_carries].
  - injection E as <-. apply inv_carries; [done|apply subneg_carries].
  - injection E as <-. apply inv_carries; [done|apply prompt_carries].
  - injection E as <-. destruct call; first [by apply inv_close | apply inv_carries; [done|by apply api_carries]].
  - destruct (Nat.eqb_spec (rc_taken s) (rc_finished s)) as [Ht|]; [|done].
    destruct (accepted_hooks (rc_world s) !! rc_taken s) as [h|] eqn:Hh; [|done].
    cbn [mbind option_bind] in E. injection E as <-. by apply inv_take.
  - destruct (Nat.ltb_spec (rc_completed s) (rc_taken s)) as [Ht|]; [|done].
    destruct (accepted_hooks (rc_world s) !! rc_completed s) as [h|] eqn:Hh; [|done].
    cbn [mbind option_bind] in E. injection E as <-. by apply inv_complete.
  - destruct (Nat.ltb_spec (rc_finished s) (rc_completed s)) as [Ht|]; [|done].
    injection E as <-. destruct Hi as [A B C D]. split; cbn; try done. lia.
Qed.

Lemma run_inv s s' : rtc close_run s s' → closing_inv s → closing_inv s'.
Proof.
  induction 1 as [s|s t s' St _ IH]; [done|]. intros Hi. apply IH. destruct St as [s l t Hl|s w' Hs].
  - by eapply step_inv.
  - by apply inv_carries, steady_carries.
Qed.

(** A connection no hook of which is under way. *)
Definition opened (w : world) : closing := mk_closing w [] 0 0 0.

Lemma opened_inv w : phase w = Some (false, false) → accepted_hooks w = [] → closing_inv (opened w).
Proof.
  intros Hp Ha. split; cbn [opened rc_world rc_finished rc_completed rc_taken rc_invoked]; [lia|lia| |by rewrite take_0].
  unfold told. by rewrite Hp, Ha.
Qed.

Lemma inv_told s : closing_inv s →
  notices (rc_invoked s) ≤ 1
  ∧ (comm (rc_world s) = None →
     notices (rc_invoked s) = 1 ∧ notices (take (rc_completed s) (accepted_hooks (rc_world s))) = 1).
Proof.
  intros [A B C D]. set (l := accepted_hooks (rc_world s)) in *.
  pose proof (notices_take (rc_taken s) l). unfold told in C. fold l in C. rewrite D. split.
  - destruct (phase (rc_world s)) as [[[] []]|]; destruct C; lia.
  - intros Hc. unfold phase in C. rewrite Hc in C. cbn in C. destruct C as [C1 C2]. split; [|done].
    assert (notices (take (rc_completed s) l) ≤ notices (take (rc_taken s) l)); [|lia].
    assert (take (rc_completed s) l = take (rc_completed s) (take (rc_taken s) l)) as ->
      by (rewrite take_take, Nat.min_l by lia; done).
    apply notices_take.
Qed.

(** C8: With hooks on workers a connection is told of its end once, and before it
    goes: however closes by the loop, by hooks and by timers, flushes, input,
    prompts and messages interleave with the worker's executions - whether the
    hook waits behind others or is refused and asked for again - the disconnect
    hook is called at most once, and when the slot is gone it has been called
    and its completion has run. *)
Theorem relaxed_disconnect_once w0 s :
  phase w0 = Some (false, false) → accepted_hooks w0 = [] → rtc close_run (opened w0) s →
  notices (rc_invoked s) ≤ 1
  ∧ (comm (rc_world s) = None →
     notices (rc_invoked s) = 1 ∧ notices (take (rc_completed s) (accepted_hooks (rc_world s))) = 1).
Proof. intros Hp Ha Hr. by apply inv_told, (run_inv _ _ Hr), opened_inv. Qed.

(** ** The slot goes *)

(** What the server does by itself. *)
Definition by_server (l : closing_label) : bool :=
  match l with RcFlush | RcTake | RcComplete | RcFinish => true | _ => false end.

(** A slot over a socket that takes its output. *)
Definition sendable (w : world) : Prop := ∃ c,
  plain_socket (H := base) w c ∧ willing (writes w) ∧ length (outbound c) ≤ length (writes w).

Lemma sendable_flags f w :
  (∀ z, C_WEBSOCKET_IS_READY (f z) = C_WEBSOCKET_IS_READY z
        ∧ has_flag (f z) C_TLS_ESTABLISHED = has_flag z C_TLS_ESTABLISHED) →
  sendable w → sendable (set_flags_w f w).
Proof.
  intros Hf (c & [Hc Hd Ho Ht Hw] & Hs & Hl). exists (set_flags c (f (flags c))).
  unfold set_flags_w. rewrite Hc. split; [|done]. split; try done.
  - unfold tls_pending in *. rewrite Hc in Ht. cbn [with_comm comm set_flags ssl flags]. by rewrite (proj2 (Hf _)).
  - cbn [set_flags flags]. by rewrite (proj1 (Hf _)).
Qed.

Lemma ready_flag_other f a : Z.land a M_WEBSOCKET_STATE = 0%Z →
  C_WEBSOCKET_IS_READY (set_flag f a) = C_WEBSOCKET_IS_READY f
  ∧ C_WEBSOCKET_IS_READY (clear_flag f a) = C_WEBSOCKET_IS_READY f.
Proof.
  intros E. unfold C_WEBSOCKET_IS_READY. by rewrite ws_state_set, ws_state_clear.
Qed.

(** A closing slot is no longer reported ready. *)
Lemma ready_closing finished w : flag w C_CLOSING = true →
  comm_invoke_transport_ready (H := pool_host finished) w = w.
Proof.
  unfold flag, flags_of, comm_invoke_transport_ready. destruct (comm w); [|done]. intros Hcl.
  by rewrite has_flag_lor, Hcl.
Qed.

(** On a closing slot a completion only changes flags. *)
Lemma completion_sendable finished h w : flag w C_CLOSING = true → sendable w →
  sendable (completion_of (pool_host finished) h w).
Proof.
  intros Hcl Hs. pose proof Hs as (c & [Hc _ _ _ _] & _).
  assert (Hdef : sendable (defer w)).
  { assert (sendable (raise C_DEFERRED_INBOUND w)) as (c' & [] & ?).
    { apply sendable_flags; [|done]. intros z. rewrite (proj1 (ready_flag_other z C_DEFERRED_INBOUND eq_refl)). by flag_simpl. }
    exists c'. by split. }
  unfold completion_of. destruct (hc_type h); try done.
  - unfold resume_input_after_connect_hook. rewrite Hc, Hcl. cbn zeta.
    rewrite ready_closing by done. unfold deref. by rewrite Hc.
  - apply sendable_flags; [|done]. intros z. rewrite (proj2 (ready_flag_other z C_AWAITING_HOOK eq_refl)). by flag_simpl.
  - unfold resume_input_after_inbound_hook. by rewrite Hc.
  - unfold resume_input_after_transport_ready_hook. by rewrite Hc, Hcl.
Qed.

(** It keeps the phase and hands no further hook over. *)
Lemma completion_closing finished h w : flag w C_CLOSING = true →
  phase (completion_of (pool_host finished) h w) = phase w
  ∧ accepted_hooks (completion_of (pool_host finished) h w) = accepted_hooks w.
Proof.
  intros Hcl. assert (Hdef : phase (defer w) = phase w ∧ accepted_hooks (defer w) = accepted_hooks w).
  { unfold defer, raise, set_flags_w, phase, accepted_hooks. destruct (comm w) eqn:E; cbn; rewrite ?E; by flag_simpl. }
  unfold completion_of. destruct (hc_type h); try done.
  - unfold resume_input_after_connect_hook. destruct (comm w) eqn:Hc; [|done]. rewrite Hcl. cbn zeta.
    rewrite ready_closing by done. unfold deref. by rewrite Hc.
  - split; [by apply phase_lower|]. unfold disconnect_hook_complete, lower, set_flags_w, accepted_hooks. by destruct (comm w).
  - unfold resume_input_after_inbound_hook. by destruct (comm w).
  - unfold resume_input_after_transport_ready_hook. destruct (comm w); [|done]. by rewrite Hcl.
Qed.

(** A closing slot the server works on: what holds on the way to its removal. *)
Record winding (s : closing) : Prop := {
  wi_inv : closing_inv s;
  wi_closing : flag (rc_world s) C_CLOSING = true;
  wi_sendable : sendable (rc_world s)
}.

Lemma run_labels_app s ls1 s1 ls2 : run_labels s ls1 = Some s1 → run_labels s (ls1 ++ ls2) = run_labels s1 ls2.
Proof.
  revert s. induction ls1 as [|l ls IH]; intros s; cbn [run_labels app]; [by intros [= ->]|].
  destruct (closing_step s l); [|done]. cbn [mbind option_bind]. apply IH.
Qed.

(** The worker moves on by one section. *)
Lemma worker_moves s : winding s → rc_finished s < length (accepted_hooks (rc_world s)) →
  ∃ l s', by_server l = true ∧ closing_step s l = Some s' ∧ winding s'
    ∧ phase (rc_world s') = phase (rc_world s) ∧ accepted_hooks (rc_world s') = accepted_hooks (rc_world s)
    ∧ rc_taken s' + rc_completed s' + rc_finished s' = S (rc_taken s + rc_completed s + rc_finished s).
Proof.
  intros [Hi Hcl Hs] Hf. pose proof Hi as [A B C D]. set (w := rc_world s) in *.
  assert (Keep : ∀ l s', by_server l = true → closing_step s l = Some s' → rc_world s' = w →
    rc_taken s' + rc_completed s' + rc_finished s' = S (rc_taken s + rc_completed s + rc_finished s) →
    ∃ l s', by_server l = true ∧ closing_step s l = Some s' ∧ winding s' ∧ phase (rc_world s') = phase w
      ∧ accepted_hooks (rc_world s') = accepted_hooks w
      ∧ rc_taken s' + rc_completed s' + rc_finished s' = S (rc_taken s + rc_completed s + rc_finished s)).
  { intros l s' Hl E Ew Hn. exists l, s'. rewrite Ew. split_and!; try done. split; [by eapply step_inv|by rewrite Ew..]. }
  destruct (decide (rc_taken s = rc_finished s)) as [Ht|Ht].
  - destruct (lookup_lt_is_Some_2 (accepted_hooks w) (rc_taken s)) as [h Hh]; [lia|].
    eapply (Keep RcTake); [done|..].
    + cbn [closing_step]. rewrite (proj2 (Nat.eqb_eq _ _) Ht). fold w. rewrite Hh. cbn [mbind option_bind]. reflexivity.
    + done.
    + cbn. lia.
  - destruct (decide (rc_completed s = rc_finished s)) as [Hp|Hp].
    + destruct (lookup_lt_is_Some_2 (accepted_hooks w) (rc_completed s)) as [h Hh]; [lia|].
      assert (E : closing_step s RcComplete = Some (mk_closing
        (match comm w with Some _ => completion_of (pool_host (rc_finished s)) h w | None => w end)
        (rc_invoked s) (rc_taken s) (S (rc_completed s)) (rc_finished s))).
      { cbn [closing_step]. rewrite (proj2 (Nat.ltb_lt _ _)) by lia. fold w. by rewrite Hh. }
      eexists RcComplete, _. split; [done|]. split; [exact E|]. cbn [rc_world rc_taken rc_completed rc_finished].
      pose proof Hs as (c & [Hc _ _ _ _] & _). rewrite Hc in *.
      assert (Ph : phase (completion_of (pool_host (rc_finished s)) h w) = phase w
        ∧ accepted_hooks (completion_of (pool_host (rc_finished s)) h w) = accepted_hooks w).
      { by apply completion_closing. }
      destruct Ph as [Ph Ac]. split_and!; [split|..]; cbn [rc_world]; [by eapply step_inv| | |done..|lia].
      * by rewrite phase_closing, Ph, <- phase_closing.
      * by apply completion_sendable.
    + eapply (Keep RcFinish); [done|..].
      * cbn [closing_step]. rewrite (proj2 (Nat.ltb_lt _ _)) by lia. reflexivity.
      * done.
      * cbn. lia.
Qed.

(** A worker left to itself deals with every accepted hook. *)
Lemma worker_drains s : winding s →
  ∃ ls s', forallb by_server ls = true ∧ run_labels s ls = Some s' ∧ winding s'
    ∧ phase (rc_world s') = phase (rc_world s) ∧ accepted_hooks (rc_world s') = accepted_hooks (rc_world s)
    ∧ rc_finished s' = length (accepted_hooks (rc_world s))
    ∧ length ls ≤ 3 * (length (accepted_hooks (rc_world s)) - rc_finished s).
Proof.
  intros Hw.
  assert (G : ∀ n s, winding s → 3 * length (accepted_hooks (rc_world s)) ≤ rc_taken s + rc_completed s + rc_finished s + n →
    ∃ ls s', forallb by_server ls = true ∧ run_labels s ls = Some s' ∧ winding s'
      ∧ phase (rc_world s') = phase (rc_world s) ∧ accepted_hooks (rc_world s') = accepted_hooks (rc_world s)
      ∧ rc_finished s' = length (accepted_hooks (rc_world s)) ∧ length ls ≤ n).
  { clear s Hw. induction n as [|n IH]; intros s Hw Hn; pose proof (wi_inv _ Hw) as [A B _ _].
    - exists [], s. split_and!; try done. lia.
    - destruct (decide (rc_finished s < length (accepted_hooks (rc_world s)))) as [Hf|Hf];
        [|exists [], s; split_and!; try done; cbn; lia].
      destruct (worker_moves s Hw Hf) as (l & s1 & Hl & E & Hw1 & P1 & A1 & N1).
      destruct (IH s1 Hw1) as (ls & s' & F & R & Hw' & P' & A' & N' & L'); [rewrite A1; lia|].
      exists (l :: ls), s'. cbn [forallb run_labels length]. rewrite Hl, E, F. cbn [mbind option_bind].
      split_and!; try done; [congruence..|lia]. }
  pose proof (wi_inv _ Hw) as [A B _ _].
  apply G; [done|]. lia.
Qed.

Lemma flush_loop_writes fuel chain pool ws out : willing ws → willing (dr_writes (flush_loop fuel chain pool ws out)).
Proof.
  revert chain pool ws out. induction fuel as [|n IH]; intros chain pool ws out Hw; [done|].
  destruct chain as [|obb rest]; [done|]. cbn [flush_loop]. cbn zeta.
  destruct (_ =? 0); [by apply IH|]. destruct ws as [|[k| |] ws']; [done|..]; inversion Hw; subst; try done.
  destruct (_ <? _); by apply IH.
Qed.

(** One flush sends what is queued; the socket stays willing. *)
Lemma flush_sendable finished w : sendable w →
  ∃ w' c', comm_flush (H := pool_host finished) 3 w = Some w' ∧ sendable w' ∧ comm w' = Some c'
    ∧ has_flag (flags c') C_BUFFERED_WRITE = false.
Proof.
  intros (c & Hp & Hw & Hl). destruct (ps_out _ _ Hp) as [_ Hok].
  destruct (flush_loop_willing (S (length (outbound c) + length (writes w))) (outbound c) (opool w)
              (writes w) (sent w) Hok Hw Hl ltac:(lia)) as (D1 & D2 & D3).
  pose proof (flush_loop_writes (S (length (outbound c) + length (writes w))) (outbound c) (opool w) (writes w) (sent w) Hw) as D4.
  assert (Hp' : plain_socket (H := pool_host finished) w c) by (by destruct Hp).
  rewrite (plain_enter (H := pool_host finished) 2 w c _ Hp' eq_refl D2).
  fold (drain (outbound c) (opool w) (writes w) (sent w)) in D1, D2, D3, D4.
  set (d := drain _ _ _ _) in *. rewrite D1. destruct Hp as [Hc Hd Ho Ht Hws].
  unfold tls_pending in Ht. rewrite Hc in Ht.
  set (v := emit _ EFlush). assert (Hv : comm v = Some (set_outbound c [])) by reflexivity.
  unfold flush_settle, deref. rewrite Hv. cbn [set_outbound wbio outbound].
  assert (get_socket_fd (H := pool_host finished) (wbio c) = true) as -> by exact Hd.
  cbn [negb]. cbn zeta.
  set (u := if flag v C_SOCKET_WRITABLE then _ else v).
  assert (Hu : ∃ f, comm u = Some (set_flags (set_outbound c []) f) ∧ writes u = dr_writes d
      ∧ C_WEBSOCKET_IS_READY f = false ∧ has_flag f C_TLS_ESTABLISHED = has_flag (flags c) C_TLS_ESTABLISHED).
  { unfold u. destruct (flag v C_SOCKET_WRITABLE).
    - eexists. unfold lower, set_flags_w. cbn [emit comm]. rewrite Hv. cbn [with_comm comm set_outbound flags].
      split_and!; [done|done| |by flag_simpl]. by rewrite (proj2 (ready_flag_other _ C_SOCKET_WRITABLE eq_refl)).
    - by exists (flags c). }
  destruct Hu as (f & Hu & Wu & Ru & Tu). clearbody u.
  assert (Fin : ∀ x, comm x = comm (lower C_BUFFERED_WRITE u) → writes x = writes u →
    sendable x ∧ ∃ c', comm x = Some c' ∧ has_flag (flags c') C_BUFFERED_WRITE = false).
  { intros x Ex Wx. unfold lower, set_flags_w in Ex. rewrite Hu in Ex. cbn [with_comm comm] in Ex.
    split; [|eexists; split; [exact Ex|]; cbn [set_flags flags]; by flag_simpl].
    eexists. split; [split|split].
    - exact Ex.
    - exact Hd.
    - split; [apply Nat.le_0_l|by constructor].
    - unfold tls_pending. rewrite Ex. cbn [set_flags set_outbound ssl flags]. flag_simpl. by rewrite Tu.
    - cbn [set_flags flags]. by rewrite (proj2 (ready_flag_other f C_BUFFERED_WRITE eq_refl)).
    - by rewrite Wx, Wu.
    - cbn. lia. }
  set (w' := if _ && _ then _ else _).
  destruct (Fin w') as [S1 (c' & C1 & B1)].
  - unfold w'. by repeat case_match.
  - assert (writes (lower C_BUFFERED_WRITE u) = writes u) as E
      by (unfold lower, set_flags_w; by destruct (comm u)).
    unfold w'. by repeat case_match.
  - eauto 6.
Qed.

(** A flush of a closing slot touches neither the close protocol nor the worker. *)
Definition while_closing (w w' : world) : Prop := flag w C_CLOSING = true → steady w w'.

#[local] Instance while_closing_preorder : PreOrder while_closing.
Proof.
  split; [done|]. intros u v w A B N. specialize (A N). etransitivity; [exact A|]. apply B.
  by rewrite phase_closing, (sy_phase _ _ A), <- phase_closing.
Qed.

Lemma flush_closing finished w w' : comm_flush (H := pool_host finished) 3 w = Some w' → while_closing w w'.
Proof.
  apply (flush_steps (H := pool_host finished) while_closing); [by intros v v' S _|].
  intros v Hc. by rewrite ready_closing.
Qed.

(** A close that asks for the hook leaves the socket alone. *)
Lemma close_sendable finished w : asks w = true → sendable w → sendable (comm_close (H := pool_host finished) w).1.
Proof.
  intros Ha Hs. pose proof Hs as (c & [Hc _ _ _ _] & _).
  assert (Up : ∀ a v, Z.land a M_WEBSOCKET_STATE = 0%Z → Z.land a C_TLS_ESTABLISHED = 0%Z → sendable v → sendable (raise a v)).
  { intros a v E1 E2 Hv. apply sendable_flags; [|done]. intros z.
    by rewrite (proj1 (ready_flag_other z a E1)), has_flag_set_other. }
  assert (Down : ∀ a v, Z.land a M_WEBSOCKET_STATE = 0%Z → Z.land a C_TLS_ESTABLISHED = 0%Z → sendable v → sendable (lower a v)).
  { intros a v E1 E2 Hv. apply sendable_flags; [|done]. intros z.
    by rewrite (proj2 (ready_flag_other z a E1)), has_flag_clear_other. }
  assert (Em : ∀ v e, sendable v → sendable (emit v e)) by (intros v e (x & [] & ?); exists x; by split).
  unfold asks, phase in Ha. rewrite Hc in Ha. cbn [mbind option_bind] in Ha.
  unfold comm_close, comm_close_impl. rewrite Hc, Ha. cbn zeta. unfold do_dispatch.
  cbn [dispatch pool_host hook_async slot_hook hc_type should_dispatch_async andb].
  set (w1 := raise C_AWAITING_HOOK _).
  assert (S1 : sendable w1) 
    by (apply Up; [reflexivity..|]; apply Em; apply Down; [reflexivity..|]; by apply Up).
  clearbody w1. assert (∃ c1, comm w1 = Some c1) as [c1 C1] by (destruct S1 as (x & [] & ?); eauto).
  set (r := enqueue_answer _ _ _ _). assert (Hr : r = DISPATCH_QUEUED ∨ r = DISPATCH_QUEUE_FULL)
    by (unfold r, enqueue_answer; cbn zeta; case_match; [by left|by right]).
  unfold deref. cbn [emit comm]. rewrite C1.
  destruct Hr as [-> | ->]; cbn [fst]; (apply Down; [reflexivity..|]); [|apply Up; [reflexivity..|]]; by apply Em, Em.
Qed.

(** The second half of a close of such a slot gives it up. *)
Lemma close_tail_sendable finished b w c : host_slot (Host := base) ≠ COMM_SLOT_CONSOLE → sendable w → comm w = Some c →
  has_flag (flags c) C_AWAITING_HOOK = false → has_flag (flags c) C_BUFFERED_WRITE = false →
  comm (close_tail (H := pool_host finished) b w).1 = None.
Proof.
  intros Hs (c' & [Hc _ _ _ Hw] & _) Hc' Ha Hb. simplify_eq.
  assert (Hr : (close_tail (H := pool_host finished) b w).2 = true).
  { unfold close_tail. rewrite Hc. cbn zeta. rewrite Ha, Hb, Hw. cbn [andb].
    change (host_slot (Host := pool_host finished)) with (host_slot (Host := base)).
    by rewrite (proj2 (Z.eqb_neq _ _) Hs). }
  destruct (close_tail_spec (H := pool_host finished) b w c' Hc) as (_ & B & _). by rewrite Hr in B.
Qed.

(** A pass over a slot whose hooks are all dealt with hands the disconnect hook
    over, or gives the slot up. *)
Lemma flush_passes s : winding s → rc_finished s = length (accepted_hooks (rc_world s)) →
  host_slot (Host := base) ≠ COMM_SLOT_CONSOLE →
  ∃ s', closing_step s RcFlush = Some s' ∧
    (comm (rc_world s') = None
     ∨ phase (rc_world s) = Some (true, true) ∧ winding s' ∧ phase (rc_world s') = Some (true, false)
       ∧ rc_finished s' = rc_finished s
       ∧ length (accepted_hooks (rc_world s')) = S (length (accepted_hooks (rc_world s)))).
Proof.
  intros [Hi Hcl Hs] Hf Hn. eexists. split; [reflexivity|]. pose proof (step_inv s RcFlush _ Hi eq_refl) as Hi'.
  revert Hi'. cbn [in_world rc_world rc_finished]. unfold flush_all. set (fin := rc_finished s) in *.
  destruct (flush_sendable fin (rc_world s) Hs) as (v & c & E & Sv & Cv & Bv).
  pose proof (flush_closing fin (rc_world s) v E Hcl) as [P1 _ A1 W1]. specialize (W1 Hcl).
  rewrite E. cbn [default from_option id]. cbn zeta.
  assert (Cl : flag v C_CLOSING = true) by (by rewrite phase_closing, P1, <- phase_closing).
  assert (Wv : flag v C_AWAITING_HOOK = false).
  { rewrite W1. destruct Hi as [O B T _]. assert (rc_completed s = length (accepted_hooks (rc_world s))) as Hc by lia.
    unfold told in T. rewrite Hc, take_ge in T by lia. rewrite phase_closing in Hcl.
    destruct (phase (rc_world s)) as [[[] []]|]; try done; destruct T as [T1 T2]; [done|]. by rewrite T2, T1. }
  rewrite Cl, Wv. cbn [andb negb]. destruct (asks v) eqn:Ha.
  - destruct (close_asks fin v Ha) as [F G]. cbn zeta in F, G. set (w' := (comm_close v).1) in *.
    destruct G as [[P Ac]|(_ & _ & Full)].
    2:{ unfold enqueue_answer in Full. by rewrite A1, <- Hf, Nat.sub_diag in Full. }
    intros Hi'. right. split.
    { rewrite <- P1. rewrite phase_closing in Cl. unfold asks in Ha. by destruct (phase v) as [[[] []]|]. }
    split_and!; try done; [split; [done|..]|].
    + cbn [in_world rc_world]. by rewrite phase_closing, P.
    + cbn [in_world rc_world]. by apply close_sendable.
    + rewrite Ac, length_app, A1. cbn. lia.
  - intros _. left. unfold comm_close, comm_close_impl. rewrite Cv.
    unfold asks, phase in Ha. rewrite Cv in Ha. cbn [mbind option_bind] in Ha. rewrite Ha.
    apply (close_tail_sendable fin true v c); try done. unfold flag, flags_of in Wv. by rewrite Cv in Wv.
Qed.

(** C9: A plain connection that is closing goes.  With the worker pool running, in
    every state the interleavings of loop, hooks and worker can reach, a closing
    slot other than the console, over a socket that takes its output, with no TLS
    handshake unfinished and no WebSocket open, is removed by the server alone:
    the worker deals with the hooks it has accepted and two passes of the loop
    suffice, however the close began.  (An open WebSocket waits for its peer.) *)
Theorem closing_slot_goes w0 s :
  phase w0 = Some (false, false) → accepted_hooks w0 = [] → rtc close_run (opened w0) s →
  flag (rc_world s) C_CLOSING = true → sendable (rc_world s) → host_slot (Host := base) ≠ COMM_SLOT_CONSOLE →
  ∃ ls s', forallb by_server ls = true ∧ run_labels s ls = Some s' ∧ comm (rc_world s') = None
    ∧ length ls ≤ 3 * (length (accepted_hooks (rc_world s)) - rc_finished s) + 5.
Proof.
  intros Hp Ha Hr Hcl Hs Hn. assert (Hw : winding s) by (split; [apply (run_inv _ _ Hr), opened_inv|..]; done).
  destruct (worker_drains s Hw) as (l1 & s1 & F1 & R1 & W1 & P1 & A1 & N1 & L1).
  destruct (flush_passes s1 W1 ltac:(congruence) Hn) as (s2 & E2 & [G2|(_ & W2 & P2 & N2 & A2)]).
  - exists (l1 ++ [RcFlush]), s2. rewrite forallb_app, F1, (run_labels_app _ _ _ _ R1), length_app.
    cbn [run_labels forallb by_server andb length]. rewrite E2. cbn [mbind option_bind]. split_and!; try done. lia.
  - destruct (worker_drains s2 W2) as (l3 & s3 & F3 & R3 & W3 & P3 & A3 & N3 & L3).
    destruct (flush_passes s3 W3 ltac:(congruence) Hn) as (s4 & E4 & [G4|(B4 & _)]); [|congruence].
    exists (l1 ++ [RcFlush] ++ l3 ++ [RcFlush]), s4.
    rewrite !forallb_app, F1, F3, (run_labels_app _ _ _ _ R1), !length_app.
    cbn [app run_labels forallb by_server andb length]. rewrite E2. cbn [mbind option_bind].
    rewrite (run_labels_app _ _ _ _ R3). cbn [run_labels]. rewrite E4. cbn [mbind option_bind].
    rewrite A1 in A2. split_and!; try done. lia.
Qed.

End Relaxed.

(** ** Witnesses *)

Abbreviation idle_world := (input_world C_LINE_INPUT []).
Abbreviation run := (run_labels recording_host 4).

(** A hook of the connection closes it while it runs; the disconnect hook waits
    behind it, runs, and the slot goes. *)
Definition quit_labels : list closing_label :=
  [RcMessage [113]%Z; RcTake; RcApi {| current_slot := 5; current_hook := HOOK_MESSAGE_INBOUND |} ApiClose;
   RcFlush; RcComplete; RcFinish; RcFlush; RcTake; RcClose; RcComplete; RcFlush].

Lemma labels_run base backlog ls s s' :
  run_labels base backlog s ls = Some s' → rtc (close_run base backlog) s s'.
Proof.
  revert s. induction ls as [|l ls IH]; intros s; cbn [run_labels]; [by intros [= ->]|].
  destruct (closing_step base backlog s l) as [t|] eqn:E; [|done]. cbn [mbind option_bind]. intros R.
  eapply rtc_l; [by eapply cr_step|by apply IH].
Qed.

Lemma relaxed_disconnect_once_witness : ∃ s,
  run (opened idle_world) quit_labels = Some s ∧ comm (rc_world s) = None ∧ notices (rc_invoked s) = 1.
Proof.
  destruct (run (opened idle_world) quit_labels) as [s|] eqn:E; [|discriminate (eq_trans (eq_sym E) ltac:(vm_compute; reflexivity))].
  exists s. split; [done|].
  assert (Hc : comm (rc_world s) = None).
  { revert E. vm_compute. by intros [= <-]. }
  split; [exact Hc|].
  destruct (relaxed_disconnect_once recording_host 4 idle_world s eq_refl eq_refl (labels_run _ _ _ _ _ E)) as [_ T].
  exact (proj1 (T Hc)).
Defined.

(** A close by the loop while a hook with no backlog runs: the request is kept. *)
Definition kept_close : option closing :=
  run_labels recording_host 0 (opened idle_world) [RcMessage [113]%Z; RcTake; RcClose].

Lemma closing_slot_goes_witness : ∃ s ls s',
  kept_close = Some s ∧ phase (rc_world s) = Some (true, true) ∧ forallb by_server ls = true
  ∧ run_labels recording_host 0 s ls = Some s' ∧ comm (rc_world s') = None.
Proof.
  destruct kept_close as [s|] eqn:E; [|by vm_compute in E].
  assert (Hs : s = default (opened idle_world) kept_close) by (by rewrite E).
  destruct (closing_slot_goes recording_host 0 idle_world s eq_refl eq_refl (labels_run _ _ _ _ _ E)) as (ls & s' & A & B & C & _).
  - rewrite Hs. vm_compute. reflexivity.
  - rewrite Hs. eexists. split; [split|split].
    + vm_compute. reflexivity.
    + reflexivity.
    + split; [apply Nat.leb_le; reflexivity|constructor].
    + vm_compute. reflexivity.
    + vm_compute. reflexivity.
    + vm_compute. constructor.
    + vm_compute. lia.
  - discriminate.
  - exists s, ls, s'. split_and!; try done. rewrite Hs. vm_compute. reflexivity.
Defined.

(** ** Two orders that lose the last message *)

Definition disconnect_ctx : hook_ctx := {| current_slot := -1; current_hook := HOOK_DISCONNECT |}.

(** A server without an outbound hook. *)
Definition direct_host : Host := {|
  host_slot := 5;
  dispatch := fun _ w => (w, DISPATCH_OK);
  busy := fun _ => false;
  hook_async := fun _ => false;
  has_hook := fun t => negb (bool_decide (t = HOOK_MESSAGE_OUTBOUND));
  bio_has_fd := fun _ => true;
  file_inputs := false;
  tty_ok := true;
  host_write := fun _ => true;
  host_slots := {| alloc_ok := fun _ => true; unix_path := fun _ => None |}
|}.

(** The write side is shut down before the hook has run: a pass of the loop
    between the dispatch of the disconnect hook and its execution finds a closing
    slot with nothing queued and half-closes the socket; what the hook then
    writes is queued behind the shutdown. *)
Theorem half_close_precedes_hook : ∃ s1 s2,
  run_labels direct_host 4 (opened idle_world) [RcClose; RcFlush] = Some s1
  ∧ rc_invoked s1 = [] ∧ last (log (rc_world s1)) = Some EShutdownWrite
  ∧ run_labels direct_host 4 s1 [RcTake; RcApi disconnect_ctx (ApiAddMessage [98; 121; 101]%Z)] = Some s2
  ∧ map hc_type (rc_invoked s2) = [HOOK_DISCONNECT]
  ∧ (content ∘ outbound <$> comm (rc_world s2)) = Some [98; 121; 101]%Z.
Proof.
  eexists _, _. split; [vm_compute; reflexivity|]. split; [reflexivity|]. split; [reflexivity|].
  split; [vm_compute; reflexivity|]. by split.
Qed.

(** With an outbound hook the message itself becomes a hook behind the disconnect
    hook: once the latter has completed, the loop removes the slot, and the
    message's hook finds it gone. *)
Theorem final_message_hook_dropped : ∃ s,
  run (opened idle_world)
    [RcClose; RcTake; RcApi disconnect_ctx (ApiAddMessage [98; 121; 101]%Z); RcComplete; RcFinish; RcFlush; RcTake]
    = Some s
  ∧ map hc_type (accepted_hooks (rc_world s)) = [HOOK_DISCONNECT; HOOK_MESSAGE_OUTBOUND]
  ∧ map hc_type (rc_invoked s) = [HOOK_DISCONNECT] ∧ comm (rc_world s) = None ∧ sent (rc_world s) = [].
Proof. eexists. split; [vm_compute; reflexivity|]. split_and!; reflexivity. Qed.

Lemma counts_simulate_scheduler_witness :
  let t := {| se_id := 1; se_hook := HOOK_DISCONNECT; se_generation := 1 |} in
  let st := {| active := true; pending := []; await_requested := false; await_pending := false;
               await_generation := 0; await_work := None; await_resume := None |} in
  let w := emit idle_world (EAnswer (slot_hook (H := recording_host) HOOK_PROMPT) DISPATCH_QUEUED) in
  in_flight (finish_section st).2 0.
Proof.
  intros t st w.
  refine (proj2 (counts_simulate_scheduler 4 0 (slot_hook (H := recording_host) HOOK_DISCONNECT) w st t eq_refl _ _) _).
  - apply Nat.leb_le. reflexivity.
  - by split.
  - apply Nat.ltb_lt. reflexivity.
Defined.
