(* ===== verification/ChatStart.v ===== *)
(** * The chat server's start and end (examples/chatroom/main.cpp)

    [main] from the command line to its exit code, on the library state of
    [Lifecycle].  What argparse finds on the command line, whether files open and
    what the YAML of the configuration says are inputs. *)

From stdpp Require Import gmap.
From S2P Require Import Prelude TextUtil Hooks Execution ThreadPool EventReg InBuf OutBuf Abstract Tls.
From S2P Require Import Lifecycle Chatroom.

(** ** The command line *)

(** What argparse answers. *)
Record command_line := {
  cl_parsed : bool;                 (* [parse_args] did not throw *)
  cl_verbose : nat;                 (* how often -V was given *)
  cl_version : bool;
  cl_transport : list Z;            (* --transport *)
  cl_config : option (option (option config));  (* --config: given, opens, parses *)
  cl_input : option (list Z);       (* --input, when given *)
  cl_output : option (list Z)       (* --output, when given *)
}.

(** [spdlog::level::warn], lowered by each -V down to [trace]. *)
Fixpoint lower_level (n : nat) (level : Z) : Z :=
  match n with 0 => level | S m => lower_level m (if (0 <? level)%Z then (level - 1)%Z else level) end.
Definition log_level (cl : command_line) : Z := lower_level (cl_verbose cl) 3.

(** The configuration of [mudmux_init(nullptr)]. *)
Definition default_config : config :=
  {| cf_console := Val false; cf_accept := Absent; cf_pool := Absent; cf_keep_alive := Absent; cf_ssl := Absent |}.

Definition EXIT_SUCCESS : Z := 0.
Definition EXIT_FAILURE : Z := 1.

(** [process_command_line] exits the program or returns with the transport set. *)
Inductive started :=
  | Exit (code : Z) (s : server)
  | Started (t : Transport) (level : Z) (s : server).

(** The part from [mudmux_init] on; [config_yaml] is what it is called with, and
    [file_ok] whether [comm_abstract_add_file] opens both files. *)
Definition start_server (cl : command_line) (env : init_env) (file_ok : bool) (t : Transport)
    (config_yaml : option config) (s : server) : started :=
  let '(s, ok) := mudmux_init env config_yaml s in
  if negb ok then Exit EXIT_FAILURE s
  else if bool_decide (cl_input cl = None) && bool_decide (cl_output cl = None)
  then Started t (log_level cl) s
  else
    let s := mudmux_enable_console false s in
    let input_file := match cl_input cl with
                      | Some f => if f =s bytes_of_string "stdin" then None else Some f
                      | None => None
                      end in
    if negb file_ok then Exit EXIT_FAILURE s
    else
      let s := with_slots (listeners s) true s in
      let s := match input_file with None => mudmux_enable_standard_input true s | Some _ => s end in
      Started t (log_level cl) s.

Definition process_command_line (cl : command_line) (env : init_env) (file_ok : bool) (s : server) : started :=
  if negb (cl_parsed cl) then Exit EXIT_FAILURE s
  else if cl_version cl then Exit EXIT_SUCCESS s
  else match parse_transport (cl_transport cl) with
  | None => Exit EXIT_FAILURE s
  | Some t =>
      match cl_config cl with
      | Some None => Exit EXIT_FAILURE s
      | Some (Some config_yaml) => start_server cl env file_ok t config_yaml s
      | None => start_server cl env file_ok t (Some default_config) s
      end
  end.

(** ** [main] *)

(** The hooks in the order they are registered: hook type and callback. *)
Definition chat_hooks : list (Z * nat) :=
  [(1%Z, 1); (5%Z, 2); (3%Z, 3); (4%Z, 4); (2%Z, 5); (6%Z, 6); (9%Z, 7)].

Definition register_hooks (l : list (Z * nat)) (s : server) : server :=
  foldl (fun s '(t, f) => with_hooks (mudmux_register_hook (all_hooks s) t f).1 s) s l.

(** [sigint_handler]. *)
Definition sigint_handler (s : server) : server := mudmux_shutdown s.

(** [main]; [None]: the server still runs. *)
Definition main (cl : command_line) (env : init_env) (file_ok : bool) (renv : run_env) (s : server)
    : option (server * Z) :=
  match process_command_line cl env file_ok s with
  | Exit code s => Some (s, code)
  | Started t level s =>
      let s := register_hooks chat_hooks s in
      '(s, ok) ← mudmux_run renv s;
      Some (mudmux_deinit s, if ok : bool then EXIT_SUCCESS else EXIT_FAILURE)
  end.

(** ** Lemmas *)

Lemma lower_level_spec n level : (0 ≤ level)%Z → lower_level n level = Z.max 0 (level - Z.of_nat n).
Proof.
  revert level. induction n as [|n IH]; intros level H; cbn [lower_level]; [lia|].
  destruct (Z.ltb_spec 0 level); rewrite IH; lia.
Qed.

Lemma register_core l s : core_ok s → core_ok (register_hooks l s).
Proof.
  revert s. induction l as [|[t f] l IH]; intros s H; [done|]. apply IH. destruct H as [A B C D E].
  constructor; try done. cbn [with_hooks all_hooks]. unfold mudmux_register_hook.
  destruct (_ || _); [done|]. cbn [fst]. by rewrite length_insert.
Qed.

Lemma register_frame l s :
  run (register_hooks l s) = run s ∧ apis (register_hooks l s) = apis s
  ∧ runtime_live (register_hooks l s) = runtime_live s.
Proof.
  revert s. induction l as [|[t f] l IH]; intros s; [done|].
  apply (IH (with_hooks (mudmux_register_hook (all_hooks s) t f).1 s)).
Qed.

(** A run leaves the API tables alone. *)
Lemma setup_apis env s : apis (run_setup env s).1 = apis s.
Proof.
  assert (K : keeps (fun v => apis v = apis s) (run_setup env)); [|by apply K].
  unfold run_setup. repeat apply keeps_andthen; intros v H.
  - unfold init_runtime. by destruct (re_runtime env).
  - done.
  - unfold restore_workers, start_workers. destruct (_ =? 0); [|done]. by destruct (mudmux_workers_start _ _).
  - unfold init_input. destruct (_ || _); [done|]. by destruct (console_rbio v).
  - by destruct (accept_all_spec env (accept_names (transport v)) v) as (k & -> & _).
Qed.

Lemma quiet_apis t e b s : apis (shutdown_if b (notify t e s)) = apis s.
Proof.
  unfold shutdown_if, mudmux_shutdown, notify. destruct (_ =? 0), b; cbn; by repeat case_match.
Qed.

Lemma loop_apis turns s s' : event_loop turns s = Some s' → apis s' = apis s.
Proof.
  revert s. induction turns as [|t turns IH]; intros s; cbn; destruct (is_shutting_down (run s)); try by intros [= <-].
  destruct (negb (le_wait t)); [by intros [= <-]|]. intros E. by rewrite (IH _ E), quiet_apis.
Qed.

Lemma run_apis env s s' ok : mudmux_run env s = Some (s', ok) → apis s' = apis s.
Proof.
  unfold mudmux_run. destruct (is_running (run s)); [by intros [= <- _]|]. cbn zeta.
  match goal with |- context [run_setup env ?v] => set (s0 := v) end.
  pose proof (setup_apis env s0) as K. destruct (run_setup env s0) as [s1 []]; cbn [fst negb] in *.
  - destruct (event_loop _ _) as [s2|] eqn:E; [|done]. apply loop_apis in E. rewrite quiet_apis in E.
    cbn [mbind option_bind]. intros [= <- _]. cbn. destruct (is_shutting_down _); cbn; by rewrite quiet_apis, E, K.
  - by intros [= <- _].
Qed.

(** What the start of the server can come to. *)
Lemma start_result cl env file_ok t cfg s : life_ok s →
  match start_server cl env file_ok t cfg s with
  | Exit code s' => code = EXIT_FAILURE ∧ life_ok s' ∧ (torn_down s' ∨ file_ok = false ∧ initialised s')
  | Started t' level s' => t' = t ∧ life_ok s' ∧ initialised s'
  end.
Proof.
  intros Hl. unfold start_server. pose proof (init_result env cfg s Hl) as I. destruct Hl as [Hc Hi].
  pose proof (core_init env cfg s Hc) as Hc'. pose proof (idle_init env cfg s Hi) as Hi'.
  destruct (mudmux_init env cfg s) as [s1 []]; cbn [fst negb] in *; [|by split_and!; [done|constructor|left]].
  destruct I as [_ I]. destruct (_ && _); [by split_and!; [done|constructor|]|].
  destruct file_ok; cbn [negb].
  - destruct (match cl_input cl with Some _ => _ | None => _ end);
      (split_and!; [done|constructor; [|done]|done]); try apply core_transport; by apply core_slots, core_transport.
  - split_and!; [done|constructor; [by apply core_transport|done]|by right].
Qed.

Lemma command_line_result cl env file_ok s : life_ok s →
  match process_command_line cl env file_ok s with
  | Exit code s' => life_ok s'
      ∧ (s' = s ∨ code = EXIT_FAILURE ∧ (torn_down s' ∨ file_ok = false ∧ initialised s'))
  | Started t level s' => parse_transport (cl_transport cl) = Some t ∧ life_ok s' ∧ initialised s'
  end.
Proof.
  intros Hl. unfold process_command_line. destruct (cl_parsed cl); cbn [negb]; [|by split; [|left]].
  destruct (cl_version cl); [by split; [|left]|]. destruct (parse_transport _) as [t|]; [|by split; [|left]].
  assert (R : ∀ cfg, match start_server cl env file_ok t cfg s with
    | Exit code s' => life_ok s' ∧ (s' = s ∨ code = EXIT_FAILURE ∧ (torn_down s' ∨ file_ok = false ∧ initialised s'))
    | Started t0 level s' => Some t = Some t0 ∧ life_ok s' ∧ initialised s' end).
  { intros cfg. pose proof (start_result cl env file_ok t cfg s Hl) as R.
    destruct (start_server _ _ _ _ _ _); [destruct R as (-> & ? & ?); by split; [|right]|by destruct R as (-> & ? & ?)]. }
  destruct (cl_config cl) as [[cfg|]|]; [apply R|by split; [|left]|apply R].
Qed.

(** A server that was started has its hooks in place when it runs. *)
Lemma started_ready s : life_ok s → initialised s → life_ok (register_hooks chat_hooks s)
  ∧ apis (register_hooks chat_hooks s) = Some true
  ∧ Forall (fun '(t, f) => mudmux_get_registered_hook (all_hooks (register_hooks chat_hooks s)) t = f) chat_hooks.
Proof.
  intros [Hc Hi] I. destruct (register_frame chat_hooks s) as (F1 & F2 & F3). split_and!.
  - constructor; [by apply register_core|]. by rewrite F1, F3.
  - rewrite F2. apply I.
  - destruct Hc as [_ _ _ _ Hh]. unfold register_hooks, chat_hooks. cbn [foldl with_hooks all_hooks].
    destruct (all_hooks s) as [|h0 [|h1 [|h2 [|h3 [|h4 [|h5 [|h6 [|h7 [|h8 [|h9 l]]]]]]]]]]; try done.
    by repeat constructor.
Qed.

(** ** Theorems *)

(** The chat server leaves nothing behind: when [main] returns after a run,
    whatever the run did, the workers, events, hooks, accept names and TLS
    contexts of the library are gone; when it exits before, nothing was set up
    or the initialisation was undone, unless the input or output file does not
    open after it. *)
Theorem main_cleans_up cl env file_ok renv s s' code : life_ok s →
  main cl env file_ok renv s = Some (s', code) →
  life_ok s' ∧ (s' = s ∨ torn_down s' ∨ file_ok = false ∧ initialised s' ∧ code = EXIT_FAILURE).
Proof.
  intros Hl. unfold main. pose proof (command_line_result cl env file_ok s Hl) as R.
  destruct (process_command_line cl env file_ok s) as [c s1|t level s1].
  - intros [= <- <-]. destruct R as (R1 & [?|(? & [?|[? ?]])]); by auto 7.
  - cbn zeta. destruct R as (_ & R2 & R3). destruct (started_ready s1 R2 R3) as (L & A & _).
    destruct (mudmux_run renv (register_hooks chat_hooks s1)) as [[s2 ok]|] eqn:E; [|done].
    cbn [mbind option_bind]. intros [= <- _]. pose proof (run_life _ _ _ _ L E) as [C2 I2].
    apply run_apis in E. split; [constructor; [by apply core_deinit|by apply idle_deinit]|].
    right. left. apply deinit_torn_down; [done|done|]. by rewrite E, A.
Qed.

(** SIGINT ends the program: once it arrives while the server runs, [main]
    returns. *)
Theorem sigint_ends_main cl env file_ok renv s : life_ok s →
  re_start renv = true ∨ Exists (fun t => le_wait t = false ∨ le_shutdown t = true) (re_turns renv) →
  is_Some (main cl env file_ok renv s).
Proof.
  intros Hl Hx. unfold main. pose proof (command_line_result cl env file_ok s Hl) as R.
  destruct (process_command_line cl env file_ok s) as [c s1|t level s1]; [done|].
  destruct R as (_ & R2 & R3). destruct (started_ready s1 R2 R3) as (L & _ & _). cbn zeta.
  destruct (shutdown_ends_run renv _ L Hx) as [[s2 ok] ->]. done.
Qed.

(** Before the run it is ignored: the program goes on as if it had not come. *)
Theorem early_sigint_ignored s : life_ok s → sigint_handler s = s.
Proof. intros [_ (H & _)]. unfold sigint_handler, mudmux_shutdown. by rewrite H. Qed.

(** Verbosity stops at [trace]. *)
Theorem log_level_range cl : log_level cl = Z.max 0 (3 - Z.of_nat (cl_verbose cl)).
Proof. by apply lower_level_spec. Qed.

(** The configuration [mudmux_init] gets. *)
Definition configured (cl : command_line) : option config :=
  match cl_config cl with Some (Some cfg) => cfg | _ => Some default_config end.

(** Without an [ssl] entry no context is made. *)
Definition no_context (s : server) : Prop := g_ssl_ctx (ssl_state s) = None.

Lemma no_context_config env c : cf_ssl c = Absent → keeps no_context (apply_config env c).
Proof.
  intros Hc. unfold apply_config. rewrite Hc. apply keeps_andthen; [|by intros s H].
  repeat apply keeps_andthen; apply keeps_key.
  - by intros b s H.
  - intros names s H. by destruct (accept_names_only names s) as [l ->].
  - intros p s H. unfold apply_pool. by repeat case_match.
  - intros i s H. unfold apply_keep_alive. by case_match.
Qed.

Lemma no_context_init env c s : cf_ssl c = Absent → no_context s → (mudmux_init env (Some c) s).2 = true →
  no_context (mudmux_init env (Some c) s).1.
Proof.
  intros Hc Hs. unfold mudmux_init. destruct (is_running (run s)); [done|]. cbn zeta.
  match goal with |- context [(init_timer ?b >>? configure env (Some c)) ?v] => set (s0 := v) end.
  assert (K : keeps no_context (init_timer (ie_event env) >>? configure env (Some c))).
  { apply keeps_andthen; [intros v H; unfold init_timer; by destruct (_ && _)|]. intros v H. unfold configure. revert v H.
    apply (keeps_andthen no_context (apply_config env c >>? start_workers (ie_threads env))); [|by intros v H].
    apply keeps_andthen; [by apply no_context_config|]. by apply frame_start. }
  specialize (K s0 Hs). by destruct ((init_timer (ie_event env) >>? configure env (Some c)) s0) as [s1 []].
Qed.

(** A TLS transport without a certificate serves plain text: with a
    configuration that has no [ssl] entry - the default one among them - the
    server starts for the TLS transports too, and enabling TLS on a connection
    then changes nothing about it. *)
Theorem tls_transport_downgrades adopt cl env file_ok s c t level s' venv sl :
  no_context s → configured cl = Some c → cf_ssl c = Absent →
  process_command_line cl env file_ok s = Started t level s' →
  comm_enable_tls_for_slot adopt (bool_decide (is_Some (g_ssl_ctx (ssl_state s')))) venv sl = sl.
Proof.
  intros Hg Hc Ha E.
  assert (G : no_context s').
  { assert (R : start_server cl env file_ok t (Some c) s = Started t level s').
    { revert E. unfold process_command_line. unfold configured in Hc. destruct (negb _); [done|].
      destruct (cl_version cl); [done|]. destruct (parse_transport _) as [t'|]; [|done].
      assert (∀ cfg, start_server cl env file_ok t' cfg s = Started t level s' → t' = t) as Ht.
      { intros cfg. unfold start_server. by repeat case_match; intros; simplify_eq. }
      destruct (cl_config cl) as [[cfg|]|]; [|done|]; intros E; pose proof (Ht _ E); congruence. }
    revert R. unfold start_server. pose proof (no_context_init env c s Ha Hg) as N.
    destruct (mudmux_init env (Some c) s) as [s1 []]; [|done]. specialize (N eq_refl). cbn [fst negb] in *.
    by repeat case_match; intros; simplify_eq. }
  unfold no_context in G. rewrite G. by rewrite bool_decide_eq_false_2 by (by intros []).
Qed.

(** ** Witnesses *)

Definition plain_line : command_line :=
  {| cl_parsed := true; cl_verbose := 2; cl_version := false; cl_transport := bytes_of_string "tls-telnet";
     cl_config := None; cl_input := None; cl_output := None |}.

Definition file_line : command_line :=
  {| cl_parsed := true; cl_verbose := 0; cl_version := false; cl_transport := bytes_of_string "ws";
     cl_config := Some (Some (Some demo_config)); cl_input := Some (bytes_of_string "stdin"); cl_output := None |}.

Lemma main_cleans_up_witness : ∃ s', main file_line good_init true (demo_run accepts_all) fresh_server = Some (s', 0%Z)
  ∧ life_ok s' ∧ wk_running (wk s') = false.
Proof.
  destruct (main file_line good_init true (demo_run accepts_all) fresh_server) as [[s' code]|] eqn:E; [|by vm_compute in E].
  destruct (main_cleans_up file_line good_init true (demo_run accepts_all) fresh_server s' code fresh_ok E) as [L _].
  exists s'. revert E L. vm_compute. by intros [= <- <-] L.
Defined.

Lemma sigint_ends_main_witness : is_Some (main file_line good_init true (demo_run accepts_all) fresh_server).
Proof.
  apply (sigint_ends_main file_line good_init true (demo_run accepts_all) fresh_server fresh_ok).
  right. apply Exists_cons. right. apply Exists_cons. left. by right.
Defined.

Lemma tls_transport_downgrades_witness : ∃ t level s', 
  process_command_line plain_line good_init true fresh_server = Started t level s' ∧ t = TlsTelnet
  ∧ let sl := new_slot (mk_comm (Some 1) (Some 2) None [] [] [] None 1 0 no_capabilities) 1 2 in
    comm_enable_tls_for_slot (fun r w => [r; w]) (bool_decide (is_Some (g_ssl_ctx (ssl_state s'))))
      {| tv_ssl := Some 3; tv_up_write := true; tv_up_read := true |} sl = sl.
Proof.
  destruct (process_command_line plain_line good_init true fresh_server) as [|t level s'] eqn:E; [by vm_compute in E|].
  exists t, level, s'. split; [done|]. split; [revert E; vm_compute; by intros [= <- _ _]|].
  exact (tls_transport_downgrades (fun r w => [r; w]) plain_line good_init true fresh_server default_config t level s' _ _
    eq_refl eq_refl eq_refl E).
Defined.
