(* ===== verification/CommApi.v ===== *)
(** * The communication API (src/mudmux.cpp, lib/comm)

    The entries of [mudmux_comm_api_v1] on the slot table: the thread guard in
    front of each, the calls that are only valid in a connect hook, and formatted
    messages.  The entries that work on one connection's streams are [run_api] of
    [AppHost]; here they get their guard. *)

From stdpp Require Import gmap.
From S2P Require Import Prelude TextUtil Hooks Execution ThreadPool EventReg InBuf OutBuf Abstract Telnet Utf8 WsFrame.
From S2P Require Import HttpUpgrade WsConn World Outbound InputMode Inbound Tls Lifecycle AppHost ConsoleSetup WinInputMode.

(** ** Formatted messages (lib/comm/outbound.cpp) *)

(** What [vsnprintf] answers for a format and its arguments: the size it reports
    when it only measures, and the size and bytes of the rendering. *)
Record format_answer := { fa_measured : Z; fa_written : Z; fa_text : list Z }.

Definition comm_add_vformatted_message `{Host} (ctx : hook_ctx) (fmt : option format_answer) (w : world) : world :=
  match fmt with
  | None => w
  | Some a =>
      if (fa_measured a <? 0)%Z then w
      else if (fa_measured a =? 0)%Z then w
      else if negb (fa_written a =? fa_measured a)%Z then w
      else comm_add_message ctx (take (Z.to_nat (fa_written a)) (fa_text a)) w
  end.

Definition comm_add_formatted_message `{Host} (ctx : hook_ctx) (fmt : option format_answer) (w : world) : world :=
  comm_add_vformatted_message ctx fmt w.

(** Two renderings of the same arguments that agree. *)
Definition renders (a : format_answer) (text : list Z) : Prop :=
  fa_measured a = Z.of_nat (length text) ∧ fa_written a = fa_measured a ∧ fa_text a = text ++ [0%Z].

(** A formatted message is sent as [comm_add_message] sends its text - without the
    terminating NUL - or not at all. *)
Theorem formatted_whole_or_nothing `{Host} ctx fmt w :
  comm_add_formatted_message ctx fmt w = w
  ∨ ∃ a, fmt = Some a ∧ (0 < fa_measured a)%Z
      ∧ comm_add_formatted_message ctx fmt w = comm_add_message ctx (take (Z.to_nat (fa_measured a)) (fa_text a)) w.
Proof.
  destruct fmt as [a|]; [|by left]. unfold comm_add_formatted_message, comm_add_vformatted_message.
  destruct (Z.ltb_spec (fa_measured a) 0); [by left|]. destruct (Z.eqb_spec (fa_measured a) 0); [by left|].
  destruct (Z.eqb_spec (fa_written a) (fa_measured a)) as [->|]; cbn [negb]; [|by left].
  right. exists a. split_and!; [done|lia|done].
Qed.

Theorem formatted_sends_text `{Host} ctx a text w : renders a text →
  comm_add_formatted_message ctx (Some a) w = comm_add_message ctx text w.
Proof.
  intros (R1 & R2 & R3). unfold comm_add_formatted_message, comm_add_vformatted_message. rewrite R2, R1, R3.
  destruct (Z.ltb_spec (Z.of_nat (length text)) 0); [lia|].
  destruct (Z.eqb_spec (Z.of_nat (length text)) 0) as [E|E].
  - assert (length text = 0) as El by lia. destruct text; [|done]. done.
  - rewrite Z.eqb_refl. cbn [negb]. by rewrite Nat2Z.id, take_app_length.
Qed.

(** ** Calls for the slot of the current connect hook *)

Section Api.
Context `{Host}.
Context (adopt : nat → nat → list nat).

(** The library's state, the slot table, and what TLS sessions hold of BIOs. *)
Record api_state := mk_api {
  ap_server : server;
  ap_table : table;
  ap_bios : gset nat;
  ap_refs : refs;
  ap_adopted : gmap Z (list nat)
}.

Definition with_table (st : api_state) (t : table) : api_state :=
  mk_api (ap_server st) t (ap_bios st) (ap_refs st) (ap_adopted st).

(** A function of one connection on the slot table. *)
Definition on_slot (slot : Z) (f : conn → conn * bool) (t : table) : table * bool :=
  match resolve_slot t slot with
  | None => (t, false)
  | Some c =>
      let '(x, r) := f {| cn := c; cn_pool := out_pool t |} in
      let t := put_slot t slot (cn x) in
      ({| all_comms := all_comms t; max_comms := max_comms t; in_pool := in_pool t;
          out_pool := cn_pool x; Abstract.events := Abstract.events t |}, r)
  end.

(** A function of one slot's world that touches only its record. *)
Definition on_record (f : world → world) (x : conn) : conn :=
  match comm (f (mk_world (Some (cn x)) [] [] false [] [] [] [] [] false)) with
  | Some c => {| cn := c; cn_pool := cn_pool x |}
  | None => x
  end.

(** [comm_max_slot]. *)
Definition comm_max_slot (t : table) : Z := Z.of_nat (max_comms t).

(** [comm_current_hook_type() != HOOK_CONNECT || slot < 0] fails. *)
Definition in_connect_hook (ctx : hook_ctx) : bool :=
  bool_decide (current_hook ctx = HOOK_CONNECT) && negb (current_slot ctx <? 0)%Z.

Definition comm_enable_telnet (ctx : hook_ctx) (t : table) : table :=
  if in_connect_hook ctx
  then (on_slot (current_slot ctx) (fun x => (comm_enable_telnet_for_slot x, true)) t).1 else t.

Definition comm_enable_websocket (ctx : hook_ctx) (preferred_protocols : option (list Z)) (t : table) : table * bool :=
  if in_connect_hook ctx
  then on_slot (current_slot ctx) (fun x => comm_enable_websocket_for_slot x (default [] preferred_protocols)) t
  else (t, false).

Definition comm_enable_tls (ctx : hook_ctx) (env : tls_env) (st : api_state) : api_state :=
  if in_connect_hook ctx then
    match resolve_slot (ap_table st) (current_slot ctx) with
    | None => st
    | Some c =>
        let s := comm_enable_tls_for_slot adopt (bool_decide (is_Some (g_ssl_ctx (ssl_state (ap_server st))))) env
                   {| s_comm := c; s_refs := ap_refs st; s_adopted := default [] (ap_adopted st !! current_slot ctx) |} in
        mk_api (ap_server st) (put_slot (ap_table st) (current_slot ctx) (s_comm s)) (ap_bios st) (s_refs s)
          (<[current_slot ctx := s_adopted s]> (ap_adopted st))
    end
  else st.

(** ** The table of entries *)

Inductive comm_entry :=
  | EnMaxSlot | EnCurrentSlot
  | EnAddBio (rbio wbio : option nat) (slot fl : Z)
  | EnAddFile (bio_in bio_out : option nat) (slot fl : Z)
  | EnGetFlags (slot : Z)
  | EnSslInit (env : ssl_env) (certificate_path private_key_path : list Z)
  | EnSslDeinit
  | EnEnablePrompt (slot : Z) (enable : bool)
  | EnEnableTelnet
  | EnEnableWebsocket (preferred_protocols : option (list Z))
  | EnEnableVirtualTerminal (slot : Z)
  | EnEnableTls (env : tls_env).

Inductive api_value := VInt (z : Z) | VBool (b : bool) | VVoid.

(** What a refused call returns. *)
Definition fallback (e : comm_entry) : api_value :=
  match e with
  | EnAddBio _ _ _ _ | EnAddFile _ _ _ _ => VInt (-1)
  | EnGetFlags _ => VInt 0
  | EnSslInit _ _ _ | EnEnableWebsocket _ | EnEnableVirtualTerminal _ => VBool false
  | _ => VVoid
  end.

Definition slot_value (o : option Z) : api_value := VInt (default (-1)%Z o).

Definition perform (ctx : hook_ctx) (e : comm_entry) (st : api_state) : api_state * api_value :=
  let t := ap_table st in
  match e with
  | EnMaxSlot => (st, VInt (comm_max_slot t))
  | EnCurrentSlot => (st, VInt (current_slot ctx))
  | EnAddBio r w slot fl =>
      let '(t, o) := comm_abstract_add_bio t r w slot fl in (with_table st t, slot_value o)
  | EnAddFile i o slot fl =>
      let '(bios, t, z) := comm_abstract_add_file i o slot fl (ap_bios st) t in
      (mk_api (ap_server st) t bios (ap_refs st) (ap_adopted st), VInt z)
  | EnGetFlags slot => (st, VInt (comm_get_flags t slot))
  | EnSslInit env cert key =>
      let '(x, ok) := comm_ssl_init env cert key (ssl_state (ap_server st)) in
      (mk_api (with_ssl x (ap_server st)) t (ap_bios st) (ap_refs st) (ap_adopted st), VBool ok)
  | EnSslDeinit =>
      (mk_api (with_ssl (comm_ssl_deinit (ssl_state (ap_server st))) (ap_server st)) t (ap_bios st)
         (ap_refs st) (ap_adopted st), VVoid)
  | EnEnablePrompt slot enable =>
      (with_table st (on_slot slot (fun x => (on_record (comm_enable_prompt enable) x, true)) t).1, VVoid)
  | EnEnableTelnet => (with_table st (comm_enable_telnet ctx t), VVoid)
  | EnEnableWebsocket p => let '(t, ok) := comm_enable_websocket ctx p t in (with_table st t, VBool ok)
  | EnEnableVirtualTerminal slot =>
      let '(t, ok) := on_slot slot (fun x => (on_record (fun w => (comm_enable_virtual_terminal w).1) x, true)) t in
      (with_table st t, VBool ok)
  | EnEnableTls env => (comm_enable_tls ctx env st, VVoid)
  end.

(** An entry called on thread [this_thread]; two entries have no guard. *)
Definition comm_api (this_thread : nat) (is_worker : bool) (ctx : hook_ctx) (e : comm_entry) (st : api_state)
    : api_state * api_value :=
  match e with
  | EnMaxSlot | EnCurrentSlot => perform ctx e st
  | _ => guarded_call (ap_server st) this_thread is_worker (st, fallback e) (perform ctx e st)
  end.

(** The entries of one connection, and the formatted message. *)
Definition slot_api (s : server) (this_thread : nat) (is_worker : bool) (ctx : hook_ctx) (call : comm_call) (w : world) : world :=
  guarded_call s this_thread is_worker w (run_api _ ctx call w).

Definition comm_api_add_formatted_message (s : server) (this_thread : nat) (is_worker : bool) (ctx : hook_ctx)
    (fmt : option format_answer) (w : world) : world :=
  guarded_call s this_thread is_worker w (comm_add_vformatted_message ctx fmt w).

(** [mudmux_is_running]. *)
Definition mudmux_is_running (s : server) : bool := is_running (run s).

(** ** Theorems *)

(** While a server runs, the communication API belongs to its event loop and
    its workers: called from any other thread, every entry that reads or changes
    a slot, the TLS context or an output queue returns its refusal and changes
    nothing. *)
Theorem foreign_thread_refused s t this_thread :
  mud_logic_thread_id (run s) = Some t → this_thread ≠ t →
  (∀ ctx e st, ap_server st = s → e ≠ EnMaxSlot → e ≠ EnCurrentSlot →
    comm_api this_thread false ctx e st = (st, fallback e))
  ∧ (∀ ctx call w, slot_api s this_thread false ctx call w = w)
  ∧ (∀ ctx fmt w, comm_api_add_formatted_message s this_thread false ctx fmt w = w).
Proof.
  intros Hs Ht. assert (G : comm_api_thread_guard s this_thread false = false).
  { unfold comm_api_thread_guard. rewrite Hs, orb_false_r. by apply Nat.eqb_neq. }
  split_and!; intros; subst; [destruct e; try done|..]; cbn [comm_api]; unfold slot_api, comm_api_add_formatted_message, guarded_call; by rewrite G.
Qed.

(** On the loop, on a worker, and before a loop is bound, the guard is no more
    than the call. *)
Theorem owner_calls_through st this_thread is_worker ctx e :
  mud_logic_thread_id (run (ap_server st)) = None ∨ mud_logic_thread_id (run (ap_server st)) = Some this_thread
  ∨ is_worker = true →
  comm_api this_thread is_worker ctx e st = perform ctx e st.
Proof.
  intros Hx. assert (G : comm_api_thread_guard (ap_server st) this_thread is_worker = true).
  { unfold comm_api_thread_guard. destruct Hx as [-> | [-> | ->]]; [done|by rewrite Nat.eqb_refl|].
    destruct (mud_logic_thread_id _); [by rewrite orb_true_r|done]. }
  destruct e; cbn [comm_api]; unfold guarded_call; by rewrite ?G.
Qed.

Lemma table_slot_other slot f t other : table_ok t → other ≠ slot → resolve_slot (on_slot slot f t).1 other = resolve_slot t other.
Proof.
  intros Hok Hn. unfold on_slot. destruct (resolve_slot t slot) as [c|] eqn:R; [|done].
  destruct (f _) as [x r]. cbn [fst].
  assert (E : slot_ptr (put_slot t slot (cn x)) other = slot_ptr t other).
  { unfold resolve_slot in R. destruct (slot_ptr t slot) as [c0|] eqn:P; [|done].
    rewrite slot_ptr_put by (done || by rewrite P). by rewrite decide_False. }
  unfold resolve_slot, slot_ptr in *. cbn [all_comms max_comms] in *. by rewrite E.
Qed.

(** The calls that choose a connection's transport. *)
Definition chooses_transport (e : comm_entry) : bool :=
  match e with EnEnableTelnet | EnEnableWebsocket _ | EnEnableTls _ => true | _ => false end.

(** The transport of a connection is chosen in its own connect hook: outside one
    these calls change nothing and report failure, and inside they leave every
    other slot as it is. *)
Theorem transport_chosen_in_connect ctx e st : chooses_transport e = true →
  (in_connect_hook ctx = false → perform ctx e st = (st, fallback e))
  ∧ (table_ok (ap_table st) → ∀ other, other ≠ current_slot ctx →
     resolve_slot (ap_table (perform ctx e st).1) other = resolve_slot (ap_table st) other).
Proof.
  intros He. split.
  - intros Hx. destruct e; try done; cbn [perform fallback].
    + unfold comm_enable_telnet. rewrite Hx. by destruct st.
    + unfold comm_enable_websocket. rewrite Hx. by destruct st.
    + unfold comm_enable_tls. by rewrite Hx.
  - intros Hok other Hn. destruct e; try done; cbn [perform].
    + unfold comm_enable_telnet. destruct (in_connect_hook ctx); [|done]. by apply table_slot_other.
    + unfold comm_enable_websocket. destruct (in_connect_hook ctx); [|done].
      pose proof (table_slot_other (current_slot ctx)
        (fun x => comm_enable_websocket_for_slot x (default [] preferred_protocols)) (ap_table st) other Hok Hn) as E.
      by destruct (on_slot _ _ _).
    + unfold comm_enable_tls. destruct (in_connect_hook ctx); [|done].
      destruct (resolve_slot (ap_table st) (current_slot ctx)) as [c|] eqn:R; [|done]. cbn [fst ap_table].
      unfold resolve_slot in *. destruct (slot_ptr (ap_table st) (current_slot ctx)) as [c0|] eqn:P; [|done].
      rewrite slot_ptr_put by (done || by rewrite P). by rewrite decide_False.
Qed.
End Api.

(** ** Telnet or WebSocket *)

Section Exclusive.
Context `{Host}.

(** Choices of a transport for one connection, before any input. *)
Inductive choice := ChTelnet | ChWebsocket (protocols : list Z).

Definition choose (x : conn) (c : choice) : conn :=
  match c with
  | ChTelnet => comm_enable_telnet_for_slot x
  | ChWebsocket p => (comm_enable_websocket_for_slot x p).1
  end.

(** No upgrade has taken place, and not both were enabled. *)
Definition one_transport (f : Z) : Prop :=
  C_WEBSOCKET_IS_READY f = false ∧ has_flag f C_ENABLE_WEBSOCKET && has_flag f C_ENABLE_TELNET = false.

Lemma start_keeps x b : Z.land output_flags b = 0%Z →
  has_flag (flags (cn (start_telnet_negotiation x))) b = has_flag (flags (cn x)) b.
Proof.
  intros Hb. unfold start_telnet_negotiation. destruct (ssl (cn x)); [done|]. cbn zeta.
  unfold comm_telnet_send_will, comm_telnet_send_do, comm_telnet_send_wont. by rewrite !telnet_send_keeps.
Qed.

Lemma choose_one x c : one_transport (flags (cn x)) → one_transport (flags (cn (choose x c))).
Proof.
  unfold one_transport. change C_WEBSOCKET_IS_READY with (fun f => has_flag f M_WEBSOCKET_STATE). cbn beta.
  intros [R E]. destruct c as [|p]; cbn [choose].
  - unfold comm_enable_telnet_for_slot. change C_WEBSOCKET_IS_READY with (fun f => has_flag f M_WEBSOCKET_STATE).
    cbn beta zeta. rewrite R. cbn [negb]. rewrite andb_true_r.
    destruct (has_flag (flags (cn x)) C_ENABLE_WEBSOCKET) eqn:W; [split; [exact R|cbn iota; by rewrite W]|].
    destruct (has_flag (flags (cn x)) C_ENABLE_TELNET); [split; [exact R|cbn iota; by rewrite W]|].
    set (y := on_flags _ x).
    assert (Y : has_flag (flags (cn y)) M_WEBSOCKET_STATE = false ∧ has_flag (flags (cn y)) C_ENABLE_WEBSOCKET = false)
      by (unfold y; cbn [on_flags on_comm cn set_flags flags]; by rewrite !has_flag_set_other).
    destruct Y as [Y1 Y2]. destruct (_ =? _)%Z; [by rewrite Y1, Y2|]. by rewrite !start_keeps, Y1, Y2.
  - unfold comm_enable_websocket_for_slot. destruct (rbio (cn x)); [|done]. destruct (wbio (cn x)); [|done].
    destruct (has_flag (flags (cn x)) C_ENABLE_TELNET) eqn:T; [split; [exact R|cbn [fst]; by rewrite T]|].
    cbn zeta. cbn [fst on_flags on_comm cn set_flags flags set_websocket].
    split; [by rewrite has_flag_set_other|].
    rewrite (has_flag_set_other _ _ C_ENABLE_TELNET) by reflexivity. by rewrite T, andb_false_r.
Qed.

(** Before a connection's first input its transport is telnet or WebSocket, never
    both: whatever calls its connect hook makes, in whatever order, the first
    kind enabled wins. *)
Theorem one_transport_chosen x cs : one_transport (flags (cn x)) → one_transport (flags (cn (foldl choose x cs))).
Proof. revert x. induction cs as [|c cs IH]; intros x Hx; [done|]. apply IH, choose_one, Hx. Qed.
End Exclusive.

(** ** Witnesses *)

Definition running_server : server := on_run (set_logic_thread (Some 9)) (on_run (set_running true) demo_server).

Definition api_table : table :=
  {| all_comms := Some (mk_comm (Some 1) (Some 2) None [] [] [] None 1 0 no_capabilities
                        :: mk_comm (Some 3) (Some 4) None [] [] [] None 1 0 no_capabilities
                        :: replicate 62 zero_comm);
     max_comms := 64; in_pool := []; out_pool := []; Abstract.events := [] |}.

Definition api_demo : api_state := mk_api running_server api_table ∅ ∅ ∅.

Definition connect_ctx (slot : Z) : hook_ctx := {| current_slot := slot; current_hook := HOOK_CONNECT |}.

Abbreviation api_host := Inbound.recording_host.

Lemma foreign_thread_refused_witness :
  comm_api (H := api_host) (fun r w => [r; w]) 4 false (connect_ctx 0) EnEnableTelnet api_demo = (api_demo, VVoid).
Proof.
  refine (proj1 (foreign_thread_refused (H := api_host) (fun r w => [r; w]) running_server 9 4 eq_refl _)
    (connect_ctx 0) EnEnableTelnet api_demo eq_refl _ _); discriminate.
Defined.

Lemma owner_calls_through_witness :
  comm_api (H := api_host) (fun r w => [r; w]) 9 false (connect_ctx 0) (EnGetFlags 0) api_demo = (api_demo, VInt 0).
Proof.
  etransitivity; [apply (owner_calls_through (H := api_host)); by right; left|]. vm_compute. reflexivity.
Defined.

Lemma formatted_sends_text_witness :
  comm_add_formatted_message (H := api_host) (connect_ctx 5)
    (Some {| fa_measured := 2; fa_written := 2; fa_text := [104; 105; 0]%Z |}) (Inbound.input_world 0 [])
  = comm_add_message (H := api_host) (connect_ctx 5) [104; 105]%Z (Inbound.input_world 0 []).
Proof. apply (formatted_sends_text (H := api_host)). by split_and!. Defined.

(** Telnet enabled in a connect hook: its slot gets the flag, the other does not,
    and a WebSocket is refused afterwards. *)
Example telnet_enabled :
  let st := (perform (H := api_host) (fun r w => [r; w]) (connect_ctx 0) EnEnableTelnet api_demo).1 in
  has_flag (comm_get_flags (ap_table st) 0) C_ENABLE_TELNET = true
  ∧ comm_get_flags (ap_table st) 1 = 0%Z
  ∧ (perform (H := api_host) (fun r w => [r; w]) (connect_ctx 0) (EnEnableWebsocket None) st).2 = VBool false.
Proof. vm_compute. done. Qed.

Lemma transport_chosen_in_connect_witness :
  resolve_slot (ap_table (perform (H := api_host) (fun r w => [r; w]) (connect_ctx 0) EnEnableTelnet api_demo).1) 1
  = resolve_slot (ap_table api_demo) 1.
Proof.
  refine (proj2 (transport_chosen_in_connect (H := api_host) (fun r w => [r; w]) (connect_ctx 0) EnEnableTelnet api_demo eq_refl) _ 1%Z _).
  - split_and!; [reflexivity|apply Nat.leb_le; reflexivity|].
    repeat (constructor; [by constructor; try done; cbn; lia|]). constructor.
  - discriminate.
Defined.

Lemma one_transport_chosen_witness :
  one_transport (flags (cn (foldl (choose (H := api_host))
    {| cn := mk_comm (Some 1) (Some 2) None [] [] [] None 1 0 no_capabilities; cn_pool := [] |}
    [ChWebsocket []; ChTelnet; ChWebsocket [116]%Z]))).
Proof. apply (one_transport_chosen (H := api_host)). by split. Defined.
