(* ===== verification/Logger.v ===== *)
(** * Logging (src/hooks.cpp, src/mudmux.cpp)

    Which logger the library uses: the one spdlog has, one to the standard error
    stream, or the application's callback; and what the callback gets of a log
    record.  The loggers themselves are spdlog's. *)

From S2P Require Import Prelude TextUtil.

(** ** The logger in use *)

Inductive logger := OtherLogger (id : nat) | StderrLogger | CallbackLogger (callback context : nat).

(** [spdlog_initialized], and spdlog's default logger and level. *)
Record logging := { spdlog_initialized : bool; default_logger : option logger; level : Z }.

Definition mudmux_set_log_level (l : Z) (s : logging) : logging :=
  let logger := if spdlog_initialized s then default_logger s
                else match default_logger s with Some x => Some x | None => Some StderrLogger end in
  {| spdlog_initialized := true; default_logger := logger; level := l |}.

(** 0 is a null callback. *)
Definition mudmux_register_logger_callback (callback context : nat) (s : logging) : logging :=
  if callback =? 0 then s
  else {| spdlog_initialized := true; default_logger := Some (CallbackLogger callback context); level := level s |}.

Inductive log_call := LgSetLevel (l : Z) | LgRegister (callback context : nat).

Definition log_step (s : logging) (c : log_call) : logging :=
  match c with
  | LgSetLevel l => mudmux_set_log_level l s
  | LgRegister f x => mudmux_register_logger_callback f x s
  end.

(** ** What the callback gets *)

(** [strstr]: the rest of the string from the first occurrence on. *)
Fixpoint strstr (s pattern : list Z) : option (list Z) :=
  if bool_decide (pattern `prefix_of` s) then Some s
  else match s with [] => None | _ :: rest => strstr rest pattern end.

(** A log record: level, source file, line and function (null or a string), text. *)
Record log_record := {
  lr_level : Z; lr_filename : option (list Z); lr_line : Z; lr_funcname : option (list Z); lr_payload : list Z
}.

(** The arguments of the callback after its context. *)
Record callback_args := { ca_level : Z; ca_file : list Z; ca_line : Z; ca_func : list Z; ca_msg : list Z }.

Definition library_name : list Z := bytes_of_string "mudmux".

(** A C string ends at its first NUL. *)
Fixpoint c_str (s : list Z) : list Z :=
  match s with [] => [] | b :: rest => if (b =? 0)%Z then [] else b :: c_str rest end.

Definition callback_sink (r : log_record) : callback_args :=
  {| ca_level := lr_level r;
     ca_file := match lr_filename r with Some f => default [] (strstr f library_name) | None => [] end;
     ca_line := lr_line r;
     ca_func := default [] (lr_funcname r);
     ca_msg := c_str (lr_payload r) |}.

(** ** Theorems *)

Lemma suffix_cons_cases {A} (v : list A) b s : v `suffix_of` b :: s → v = b :: s ∨ v `suffix_of` s.
Proof. destruct v as [|x v]; [right; apply suffix_nil|]. apply suffix_cons_inv. Qed.

Lemma strstr_spec s pattern :
  match strstr s pattern with
  | Some u => pattern `prefix_of` u ∧ u `suffix_of` s
      ∧ ∀ v, v `suffix_of` s → pattern `prefix_of` v → length v ≤ length u
  | None => ∀ v, v `suffix_of` s → ¬ pattern `prefix_of` v
  end.
Proof.
  induction s as [|b s IH]; cbn [strstr]; case_bool_decide as Hp.
  - split_and!; [done|done|]. intros v Hv _. by apply suffix_length.
  - intros v Hv. apply suffix_nil_inv in Hv as ->. done.
  - split_and!; [done|done|]. intros v Hv _. by apply suffix_length.
  - destruct (strstr s pattern) as [u|].
    + destruct IH as (A & B & C). split_and!; [done|by apply suffix_cons_r|].
      intros v [->|Hv]%suffix_cons_cases Hpv; [done|by apply C].
    + intros v [->|Hv]%suffix_cons_cases; [done|by apply IH].
Qed.

(** The callback's file is empty or the part of the source path from the first
    "mudmux" on. *)
Theorem callback_file_in_library r :
  ca_file (callback_sink r) = []
  ∨ library_name `prefix_of` ca_file (callback_sink r)
    ∧ ∃ f, lr_filename r = Some f ∧ ca_file (callback_sink r) `suffix_of` f.
Proof.
  unfold callback_sink. cbn [ca_file]. destruct (lr_filename r) as [f|]; [|by left].
  pose proof (strstr_spec f library_name) as S. destruct (strstr f library_name); [|by left].
  right. destruct S as (A & B & _). split; [done|]. by exists f.
Qed.

(** The last callback registered is the one that is called, whatever levels are
    set before and after; the last level set holds. *)
Definition last_callback (cs : list log_call) : option (nat * nat) :=
  last (omap (fun c => match c with LgRegister f x => if f =? 0 then None else Some (f, x) | _ => None end) cs).

Definition last_level (cs : list log_call) : option Z :=
  last (omap (fun c => match c with LgSetLevel l => Some l | _ => None end) cs).

Theorem logger_settings s cs :
  let s' := foldl log_step s cs in
  (match last_callback cs with
   | Some (f, x) => default_logger s' = Some (CallbackLogger f x)
   | None => default_logger s' = default_logger s ∨ default_logger s' = Some StderrLogger
   end)
  ∧ level s' = default (level s) (last_level cs).
Proof.
  induction cs as [|c cs IH] using rev_ind; cbn zeta in *; [by split; [left|]|].
  rewrite foldl_app. cbn [foldl]. set (t := foldl log_step s cs) in *. destruct IH as [A B].
  unfold last_callback, last_level in *. rewrite !omap_app. destruct c as [l|f x]; cbn [omap list_omap log_step].
  - rewrite app_nil_r, last_snoc. split; [|done]. unfold mudmux_set_log_level. cbn [default_logger].
    destruct (last _) as [[f x]|].
    + rewrite A. by destruct (spdlog_initialized t).
    + destruct (spdlog_initialized t); [done|]. destruct A as [->| ->]; [|by right].
      destruct (default_logger s); [by left|by right].
  - rewrite app_nil_r. unfold mudmux_register_logger_callback. destruct (f =? 0); [by rewrite app_nil_r|].
    by rewrite last_snoc.
Qed.

Example callback_sees_path :
  ca_file (callback_sink {| lr_level := 2; lr_filename := Some (bytes_of_string "/home/u/mudmux/src/mudmux.cpp");
    lr_line := 7; lr_funcname := None; lr_payload := [104; 105]%Z |}) = bytes_of_string "mudmux/src/mudmux.cpp".
Proof. vm_compute. reflexivity. Qed.
